(* ===== verification/_CoqProject ===== *)
-Q . S2P
Prelude.v
Threads.v
JsMap.v
JsString.v
Graph.v
JsNum.v
JsRound.v
JsSort.v
JsObject.v
JsDate.v
IsoOrder.v
DomainTypes.v
JsValue.v
Json.v
Schema.v
Domain.v
Retry.v
Transitions.v
Locks.v
Stores.v
Metrics.v
Handlers.v
Validator.v
Dag.v
Expressions.v
ExprGrammar.v
Constraints.v
Engine.v
EngineThreads.v
ExecInv.v
Execution.v
Registration.v
Concurrency.v
EngineProps.v
ConcurrencyProps.v
ParallelExecutor.v
EnterpriseJobs.v
Catalog.v
Simulator.v
Pool.v
Batch.v
RunThreads.v
BatchThreads.v
Cron.v
Schedule.v
DslLexer.v
DslParser.v
DslGrammar.v
DslPrint.v
DslCompiler.v
Saga.v
Guards.v
HttpInvoker.v
Export.v
JsonFiles.v
Analytics.v
Query.v
Sql.v
Replay.v
EventBus.v
Webhooks.v
Connectors.v
Config.v
Diagnostics.v
OpenApi.v
Governance.v
Provisioning.v
Api.v
ApiThreads.v
Container.v
Routes.v
Scripts.v
