(* ===== verification/Prelude.v ===== *)
(** * Verification of the jobflow engine

    The program (src/src/, TypeScript) registers job definitions, which are task
    graphs with constraints, creates runs of them, and executes the runs task by
    task with retries, locks, events and metrics.  Around this engine it has a
    workflow language, cron schedules, batches, sagas, an event bus with
    webhooks, connectors, analytics, queries, exports, checkpoints, templates and
    an HTTP service.  This development models those parts as executable
    definitions and proves the theorems that make them correct.

    ** How the program is put together

    [JobService.register] (services/job-service.ts) checks a definition with the
    schema, the handler registry and the validators, and saves it in the job
    store.  [WorkflowService.createRun] builds a pending workflow and a run from a
    stored definition.  [ExecutionService.executeRun] takes the run's locks,
    starts the workflow through the orchestrator's state machine and loops: the
    scheduler picks the next task, the task executor calls the simulator and asks
    the retry handler, the rule engine checks the constraints, and the
    orchestrator applies transitions, each of which saves the workflow and
    publishes an event that the metrics collector observes.  Definitions also
    come from the built-in catalogue and from the workflow language; runs are
    also created by the cron ticker and the batch coordinator.

    ** The files

    Foundations:
    - Prelude.v: outcomes ([Ok], [Throw], out of fuel), the state monad [M] of
      stateful code, its Hoare triples, tactics;
    - JsMap.v, JsString.v, JsNum.v, JsRound.v, JsDate.v, JsSort.v, JsObject.v,
      JsValue.v: what the code uses of JavaScript: ordered maps, strings as bytes,
      IEEE doubles with their conversions from and to strings and their exactness
      on the whole numbers below 2^53, the UTC calendar with ISO formatting and its
      inverse, stable sorting, the order in which an object shows its keys
      (integer-like keys first), values with property access and coercions;
    - IsoOrder.v: the order of ISO time stamps as strings is that of the times;
    - Json.v: the text of JSON values, printed and parsed;
    - Schema.v: the expressions of the schema library, its documented behaviour as
      the law of a class with an instance, and readers of parsed values;
    - Threads.v: calls as threads of atomic blocks separated by awaits, pools of
      them, their interleavings and a rule for proving about each block;
    - Graph.v: depth-first search with cycle detection, shared by the validator
      and the planner.

    The engine (state: [world] of Engine.v, one field per store, lock table,
    event list, metrics and per counter of clock readings, UUIDs and simulator
    calls):
    - DomainTypes.v, Domain.v: src/src/domain/;
    - Retry.v: domain/retry-policy.ts, workers/retry-handler.ts, the delays in
      doubles;
    - Transitions.v: validators/transition-validator.ts, engine/state-machine.ts,
      engine/transition-guard.ts;
    - Locks.v: engine/run-lock.ts;
    - Stores.v: storage/interfaces.ts as classes with laws, storage/memory/ and
      the SQL repositories as instances; the engine's theorems hold for every
      instance of the classes;
    - Metrics.v: metrics/;
    - Handlers.v: handlers/registry.ts, handlers/resolver.ts;
    - Validator.v: validators/job-definition-validator.ts;
    - Dag.v: engine/dag-planner.ts;
    - Expressions.v, ExprGrammar.v, Constraints.v: expressions/,
      validators/constraint-validator.ts, services/rule-engine.ts;
    - Engine.v: engine/orchestrator.ts, engine/run-context.ts,
      workers/scheduler.ts, workers/task-executor.ts, services/workflow-service.ts,
      services/execution-service.ts; ExecInv.v and Execution.v hold the
      invariants of the execution loop, Registration.v models
      services/job-service.ts, EngineProps.v states the properties.
    - EngineThreads.v: the same operations await by await; Concurrency.v holds
      the invariant of each block, ConcurrencyProps.v the properties of many
      executions at once;
    - ParallelExecutor.v: engine/parallel-executor.ts.

    Around the engine:
    - EnterpriseJobs.v, Catalog.v: definitions/ and services/catalog-service.ts;
    - Simulator.v: workers/simulator.ts, handlers/implementations/;
    - Config.v: config/, batch/loader.ts, plugins/, from the text of a file to the
      value the program uses;
    - Pool.v, Batch.v: workers/pool.ts, batch/coordinator.ts; BatchThreads.v: the
      batch workers as threads over the engine's own; RunThreads.v: what threads
      that create and execute runs share;
    - Cron.v, Schedule.v: utils/cron.ts, validators/schedule-validator.ts,
      services/schedule-service.ts, workers/cron-ticker.ts, utils/clock.ts;
    - DslLexer.v, DslParser.v: dsl/lexer.ts, dsl/ast.ts, dsl/parser.ts;
      DslGrammar.v and DslPrint.v hold the grammar, the printer and the theorems;
    - DslCompiler.v: dsl/optimizer.ts, dsl/compiler.ts, services/dsl-service.ts;
    - Saga.v: saga/, engine/compensation.ts;
    - Guards.v, HttpInvoker.v: middleware/rate-limit.ts,
      handlers/http/circuit-breaker.ts, handlers/http/invoker.ts;
    - EventBus.v, Webhooks.v: services/event-bus.ts; webhooks/,
      services/webhook-service.ts;
    - Connectors.v: connectors/, notifications/, integrations/;
    - Analytics.v, Diagnostics.v: analytics/, reporting/,
      services/analytics-service.ts; utils/logger.ts, health/, lib/object-diff.ts;
    - Export.v, Query.v, Sql.v: export/; utils/pagination.ts,
      query/; storage/sql/query-builder.ts;
    - Replay.v, JsonFiles.v: replay/, persistence/; storage/file/,
      lib/run-serializer.ts;
    - Governance.v: audit/, compliance/, services/tenant-service.ts;
    - Provisioning.v: templates/, import/, migrations/;
    - Api.v: security/, middleware/auth-hook.ts, api/server.ts and the routes of
      jobs, runs, compilation, templates and replay; ApiThreads.v: the handlers of
      these routes await by await;
    - OpenApi.v: openapi/, against the routes and the schema of the registration;
    - Container.v: container.ts, app.ts, index.ts: the state the service starts
      from, its start from a configuration file and the way of its events;
    - Routes.v: the services the application holds and its other routes: schedules,
      webhooks, administration, analytics, batches, searches and imports;
    - Scripts.v: scripts/.

    ** What the theorems show

    - Execution (EngineProps.v): a new run of a registered definition always ends
      completed, failed or blocked ([executeRun_outcome]); it completes when the
      handlers succeed ([executeRun_completes]); histories are legal, runs agree
      with their workflows, locks are restored and other runs untouched, from
      every state ([executeRun_safe]); registration, creation and execution
      compose ([register_create_execute]).  The bounds on attempts, the missing
      dead letters and events, and the behaviour on refused locks, violated
      constraints and a job registered again before its run is executed
      ([executeRun_redefined]) are theorems of their own.
    - Validation and planning: [register_correct] characterises what is accepted;
      [plan_levels], [plan_critical_path] and [buildGraph_acyclic] relate the
      planner to paths of the dependency graph.
    - Languages: the expression parser is equivalent to a grammar
      ([expression_parser_correct]); the workflow parser is equivalent to one
      too, with an exact account of the inputs on which it does not end
      ([parse_workflow_correct], [dsl_parse_ends]), and inverts a printer
      ([dsl_parse_print]); the optimizer permutes tasks into an order of their
      dependencies ([optimize_correct]), and compiling a sound source registers it
      ([compileAndRegister_correct]).
    - Data: every built-in definition is sound and runs to completion on a
      freshly seeded engine ([builtin_catalog_sound], [seeded_job_completes]).
    - Time: the search for the next cron match is minimal and complete within its
      horizon, schedules become due exactly at their matches
      ([nextCronRun_correct], [create_schedule_correct], [markTriggered_next]),
      and what the horizon breaks ([create_leap_day_rejected], [tick_stuck]).
    - Concurrent executions: executions of different runs, interleaved at every
      await, end as each would alone and do not disturb each other
      ([concurrent_executions]); however many calls of one run, at most one
      executes ([concurrent_exclusion]); without interruption the blocks are the
      sequential definitions ([uninterrupted_is_sequential]), so the theorems of
      EngineProps.v carry over.  The parallel executor, a step relation over its
      workers' blocks, always returns on a sound plan with one run per task and a
      positive limit, and attempts every task once ([executeLevel_attempts_once]).
    - Concurrent requests: requests of which at most one executes or replays the
      same run and none registers a job that is run meanwhile, and the executions
      they leave behind, interleaved at every await, are all answered, each with
      one of the answers it may get, never two with the same new run, and every
      run created or executed ends ([concurrent_requests]); without interruption a handler is
      that of Api.v ([run_route]).
    - The service: from the request that creates a run to the one that reads its
      result ([run_lifecycle]), who is let in ([api_gate]) and how registration
      is answered ([post_job_status]); a configuration file starts the service
      within the bounds of its schema or ends the process
      ([bootstrap_from_file]); the service as it starts, with its own
      simulator, completes a built-in job asked for first and with an input its
      handlers accept ([started_service]), without handing on
      any data ([builtin_job_moves_no_data]) or telling anybody
      ([run_notifies_nobody]).  Requests of one tenant leave what another has as
      it is ([tenant_isolation]), where the endpoints look at the tenant at all
      ([tenant_blind]); [webhook_registered] says which URLs are taken.
    - Its documents: every body the registration accepts is one the OpenAPI schema
      allows ([accepted_body_documented]), but not the reverse
      ([documented_not_accepted]); every documented route is registered
      ([documented_routes_registered]).
    - Files: JSON text reads back ([json_round_trip]), and so does the journal
      ([journal_reads_back]); a batch file with whole-number priorities becomes
      a batch that counts every item of the file, unless one that does not
      continue on error fails ([loaded_batch]); the job files of the repository are imported
      and its batch file started ([config_imported]).  What the scripts seed,
      execute and import is in their own processes ([seed_reaches_no_service],
      [worker_does_nothing], [import_reaches_no_service]).
    - Calls to the outside: [invoke_correct] for the circuit breaker of a handler
      under overlapping calls, [queryAccounts_correct] and its neighbours for the
      connectors.
    - Reports: [summarize_correct], [rollup_correct], [series_get_correct] and
      [diff_empty_iff].
    - Around it: [csv_round_trip], [search_correct], [build_correct] for exports,
      queries and SQL; [replay_settled] and [restore_correct] for replays and
      checkpoints; [publish_correct] and [emit_delivers] for events and webhooks;
      [audit_query_correct], [retention_correct], [instantiate_registers],
      [importDirectory_correct], [migrate_spec].
    - Concurrency elsewhere: batch workers interleave at every await, as events
      ([batch_result], [batch_terminates]) that the threads over the engine's own
      operations refine, every run they create ending ([batch_threads_refine]); run locks under interleaving
      ([lock_excludes]); the worker pool refines a set of FIFO lanes
      ([pool_implements_lanes]).
    - Sagas: with distinct step ids the completed steps that can be compensated
      are, once and in reverse order, and nothing else is called
      ([start_saga_correct]; [repeated_step_id] shows what a repeated id does).
    - Guards and numbers: [breaker_refuses_iff], [rate_limit_window],
      [backoff_correct], [observe_counts], [prometheus_overcounts].

    ** Conventions, fuel and bounds

    An interface field that may be missing is an [option].  Integers of the domain
    are [Z]; numbers of the expression language, of JSON and the retry delays are IEEE doubles.
    A finite [Math.pow], which ECMAScript leaves to the implementation, is correctly
    rounded.  Strings are
    bytes, so character classes are those of ASCII.  Loops that are not
    structural take fuel, and theorems show which fuel is enough: the attempts
    of all tasks for [executeRun] ([enough_fuel]), the number of nodes for the
    graph searches, the number of tokens for the parsers, the 527,040 minutes of
    its own horizon for [nextCronRun].  The clock, UUIDs, simulator and handlers
    are arbitrary functions of the number of the call; freshness of UUIDs is a
    hypothesis where it matters ([uuids_distinct], [ids_unused]).

    ** What is not modelled, and the plan

    The world of Engine.v runs each call to its end; EngineThreads.v is where an
    await yields, and ApiThreads.v and BatchThreads.v are its clients.  The
    theorem on concurrent requests asks that no request registers a definition
    under the id of a job that is run meanwhile, since [executeRun] reads its
    definition again after its first awaits ([FixedJobs] of Concurrency.v names
    the ids concerned).  The endpoints of Routes.v are handled one at a time; the
    one that answers a batch takes the events of Batch.v, which its threads
    refine.  The web framework (router, parser of bodies and headers), the schema
    library, SHA-256 and HMAC, the URL parser, [fetch] and the file system are not
    the program's: they are parameters, with what the code relies on as laws of a
    class that has an instance.  Console output of the services beyond the logger
    itself and type-only modules are left out.  What could follow:
    interleavings in which a definition changes under an execution that has
    begun. *)

From stdpp Require Export base list strings gmap sorting pretty.
From Stdlib Require Export ZArith Lia.
From Stdlib Require Import QArith.

(** ** Outcomes and the state-passing monad *)

(** What a JavaScript call does: return, throw, or keep running past the fuel
    given to the model of a loop that is not structural. *)
Inductive outcome (E A : Type) : Type :=
| Ok (a : A)
| Throw (e : E)
| OutOfFuel.
Arguments Ok {E A} a.
Arguments Throw {E A} e.
Arguments OutOfFuel {E A}.

Global Instance outcome_ret {E} : MRet (outcome E) := λ A a, Ok a.
Global Instance outcome_bind {E} : MBind (outcome E) := λ A B f m,
  match m with
  | Ok a => f a
  | Throw e => Throw e
  | OutOfFuel => OutOfFuel
  end.

(** Stateful code: a throw keeps the state reached so far, as an exception in
    JavaScript keeps every assignment made before it. *)
Definition M (E S A : Type) : Type := S → outcome E A * S.

Global Instance M_ret {E S} : MRet (M E S) := λ A a s, (Ok a, s).
Global Instance M_bind {E S} : MBind (M E S) := λ A B f m s,
  match m s with
  | (Ok a, s') => f a s'
  | (Throw e, s') => (Throw e, s')
  | (OutOfFuel, s') => (OutOfFuel, s')
  end.

Section state_monad.
Context {E S : Type}.

Definition get_state : M E S S := λ s, (Ok s, s).
Definition modify (f : S → S) : M E S unit := λ s, (Ok tt, f s).
Definition gets {A} (f : S → A) : M E S A := λ s, (Ok (f s), s).
Definition throw {A} (e : E) : M E S A := λ s, (Throw e, s).
Definition diverge {A} : M E S A := λ s, (OutOfFuel, s).
Definition lift_outcome {A} (o : outcome E A) : M E S A := λ s, (o, s).

(** [try { m } finally { f }] where the finaliser does not throw. *)
Definition finally {A} (m : M E S A) (f : S → S) : M E S A := λ s,
  let '(r, s') := m s in (r, f s').
End state_monad.

(** A loop over a list that may throw: [for (const x of l) acc = f(x, acc)]. *)
Fixpoint ofold {E A B} (f : A → B → outcome E B) (l : list A) (acc : B) : outcome E B :=
  match l with
  | [] => Ok acc
  | x :: l' => acc' ← f x acc; ofold f l' acc'
  end.

(** ** A Hoare logic for the monad *)

(** [triple P m Q]: from a state in [P], [m] ends in an outcome and a state
    related by [Q].  The out-of-fuel outcome is passed to [Q] like any other, so
    that a postcondition can rule it out. *)
Section triples.
Context {E S : Type}.

Definition triple {A} (P : S → Prop) (m : M E S A) (Q : outcome E A → S → Prop) : Prop :=
  ∀ s, P s → Q (m s).1 (m s).2.

Lemma triple_bind {A B} (P : S → Prop) (m : M E S A) (f : A → M E S B)
    (R : outcome E A → S → Prop) (Q : outcome E B → S → Prop) :
  triple P m R →
  (∀ a, triple (R (Ok a)) (f a) Q) →
  (∀ e s, R (Throw e) s → Q (Throw e) s) →
  (∀ s, R OutOfFuel s → Q OutOfFuel s) →
  triple P (m ≫= f) Q.
Proof.
  intros Hm Hf Ht Ho s Hs. specialize (Hm s Hs).
  unfold mbind, M_bind. destruct (m s) as [[a|e|] s']; simpl in *; auto.
  by apply Hf.
Qed.

Lemma triple_weaken {A} (P P' : S → Prop) (m : M E S A) (Q Q' : outcome E A → S → Prop) :
  triple P' m Q' → (∀ s, P s → P' s) → (∀ r s, Q' r s → Q r s) → triple P m Q.
Proof. intros Hm HP HQ s Hs. apply HQ, Hm, HP, Hs. Qed.

Lemma triple_finally {A} (P : S → Prop) (m : M E S A) (f : S → S)
    (Q : outcome E A → S → Prop) :
  triple P m (λ r s, Q r (f s)) → triple P (finally m f) Q.
Proof.
  intros Hm s Hs. specialize (Hm s Hs). unfold finally.
  by destruct (m s) as [r s'].
Qed.
End triples.

(** ** Counting the elements of a list that pass a test *)

Lemma filter_length_le_impl {A} (p q : A → bool) l :
  (∀ x, x ∈ l → p x = true → q x = true) →
  (length (List.filter p l) ≤ length (List.filter q l))%nat.
Proof.
  intros H. induction l as [|x l IH]; simpl; [done|].
  assert (length (List.filter p l) ≤ length (List.filter q l))%nat by (apply IH; set_solver).
  destruct (p x) eqn:Hp; [rewrite (H x) by (set_solver || done); simpl; lia|].
  destruct (q x); simpl; lia.
Qed.

Lemma filter_length_lt_impl {A} (p q : A → bool) l x :
  (∀ x, x ∈ l → p x = true → q x = true) → x ∈ l → p x = false → q x = true →
  (length (List.filter p l) < length (List.filter q l))%nat.
Proof.
  intros H Hx Hp Hq. induction l as [|y l IH]; [set_solver|]. simpl.
  apply elem_of_cons in Hx as [<-|Hx].
  - rewrite Hp, Hq. simpl. apply Nat.lt_succ_r, filter_length_le_impl. set_solver.
  - assert (length (List.filter p l) < length (List.filter q l))%nat by (apply IH; set_solver).
    destruct (p y) eqn:Hpy; [rewrite (H y) by (set_solver || done); simpl; lia|].
    destruct (q y); simpl; lia.
Qed.

(** A filter that refuses everything, and one that keeps everything. *)
Lemma filter_nothing {A} (p : A → bool) l : (∀ a, a ∈ l → p a = false) → List.filter p l = [].
Proof.
  induction l as [|a l IH]; [done|]. intros Hp. cbn. rewrite (Hp a) by by left. apply IH. intros b Hb. apply Hp. by right.
Qed.

Lemma filter_all {A} (p : A → bool) l : (∀ a, a ∈ l → p a = true) → List.filter p l = l.
Proof.
  induction l as [|a l IH]; [done|]. intros Hp. cbn. rewrite (Hp a) by by left. f_equal. apply IH. intros b Hb. apply Hp. by right.
Qed.

(** Two elements of a list with distinct keys are equal when their keys are. *)
Lemma NoDup_fmap_inj_in {A B} (f : A → B) l x y :
  NoDup (f <$> l) → x ∈ l → y ∈ l → f x = f y → x = y.
Proof.
  induction l as [|z l IH]; [set_solver|]. rewrite fmap_cons, NoDup_cons, !elem_of_cons.
  intros [Hn Hnd] [->|Hx] [->|Hy] Heq; [done| | |by apply IH].
  - destruct Hn. rewrite Heq. by apply list_elem_of_fmap_2.
  - destruct Hn. rewrite <-Heq. by apply list_elem_of_fmap_2.
Qed.

(** ** Updates of a list at an index *)

Lemma lookup_insert_cases {A} (l : list A) k k' x y z :
  l !! k = Some z → <[k := x]> l !! k' = Some y → (k' = k ∧ y = x) ∨ (k' ≠ k ∧ l !! k' = Some y).
Proof.
  intros Hk Hy. destruct (decide (k' = k)) as [->|Hne].
  - left. rewrite list_lookup_insert_eq in Hy by (by eapply lookup_lt_Some). by injection Hy.
  - right. by rewrite list_lookup_insert_ne in Hy.
Qed.

Lemma lookup_insert_here {A} (l : list A) k x y : l !! k = Some y → <[k := x]> l !! k = Some x.
Proof. intros Hk. apply list_lookup_insert_eq. by eapply lookup_lt_Some. Qed.

Lemma sum_list_with_insert {A} (f : A → nat) l k x x' :
  l !! k = Some x → (sum_list_with f (<[k := x']> l) + f x = sum_list_with f l + f x')%nat.
Proof.
  revert k. induction l as [|y l IH]; intros [|k] Hk; [done..| |].
  - injection Hk as ->. simpl. lia.
  - simpl. specialize (IH k Hk). lia.
Qed.

Lemma sum_list_with_fmap {A B} (f : B → nat) (g : A → B) l : sum_list_with f (g <$> l) = sum_list_with (f ∘ g) l.
Proof. induction l as [|x l IH]; [done|]. simpl. f_equal. apply IH. Qed.

Lemma imap_insert {A B} (f : nat → A → B) l k x : imap f (<[k := x]> l) = <[k := f k x]> (imap f l).
Proof. revert f k. induction l as [|y l IH]; intros f [|k]; [done..|]. simpl. f_equal. apply (IH (f ∘ S)). Qed.

(** ** Proof automation *)

Create HintDb jobflow.

(** Invert a successful bind of outcomes. *)
Lemma outcome_bind_Ok {E A B} (m : outcome E A) (f : A → outcome E B) b :
  m ≫= f = Ok b → ∃ a, m = Ok a ∧ f a = Ok b.
Proof. destruct m; simpl; naive_solver. Qed.

Lemma M_bind_Ok {E S A B} (m : M E S A) (f : A → M E S B) s b s'' :
  (m ≫= f) s = (Ok b, s'') → ∃ a s', m s = (Ok a, s') ∧ f a s' = (Ok b, s'').
Proof. unfold mbind, M_bind. destruct (m s) as [[] ?]; naive_solver. Qed.

Lemma M_bind_eq_Ok {E S A B} (m : M E S A) (f : A → M E S B) s a s' :
  m s = (Ok a, s') → (m ≫= f) s = f a s'.
Proof. intros H. unfold mbind, M_bind. by rewrite H. Qed.

Lemma M_bind_eq_Throw {E S A B} (m : M E S A) (f : A → M E S B) s e s' :
  m s = (Throw e, s') → (m ≫= f) s = (Throw e, s').
Proof. intros H. unfold mbind, M_bind. by rewrite H. Qed.

Ltac inv_bind H :=
  match type of H with
  | (_ ≫= _) _ = (Ok _, _) =>
      let a := fresh "a" in let s := fresh "s" in let E := fresh "E" in
      apply M_bind_Ok in H as (a & s & E & H)
  | (_ ≫= _) = Ok _ =>
      let a := fresh "a" in let E := fresh "E" in
      apply outcome_bind_Ok in H as (a & E & H)
  end.

(** Split every [match] of the goal or the hypotheses that computes. *)
Ltac split_matches := repeat (case_match; simplify_eq/=; try done).
