(* ===== verification/Threads.v ===== *)
(** * Asynchronous code and its interleavings

    An [async] function runs in blocks: between two [await]s nothing else runs,
    at an [await] anything may.  A [thread] is the rest of such a function; a
    pool of threads takes a step when one of them runs its next block.  The
    section [reasoning] has a logic for one thread among others, which relies on
    what the others may change and guarantees what it changes itself, and counts
    the blocks it still has to run. *)

From S2P Require Import Prelude.
From stdpp Require Import relations.

Section threads.
Context {E S : Type}.

Inductive thread (A : Type) : Type :=
| Done (o : outcome E A)
| Await (t : thread A)
| Atomic (m : S → thread A * S).
Arguments Done {A} o.
Arguments Await {A} t.
Arguments Atomic {A} m.

(** Induction that reaches the continuations of a block. *)
Fixpoint thread_induction {A} (P : thread A → Prop) (HD : ∀ o, P (Done o))
    (HA : ∀ t, P t → P (Await t)) (HM : ∀ m, (∀ s, P (m s).1) → P (Atomic m)) (t : thread A) : P t :=
  match t with
  | Done o => HD o
  | Await t => HA t (thread_induction P HD HA HM t)
  | Atomic m => HM m (λ s, match m s as x return P x.1 with (t, _) => thread_induction P HD HA HM t end)
  end.

(** Code without [await]. *)
Definition atomic {A} (m : M E S A) : thread A :=
  Atomic (λ s, let '(o, s') := m s in (Done o, s')).

Global Instance thread_ret : MRet thread := λ A a, Done (Ok a).

Global Instance thread_bind : MBind thread := λ A B f,
  fix bind t :=
    match t with
    | Done (Ok a) => f a
    | Done (Throw e) => Done (Throw e)
    | Done OutOfFuel => Done OutOfFuel
    | Await t => Await (bind t)
    | Atomic m => Atomic (λ s, let '(t, s') := m s in (bind t, s'))
    end.

(** [await t]: the caller goes on in a later block, also when [t] throws. *)
Fixpoint awaiting {A} (t : thread A) : thread A :=
  match t with
  | Done o => Await (Done o)
  | Await t => Await (awaiting t)
  | Atomic m => Atomic (λ s, let '(t, s') := m s in (awaiting t, s'))
  end.

(** [try { t } finally { f }]. *)
Fixpoint finally_thread {A} (t : thread A) (f : S → S) : thread A :=
  match t with
  | Done o => Atomic (λ s, (Done o, f s))
  | Await t => Await (finally_thread t f)
  | Atomic m => Atomic (λ s, let '(t, s') := m s in (finally_thread t f, s'))
  end.

(** [try { t } catch (e) { f(e) }]. *)
Fixpoint catch_thread {A} (t : thread A) (f : E → thread A) : thread A :=
  match t with
  | Done (Throw e) => f e
  | Done o => Done o
  | Await t => Await (catch_thread t f)
  | Atomic m => Atomic (λ s, let '(t, s') := m s in (catch_thread t f, s'))
  end.

(** Run to the end without interruption. *)
Fixpoint run {A} (t : thread A) : M E S A := λ s,
  match t with
  | Done o => (o, s)
  | Await t => run t s
  | Atomic m => let '(t, s') := m s in run t s'
  end.

(** Run one block. *)
Fixpoint run_block {A} (t : thread A) (s : S) : thread A * S :=
  match t with
  | Done o => (Done o, s)
  | Await t => (t, s)
  | Atomic m => let '(t, s') := m s in run_block t s'
  end.

Definition is_done {A} (t : thread A) : bool := match t with Done _ => true | _ => false end.

(** ** Uninterrupted runs *)

Lemma run_atomic {A} (m : M E S A) s : run (atomic m) s = m s.
Proof. unfold atomic. simpl. by destruct (m s). Qed.

Lemma run_bind {A B} (t : thread A) (f : A → thread B) s :
  run (t ≫= f) s = (run t ≫= λ a, run (f a)) s.
Proof.
  revert s. induction t as [[a|e|]|t IH|m IH] using thread_induction; intros s; try done.
  - cbn. by rewrite <-IH.
  - unfold mbind, M_bind in *. cbn. specialize (IH s). destruct (m s) as [t s']. apply IH.
Qed.

Lemma run_awaiting {A} (t : thread A) s : run (awaiting t) s = run t s.
Proof.
  revert s. induction t as [o|t IH|m IH] using thread_induction; intros s; [done|apply IH|].
  cbn. specialize (IH s). destruct (m s) as [t s']. apply IH.
Qed.

Lemma run_finally {A} (t : thread A) (f : S → S) s :
  run (finally_thread t f) s = finally (run t) f s.
Proof.
  revert s. induction t as [o|t IH|m IH] using thread_induction; intros s; [done|apply IH|].
  unfold finally in *. cbn. specialize (IH s). destruct (m s) as [t s']. apply IH.
Qed.

Lemma run_catch {A} (t : thread A) (f : E → thread A) s :
  run (catch_thread t f) s = match run t s with (Throw e, s') => run (f e) s' | r => r end.
Proof.
  revert s. induction t as [[a|e|]|t IH|m IH] using thread_induction; intros s; try done; [apply IH|].
  cbn. specialize (IH s). destruct (m s) as [t s']. apply IH.
Qed.

(** The blocks of a thread, run one after the other, are its run. *)
Lemma run_run_block {A} (t : thread A) s : run (run_block t s).1 (run_block t s).2 = run t s.
Proof.
  revert s. induction t as [o|t IH|m IH] using thread_induction; intros s; [done|done|].
  cbn. specialize (IH s). destruct (m s) as [t s']. apply IH.
Qed.

(** ** Pools *)

Definition pool (A : Type) : Type := list (thread A) * S.

Inductive pool_step {A} : pool A → pool A → Prop :=
| pool_block ts i t s : ts !! i = Some t → is_done t = false →
    pool_step (ts, s) (<[i := (run_block t s).1]> ts, (run_block t s).2).

Lemma pool_step_length {A} (c c' : pool A) : pool_step c c' → length c'.1 = length c.1.
Proof. inversion 1; subst. simpl. apply length_insert. Qed.

(** A pool that cannot step has only finished threads. *)
Lemma pool_stuck {A} (ts : list (thread A)) s :
  nf pool_step (ts, s) → ∀ i t, ts !! i = Some t → ∃ o, t = Done o.
Proof.
  intros Hnf i t Ht. destruct (is_done t) eqn:Hd; [destruct t; [eauto|done..]|].
  destruct Hnf. eexists. by econstructor.
Qed.

Lemma pool_done {A} (ts : list (thread A)) s : Forall (λ t, is_done t = true) ts → nf pool_step (ts, s).
Proof.
  intros Hf [c Hs]. inversion Hs as [ts0 i t s0 Ht Hd]; subst. rewrite Forall_lookup in Hf.
  specialize (Hf i t Ht). congruence.
Qed.

(** Let the threads run in the order of a schedule; a finished one is skipped. *)
Fixpoint run_schedule {A} (sched : list nat) (c : pool A) : nat * pool A :=
  match sched with
  | [] => (O, c)
  | i :: sched =>
      match c.1 !! i with
      | Some t =>
          if is_done t then run_schedule sched c
          else let '(k, c') := run_schedule sched (<[i := (run_block t c.2).1]> c.1, (run_block t c.2).2) in
               (Datatypes.S k, c')
      | None => run_schedule sched c
      end
  end.

Lemma run_schedule_steps {A} sched (c : pool A) :
  nsteps pool_step (run_schedule sched c).1 c (run_schedule sched c).2.
Proof.
  revert c. induction sched as [|i sched IH]; intros [ts s]; cbn [run_schedule]; [constructor|].
  destruct (ts !! i) as [t|] eqn:Ht; cbn [fst]; rewrite Ht; [|apply IH].
  destruct (is_done t) eqn:Hd; [apply IH|]. cbn [snd].
  specialize (IH (<[i := (run_block t s).1]> ts, (run_block t s).2)).
  destruct (run_schedule sched _) as [k c']. econstructor; [|exact IH]. by constructor.
Qed.

(** ** One thread among others *)

Section reasoning.
Context {A : Type} (R G : S → S → Prop) (J : S → Prop).

(** From the state [s], whatever the others do within [R], the thread changes
    the state within [G], is suspended at most [n] times, each time in a state
    of [J], and ends in [Q]. *)
Fixpoint wp {B} (Q : outcome E B → S → Prop) (n : nat) (t : thread B) (s : S) : Prop :=
  match t with
  | Done o => Q o s
  | Await t => J s ∧ match n with O => False | Datatypes.S n => ∀ s', R s s' → wp Q n t s' end
  | Atomic m => G s (m s).2 ∧ (let '(t, s') := m s in wp Q n t s')
  end.

Lemma wp_mono {B} (Q Q' : outcome E B → S → Prop) n n' t s :
  (∀ o s, Q o s → Q' o s) → (n ≤ n')%nat → wp Q n t s → wp Q' n' t s.
Proof.
  intros HQ. revert n n' s. induction t as [o|t IH|m IH] using thread_induction; intros n n' s Hn; simpl; [auto| |].
  - destruct n as [|n]; [by intros []|]. destruct n' as [|n']; [lia|]. intros [HJ H]. split; [done|].
    intros s' Hs. apply (IH n); [lia|auto].
  - intros [HG Hw]. split; [done|]. specialize (IH s). destruct (m s) as [t s']. simpl in IH. eauto.
Qed.

Lemma wp_atomic {B} (Q : outcome E B → S → Prop) n (m : M E S B) s :
  G s (m s).2 → Q (m s).1 (m s).2 → wp Q n (atomic m) s.
Proof. unfold atomic. simpl. destruct (m s). done. Qed.

(** The rule of [bind]: what is left after a throw is the postcondition. *)
Definition then_wp {B C} (Q : outcome E C → S → Prop) (n : nat) (f : B → thread C)
    (o : outcome E B) (s : S) : Prop :=
  match o with
  | Ok a => wp Q n (f a) s
  | Throw e => Q (Throw e) s
  | OutOfFuel => Q OutOfFuel s
  end.

Lemma wp_bind {B C} (Q : outcome E C → S → Prop) n1 n2 (t : thread B) (f : B → thread C) s :
  wp (then_wp Q n2 f) n1 t s → wp Q (n1 + n2) (t ≫= f) s.
Proof.
  revert n1 s. induction t as [[a|e|]|t IH|m IH] using thread_induction; intros n1 s; simpl; try done.
  - intros H. eapply wp_mono; [..|exact H]; [done|lia].
  - destruct n1 as [|n1]; [by intros []|]. simpl. intros [HJ H]. split; [done|]. intros s' Hs. by apply IH, H.
  - specialize (IH s). destruct (m s) as [t s']. intros [HG Hw]. split; [done|]. by apply IH.
Qed.

Lemma wp_awaiting {B} (Q : outcome E B → S → Prop) n (t : thread B) s :
  wp (λ o s, J s ∧ ∀ s', R s s' → Q o s') n t s → wp Q (Datatypes.S n) (awaiting t) s.
Proof.
  revert n s. induction t as [o|t IH|m IH] using thread_induction; intros n s; simpl; [done| |].
  - destruct n as [|n]; [by intros []|]. intros [HJ H]. split; [done|]. intros s' Hs. by apply IH, H.
  - specialize (IH s). destruct (m s) as [t s']. intros [HG Hw]. split; [done|]. by apply IH.
Qed.

Lemma wp_finally {B} (Q : outcome E B → S → Prop) n (t : thread B) (f : S → S) s :
  wp (λ o s, G s (f s) ∧ Q o (f s)) n t s → wp Q n (finally_thread t f) s.
Proof.
  revert n s. induction t as [o|t IH|m IH] using thread_induction; intros n s; simpl; [done| |].
  - destruct n as [|n]; [by intros []|]. intros [HJ H]. split; [done|]. intros s' Hs. by apply IH, H.
  - specialize (IH s). destruct (m s) as [t s']. intros [HG Hw]. split; [done|]. by apply IH.
Qed.

(** One atomic operation, with or without an [await] behind it. *)
Lemma wp_step {B C} (Q : outcome E C → S → Prop) n (m : M E S B) (f : B → thread C) s a s' :
  m s = (Ok a, s') → G s s' → wp Q n (f a) s' → wp Q n (atomic m ≫= f) s.
Proof. intros Hm HG Hw. unfold atomic. simpl. by rewrite Hm. Qed.

Lemma wp_throw {B C} (Q : outcome E C → S → Prop) n (m : M E S B) (f : B → thread C) s e s' :
  m s = (Throw e, s') → G s s' → Q (Throw e) s' → wp Q n (atomic m ≫= f) s.
Proof. intros Hm HG Hw. unfold atomic. simpl. by rewrite Hm. Qed.

Lemma wp_await_step {B C} (Q : outcome E C → S → Prop) n (m : M E S B) (f : B → thread C) s a s' :
  m s = (Ok a, s') → G s s' → J s' → (∀ s'', R s' s'' → wp Q n (f a) s'') →
  wp Q (Datatypes.S n) (awaiting (atomic m) ≫= f) s.
Proof. intros Hm HG HJ Hw. unfold atomic. simpl. by rewrite Hm. Qed.

Lemma wp_await_bind {B C} (Q : outcome E C → S → Prop) n n1 n2 (t : thread B) (f : B → thread C) s :
  n = Datatypes.S (n1 + n2) →
  wp (λ o s', J s' ∧ ∀ s'', R s' s'' → then_wp Q n2 f o s'') n1 t s → wp Q n (awaiting t ≫= f) s.
Proof. intros -> Hw. apply (wp_bind Q (Datatypes.S n1) n2). by apply wp_awaiting. Qed.

Lemma wp_yield {B C} (Q : outcome E C → S → Prop) n (a : B) (f : B → thread C) s :
  J s → (∀ s', R s s' → wp Q n (f a) s') → wp Q (Datatypes.S n) (awaiting (mret a) ≫= f) s.
Proof. done. Qed.

(** A suspended thread: the others may act before its next block. *)
Definition parked {B} (Q : outcome E B → S → Prop) (n : nat) (t : thread B) (s : S) : Prop :=
  ∀ s', R s s' → wp Q n t s'.

Context `{!PreOrder R} `{!PreOrder G}.

Lemma parked_stable {B} (Q : outcome E B → S → Prop) n t s s' :
  parked Q n t s → R s s' → parked Q n t s'.
Proof. intros Hp Hs s'' Hs'. apply Hp. by etrans. Qed.

(** The blocks a thread has still to run. *)
Definition blocks {B} (n : nat) (t : thread B) : nat := if is_done t then O else Datatypes.S n.

Lemma wp_run_block {B} (Q : outcome E B → S → Prop) n t s :
  (∀ o s s', Q o s → R s s' → Q o s') → wp Q n t s → is_done t = false →
  ∃ n', G s (run_block t s).2 ∧ parked Q n' (run_block t s).1 (run_block t s).2
    ∧ (blocks n' (run_block t s).1 < blocks n t)%nat
    ∧ (is_done (run_block t s).1 = false → J (run_block t s).2).
Proof.
  intros HQ.
  assert (wp Q n t s → ∃ n', G s (run_block t s).2 ∧ parked Q n' (run_block t s).1 (run_block t s).2
    ∧ (blocks n' (run_block t s).1 ≤ n)%nat ∧ (is_done (run_block t s).1 = false → J (run_block t s).2)) as H.
  { revert n s. induction t as [o|t IH|m IH] using thread_induction; intros n s; simpl.
    - intros Ho. exists O. split; [reflexivity|]. split; [|unfold blocks; simpl; split; [lia|done]].
      intros s' Hs. simpl. eauto.
    - destruct n as [|n]; [by intros []|]. intros [HJ Hw]. exists n. split; [reflexivity|]. split; [exact Hw|].
      split; [|done]. unfold blocks. destruct (is_done t); lia.
    - specialize (IH s). destruct (m s) as [t s']. simpl in *. intros [HG Hw].
      destruct (IH n s' Hw) as (n' & HG' & Hp & Hn). exists n'. split; [by etrans|done]. }
  intros Hw Hd. destruct (H Hw) as (n' & HG & Hp & Hn & HJ). exists n'. split; [done|]. split; [done|].
  split; [|done]. unfold blocks at 2. rewrite Hd. lia.
Qed.
End reasoning.

(** What holds at the suspensions may be weakened. *)
Lemma wp_weaken {B} (R G : S → S → Prop) (J J' : S → Prop) (Q : outcome E B → S → Prop) n t s :
  (∀ s, J s → J' s) → wp R G J Q n t s → wp R G J' Q n t s.
Proof.
  intros HJ. revert n s. induction t as [o|t IH|m IH] using thread_induction; intros n s; simpl; [done|..].
  - destruct n as [|n]; [by intros []|]. intros [Hs Hw]. split; [by apply HJ|]. intros s' Hs'. by apply IH, Hw.
  - specialize (IH s). destruct (m s) as [t s']. intros [HG Hw]. split; [done|]. by apply IH.
Qed.

(** ** Pools of threads that do not disturb each other *)

Section pools.
Context {A I : Type} (R G : I → S → S → Prop) (J : I → S → Prop) `{!∀ i, PreOrder (R i)} `{!∀ i, PreOrder (G i)}.
Context (compatible : ∀ i j s s', i ≠ j → G i s s' → R j s s').
Context (Q : I → outcome E A → S → Prop).
Context (Q_stable : ∀ i o s s', Q i o s → R i s s' → Q i o s').

(** Every thread is parked, with a bound on the blocks it has left. *)
Record pool_ok (ids : list I) (ns : list nat) (c : pool A) : Prop := {
  po_ids : length ids = length c.1;
  po_bounds : length ns = length c.1;
  po_parked : ∀ k i n t, ids !! k = Some i → ns !! k = Some n → c.1 !! k = Some t →
    parked (R i) (G i) (J i) (Q i) n t c.2;
}.

Lemma pool_ok_lookup ids ns c k t :
  pool_ok ids ns c → c.1 !! k = Some t → ∃ i n, ids !! k = Some i ∧ ns !! k = Some n.
Proof.
  intros [Hi Hn _] Ht%lookup_lt_Some.
  destruct (lookup_lt_is_Some_2 ids k) as [i ?]; [lia|].
  destruct (lookup_lt_is_Some_2 ns k) as [n ?]; [lia|]. eauto.
Qed.

Definition blocks_left (ns : list nat) (ts : list (thread A)) : nat :=
  sum_list (zip_with blocks ns ts).

Local Arguments blocks : simpl never.

Lemma sum_zip_insert (ns : list nat) (ts : list (thread A)) i n t n' t' :
  ns !! i = Some n → ts !! i = Some t →
  (sum_list (zip_with blocks (<[i := n']> ns) (<[i := t']> ts)) + blocks n t
   = sum_list (zip_with blocks ns ts) + blocks n' t')%nat.
Proof.
  revert ts i. induction ns as [|x ns IH]; intros [|y ts] [|i] Hn Ht; simplify_eq/=; [lia|].
  specialize (IH ts i Hn Ht). lia.
Qed.

Lemma pool_ok_step ids ns c c' :
  NoDup ids → pool_ok ids ns c → pool_step c c' →
  ∃ ns', pool_ok ids ns' c' ∧ (blocks_left ns' c'.1 < blocks_left ns c.1)%nat.
Proof.
  intros Hnd Hok Hs. inversion Hs as [ts k t s Ht Hd]; subst.
  destruct (pool_ok_lookup _ _ _ _ _ Hok Ht) as (i & n & Hi & Hn). destruct Hok as [Hl1 Hl2 Hp]. simpl in *.
  destruct (wp_run_block (R i) (G i) (J i) (Q i) n t s) as (n' & HG & Hp' & Hlt & _);
    [by eauto|by eapply Hp|done|].
  exists (<[k := n']> ns). split.
  - split; simpl; rewrite ?length_insert; [done|done|]. intros j i' m u Hi' Hm Hu. simpl in Hu.
    destruct (decide (k = j)) as [<-|Hne].
    + rewrite list_lookup_insert_eq in Hm by (by eapply lookup_lt_Some).
      rewrite list_lookup_insert_eq in Hu by (by eapply lookup_lt_Some). simplify_eq. done.
    + rewrite list_lookup_insert_ne in Hm by done. rewrite list_lookup_insert_ne in Hu by done. eapply parked_stable; [apply _|by eapply Hp|].
      apply (compatible i); [|done]. intros ->. apply Hne. by eapply NoDup_lookup.
  - unfold blocks_left. simpl. pose proof (sum_zip_insert ns ts k n t n' (run_block t s).1 Hn Ht). lia.
Qed.

(** However the threads interleave, their steps are bounded and every thread
    that has ended satisfies its postcondition. *)
Lemma pool_ok_steps k ids ns c c' :
  NoDup ids → pool_ok ids ns c → nsteps pool_step k c c' →
  ∃ ns', pool_ok ids ns' c' ∧ (k + blocks_left ns' c'.1 ≤ blocks_left ns c.1)%nat.
Proof.
  intros Hnd Hok Hk. revert ns Hok. induction Hk as [c|k c c1 c' Hs Hk IH]; intros ns Hok.
  { exists ns. split; [done|lia]. }
  destruct (pool_ok_step ids ns c c1 Hnd Hok Hs) as (ns1 & Hok1 & Hlt).
  destruct (IH ns1 Hok1) as (ns' & Hok' & Hle). exists ns'. split; [done|lia].
Qed.

Lemma pool_ok_done ids ns ts s k i o :
  pool_ok ids ns (ts, s) → ids !! k = Some i → ts !! k = Some (Done o) → Q i o s.
Proof.
  intros Hok Hi Ht. destruct (pool_ok_lookup _ _ _ _ _ Hok Ht) as (i' & n & Hi' & Hn).
  apply (po_parked _ _ _ Hok k i n (Done o) Hi Hn Ht s). reflexivity.
Qed.
End pools.
End threads.

(** ** Threads on a part of the state *)

Section framed.
Context {E S T : Type}.

(** The thread [t] of the state [S] beside a state [T] it does not know. *)
Fixpoint framed {A} (t : @thread E S A) : @thread E (S * T) A :=
  match t with
  | Done _ o => Done _ o
  | Await _ t => Await _ (framed t)
  | Atomic _ m => Atomic _ (λ s, let '(t, s') := m s.1 in (framed t, (s', s.2)))
  end.

Lemma run_framed {A} (t : thread A) (s : S) (x : T) :
  run (framed t) (s, x) = let '(o, s') := run t s in (o, (s', x)).
Proof.
  revert s. induction t as [o|t IH|m IH] using thread_induction; intros s; [done|apply IH|].
  cbn. specialize (IH s). destruct (m s) as [t s']. apply IH.
Qed.

Lemma run_block_framed {A} (t : thread A) (s : S) (x : T) :
  run_block (framed t) (s, x) = (framed (run_block t s).1, ((run_block t s).2, x)).
Proof.
  revert s. induction t as [o|t IH|m IH] using thread_induction; intros s; [done|done|].
  cbn. specialize (IH s). destruct (m s) as [t s']. apply IH.
Qed.

(** Code around such a thread: a block of the thread is a block of the code,
    which goes on in the same block when the thread is done. *)
Lemma run_block_around {A B} (K : @thread E S A → @thread E (S * T) B) :
  (∀ t s x, run_block (K (Await _ t)) (s, x) = (K t, (s, x))) →
  (∀ m s x, run_block (K (Atomic _ m)) (s, x) = let '(t, s') := m s in run_block (K t) (s', x)) →
  ∀ t s x, run_block (K t) (s, x) = (K (run_block t s).1, ((run_block t s).2, x))
    ∨ (is_done (run_block t s).1 = true
       ∧ run_block (K t) (s, x) = run_block (K (run_block t s).1) ((run_block t s).2, x)).
Proof.
  intros HA HM t. induction t as [o|t IH|m IH] using thread_induction; intros s x; cbn [run_block fst snd].
  - by right.
  - left. apply HA.
  - rewrite HM. specialize (IH s). destruct (m s) as [t s']. apply IH.
Qed.

(** A block of a thread somebody waits for ends in the thread. *)
Lemma run_block_around_awaiting {A B} (K : @thread E S A → @thread E (S * T) B) :
  (∀ t s x, run_block (K (Await _ t)) (s, x) = (K t, (s, x))) →
  (∀ m s x, run_block (K (Atomic _ m)) (s, x) = let '(t, s') := m s in run_block (K t) (s', x)) →
  ∀ t s x, run_block (K (awaiting t)) (s, x) = (K (run_block (awaiting t) s).1, ((run_block (awaiting t) s).2, x)).
Proof.
  intros HA HM t. induction t as [o|t IH|m IH] using thread_induction; intros s x; cbn [awaiting run_block fst snd].
  - apply HA.
  - apply HA.
  - rewrite HM. specialize (IH s). destruct (m s) as [t s']. apply IH.
Qed.
End framed.

Arguments thread E S A : clear implicits.
Arguments pool E S A : clear implicits.
Arguments Done {E S A} o.
Arguments Await {E S A} t.
Arguments Atomic {E S A} m.
