(* ===== verification/JsMap.v ===== *)
(** * JavaScript [Map], [Set] and plain objects used as maps

    A [Map] iterates in insertion order: [set] on a present key keeps its
    place, [set] on an absent key appends.  The model is an association list
    with distinct keys; [to_gmap] is the abstraction under which [set], [get]
    and [delete] are the operations of a finite map. *)

From S2P Require Import Prelude.

Section jsmap.
Context {K V : Type} `{EqDecision K}.

Definition jsmap : Type := list (K * V).

Fixpoint map_get (m : jsmap) (k : K) : option V :=
  match m with
  | [] => None
  | (k', v) :: m' => if decide (k = k') then Some v else map_get m' k
  end.

Definition map_has (m : jsmap) (k : K) : bool := bool_decide (is_Some (map_get m k)).

Fixpoint map_set (m : jsmap) (k : K) (v : V) : jsmap :=
  match m with
  | [] => [(k, v)]
  | (k', v') :: m' =>
      if decide (k = k') then (k', v) :: m' else (k', v') :: map_set m' k v
  end.

Fixpoint map_delete (m : jsmap) (k : K) : jsmap :=
  match m with
  | [] => []
  | (k', v') :: m' => if decide (k = k') then m' else (k', v') :: map_delete m' k
  end.

Definition map_keys (m : jsmap) : list K := m.*1.
Definition map_values (m : jsmap) : list V := m.*2.

(** [new Map(entries)]: later entries overwrite earlier ones in place. *)
Definition map_of_entries (l : list (K * V)) : jsmap :=
  foldl (λ m '(k, v), map_set m k v) [] l.

(** The invariant of a map: its keys are distinct. *)
Definition map_ok (m : jsmap) : Prop := NoDup (map_keys m).

Lemma map_get_set_eq m k v : map_get (map_set m k v) k = Some v.
Proof. induction m as [|[k' v'] m IH]; simpl; repeat (case_decide; simpl; try done). Qed.

Lemma map_get_set_ne m k k' v : k ≠ k' → map_get (map_set m k v) k' = map_get m k'.
Proof.
  intros Hne. induction m as [|[k1 v1] m IH]; simpl.
  - by rewrite decide_False by done.
  - destruct (decide (k = k1)) as [->|]; simpl; by repeat case_decide.
Qed.

Lemma map_get_set m k k' v :
  map_get (map_set m k v) k' = if decide (k = k') then Some v else map_get m k'.
Proof. case_decide; subst; auto using map_get_set_eq, map_get_set_ne. Qed.

Lemma map_get_Some_in m k v : map_get m k = Some v → (k, v) ∈ m.
Proof.
  induction m as [|[k' v'] m IH]; simpl; [done|].
  rewrite elem_of_cons. case_decide; naive_solver.
Qed.

Lemma map_get_None m k : map_get m k = None ↔ k ∉ map_keys m.
Proof.
  unfold map_keys. induction m as [|[k' v'] m IH]; simpl; [set_solver|].
  case_decide; set_solver.
Qed.

Lemma map_get_is_Some m k : is_Some (map_get m k) ↔ k ∈ map_keys m.
Proof.
  rewrite <-not_eq_None_Some, map_get_None.
  destruct (decide (k ∈ map_keys m)); tauto.
Qed.

Lemma map_get_in m k v : map_ok m → (k, v) ∈ m → map_get m k = Some v.
Proof.
  unfold map_ok, map_keys. induction m as [|[k' v'] m IH]; simpl; [set_solver|].
  rewrite NoDup_cons, elem_of_cons. intros [Hn Hnd] [Heq|Hin]; simplify_eq.
  - by rewrite decide_True by done.
  - rewrite decide_False; [auto|]. intros ->. apply Hn.
    apply (list_elem_of_fmap_2 fst) in Hin. done.
Qed.

Lemma map_keys_set m k v :
  map_keys (map_set m k v) = if decide (k ∈ map_keys m) then map_keys m else map_keys m ++ [k].
Proof.
  induction m as [|[k' v'] m IH]; cbn -[decide]; [done|].
  destruct (decide (k = k')) as [->|Hne]; cbn -[decide].
  - rewrite decide_True; set_solver.
  - unfold map_keys in *. rewrite IH. repeat case_decide; set_solver.
Qed.

Lemma map_set_ok m k v : map_ok m → map_ok (map_set m k v).
Proof.
  unfold map_ok. rewrite map_keys_set. case_decide; [done|].
  rewrite NoDup_app. intros Hm. split; [done|]. split; [set_solver|apply NoDup_singleton].
Qed.

Lemma map_get_delete_ne m k k' : k ≠ k' → map_get (map_delete m k) k' = map_get m k'.
Proof.
  intros Hne. induction m as [|[k1 v1] m IH]; simpl; [done|].
  destruct (decide (k = k1)) as [->|]; simpl; by repeat case_decide.
Qed.

Lemma map_delete_sub m k : map_keys (map_delete m k) ⊆ map_keys m.
Proof.
  unfold map_keys. induction m as [|[k1 v1] m IH]; simpl; [done|].
  case_decide; simpl; set_solver.
Qed.

Lemma map_delete_ok m k : map_ok m → map_ok (map_delete m k).
Proof.
  unfold map_ok, map_keys. induction m as [|[k1 v1] m IH]; simpl; [done|].
  rewrite NoDup_cons. intros [Hn Hm]. case_decide; simpl; [done|].
  rewrite NoDup_cons. split; [|auto]. pose proof (map_delete_sub m k). set_solver.
Qed.

Lemma map_get_delete_eq m k : map_ok m → map_get (map_delete m k) k = None.
Proof.
  unfold map_ok, map_keys. induction m as [|[k1 v1] m IH]; simpl; [done|].
  rewrite NoDup_cons. intros [Hn Hm]. case_decide; simplify_eq/=.
  - by apply map_get_None.
  - rewrite decide_False by done. auto.
Qed.

Lemma map_of_entries_ok l : map_ok (map_of_entries l).
Proof.
  unfold map_of_entries. assert (map_ok []) as H by apply NoDup_nil_2.
  revert H. generalize (@nil (K * V)).
  induction l as [|[k v] l IH]; intros m Hm; simpl; [done|]. by apply IH, map_set_ok.
Qed.

Lemma map_set_new m k v : k ∉ map_keys m → map_set m k v = m ++ [(k, v)].
Proof.
  unfold map_keys. induction m as [|[k' v'] m IH]; simpl; [done|].
  intros Hk. rewrite decide_False by set_solver. rewrite IH; [done|set_solver].
Qed.

Lemma map_delete_new m k v : k ∉ map_keys m → map_delete (m ++ [(k, v)]) k = m.
Proof.
  unfold map_keys. induction m as [|[k' v'] m IH]; simpl; [by rewrite decide_True|].
  intros Hk. rewrite decide_False by set_solver. rewrite IH; [done|set_solver].
Qed.

(** Copying a map. *)
Lemma map_of_entries_id m : map_ok m → map_of_entries m = m.
Proof.
  unfold map_of_entries, map_ok, map_keys.
  assert (∀ l m, NoDup (m.*1 ++ l.*1) → foldl (λ m '(k, v), map_set m k v) m l = m ++ l) as Hfold.
  { clear m. induction l as [|[k v] l IH]; intros m Hnd; simpl; [by rewrite app_nil_r|].
    simpl in Hnd. rewrite map_set_new.
    - rewrite IH; [by rewrite <-(assoc_L (++))|]. by rewrite fmap_app, <-(assoc_L (++)).
    - rewrite (NoDup_app m.*1) in Hnd. unfold map_keys. set_solver. }
  intros Hm. by rewrite Hfold.
Qed.
End jsmap.
Arguments jsmap K V : clear implicits.

(** ** Abstraction to finite maps *)

Section abstraction.
Context {K V : Type} `{Countable K}.

Definition to_gmap (m : jsmap K V) : gmap K V := list_to_map m.

Lemma to_gmap_lookup (m : jsmap K V) k : to_gmap m !! k = map_get m k.
Proof.
  unfold to_gmap. induction m as [|[k' v] m IH]; simpl; [done|].
  case_decide; subst; [apply lookup_insert_eq|]. by rewrite lookup_insert_ne.
Qed.

Lemma to_gmap_set (m : jsmap K V) k v : to_gmap (map_set m k v) = <[k:=v]> (to_gmap m).
Proof.
  apply map_eq. intros k'. rewrite lookup_insert, !to_gmap_lookup. apply map_get_set.
Qed.

Lemma to_gmap_delete (m : jsmap K V) k :
  map_ok m → to_gmap (map_delete m k) = delete k (to_gmap m).
Proof.
  intros Hm. apply map_eq. intros k'. rewrite lookup_delete, !to_gmap_lookup.
  case_decide; subst; [by apply map_get_delete_eq|by apply map_get_delete_ne].
Qed.
End abstraction.

#[export] Hint Resolve map_set_ok map_delete_ok map_of_entries_ok : jobflow.
#[export] Hint Rewrite @map_get_set_eq @to_gmap_lookup : jobflow.
