(* ===== verification/JsString.v ===== *)
(** * JavaScript strings

    A string is a sequence of code units; the model keeps code units below 256
    ([Ascii.ascii]), so a [string] of the model is a Latin-1 JavaScript string.
    The functions below are the methods of [String.prototype] and the regular
    expression classes the engine uses. *)

From S2P Require Import Prelude.
From Stdlib Require Import Ascii.

Definition char_code (c : ascii) : N := N_of_ascii c.

Definition in_range (lo hi : N) (c : ascii) : bool :=
  (lo <=? char_code c)%N && (char_code c <=? hi)%N.

(** [/[0-9]/], [/[a-z]/], [/[A-Z]/] and [/\s/] (the Latin-1 part: TAB, LF, VT,
    FF, CR, SP and NBSP). *)
Definition is_digit : ascii → bool := in_range 48 57.
Definition is_lower : ascii → bool := in_range 97 122.
Definition is_upper : ascii → bool := in_range 65 90.
Definition is_space (c : ascii) : bool :=
  in_range 9 13 c || (char_code c =? 32)%N || (char_code c =? 160)%N.

Definition chars : string → list ascii := String.list_ascii_of_string.
Definition of_chars : list ascii → string := String.string_of_list_ascii.

Lemma of_chars_chars s : of_chars (chars s) = s.
Proof. apply String.string_of_list_ascii_of_string. Qed.
Lemma chars_of_chars l : chars (of_chars l) = l.
Proof. apply String.list_ascii_of_string_of_list_ascii. Qed.
Lemma chars_app s t : chars (s +:+ t) = chars s ++ chars t.
Proof. induction s as [|c s IH]; simpl; [done|]. by f_equal. Qed.
Lemma of_chars_app l k : of_chars (l ++ k) = of_chars l +:+ of_chars k.
Proof. induction l as [|c l IH]; simpl; [done|]. by rewrite IH. Qed.
Lemma length_chars s : length (chars s) = String.length s.
Proof. induction s; simpl; auto. Qed.

(** [s.startsWith(p)] and [s.slice(n)] for [n >= 0]. *)
Definition starts_with (s p : string) : bool := String.prefix p s.
Definition slice_from (s : string) (n : nat) : string := of_chars (drop n (chars s)).
Definition slice_to (s : string) (n : nat) : string := of_chars (take n (chars s)).
Definition ends_with (s p : string) : bool :=
  bool_decide (p = slice_from s (String.length s - String.length p))
  && (String.length p <=? String.length s)%nat.

(** [s.includes(p)]. *)
Fixpoint includes (s p : string) : bool :=
  String.prefix p s || match s with EmptyString => false | String _ s' => includes s' p end.

Definition includes_char (s : string) (c : ascii) : bool := bool_decide (c ∈ chars s).

(** [s.split(c)] for a one-character separator: never empty. *)
Fixpoint split_chars (c : ascii) (s : list ascii) (cur : list ascii) : list (list ascii) :=
  match s with
  | [] => [rev cur]
  | d :: s' => if decide (d = c) then rev cur :: split_chars c s' [] else split_chars c s' (d :: cur)
  end.
Definition split (s : string) (c : ascii) : list string :=
  of_chars <$> split_chars c (chars s) [].

(** [list.join(sep)]. *)
Fixpoint join (sep : string) (l : list string) : string :=
  match l with
  | [] => ""
  | [s] => s
  | s :: l' => s +:+ sep +:+ join sep l'
  end.

(** [s.trim()]. *)
Fixpoint drop_while {A} (p : A → bool) (l : list A) : list A :=
  match l with
  | [] => []
  | x :: l' => if p x then drop_while p l' else l
  end.
Fixpoint take_while {A} (p : A → bool) (l : list A) : list A :=
  match l with
  | [] => []
  | x :: l' => if p x then x :: take_while p l' else []
  end.
Definition trim_chars (l : list ascii) : list ascii :=
  rev (drop_while is_space (rev (drop_while is_space l))).
Definition trim (s : string) : string := of_chars (trim_chars (chars s)).

(** [s.trim().split(/\s+/)]: the trimmed string cut at runs of white space. *)
Fixpoint split_spaces_go (s cur : list ascii) (in_space : bool) : list (list ascii) :=
  match s with
  | [] => [rev cur]
  | d :: s' =>
      if is_space d then
        if in_space then split_spaces_go s' cur true
        else rev cur :: split_spaces_go s' [] true
      else split_spaces_go s' (d :: cur) false
  end.
Definition trim_split_spaces (s : string) : list string :=
  of_chars <$> split_spaces_go (trim_chars (chars s)) [] false.

(** [s.replace(/\s+/g, r)] for a one-character [r]. *)
Fixpoint replace_spaces_go (r : ascii) (s : list ascii) (in_space : bool) : list ascii :=
  match s with
  | [] => []
  | d :: s' =>
      if is_space d then (if in_space then [] else [r]) ++ replace_spaces_go r s' true
      else d :: replace_spaces_go r s' false
  end.
Definition replace_spaces (s : string) (r : ascii) : string :=
  of_chars (replace_spaces_go r (chars s) false).

(** [s.replace(/c/g, r)]. *)
Definition replace_all (c : ascii) (r : string) (s : string) : string :=
  of_chars (chars s ≫= λ d, if decide (d = c) then chars r else [d]).

(** [s.toLowerCase()] on Latin-1. *)
Definition to_lower_char (c : ascii) : ascii :=
  if is_upper c || (in_range 192 222 c && negb (char_code c =? 215)%N)
  then ascii_of_N (char_code c + 32) else c.
Definition to_lower (s : string) : string := of_chars (to_lower_char <$> chars s).

(** Comparison of strings by code units: [s < t]. *)
Fixpoint chars_ltb (s t : list ascii) : bool :=
  match s, t with
  | _, [] => false
  | [], _ :: _ => true
  | a :: s', b :: t' =>
      if (char_code a <? char_code b)%N then true
      else if (char_code b <? char_code a)%N then false else chars_ltb s' t'
  end.
Definition string_ltb (s t : string) : bool := chars_ltb (chars s) (chars t).
Definition string_leb (s t : string) : bool := negb (string_ltb t s).

(** A non-empty string is truthy. *)
Definition truthy_string (s : string) : bool := negb (bool_decide (s = "")).

(** An optional string used as a condition: [undefined] and [""] are falsy. *)
Definition truthy_opt (s : option string) : bool :=
  match s with Some s => truthy_string s | None => false end.

Lemma truthy_string_true s : truthy_string s = true ↔ s ≠ "".
Proof. unfold truthy_string. rewrite negb_true_iff, bool_decide_eq_false. done. Qed.

(** ** Lemmas on the scanners *)

Lemma take_while_drop_while {A} (p : A → bool) l : take_while p l ++ drop_while p l = l.
Proof. induction l as [|x l IH]; simpl; [done|]. destruct (p x); simpl; by f_equal. Qed.

Lemma drop_while_length {A} (p : A → bool) l : (length (drop_while p l) ≤ length l)%nat.
Proof. induction l as [|x l IH]; simpl; [done|]. destruct (p x); simpl; lia. Qed.

Lemma take_while_all {A} (p : A → bool) l r :
  Forall (λ x, p x = true) l →
  match r with [] => True | x :: _ => p x = false end →
  take_while p (l ++ r) = l.
Proof.
  intros Hl Hr. induction Hl as [|x l Hx Hl IH]; simpl.
  - destruct r; simpl; [done|]. by rewrite Hr.
  - by rewrite Hx, IH.
Qed.

Lemma drop_while_all {A} (p : A → bool) l r :
  Forall (λ x, p x = true) l →
  match r with [] => True | x :: _ => p x = false end →
  drop_while p (l ++ r) = r.
Proof.
  intros Hl Hr. induction Hl as [|x l Hx Hl IH]; simpl.
  - destruct r; simpl; [done|]. by rewrite Hr.
  - by rewrite Hx, IH.
Qed.

Lemma includes_prefix s p : String.prefix p s = true → includes s p = true.
Proof. intros H. destruct s; simpl in *; by rewrite H. Qed.
