(* ===== verification/Graph.v ===== *)
(** * Depth-first search for cycles

    The search that validators/job-definition-validator.ts
    ([validateDependencyOrder]) and engine/dag-planner.ts ([assertAcyclic])
    share: two sets, [visiting] and [visited], and a recursive [visit].  The
    sets are lists in insertion order, so [visited] is the finishing order,
    which the proofs show to be a topological order.  The recursion of the
    closure [visit] is bounded by fuel; one more than the number of nodes is
    always enough. *)

From S2P Require Import Prelude.
From stdpp Require Import relations.

Section dfs.
(** [node?.dependsOn ?? []] *)
Context (children : string → list string).

Record marks : Type := mkMarks {
  visiting : list string;
  visited : list string;
}.

(** [Throw id]: the search met [id] again while visiting it. *)
Fixpoint visit (fuel : nat) (id : string) (m : marks) : outcome string marks :=
  match fuel with
  | O => OutOfFuel
  | S fuel' =>
      if bool_decide (id ∈ visited m) then Ok m
      else if bool_decide (id ∈ visiting m) then Throw id
      else
        m' ← ofold (visit fuel') (children id) (mkMarks (id :: visiting m) (visited m));
        Ok (mkMarks (List.filter (λ x, negb (bool_decide (x = id))) (visiting m'))
              (visited m' ++ [id]))
  end.

Definition search (fuel : nat) (roots : list string) : outcome string marks :=
  ofold (visit fuel) roots (mkMarks [] []).

(** ** Graph notions *)

Definition edge (x y : string) : Prop := y ∈ children x.

Definition cyclic (x : string) : Prop := tc edge x x.

(** Each node of the list comes after its children. *)
Inductive topo : list string → Prop :=
| topo_nil : topo []
| topo_snoc l x : topo l → x ∉ l → (∀ c, c ∈ children x → c ∈ l) → topo (l ++ [x]).

Lemma topo_NoDup l : topo l → NoDup l.
Proof.
  induction 1 as [|l x Hl IH Hx Hc]; [by apply NoDup_nil|].
  rewrite NoDup_app. split; [done|]. split; [set_solver|apply NoDup_singleton].
Qed.

Lemma topo_closed l x y : topo l → x ∈ l → edge x y → y ∈ l.
Proof.
  induction 1 as [|l z Hl IH Hz Hc]; [set_solver|]. unfold edge in *.
  rewrite !elem_of_app, !list_elem_of_singleton. intros [Hx| ->]; [left; auto|auto].
Qed.

Lemma topo_closed_tc l x y : topo l → x ∈ l → tc edge x y → y ∈ l.
Proof. intros Hl Hx Ht. induction Ht; eauto using topo_closed. Qed.

Lemma topo_acyclic l x : topo l → x ∈ l → ¬ cyclic x.
Proof.
  intros Hl. revert x. induction Hl as [|l z Hl IH Hz Hc]; intros x; [set_solver|].
  rewrite elem_of_app, list_elem_of_singleton. intros [Hx| ->]; [by apply IH|].
  intros Hcyc. unfold cyclic in Hcyc. apply Hz. inversion Hcyc as [? ? He|? y ? He Ht]; subst.
  - by apply Hc.
  - apply (topo_closed_tc l y); [done| |done]. by apply Hc.
Qed.

(** A closed set keeps its nodes in order. *)
Lemma topo_filter (P : string → Prop) `{∀ x, Decision (P x)} l :
  (∀ x c, P x → c ∈ children x → P c) → topo l → topo (filter P l).
Proof.
  intros HP. induction 1 as [|l x Hl IH Hx Hc]; [constructor|].
  rewrite filter_app. destruct (decide (P x)) as [Hpx|Hpx].
  - rewrite (filter_cons_True P x []), filter_nil by done. constructor; [done| |].
    + rewrite list_elem_of_filter. tauto.
    + intros c Hin. apply list_elem_of_filter. eauto.
  - by rewrite (filter_cons_False P x []), filter_nil, app_nil_r by done.
Qed.

(** A set that meets the list has an element all of whose children are outside. *)
Lemma topo_minimal (P : string → Prop) `{∀ x, Decision (P x)} l x :
  topo l → x ∈ l → P x → ∃ y, y ∈ l ∧ P y ∧ ∀ c, c ∈ children y → ¬ P c.
Proof.
  intros Hl. revert x. induction Hl as [|l z Hl IH Hz Hc]; intros x Hx HPx; [set_solver|].
  destruct (decide (Exists P l)) as [(y & Hy & HPy)%Exists_exists|Hno].
  - destruct (IH y Hy HPy) as (w & ? & ? & ?). exists w. set_solver.
  - rewrite <-Forall_Exists_neg, Forall_forall in Hno. exists z.
    assert (x = z) as -> by set_solver. split; [set_solver|]. auto.
Qed.

(** ** Soundness *)

Definition marks_ok (m : marks) : Prop :=
  topo (visited m) ∧ NoDup (visiting m) ∧ (∀ x, x ∈ visited m → x ∉ visiting m).

Definition visit_post (ids : list string) (m m' : marks) : Prop :=
  marks_ok m' ∧ visiting m' = visiting m ∧ visited m ⊆ visited m'
  ∧ ∀ id, id ∈ ids → id ∈ visited m'.

Lemma filter_ne_id (id : string) l :
  id ∉ l → List.filter (λ x, negb (bool_decide (x = id))) (id :: l) = l.
Proof.
  intros Hid. simpl. rewrite bool_decide_eq_true_2 by done. simpl.
  induction l as [|x l IH]; simpl; [done|].
  rewrite bool_decide_eq_false_2 by set_solver. simpl. f_equal. apply IH. set_solver.
Qed.

Lemma ofold_visit_sound fuel ids m m' :
  (∀ id m m', marks_ok m → visit fuel id m = Ok m' → visit_post [id] m m') →
  marks_ok m → ofold (visit fuel) ids m = Ok m' → visit_post ids m m'.
Proof.
  intros Hv. revert m. induction ids as [|id ids IH]; intros m Hm; cbn [ofold].
  - intros [= <-]. repeat split; try apply Hm; set_solver.
  - intros H. inv_bind H. destruct (Hv _ _ _ Hm E) as (Hok & Hvis & Hsub & Hin).
    destruct (IH _ Hok H) as (Hok' & Hvis' & Hsub' & Hin').
    split; [done|]. split; [congruence|]. split; [set_solver|].
    intros x [->|Hx]%elem_of_cons; set_solver.
Qed.

Lemma visit_sound fuel id m m' :
  marks_ok m → visit fuel id m = Ok m' → visit_post [id] m m'.
Proof.
  revert id m m'. induction fuel as [|fuel IH]; intros id m m' Hm; cbn [visit]; [done|].
  case_bool_decide as Hvd; [intros [= <-]; repeat split; try apply Hm; set_solver|].
  case_bool_decide as Hvg; [done|]. intros H. inv_bind H. injection H as <-.
  destruct Hm as (Ht & Hnd & Hdisj).
  eapply ofold_visit_sound in E as ((Ht' & Hnd' & Hdisj') & Hvis & Hsub & Hin); [|exact IH|].
  2: { split; [done|]. split; [by apply NoDup_cons|]. simpl. set_solver. }
  simpl in *. rewrite Hvis in *. rewrite filter_ne_id by done.
  split; [|split; [done|set_solver]]. split; simpl; [|split; [done|set_solver]].
  apply topo_snoc; [done|set_solver|]. auto.
Qed.

Lemma search_sound fuel roots m :
  search fuel roots = Ok m → topo (visited m) ∧ ∀ r, r ∈ roots → r ∈ visited m.
Proof.
  intros H. eapply ofold_visit_sound in H as ((? & _) & _ & _ & ?); [done|apply visit_sound|].
  split; [constructor|]. split; [by apply NoDup_nil|set_solver].
Qed.

(** ** Completeness: a throw exhibits a cycle *)

Lemma ofold_visit_visiting fuel ids m m' :
  (∀ id m m', visit fuel id m = Ok m' → visiting m' ⊆ visiting m) →
  ofold (visit fuel) ids m = Ok m' → visiting m' ⊆ visiting m.
Proof.
  intros Hv. revert m. induction ids as [|id ids IH]; intros m; cbn [ofold].
  - by intros [= <-].
  - intros H. inv_bind H. etransitivity; [by eapply IH|by eapply Hv].
Qed.

Lemma visit_visiting fuel id m m' : visit fuel id m = Ok m' → visiting m' ⊆ visiting m.
Proof.
  revert id m m'. induction fuel as [|fuel IH]; intros id m m'; cbn [visit]; [done|].
  case_bool_decide; [by intros [= <-]|]. case_bool_decide; [done|].
  intros H1. inv_bind H1. injection H1 as <-. simpl.
  apply (ofold_visit_visiting _ _ _ _ IH) in E. simpl in E. intros x Hx.
  apply list_elem_of_In, List.filter_In in Hx as [Hx%list_elem_of_In Hne].
  apply negb_true_iff, bool_decide_eq_false in Hne. set_solver.
Qed.

Lemma ofold_visit_throw fuel ids m c :
  (∀ id m c, (∀ v, v ∈ visiting m → tc edge v id) → visit fuel id m = Throw c → cyclic c) →
  (∀ v id, v ∈ visiting m → id ∈ ids → tc edge v id) →
  ofold (visit fuel) ids m = Throw c → cyclic c.
Proof.
  intros Hv. revert m. induction ids as [|id ids IH]; intros m Hm; cbn [ofold]; [done|].
  destruct (visit fuel id m) as [m'|e|] eqn:E; simpl; [|intros [= <-]|done].
  - apply IH. intros v x Hvis Hx. apply Hm; [|set_solver].
    by apply (visit_visiting _ _ _ _ E).
  - apply (Hv id m); [|done]. intros v Hvis. apply Hm; set_solver.
Qed.

Lemma visit_throw fuel id m c :
  (∀ v, v ∈ visiting m → tc edge v id) → visit fuel id m = Throw c → cyclic c.
Proof.
  revert id m c. induction fuel as [|fuel IH]; intros id m c Hm; cbn [visit]; [done|].
  case_bool_decide; [done|]. case_bool_decide; [intros [= <-]; by apply Hm|].
  destruct (ofold _ _ _) as [m'|e|] eqn:E; simpl; [done| |done]. intros [= <-].
  eapply ofold_visit_throw; [exact IH| |exact E]. simpl.
  intros v x [->|Hv]%elem_of_cons Hx; [by apply tc_once|].
  eapply tc_r; [by apply Hm|done].
Qed.

Lemma search_throw fuel roots c : search fuel roots = Throw c → cyclic c.
Proof. apply ofold_visit_throw; [apply visit_throw|]. set_solver. Qed.

(** ** Termination: one more unit of fuel than nodes is enough *)

Context (universe : list string).
Hypothesis universe_closed : ∀ x c, x ∈ universe → c ∈ children x → c ∈ universe.

Definition unvisiting (m : marks) : nat :=
  length (List.filter (λ x, negb (bool_decide (x ∈ visiting m))) universe).

Lemma unvisiting_mono m m' : visiting m' ⊆ visiting m → (unvisiting m ≤ unvisiting m')%nat.
Proof.
  intros Hsub. apply filter_length_le_impl. intros x _.
  rewrite !negb_true_iff, !bool_decide_eq_false. set_solver.
Qed.

Lemma unvisiting_push id m :
  id ∈ universe → id ∉ visiting m →
  (unvisiting (mkMarks (id :: visiting m) (visited m)) < unvisiting m)%nat.
Proof.
  intros Hu Hv. apply (filter_length_lt_impl _ _ _ id); [|done|..]; simpl.
  - intros x _. rewrite !negb_true_iff, !bool_decide_eq_false. set_solver.
  - rewrite negb_false_iff, bool_decide_eq_true. set_solver.
  - by rewrite negb_true_iff, bool_decide_eq_false.
Qed.

(** The bound of a call counts the nodes not being visited; [visiting] is the
    same set after each call, so the bound holds for every child. *)
Lemma visit_fuel fuel id m :
  marks_ok m → id ∈ universe → (unvisiting m < fuel)%nat → visit fuel id m ≠ OutOfFuel.
Proof.
  revert id m. induction fuel as [|fuel IH]; intros id m Hm Hu Hf; [lia|]. cbn [visit].
  case_bool_decide as Hvd; [done|]. case_bool_decide as Hvg; [done|].
  assert (∀ ids m', marks_ok m' → ids ⊆ universe → (unvisiting m' < fuel)%nat →
    ofold (visit fuel) ids m' ≠ OutOfFuel) as Hfold.
  { intros ids. induction ids as [|x ids IHids]; intros m' Hm' Hids Hf'; cbn [ofold]; [done|].
    destruct (visit fuel x m') as [m''|e|] eqn:E; simpl; [|done|].
    - destruct (visit_sound _ _ _ _ Hm' E) as (Hok & Hvis & _). apply IHids; [done|set_solver|].
      unfold unvisiting in *. by rewrite Hvis.
    - by apply IH in E; [..|done|set_solver|]. }
  pose proof (unvisiting_push id m Hu Hvg).
  specialize (Hfold (children id) (mkMarks (id :: visiting m) (visited m))).
  destruct (ofold (visit fuel) (children id) _) as [|e|] eqn:E; simpl; [done|done|].
  exfalso. apply Hfold; [| |lia|done].
  - destruct Hm as (? & ? & ?). split; [done|]. split; [by apply NoDup_cons|]. simpl. set_solver.
  - intros x. by apply universe_closed.
Qed.

Lemma search_fuel roots fuel :
  roots ⊆ universe → (length universe < fuel)%nat → search fuel roots ≠ OutOfFuel.
Proof.
  intros Hr Hf. unfold search.
  assert (∀ m, marks_ok m → visiting m = [] → ofold (visit fuel) roots m ≠ OutOfFuel) as H.
  { induction roots as [|x roots IH]; intros m Hm Hv; cbn [ofold]; [done|].
    destruct (visit fuel x m) as [m'|e|] eqn:E; simpl; [|done|].
    - destruct (visit_sound _ _ _ _ Hm E) as (Hok & Hvis & _).
      apply IH; [set_solver|done|congruence].
    - apply visit_fuel in E; [done|done|set_solver|]. unfold unvisiting.
      pose proof (List.filter_length_le (λ x, negb (bool_decide (x ∈ visiting m))) universe). lia. }
  apply H; [|done]. split; [constructor|]. split; [by apply NoDup_nil|set_solver].
Qed.

(** Started from every node with a child, the search answers exactly whether
    the graph is acyclic. *)
Lemma search_Ok_iff roots fuel :
  (∀ x c, edge x c → x ∈ roots) → roots ⊆ universe → (length universe < fuel)%nat →
  (∃ m, search fuel roots = Ok m) ↔ ∀ x, ¬ cyclic x.
Proof.
  intros Hroots Hr Hf. split.
  - intros (m & Hm) x Hx. destruct (search_sound _ _ _ Hm) as [Ht Hin].
    apply (topo_acyclic (visited m) x Ht); [|done]. apply Hin.
    inversion Hx; subst; eauto.
  - intros Hac. pose proof (search_fuel roots fuel Hr Hf) as Hnf.
    destruct (search fuel roots) as [m|c|] eqn:E; [by eauto| |done].
    by apply search_throw, Hac in E.
Qed.
End dfs.

Lemma cyclic_ext (f g : string → list string) x :
  (∀ y, f y = g y) → cyclic f x → cyclic g x.
Proof.
  intros Hfg Hx. unfold cyclic in *.
  assert (∀ a b, tc (edge f) a b → tc (edge g) a b) as H; [|by apply H].
  intros a b Hab. induction Hab as [a b He|a b c He _ IH]; unfold edge in *.
  - apply tc_once. unfold edge. by rewrite <-Hfg.
  - eapply tc_l; [|exact IH]. unfold edge. by rewrite <-Hfg.
Qed.
