(* ===== verification/JsNum.v ===== *)
(** * JavaScript numbers

    A [number] is an IEEE 754 binary64 value.  The model is the executable
    specification of the Standard Library ([SpecFloat], precision 53 and maximal
    exponent 1024), with the conversions of ECMAScript: [StringToNumber] and the
    shortest round-trip [Number::toString]. *)

From S2P Require Import Prelude JsString.
From Stdlib Require Import Ascii SpecFloat.
Open Scope Z_scope.

Definition num : Type := spec_float.

#[export] Instance num_eq_dec : EqDecision num.
Proof. intros x y. unfold Decision. repeat decide equality. Defined.

Definition prec : Z := 53.
Definition emax : Z := 1024.

Definition num_nan : num := S754_nan.
Definition num_zero : num := S754_zero false.
Definition num_of_Z (z : Z) : num := binary_normalize prec emax z 0 false.

Definition num_add : num → num → num := SFadd prec emax.
Definition num_sub : num → num → num := SFsub prec emax.
Definition num_mul : num → num → num := SFmul prec emax.
Definition num_div : num → num → num := SFdiv prec emax.
Definition num_opp : num → num := SFopp.
Definition num_eqb : num → num → bool := SFeqb.
Definition num_ltb : num → num → bool := SFltb.
Definition num_leb : num → num → bool := SFleb.

Definition num_is_nan (x : num) : bool := match x with S754_nan => true | _ => false end.
Definition num_is_zero (x : num) : bool := match x with S754_zero _ => true | _ => false end.

(** [Boolean(x)] on numbers. *)
Definition num_truthy (x : num) : bool := negb (num_is_nan x || num_is_zero x).

(** ** Rounding *)

Definition num_abs : num → num := SFabs.

(** [Math.floor] of a finite number, and [Math.round]. *)
Definition floor_Z (s : bool) (m : positive) (e : Z) : Z :=
  let z := if s then Zneg m else Zpos m in if 0 <=? e then z * 2 ^ e else z / 2 ^ (- e).

Definition num_floor (x : num) : Z :=
  match x with S754_finite s m e => floor_Z s m e | _ => 0 end.

Definition num_round (x : num) : num :=
  match x with
  | S754_finite s m e =>
      if 0 <=? e then x
      else
        let z := (2 * (if s then Zneg m else Zpos m) + 2 ^ (- e)) / 2 ^ (1 - e) in
        if z =? 0 then S754_zero s else num_of_Z z
  | _ => x
  end.

(** [Math.floor]. *)
Definition math_floor (x : num) : num :=
  match x with
  | S754_finite s m e =>
      if 0 <=? e then x
      else let z := floor_Z s m e in if z =? 0 then S754_zero s else num_of_Z z
  | _ => x
  end.

(** [Math.min] of two numbers: [NaN] when one of them is, and [-0] below [0]. *)
Definition math_min (x y : num) : num :=
  if num_is_nan x || num_is_nan y then num_nan
  else match x, y with
       | S754_zero s, S754_zero t => S754_zero (s || t)
       | _, _ => if num_ltb y x then y else x
       end.

(** [Math.pow(x, n)] for a whole exponent [n >= 0].  ECMAScript leaves the
    approximation of a finite power to the implementation; here it is the number
    nearest to it.  A power beyond the largest number is [Infinity]. *)
Definition math_pow (x : num) (n : Z) : num :=
  if n =? 0 then num_of_Z 1
  else match x with
       | S754_nan => num_nan
       | S754_zero s => S754_zero (s && Z.odd n)
       | S754_infinity s => S754_infinity (s && Z.odd n)
       | S754_finite s m e => binary_round prec emax (s && Z.odd n) (m ^ Z.to_pos n) (e * n)
       end.

Lemma num_leb_refl x : num_is_nan x = false → num_leb x x = true.
Proof.
  destruct x as [|[]| |[] m e]; try done; intros _; unfold num_leb, SFleb; cbn [SFcompare];
    rewrite Z.compare_refl; fold (Pos.compare m m); by rewrite Pos.compare_refl.
Qed.

Lemma num_leb_total x y : num_is_nan x = false → num_is_nan y = false → num_ltb y x = false → num_leb x y = true.
Proof.
  unfold num_ltb, SFltb, num_leb, SFleb.
  destruct x as [|[]| |[] m e], y as [|[]| |[] m' e']; try done; intros _ _; cbn [SFcompare];
    fold (Pos.compare m m') (Pos.compare m' m); rewrite (Z.compare_antisym e e'), (Pos.compare_antisym m m');
    destruct (e ?= e'), (m ?= m')%positive; done.
Qed.

Lemma math_min_le x y : math_min x y = num_nan ∨ num_leb (math_min x y) y = true.
Proof.
  unfold math_min. destruct (num_is_nan x) eqn:Hx; [by left|]. destruct (num_is_nan y) eqn:Hy; [by left|]. right.
  assert (num_leb (if num_ltb y x then y else x) y = true) as Hle.
  { destruct (num_ltb y x) eqn:Hlt; [by apply num_leb_refl|by apply num_leb_total]. }
  destruct x, y; exact Hle || done.
Qed.

(** ** From decimal notation *)

(** The number nearest to [p / q], [p >= 0] and [q > 0]. *)
Definition num_of_ratio (p : Z) (q : positive) : num :=
  match p with
  | Zpos m =>
      let '(mz, ez, lz) := SFdiv_core_binary prec emax (Zpos m) 0 (Zpos q) 0 in
      binary_round_aux prec emax false mz ez lz
  | _ => num_zero
  end.

(** The number nearest to [m * 10 ^ e], [m >= 0]. *)
Definition num_of_decimal (m e : Z) : num :=
  if 0 <=? e then num_of_Z (m * 10 ^ e) else num_of_ratio m (Z.to_pos (10 ^ (- e))).

Definition digit_val (c : ascii) : Z := Z.of_N (char_code c) - 48.

Definition digits_val (l : list ascii) : Z := foldl (λ acc c, acc * 10 + digit_val c) 0 l.

Definition hex_val (c : ascii) : option Z :=
  if is_digit c then Some (digit_val c)
  else if in_range 97 102 c then Some (Z.of_N (char_code c) - 87)
  else if in_range 65 70 c then Some (Z.of_N (char_code c) - 55)
  else None.

(** The digits of a [0x], [0o] or [0b] literal. *)
Definition radix_val (radix : Z) (l : list ascii) : option Z :=
  match l with
  | [] => None
  | _ => foldl (λ acc c,
           acc ← acc; d ← hex_val c;
           if d <? radix then Some (acc * radix + d) else None) (Some 0) l
  end.

(** [StrUnsignedDecimalLiteral]: digits, at most one point, an exponent. *)
Definition parse_exponent (l : list ascii) : option Z :=
  let signed (neg : bool) (l : list ascii) :=
    match l with
    | [] => None
    | _ => if forallb is_digit l then Some (if neg then - digits_val l else digits_val l) else None
    end in
  match l with
  | [] => Some 0
  | c :: l' =>
      if decide (c = "e"%char ∨ c = "E"%char) then
        match l' with
        | "+"%char :: l'' => signed false l''
        | "-"%char :: l'' => signed true l''
        | _ => signed false l'
        end
      else None
  end.

Definition parse_unsigned_decimal (l : list ascii) : option num :=
  if decide (of_chars l = "Infinity") then Some (S754_infinity false) else
  let ip := take_while is_digit l in
  let rest := drop_while is_digit l in
  let '(fp, rest') :=
    match rest with
    | "."%char :: r => (take_while is_digit r, drop_while is_digit r)
    | _ => ([], rest)
    end in
  if decide (ip = [] ∧ fp = []) then None
  else
    e ← parse_exponent rest';
    Some (num_of_decimal (digits_val (ip ++ fp)) (e - Z.of_nat (length fp))).

(** [Number(s)] for a string: white space is trimmed, the empty string is [0],
    anything that is not a literal is [NaN]. *)
Definition string_to_num (s : string) : num :=
  match trim_chars (chars s) with
  | [] => num_zero
  | "0"%char :: "x"%char :: l | "0"%char :: "X"%char :: l =>
      from_option num_of_Z num_nan (radix_val 16 l)
  | "0"%char :: "o"%char :: l | "0"%char :: "O"%char :: l =>
      from_option num_of_Z num_nan (radix_val 8 l)
  | "0"%char :: "b"%char :: l | "0"%char :: "B"%char :: l =>
      from_option num_of_Z num_nan (radix_val 2 l)
  | "-"%char :: l => from_option num_opp num_nan (parse_unsigned_decimal l)
  | "+"%char :: l => default num_nan (parse_unsigned_decimal l)
  | l => default num_nan (parse_unsigned_decimal l)
  end.

(** ** To decimal notation *)

Definition pretty_Z (z : Z) : string := pretty z.

(** [v = p / q]: the exponent [n] with [10 ^ (n - 1) <= v < 10 ^ n]. *)
Definition decimal_exponent (p q : Z) : Z :=
  let n0 := (Z.log2 p - Z.log2 q) * 30103 / 100000 in
  let fits n :=
    if 0 <=? n then p <? q * 10 ^ n else p * 10 ^ (- n) <? q in
  if fits (n0 - 1) then n0 - 1 else if fits n0 then n0
  else if fits (n0 + 1) then n0 + 1 else n0 + 2.

(** The digits [s] (with [k] digits) and the exponent [n] of the shortest
    decimal that reads back as [v = p / q]. *)
Fixpoint shortest_go (fuel : nat) (v : num) (p q n k : Z) : Z * Z :=
  let e := n - k in
  let '(p', q') := if 0 <=? e then (p, q * 10 ^ e) else (p * 10 ^ (- e), q) in
  let s := p' / q' in
  let reads_back s := num_eqb (num_of_decimal s e) v && (10 ^ (k - 1) <=? s) && (s <? 10 ^ k) in
  let below := reads_back s in
  let above := reads_back (s + 1) in
  let nearer := 2 * (p' - s * q') <? q' in
  let tie_even := (2 * (p' - s * q') =? q') && Z.even s in
  if below && (negb above || nearer || tie_even) then (s, k)
  else if above then (s + 1, k)
  else match fuel with O => (s, k) | S fuel' => shortest_go fuel' v p q n (k + 1) end.

Definition zeros (n : Z) : string := of_chars (replicate (Z.to_nat n) "0"%char).

Definition format_decimal (s k n : Z) : string :=
  let ds := pretty_Z s in
  if (k <=? n) && (n <=? 21) then ds +:+ zeros (n - k)
  else if (0 <? n) && (n <=? 21) then
    slice_to ds (Z.to_nat n) +:+ "." +:+ slice_from ds (Z.to_nat n)
  else if (-6 <? n) && (n <=? 0) then "0." +:+ zeros (- n) +:+ ds
  else
    let e := n - 1 in
    let es := (if 0 <=? e then "e+" else "e-") +:+ pretty_Z (Z.abs e) in
    if k =? 1 then ds +:+ es
    else slice_to ds 1 +:+ "." +:+ slice_from ds 1 +:+ es.

(** [String(x)]. *)
Definition num_to_string (x : num) : string :=
  match x with
  | S754_nan => "NaN"
  | S754_zero _ => "0"
  | S754_infinity false => "Infinity"
  | S754_infinity true => "-Infinity"
  | S754_finite sgn m e =>
      let p := if 0 <=? e then Zpos m * 2 ^ e else Zpos m in
      let q := if 0 <=? e then 1 else 2 ^ (- e) in
      let n := decimal_exponent p q in
      let '(s, k) := shortest_go 17 (S754_finite false m e) p q n 1 in
      (if sgn then "-" else "") +:+ format_decimal s k n
  end.

(** ** Examples, computed *)

Example string_to_num_int : string_to_num " 42 " = num_of_Z 42.
Proof. reflexivity. Qed.
Example string_to_num_two_points : string_to_num "1.2.3" = num_nan.
Proof. reflexivity. Qed.
Example num_to_string_tenth : num_to_string (num_div (num_of_Z 1) (num_of_Z 10)) = "0.1".
Proof. vm_compute. reflexivity. Qed.
Example num_to_string_third :
  num_to_string (num_div (num_of_Z 1) (num_of_Z 3)) = "0.3333333333333333".
Proof. vm_compute. reflexivity. Qed.
Example num_to_string_sum :
  num_to_string (num_add (string_to_num "0.1") (string_to_num "0.2")) = "0.30000000000000004".
Proof. vm_compute. reflexivity. Qed.
Example num_to_string_big : num_to_string (string_to_num "1e21") = "1e+21".
Proof. vm_compute. reflexivity. Qed.
Example num_to_string_small : num_to_string (string_to_num "-1.5e-7") = "-1.5e-7".
Proof. vm_compute. reflexivity. Qed.
