(* ===== verification/JsRound.v ===== *)
(** * Doubles that are whole numbers

    Rounding to a double ([binary_round_aux]) on the whole numbers: it changes no
    number below [2 ^ 53], so products, powers and comparisons of such numbers are
    those of the integers, and it keeps the sign of every number and never gives
    [NaN].  From [2 ^ 53] on the result is not below [2 ^ 53] again. *)

From S2P Require Import Prelude JsString JsNum.
From Stdlib Require Import SpecFloat.
Open Scope Z_scope.

(** The double of a whole number [0 < z < 2 ^ 53]: 53 binary digits. *)
Definition double (z : Z) : JsNum.num :=
  S754_finite false (Z.to_pos (z * 2 ^ (52 - Z.log2 z))) (Z.log2 z - 52).

#[local] Notation round_aux := (binary_round_aux prec emax).

(** ** Shifting *)

Lemma digits_log2 m : 0 < m → Zdigits2 m = Z.log2 m + 1.
Proof.
  destruct m as [|p|]; try lia. intros _. simpl.
  assert (digits2_pos p = Pos.size p) as -> by (induction p; simpl; congruence).
  destruct p; simpl; lia.
Qed.

Lemma fexp_max e : fexp prec emax e = Z.max (e - 53) (-1074).
Proof. done. Qed.

Lemma iter_pos_nat {A} (f : A → A) n x : iter_pos f n x = Nat.iter (Pos.to_nat n) f x.
Proof.
  revert x. induction n as [n IH|n IH|]; intros x; [..|done]; cbn [iter_pos]; rewrite !IH, <-Nat.iter_add.
  - rewrite <-Nat.iter_succ_r, Pos2Nat.inj_xI. f_equal. lia.
  - rewrite Pos2Nat.inj_xO. f_equal. lia.
Qed.

Lemma shr_1_half mrs : 0 ≤ shr_m mrs → shr_m (shr_1 mrs) = shr_m mrs / 2.
Proof.
  destruct mrs as [m r s]. cbn [shr_m]. intros Hm. rewrite <-Z.div2_div.
  destruct m as [|[p|p|]|p]; done.
Qed.

Lemma shr_iter n mrs : 0 ≤ shr_m mrs → shr_m (Nat.iter n shr_1 mrs) = shr_m mrs / 2 ^ Z.of_nat n.
Proof.
  intros Hm. induction n as [|n IH]; [by rewrite Z.div_1_r|].
  rewrite Nat.iter_succ, shr_1_half, IH, Z.div_div by (rewrite ?IH; try apply Z.div_pos; lia).
  f_equal. rewrite Nat2Z.inj_succ, Z.pow_succ_r; lia.
Qed.

Lemma shr_iter_exact n m :
  Nat.iter n shr_1 (Build_shr_record (m * 2 ^ Z.of_nat n) false false) = Build_shr_record m false false.
Proof.
  revert m. induction n as [|n IH]; intros m; [simpl; f_equal; lia|].
  rewrite Nat2Z.inj_succ, Z.pow_succ_r by lia. rewrite Nat.iter_succ.
  replace (m * (2 * 2 ^ Z.of_nat n)) with ((2 * m) * 2 ^ Z.of_nat n) by lia. rewrite IH. by destruct m.
Qed.

Definition shift_of (m e : Z) : Z := fexp prec emax (Zdigits2 m + e) - e.

Lemma shr_fexp_m m e l :
  0 ≤ m → shr_m (shr_fexp prec emax m e l).1 = m / 2 ^ Z.max 0 (shift_of m e).
Proof.
  intros Hm. unfold shr_fexp, shr. fold (shift_of m e).
  assert (shr_m (shr_record_of_loc m l) = m) as Hr by (by destruct l as [|[]]).
  destruct (shift_of m e) as [|p|p]; simpl; rewrite ?Hr, ?Z.div_1_r; try done.
  rewrite iter_pos_nat, shr_iter, Hr by (by rewrite Hr). by rewrite positive_nat_Z.
Qed.

Lemma shr_fexp_e m e l : (shr_fexp prec emax m e l).2 = e + Z.max 0 (shift_of m e).
Proof. unfold shr_fexp, shr. fold (shift_of m e). destruct (shift_of m e); simpl; lia. Qed.

(** A mantissa that loses only zeros. *)
Lemma shr_fexp_exact m e k :
  0 ≤ k → shift_of (m * 2 ^ k) e = k →
  shr_fexp prec emax (m * 2 ^ k) e loc_Exact = (Build_shr_record m false false, e + k).
Proof.
  intros Hk Hs. unfold shr_fexp, shr. fold (shift_of (m * 2 ^ k) e). rewrite Hs. cbn [shr_record_of_loc].
  destruct k as [|p|p]; [f_equal; [f_equal|]; lia| |lia].
  rewrite iter_pos_nat. pose proof (shr_iter_exact (Pos.to_nat p) m) as He.
  rewrite positive_nat_Z in He. by rewrite He.
Qed.

(** ** Whole numbers below [2 ^ 53] are kept *)

Lemma log2_below z : 0 < z < 2 ^ 53 → 0 ≤ Z.log2 z ≤ 52.
Proof. intros Hz. pose proof (Z.log2_nonneg z). pose proof (proj1 (Z.log2_lt_pow2 z 53 ltac:(lia)) ltac:(lia)). lia. Qed.

Lemma pow2_pos k : 0 ≤ k → 0 < 2 ^ k.
Proof. intros. apply Z.pow_pos_nonneg; lia. Qed.

Lemma shift_of_value z e :
  0 < z < 2 ^ 53 → e ≤ 0 → shift_of (z * 2 ^ (- e)) e = Z.log2 z - 52 - e.
Proof.
  intros Hz He. pose proof (log2_below z Hz). pose proof (pow2_pos (- e) ltac:(lia)). unfold shift_of.
  rewrite digits_log2, Z.log2_mul_pow2, fexp_max by nia. lia.
Qed.

Lemma round_aux_exact z e :
  0 < z < 2 ^ 53 → e ≤ Z.log2 z - 52 → round_aux false (z * 2 ^ (- e)) e loc_Exact = double z.
Proof.
  intros Hz He. pose proof (log2_below z Hz). unfold binary_round_aux.
  assert (z * 2 ^ (- e) = z * 2 ^ (52 - Z.log2 z) * 2 ^ (Z.log2 z - 52 - e)) as Hm.
  { rewrite <-Z.mul_assoc, <-Z.pow_add_r by lia. do 2 f_equal. lia. }
  rewrite Hm, shr_fexp_exact by (rewrite <-?Hm, ?shift_of_value; lia). cbn [shr_m loc_of_shr_record round_nearest_even].
  replace (e + (Z.log2 z - 52 - e)) with (- (52 - Z.log2 z)) by lia.
  pose proof (shr_fexp_exact (z * 2 ^ (52 - Z.log2 z)) (- (52 - Z.log2 z)) 0) as Hx.
  rewrite Z.pow_0_r, Z.mul_1_r in Hx. rewrite Hx; [|lia|].
  - cbn [shr_m]. pose proof (pow2_pos (52 - Z.log2 z) ltac:(lia)).
    destruct (z * 2 ^ (52 - Z.log2 z)) as [|m|m] eqn:Em; [nia| |nia].
    rewrite (proj2 (Z.leb_le _ _)) by (unfold emax, prec; lia). unfold double. rewrite Em. simpl. f_equal. lia.
  - replace (52 - Z.log2 z) with (- - (52 - Z.log2 z)) at 1 by lia. rewrite shift_of_value; lia.
Qed.

Lemma shl_align_value m e e' :
  ∃ m', shl_align m e e' = (m', Z.min e e') ∧ Zpos m' = Zpos m * 2 ^ (e - Z.min e e').
Proof.
  unfold shl_align. destruct (e' - e) as [|d|d] eqn:Hd.
  - exists m. rewrite Z.min_l, Z.sub_diag, Z.mul_1_r by lia. done.
  - exists m. rewrite Z.min_l, Z.sub_diag, Z.mul_1_r by lia. done.
  - exists (Pos.iter xO m d). rewrite Z.min_r by lia. split; [done|].
    pose proof (Zpower.shift_pos_correct d m) as Hc. unfold Zpower.shift_pos in Hc. rewrite Hc, Z.mul_comm.
    do 2 f_equal. replace (e - e') with (Zpos d) by lia. done.
Qed.

Lemma binary_round_exact z m e :
  0 < z < 2 ^ 53 → e ≤ 0 → Zpos m = z * 2 ^ (- e) → binary_round prec emax false m e = double z.
Proof.
  intros Hz He Hm. pose proof (shift_of_value z e Hz He) as Hs. unfold shift_of in Hs. rewrite <-Hm in Hs.
  unfold binary_round. change (Zpos (digits2_pos m)) with (Zdigits2 (Zpos m)).
  set (c := fexp prec emax (Zdigits2 (Zpos m) + e)) in *.
  destruct (shl_align_value m e c) as (m' & -> & Hm'). rewrite Hm', Hm, <-Z.mul_assoc, <-Z.pow_add_r by lia.
  replace (- e + (e - Z.min e c)) with (- Z.min e c) by lia. apply round_aux_exact; lia.
Qed.

Lemma num_of_Z_double z : 0 < z < 2 ^ 53 → num_of_Z z = double z.
Proof.
  intros Hz. destruct z as [|m|m]; [lia| |lia]. apply binary_round_exact; [done|lia|]. by rewrite Z.mul_1_r.
Qed.

Lemma mantissa_double z :
  0 < z < 2 ^ 53 → ∃ m, double z = S754_finite false m (Z.log2 z - 52) ∧ Zpos m = z * 2 ^ (- (Z.log2 z - 52)).
Proof.
  intros Hz. pose proof (log2_below z Hz). pose proof (pow2_pos (52 - Z.log2 z) ltac:(lia)).
  exists (Z.to_pos (z * 2 ^ (52 - Z.log2 z))). split; [done|].
  rewrite Z2Pos.id by nia. do 2 f_equal. lia.
Qed.

Lemma num_mul_exact a b :
  0 ≤ a < 2 ^ 53 → 0 ≤ b < 2 ^ 53 → a * b < 2 ^ 53 → num_mul (num_of_Z a) (num_of_Z b) = num_of_Z (a * b).
Proof.
  intros Ha Hb Hab. destruct (decide (a = 0)) as [->|].
  { destruct (decide (b = 0)) as [->|]; [done|]. by rewrite (num_of_Z_double b) by lia. }
  destruct (decide (b = 0)) as [->|].
  { rewrite Z.mul_0_r. by rewrite (num_of_Z_double a) by lia. }
  rewrite !num_of_Z_double by nia.
  destruct (mantissa_double a) as (ma & -> & Hma); [lia|]. destruct (mantissa_double b) as (mb & -> & Hmb); [lia|].
  pose proof (log2_below a ltac:(lia)). pose proof (log2_below b ltac:(lia)).
  unfold num_mul, SFmul. cbn [xorb]. rewrite Pos2Z.inj_mul, Hma, Hmb, <-round_aux_exact with (e := Z.log2 a - 52 + (Z.log2 b - 52)).
  - f_equal. rewrite Z.opp_add_distr, Z.pow_add_r by lia. lia.
  - nia.
  - pose proof (Z.log2_mul_below a b). lia.
Qed.

Lemma math_pow_exact b n :
  1 ≤ b < 2 ^ 53 → 0 ≤ n → b ^ n < 2 ^ 53 → math_pow (num_of_Z b) n = num_of_Z (b ^ n).
Proof.
  intros Hb Hn Hbn. unfold math_pow. destruct (Z.eqb_spec n 0) as [->|]; [done|].
  pose proof (Z.pow_pos_nonneg b n ltac:(lia) Hn).
  rewrite !num_of_Z_double by lia. destruct (mantissa_double b) as (m & -> & Hm); [lia|].
  pose proof (log2_below b ltac:(lia)). cbn [andb].
  apply binary_round_exact; [lia|nia|].
  rewrite Pos2Z.inj_pow, Z2Pos.id, Hm, Z.pow_mul_l, <-Z.pow_mul_r by lia. do 2 f_equal. lia.
Qed.

Lemma math_floor_exact z : 0 ≤ z < 2 ^ 53 → math_floor (num_of_Z z) = num_of_Z z.
Proof.
  intros Hz. destruct (decide (z = 0)) as [->|]; [done|]. rewrite num_of_Z_double by lia.
  destruct (mantissa_double z) as (m & Hd & Hm); [lia|]. rewrite Hd. cbn [math_floor].
  destruct (Z.leb_spec 0 (Z.log2 z - 52)); [done|].
  assert (floor_Z false m (Z.log2 z - 52) = z) as ->.
  { unfold floor_Z. rewrite (proj2 (Z.leb_gt _ _)), Hm by lia. apply Z.div_mul.
    pose proof (pow2_pos (- (Z.log2 z - 52)) ltac:(lia)). lia. }
  rewrite (proj2 (Z.eqb_neq z 0)) by done. by rewrite <-Hd, num_of_Z_double by lia.
Qed.

Lemma num_ltb_exact a b : 0 ≤ a < 2 ^ 53 → 0 ≤ b < 2 ^ 53 → num_ltb (num_of_Z a) (num_of_Z b) = (a <? b).
Proof.
  intros Ha Hb. unfold num_ltb, SFltb.
  destruct (decide (a = 0)) as [->|].
  { destruct (decide (b = 0)) as [->|]; [done|]. rewrite (num_of_Z_double b) by lia.
    cbn. symmetry. apply Z.ltb_lt. lia. }
  destruct (decide (b = 0)) as [->|].
  { rewrite (num_of_Z_double a) by lia. cbn. symmetry. apply Z.ltb_ge. lia. }
  rewrite !num_of_Z_double by lia.
  destruct (mantissa_double a) as (ma & -> & Hma); [lia|]. destruct (mantissa_double b) as (mb & -> & Hmb); [lia|].
  pose proof (log2_below a ltac:(lia)). cbn [SFcompare].
  destruct (Z.compare_spec (Z.log2 a - 52) (Z.log2 b - 52)) as [He|He|He].
  - fold (Pos.compare ma mb). change (ma ?= mb)%positive with (Zpos ma ?= Zpos mb). rewrite Hma, Hmb, <-He.
    pose proof (pow2_pos (- (Z.log2 a - 52)) ltac:(lia)).
    destruct (Z.compare_spec (a * 2 ^ (- (Z.log2 a - 52))) (b * 2 ^ (- (Z.log2 a - 52)))), (Z.ltb_spec a b); done || nia.
  - symmetry. apply Z.ltb_lt, Z.log2_lt_cancel. lia.
  - symmetry. apply Z.ltb_ge, Z.lt_le_incl, Z.log2_lt_cancel. lia.
Qed.

Lemma math_min_exact a b : 0 ≤ a < 2 ^ 53 → 0 ≤ b < 2 ^ 53 → math_min (num_of_Z a) (num_of_Z b) = num_of_Z (Z.min a b).
Proof.
  intros Ha Hb. pose proof (num_ltb_exact b a Hb Ha) as Hlt.
  destruct (decide (a = 0)) as [->|]; [destruct (decide (b = 0)) as [->|]; [done|]|].
  - rewrite Z.min_l by lia. rewrite (num_of_Z_double b) in * by lia. done.
  - unfold math_min. rewrite Hlt. rewrite (num_of_Z_double a) in * by lia. cbn [num_is_nan orb double].
    assert (num_is_nan (num_of_Z b) = false) as -> by
      (destruct (decide (b = 0)) as [->|]; [done|]; by rewrite num_of_Z_double by lia).
    fold (double a). rewrite <-num_of_Z_double by lia. unfold double. fold (double a).
    destruct (Z.ltb_spec b a); [rewrite Z.min_r by lia|rewrite Z.min_l by lia]; done.
Qed.

Lemma num_of_ratio_exact b : 1 ≤ b < 2 ^ 53 → num_of_ratio b 1 = num_of_Z b.
Proof.
  intros Hb. destruct b as [|m|m]; [lia| |lia]. pose proof (log2_below (Zpos m) ltac:(lia)).
  unfold num_of_ratio, SFdiv_core_binary. rewrite digits_log2 by lia. cbn [Zdigits2 digits2_pos].
  rewrite fexp_max. rewrite Z.min_l by lia.
  replace (Z.max (Z.log2 (Zpos m) + 1 + 0 - (1 + 0) - 53) (-1074)) with (- (53 - Z.log2 (Zpos m))) by lia.
  replace (0 - 0 - - (53 - Z.log2 (Zpos m))) with (53 - Z.log2 (Zpos m)) by lia.
  destruct (53 - Z.log2 (Zpos m)) as [|s|s] eqn:Es; [lia| |lia].
  rewrite Z.shiftl_mul_pow2 by lia.
  pose proof (Z_div_mod (Zpos m * 2 ^ Zpos s) 1 ltac:(lia)) as Hd.
  destruct (Z.div_eucl (Zpos m * 2 ^ Zpos s) 1) as [q r]. destruct Hd as [Hd Hr].
  assert (r = 0) as -> by lia. rewrite Z.add_0_r, Z.mul_1_l in Hd. subst q.
  cbn [new_location Z.even new_location_odd Z.eqb].
  rewrite num_of_Z_double, <-round_aux_exact with (e := - Zpos s) by lia. by rewrite Z.opp_involutive.
Qed.

(** ** The sign of a rounded number *)

Definition nonneg (x : JsNum.num) : Prop :=
  match x with S754_zero s | S754_infinity s | S754_finite s _ _ => s = false | S754_nan => False end.

Lemma nonneg_not_nan x : nonneg x → x ≠ num_nan.
Proof. by intros Hx ->. Qed.

Lemma nonneg_num_is_nan x : nonneg x → num_is_nan x = false.
Proof. by destruct x. Qed.

Lemma nonneg_leb x : nonneg x → num_leb num_zero x = true.
Proof. by destruct x as [| | |[]]; try done; simpl; intros ->. Qed.

Lemma round_mantissa m e l : 0 ≤ m → let r := (shr_fexp prec emax m e l).1 in
  0 ≤ round_nearest_even (shr_m r) (loc_of_shr_record r)
  ∧ shr_m r ≤ round_nearest_even (shr_m r) (loc_of_shr_record r).
Proof.
  intros Hm r. assert (0 ≤ shr_m r) as Hr.
  { unfold r. rewrite shr_fexp_m by done. apply Z.div_pos; [done|]. apply pow2_pos. lia. }
  unfold round_nearest_even. destruct (loc_of_shr_record r) as [|[]]; try destruct (Z.even (shr_m r)); lia.
Qed.

Lemma round_aux_nonneg m e l : 0 ≤ m → nonneg (round_aux false m e l).
Proof.
  intros Hm. unfold binary_round_aux. pose proof (round_mantissa m e l Hm) as [Hr _].
  destruct (shr_fexp prec emax m e l) as [r e']. cbn [fst] in Hr.
  pose proof (shr_fexp_m _ e' loc_Exact Hr) as Hs.
  destruct (shr_fexp prec emax _ e' loc_Exact) as [r' e'']. cbn [fst] in Hs.
  pose proof (pow2_pos (Z.max 0 (shift_of (round_nearest_even (shr_m r) (loc_of_shr_record r)) e')) ltac:(lia)) as Hp.
  pose proof (Z.div_pos _ _ Hr Hp) as Hd. rewrite <-Hs in Hd.
  destruct (shr_m r') as [|m'|m']; [done| |lia]. by destruct (e'' <=? emax - prec).
Qed.

Lemma binary_round_nonneg m e : nonneg (binary_round prec emax false m e).
Proof. unfold binary_round. destruct (shl_align m e _) as [m' e']. by apply round_aux_nonneg. Qed.

Lemma num_of_Z_nonneg z : 0 ≤ z → nonneg (num_of_Z z).
Proof. destruct z; [done| |lia]. intros _. apply binary_round_nonneg. Qed.

Lemma num_of_ratio_nonneg p q : nonneg (num_of_ratio p q).
Proof.
  destruct p as [|m|m]; [done| |done]. unfold num_of_ratio, SFdiv_core_binary.
  set (e' := Z.min _ _). set (s := 0 - 0 - e').
  set (m' := match s with Z0 => Zpos m | Zpos _ => Z.shiftl (Zpos m) s | Zneg _ => 0 end).
  assert (0 ≤ m') as Hm'.
  { unfold m'. destruct s; try done. by apply Z.shiftl_nonneg. }
  pose proof (Z_div_mod m' (Zpos q) ltac:(lia)) as Hd. destruct (Z.div_eucl m' (Zpos q)) as [d r].
  apply round_aux_nonneg. nia.
Qed.

Lemma math_pow_nonneg x n : nonneg x → nonneg (math_pow x n).
Proof.
  intros Hx. unfold math_pow. destruct (n =? 0); [done|]. destruct x; simpl in Hx; try done; subst; try done.
  apply binary_round_nonneg.
Qed.

Lemma math_floor_nonneg x : nonneg x → nonneg (math_floor x).
Proof.
  destruct x as [| | |s m e]; try done. simpl. intros ->. destruct (Z.leb_spec 0 e); [done|].
  assert (0 ≤ floor_Z false m e) as Hf.
  { unfold floor_Z. destruct (0 <=? e); [apply Z.mul_nonneg_nonneg; lia|apply Z.div_pos; [lia|apply pow2_pos; lia]]. }
  destruct (floor_Z false m e =? 0); [done|]. by apply num_of_Z_nonneg.
Qed.

Lemma math_min_nonneg x y : nonneg x → nonneg y → nonneg (math_min x y).
Proof.
  intros Hx Hy. unfold math_min. rewrite !nonneg_num_is_nan by done. simpl.
  destruct x, y; simpl in *; subst; try done; by destruct (num_ltb _ _).
Qed.

(** A product that is no number is one of zero and infinity. *)
Lemma num_mul_nonneg x y :
  nonneg x → nonneg y →
  nonneg (num_mul x y) ∨ (num_mul x y = num_nan ∧
    ((x = num_zero ∧ y = S754_infinity false) ∨ (x = S754_infinity false ∧ y = num_zero))).
Proof.
  intros Hx Hy. destruct x, y; simpl in Hx, Hy; subst; try done; cbn; auto.
  left. by apply round_aux_nonneg.
Qed.

(** ** Numbers from [2 ^ 53] on *)

Definition large (x : JsNum.num) : Prop :=
  match x with
  | S754_infinity s => s = false
  | S754_finite s m e => s = false ∧ 52 ≤ Z.log2 (Zpos m) ∧ 1 ≤ e
  | _ => False
  end.

(** What one shift leaves of a mantissa with at least 53 digits. *)
Lemma shr_fexp_large m e l :
  52 ≤ Z.log2 m → 53 ≤ Z.log2 m + e →
  52 ≤ Z.log2 (shr_m (shr_fexp prec emax m e l).1) ∧ 1 ≤ (shr_fexp prec emax m e l).2.
Proof.
  intros Hm He. assert (0 < m) as Hpos by (destruct m; simpl in *; lia).
  rewrite shr_fexp_m, shr_fexp_e by lia. unfold shift_of. rewrite digits_log2, fexp_max by done.
  rewrite <-Z.shiftr_div_pow2, Z.log2_shiftr by lia. lia.
Qed.

Lemma round_aux_large m e l :
  52 ≤ Z.log2 m → 53 ≤ Z.log2 m + e → large (round_aux false m e l).
Proof.
  intros Hm He. assert (0 < m) as Hpos by (destruct m; simpl in *; lia).
  unfold binary_round_aux. pose proof (round_mantissa m e l ltac:(lia)) as [_ Hr].
  pose proof (shr_fexp_large m e l Hm He) as [Hl1 He1].
  destruct (shr_fexp prec emax m e l) as [r e']. cbn [fst snd] in *.
  set (m1 := round_nearest_even (shr_m r) (loc_of_shr_record r)) in *.
  pose proof (Z.log2_le_mono _ _ Hr) as Hm1.
  pose proof (shr_fexp_large m1 e' loc_Exact ltac:(lia) ltac:(lia)) as [Hl2 He2].
  destruct (shr_fexp prec emax m1 e' loc_Exact) as [r' e'']. cbn [fst snd] in *.
  destruct (shr_m r') as [|m'|m']; [simpl in Hl2; lia| |simpl in Hl2; lia].
  by destruct (e'' <=? emax - prec).
Qed.

Lemma binary_round_large m e : 53 ≤ Z.log2 (Zpos m) + e → large (binary_round prec emax false m e).
Proof.
  intros He. unfold binary_round. change (Zpos (digits2_pos m)) with (Zdigits2 (Zpos m)).
  rewrite digits_log2, fexp_max by lia.
  destruct (shl_align_value m e (Z.max (Z.log2 (Zpos m) + 1 + e - 53) (-1074))) as (m' & -> & Hm').
  rewrite Hm'. apply round_aux_large; rewrite Z.log2_mul_pow2 by lia; lia.
Qed.

Lemma math_pow_large b n :
  1 ≤ b < 2 ^ 53 → 0 ≤ n → 2 ^ 53 ≤ b ^ n → large (math_pow (num_of_Z b) n).
Proof.
  intros Hb Hn Hbn. unfold math_pow. destruct (Z.eqb_spec n 0) as [->|]; [lia|].
  rewrite num_of_Z_double by lia. destruct (mantissa_double b) as (m & -> & Hm); [lia|].
  pose proof (log2_below b ltac:(lia)). cbn [andb]. apply binary_round_large.
  rewrite Pos2Z.inj_pow, Z2Pos.id, Hm, Z.pow_mul_l, <-Z.pow_mul_r by lia.
  pose proof (Z.log2_le_mono _ _ Hbn) as Hl. rewrite (Z.log2_pow2 53) in Hl by lia.
  rewrite Z.log2_mul_pow2 by nia. nia.
Qed.

Lemma num_mul_large a y : 1 ≤ a < 2 ^ 53 → large y → large (num_mul (num_of_Z a) y).
Proof.
  intros Ha Hy. rewrite num_of_Z_double by lia. destruct (mantissa_double a) as (m & -> & Hm); [lia|].
  pose proof (log2_below a ltac:(lia)). pose proof (pow2_pos (- (Z.log2 a - 52)) ltac:(lia)).
  destruct y as [s|s| |s m' e']; try done. destruct Hy as (-> & Hm' & He').
  unfold num_mul, SFmul. cbn [xorb]. rewrite Pos2Z.inj_mul.
  pose proof (Z.log2_mul_below (Zpos m) (Zpos m') ltac:(lia) ltac:(lia)) as Hl.
  assert (Z.log2 (Zpos m) = 52) as Hlm by (rewrite Hm, Z.log2_mul_pow2; lia).
  apply round_aux_large; lia.
Qed.

Lemma num_mul_exact_large a b :
  1 ≤ a < 2 ^ 53 → 1 ≤ b < 2 ^ 53 → 2 ^ 53 ≤ a * b → large (num_mul (num_of_Z a) (num_of_Z b)).
Proof.
  intros Ha Hb Hab. rewrite !num_of_Z_double by lia.
  destruct (mantissa_double a) as (ma & -> & Hma); [lia|]. destruct (mantissa_double b) as (mb & -> & Hmb); [lia|].
  pose proof (log2_below a ltac:(lia)). pose proof (log2_below b ltac:(lia)).
  unfold num_mul, SFmul. cbn [xorb].
  assert (Zpos (ma * mb) = a * b * 2 ^ (- (Z.log2 a - 52) + - (Z.log2 b - 52))) as ->.
  { rewrite Pos2Z.inj_mul, Hma, Hmb, Z.pow_add_r by lia. lia. }
  pose proof (Z.log2_le_mono _ _ Hab) as Hl. rewrite (Z.log2_pow2 53) in Hl by lia.
  apply round_aux_large; rewrite Z.log2_mul_pow2 by lia; lia.
Qed.

Lemma math_floor_large x : large x → math_floor x = x.
Proof. destruct x as [| | |s m e]; try done. intros (_ & _ & He). simpl. by rewrite (proj2 (Z.leb_le 0 e)) by lia. Qed.

Lemma math_min_large x z : large x → 0 ≤ z < 2 ^ 53 → math_min x (num_of_Z z) = num_of_Z z.
Proof.
  intros Hx Hz. destruct (decide (z = 0)) as [->|].
  { destruct x as [s|s| |s m e]; simpl in Hx; try done; [by subst|]. by destruct Hx as (-> & _). }
  rewrite num_of_Z_double by lia. destruct (mantissa_double z) as (m' & -> & _); [lia|].
  pose proof (log2_below z ltac:(lia)).
  destruct x as [s|s| |s m e]; simpl in Hx; try done; [by subst|]. destruct Hx as (-> & _ & He).
  unfold math_min, num_ltb, SFltb. cbn [num_is_nan orb SFcompare].
  by rewrite (proj2 (Z.compare_lt_iff _ _)) by lia.
Qed.
