(* ===== verification/JsSort.v ===== *)
(** * [Array.prototype.sort] with a comparator

    The sort is stable: elements the comparator does not separate keep their
    order.  An insertion sort computes what any stable sort computes for a
    consistent comparator. *)

From S2P Require Import Prelude.
From stdpp Require Import sorting.
Open Scope Z_scope.

Section sort.
Context {A : Type} (cmp : A → A → Z).

Fixpoint sort_insert (x : A) (l : list A) : list A :=
  match l with
  | [] => [x]
  | y :: l' => if cmp x y <=? 0 then x :: y :: l' else y :: sort_insert x l'
  end.

Definition js_sort (l : list A) : list A := foldr sort_insert [] l.

(** The order of the comparator. *)
Definition cmp_le (x y : A) : Prop := cmp x y ≤ 0.

Lemma sort_insert_perm x l : sort_insert x l ≡ₚ x :: l.
Proof.
  induction l as [|y l IH]; [done|]. cbn. case_match; [done|]. rewrite IH. apply Permutation_swap.
Qed.

Lemma js_sort_perm l : js_sort l ≡ₚ l.
Proof. induction l as [|x l IH]; [done|]. cbn. by rewrite sort_insert_perm, IH. Qed.

Lemma js_sort_length l : length (js_sort l) = length l.
Proof. by rewrite js_sort_perm. Qed.

(** Elements that are pairwise in order keep their relative order. *)
Lemma js_sort_stable (p : A → bool) l :
  (∀ x y, p x → p y → cmp_le x y) → List.filter p (js_sort l) = List.filter p l.
Proof.
  intros Hp. assert (∀ x l, List.filter p (sort_insert x l) = List.filter p (x :: l)) as Hi.
  { intros x k. induction k as [|y k IH]; [done|]. cbn [sort_insert].
    destruct (cmp x y <=? 0) eqn:E; [done|]. cbn [List.filter] in *. rewrite IH.
    destruct (p x) eqn:Hx, (p y) eqn:Hy; try done.
    apply Z.leb_gt in E. specialize (Hp x y). unfold cmp_le in Hp. rewrite Hx, Hy in Hp.
    specialize (Hp I I). lia. }
  induction l as [|x l IH]; [done|]. cbn [js_sort foldr]. fold (js_sort l). rewrite Hi. cbn. by rewrite IH.
Qed.

Context (cmp_total : ∀ x y, cmp_le x y ∨ cmp_le y x).
Context (cmp_trans : ∀ x y z, cmp_le x y → cmp_le y z → cmp_le x z).

Lemma sort_insert_sorted x l : Sorted cmp_le l → Sorted cmp_le (sort_insert x l).
Proof.
  induction 1 as [|y l Hs IH Hh]; cbn; [by repeat constructor|].
  destruct (cmp x y <=? 0) eqn:E.
  - apply Z.leb_le in E. by repeat constructor.
  - apply Z.leb_gt in E. assert (cmp_le y x) as Hyx
      by (destruct (cmp_total x y) as [H|H]; [unfold cmp_le in H; lia|done]).
    constructor; [done|]. destruct Hh as [|z l Hz]; cbn; [by constructor|].
    case_match; by constructor.
Qed.

Lemma js_sort_sorted l : Sorted cmp_le (js_sort l).
Proof. induction l; cbn; [constructor|by apply sort_insert_sorted]. Qed.

Lemma js_sort_strongly_sorted l : StronglySorted cmp_le (js_sort l).
Proof. apply Sorted_StronglySorted; [exact cmp_trans|apply js_sort_sorted]. Qed.
End sort.

Lemma StronglySorted_mono {A} (R R' : A → A → Prop) l :
  (∀ x y, R x y → R' x y) → StronglySorted R l → StronglySorted R' l.
Proof. intros H. induction 1; constructor; eauto using Forall_impl. Qed.
