(* ===== verification/JsObject.v ===== *)
(** * The own fields of JavaScript objects, in order

    An object lists its own fields - in [Object.keys], [Object.entries],
    [JSON.stringify] and copies - with the names that are array indices first, in
    ascending order, and then the others in the order in which they were added.
    A record of the model holds the fields in the order in which they were added;
    [own_fields] is the order in which they are listed. *)

From S2P Require Import Prelude JsSort JsString JsNum.
From stdpp Require Import sorting.
From Stdlib Require Import Ascii.
Open Scope Z_scope.

(** A canonical numeric name below [2 ^ 32 - 1]. *)
Definition index_of_key (p : string) : option Z :=
  match chars p with
  | [] => None
  | "0"%char :: _ :: _ => None
  | l => if forallb is_digit l && (digits_val l <? 2 ^ 32 - 1) then Some (digits_val l) else None
  end.

Definition compare_keys (a b : string) : Z :=
  match index_of_key a, index_of_key b with
  | Some i, Some j => i - j
  | Some _, None => -1
  | None, Some _ => 1
  | None, None => 0
  end.

Definition own_fields {A} (fs : list (string * A)) : list (string * A) :=
  js_sort (λ x y, compare_keys x.1 y.1) fs.

(** Names listed in their own order. *)
Fixpoint in_own_order (ks : list string) : bool :=
  match ks with
  | a :: (b :: _) as r => (compare_keys a b <=? 0) && in_own_order r
  | _ => true
  end.

(** The names of an object: distinct, and in their own order. *)
Definition own_keys (ks : list string) : Prop := NoDup ks ∧ in_own_order ks = true.

#[export] Instance own_keys_dec ks : Decision (own_keys ks) := _.

Section fields.
Context {A : Type}.
Implicit Types fs : list (string * A).

Lemma own_fields_perm fs : own_fields fs ≡ₚ fs.
Proof. apply js_sort_perm. Qed.

Lemma own_fields_keys_in fs k : k ∈ (own_fields fs).*1 ↔ k ∈ fs.*1.
Proof. by rewrite own_fields_perm. Qed.

Lemma own_fields_cons a fs : own_fields (a :: fs) = sort_insert (λ x y, compare_keys x.1 y.1) a (own_fields fs).
Proof. done. Qed.

(** Fields that are in order stay as they are. *)
Lemma own_fields_ordered fs : in_own_order fs.*1 = true → own_fields fs = fs.
Proof.
  induction fs as [|a fs IH]; [done|]. intros Ho. rewrite own_fields_cons.
  destruct fs as [|b fs]; [done|]. cbn [fmap list_fmap in_own_order] in Ho. apply andb_true_iff in Ho as [Hab Ho].
  rewrite IH by exact Ho. cbn [sort_insert]. by rewrite Hab.
Qed.
End fields.

Lemma compare_keys_total a b : compare_keys a b ≤ 0 ∨ compare_keys b a ≤ 0.
Proof. unfold compare_keys. destruct (index_of_key a), (index_of_key b); lia. Qed.

Lemma compare_keys_trans a b c : compare_keys a b ≤ 0 → compare_keys b c ≤ 0 → compare_keys a c ≤ 0.
Proof. unfold compare_keys. destruct (index_of_key a), (index_of_key b), (index_of_key c); lia. Qed.

Lemma in_own_order_spec ks : in_own_order ks = true ↔ Sorted (λ a b, compare_keys a b ≤ 0) ks.
Proof.
  induction ks as [|a ks IH]; [split; [constructor|done]|]. destruct ks as [|b ks]; [split; [by repeat constructor|done]|].
  cbn [in_own_order]. rewrite andb_true_iff, IH, Z.leb_le. split.
  - intros [Hab Hs]. constructor; [done|by constructor].
  - intros Hs. inversion Hs as [|? ? Hs' Hh]; subst. by inversion Hh.
Qed.

(** What [own_fields] lists is in order. *)
Lemma own_fields_in_order {A} (fs : list (string * A)) : in_own_order (own_fields fs).*1 = true.
Proof.
  apply in_own_order_spec. assert (Sorted (cmp_le (λ x y : string * A, compare_keys x.1 y.1)) (own_fields fs)) as Hs.
  { apply js_sort_sorted. intros x y. apply compare_keys_total. }
  induction Hs as [|a l _ IH Hh]; [constructor|]. constructor; [done|]. destruct Hh; by constructor.
Qed.

Lemma own_fields_idemp {A} (fs : list (string * A)) : own_fields (own_fields fs) = own_fields fs.
Proof. apply own_fields_ordered, own_fields_in_order. Qed.

(** A field is found under its name in either order. *)
Lemma own_fields_lookup {A} (fs : list (string * A)) k :
  List.filter (λ kv, bool_decide (kv.1 = k)) (own_fields fs) = List.filter (λ kv, bool_decide (kv.1 = k)) fs.
Proof.
  apply js_sort_stable. intros x y Hx%bool_decide_unpack Hy%bool_decide_unpack. unfold cmp_le. rewrite Hx, Hy.
  destruct (compare_keys_total k k); done.
Qed.

Example own_fields_mixed :
  own_fields [("b", 1); ("10", 2); ("a", 3); ("9", 4); ("01", 5); ("4294967295", 6)]
  = [("9", 4); ("10", 2); ("b", 1); ("a", 3); ("01", 5); ("4294967295", 6)].
Proof. by vm_compute. Qed.
