(* ===== verification/JsDate.v ===== *)
(** * JavaScript dates

    A [Date] is a time value: an integer number of milliseconds since the epoch
    (the model leaves out the invalid date).  The accessors are the proleptic
    Gregorian calendar of ECMAScript in UTC; [toISOString] and the parsing of its
    output are mutually inverse. *)

From S2P Require Import Prelude JsString JsNum.
From Stdlib Require Import Ascii.
Open Scope Z_scope.

Definition msPerMinute : Z := 60000.
Definition msPerHour : Z := 3600000.
Definition msPerDay : Z := 86400000.

(** ** The calendar, on days since 1970-01-01 *)

(** The day [d] (from 1) of month [m] (1 to 12) of year [y]: eras of 400 years
    that start on March 1st. *)
Definition days_from_civil (y m d : Z) : Z :=
  let y' := if m <=? 2 then y - 1 else y in
  let era := y' / 400 in
  let yoe := y' mod 400 in
  let mp := if m <=? 2 then m + 9 else m - 3 in
  let doy := (153 * mp + 2) / 5 + d - 1 in
  let doe := yoe * 365 + yoe / 4 - yoe / 100 + doy in
  era * 146097 + doe - 719468.

Definition civil_from_days (z : Z) : Z * Z * Z :=
  let z := z + 719468 in
  let era := z / 146097 in
  let doe := z mod 146097 in
  let yoe := (doe - doe / 1460 + doe / 36524 - doe / 146096) / 365 in
  let doy := doe - (365 * yoe + yoe / 4 - yoe / 100) in
  let mp := (5 * doy + 2) / 153 in
  let d := doy - (153 * mp + 2) / 5 + 1 in
  let m := if mp <? 10 then mp + 3 else mp - 9 in
  ((if m <=? 2 then yoe + era * 400 + 1 else yoe + era * 400), m, d).

(** Bounds of the intermediate values: the year of the era, the day of the year
    and the month counted from March. *)
Lemma yoe_bounds doe :
  0 ≤ doe < 146097 → 0 ≤ (doe - doe / 1460 + doe / 36524 - doe / 146096) / 365 ≤ 399.
Proof. intros. Z.div_mod_to_equations. lia. Qed.

Lemma doy_bounds doe :
  0 ≤ doe < 146097 →
  let yoe := (doe - doe / 1460 + doe / 36524 - doe / 146096) / 365 in
  0 ≤ doe - (365 * yoe + yoe / 4 - yoe / 100) ≤ 365.
Proof.
  intros Hdoe yoe. pose proof (yoe_bounds doe Hdoe). unfold yoe in *.
  Z.div_mod_to_equations. lia.
Qed.

Lemma month_bounds doy :
  0 ≤ doy ≤ 365 →
  0 ≤ (5 * doy + 2) / 153 ≤ 11 ∧ 1 ≤ doy - (153 * ((5 * doy + 2) / 153) + 2) / 5 + 1 ≤ 31.
Proof. intros. Z.div_mod_to_equations. lia. Qed.

Lemma civil_round_trip z :
  let '(y, m, d) := civil_from_days z in
  days_from_civil y m d = z ∧ 1 ≤ m ≤ 12 ∧ 1 ≤ d ≤ 31.
Proof.
  unfold civil_from_days. cbn zeta.
  set (era := (z + 719468) / 146097). set (doe := (z + 719468) mod 146097).
  assert (z = era * 146097 + doe - 719468) as Hz.
  { unfold doe, era. pose proof (Z.div_mod (z + 719468) 146097). lia. }
  assert (0 ≤ doe < 146097) as Hdoe by (apply Z.mod_pos_bound; lia).
  pose proof (yoe_bounds doe Hdoe) as Hyoe. pose proof (doy_bounds doe Hdoe) as Hdoy.
  cbn zeta in Hdoy. clearbody era doe.
  set (yoe := (doe - _ + _ - _) / 365) in *.
  pose proof (month_bounds _ Hdoy) as [Hmp Hd].
  set (doy := doe - (365 * yoe + yoe / 4 - yoe / 100)) in *.
  set (mp := (5 * doy + 2) / 153) in *. set (d := doy - (153 * mp + 2) / 5 + 1) in *.
  assert ((yoe + era * 400) / 400 = era ∧ (yoe + era * 400) mod 400 = yoe) as [Hdiv Hmod].
  { rewrite Z.div_add, Z.mod_add by lia. rewrite Z.div_small, Z.mod_small by lia. lia. }
  unfold days_from_civil.
  destruct (Z.ltb_spec mp 10).
  - destruct (Z.leb_spec (mp + 3) 2); [lia|]. rewrite Hdiv, Hmod.
    replace (mp + 3 - 3) with mp by lia. cbn zeta. subst d. lia.
  - destruct (Z.leb_spec (mp - 9) 2); [|lia].
    replace (yoe + era * 400 + 1 - 1) with (yoe + era * 400) by lia. rewrite Hdiv, Hmod.
    replace (mp - 9 + 9) with mp by lia. cbn zeta. subst d. lia.
Qed.

(** ** Accessors *)

Definition time_in_day (t : Z) : Z := t mod msPerDay.
Definition day_of (t : Z) : Z := t / msPerDay.

Definition getUTCMilliseconds (t : Z) : Z := t mod 1000.
Definition getUTCSeconds (t : Z) : Z := (t / 1000) mod 60.
Definition getUTCMinutes (t : Z) : Z := (t / msPerMinute) mod 60.
Definition getUTCHours (t : Z) : Z := (t / msPerHour) mod 24.
Definition getUTCDay (t : Z) : Z := (day_of t + 4) mod 7.
Definition getUTCDate (t : Z) : Z := let '(_, _, d) := civil_from_days (day_of t) in d.
(** As in JavaScript, January is 0. *)
Definition getUTCMonth (t : Z) : Z := let '(_, m, _) := civil_from_days (day_of t) in m - 1.
Definition getUTCFullYear (t : Z) : Z := let '(y, _, _) := civil_from_days (day_of t) in y.

(** [MakeTime] and [MakeDate]. *)
Definition make_date (day hour minute second ms : Z) : Z :=
  day * msPerDay + (hour * msPerHour + minute * msPerMinute + second * 1000 + ms).

(** [d.setUTCSeconds(s, ms)], [d.setUTCMinutes(m)] and [d.setUTCDate(dt)]: the
    arguments are not bounded, and carry into the larger units. *)
Definition setUTCSeconds (t s ms : Z) : Z :=
  make_date (day_of t) (getUTCHours t) (getUTCMinutes t) s ms.
Definition setUTCMinutes (t m : Z) : Z :=
  make_date (day_of t) (getUTCHours t) m (getUTCSeconds t) (getUTCMilliseconds t).
Definition setUTCDate (t dt : Z) : Z :=
  (days_from_civil (getUTCFullYear t) (getUTCMonth t + 1) 1 + dt - 1) * msPerDay + time_in_day t.

Lemma time_components t :
  t = make_date (day_of t) (getUTCHours t) (getUTCMinutes t) (getUTCSeconds t)
        (getUTCMilliseconds t).
Proof.
  unfold make_date, day_of, getUTCHours, getUTCMinutes, getUTCSeconds, getUTCMilliseconds,
    msPerDay, msPerHour, msPerMinute.
  Z.div_mod_to_equations. lia.
Qed.

Lemma setUTCMinutes_add t k : setUTCMinutes t (getUTCMinutes t + k) = t + k * msPerMinute.
Proof. pose proof (time_components t). unfold setUTCMinutes, make_date in *. lia. Qed.

Lemma setUTCSeconds_floor t : setUTCSeconds t 0 0 = t / msPerMinute * msPerMinute.
Proof.
  unfold setUTCSeconds, make_date, day_of, getUTCHours, getUTCMinutes,
    msPerDay, msPerHour, msPerMinute.
  Z.div_mod_to_equations. lia.
Qed.

Lemma setUTCDate_add t k : setUTCDate t (getUTCDate t + k) = t + k * msPerDay.
Proof.
  pose proof (civil_round_trip (day_of t)) as H.
  unfold setUTCDate, getUTCDate, getUTCMonth, getUTCFullYear.
  destruct (civil_from_days (day_of t)) as [[y m] d]. destruct H as (Hd & _ & _).
  replace (m - 1 + 1) with m by lia.
  assert (days_from_civil y m 1 = days_from_civil y m d + (1 - d)) as ->
    by (unfold days_from_civil; destruct (m <=? 2); lia).
  rewrite Hd. unfold time_in_day, day_of. pose proof (Z.div_mod t msPerDay). unfold msPerDay in *. lia.
Qed.

(** ** [toISOString] *)

(** [z] in decimal, padded with zeros to [w] digits. *)
Fixpoint pad_digits (w : nat) (z : Z) : list ascii :=
  match w with
  | O => []
  | S w' => pad_digits w' (z / 10) ++ [ascii_of_N (Z.to_N (48 + z mod 10))]
  end.

Definition iso_chars (t : Z) : list ascii :=
  let y := getUTCFullYear t in
  (if (0 <=? y) && (y <=? 9999) then pad_digits 4 y
   else (if y <? 0 then "-"%char else "+"%char) :: pad_digits 6 (Z.abs y))
  ++ "-"%char :: pad_digits 2 (getUTCMonth t + 1)
  ++ "-"%char :: pad_digits 2 (getUTCDate t)
  ++ "T"%char :: pad_digits 2 (getUTCHours t)
  ++ ":"%char :: pad_digits 2 (getUTCMinutes t)
  ++ ":"%char :: pad_digits 2 (getUTCSeconds t)
  ++ "."%char :: pad_digits 3 (getUTCMilliseconds t)
  ++ ["Z"%char].

Definition toISOString (t : Z) : string := of_chars (iso_chars t).

(** [new Date(s).getTime()] for a string in the four-digit-year format that
    [toISOString] produces. *)
Definition parse_iso (s : string) : option Z :=
  match chars s with
  | [y1; y2; y3; y4; "-"; m1; m2; "-"; d1; d2; "T"; h1; h2; ":"; n1; n2; ":"; s1; s2; ".";
     f1; f2; f3; "Z"]%char =>
      if forallb is_digit [y1; y2; y3; y4; m1; m2; d1; d2; h1; h2; n1; n2; s1; s2; f1; f2; f3] then
        Some (make_date
          (days_from_civil (digits_val [y1; y2; y3; y4]) (digits_val [m1; m2]) (digits_val [d1; d2]))
          (digits_val [h1; h2]) (digits_val [n1; n2]) (digits_val [s1; s2]) (digits_val [f1; f2; f3]))
      else None
  | _ => None
  end.

Example iso_epoch : toISOString 0 = "1970-01-01T00:00:00.000Z".
Proof. reflexivity. Qed.
Example iso_2026 : parse_iso "2026-03-01T12:05:00.000Z" = Some 1772366700000.
Proof. reflexivity. Qed.
Example iso_leap : toISOString 1709164800123 = "2024-02-29T00:00:00.123Z".
Proof. reflexivity. Qed.

Lemma digit_char_ok z :
  0 ≤ z < 10 →
  is_digit (ascii_of_N (Z.to_N (48 + z))) = true ∧ digit_val (ascii_of_N (Z.to_N (48 + z))) = z.
Proof.
  intros Hz.
  assert (z = 0 ∨ z = 1 ∨ z = 2 ∨ z = 3 ∨ z = 4 ∨ z = 5 ∨ z = 6 ∨ z = 7 ∨ z = 8 ∨ z = 9)
    as Hc by lia.
  repeat (destruct Hc as [->|Hc]; [split; reflexivity|]). by subst.
Qed.

Lemma pad_digits_ok w z :
  0 ≤ z < 10 ^ Z.of_nat w →
  length (pad_digits w z) = w ∧ forallb is_digit (pad_digits w z) = true
  ∧ digits_val (pad_digits w z) = z.
Proof.
  revert z. induction w as [|w IH]; intros z Hz.
  { simpl in *. repeat split; [done..|]. unfold digits_val; simpl. lia. }
  destruct (IH (z / 10)) as (Hl & Hd & Hv).
  { rewrite Nat2Z.inj_succ, Z.pow_succ_r in Hz by lia.
    split; [apply Z.div_pos; lia|apply Z.div_lt_upper_bound; lia]. }
  destruct (digit_char_ok (z mod 10)) as [Hc1 Hc2]; [apply Z.mod_pos_bound; lia|].
  cbn [pad_digits]. rewrite length_app, forallb_app, Hl, Hd. cbn [length forallb].
  rewrite Hc1. split; [lia|]. split; [done|].
  unfold digits_val in *. rewrite foldl_app, Hv. cbn [foldl]. rewrite Hc2.
  pose proof (Z.div_mod z 10). lia.
Qed.

(** Reading back what [toISOString] prints. *)
Lemma parse_iso_toISOString t :
  0 ≤ getUTCFullYear t ≤ 9999 → parse_iso (toISOString t) = Some t.
Proof.
  intros Hy. unfold parse_iso, toISOString. rewrite chars_of_chars. unfold iso_chars.
  assert ((0 <=? getUTCFullYear t) && (getUTCFullYear t <=? 9999) = true) as -> by lia.
  pose proof (civil_round_trip (day_of t)) as Hciv.
  assert (Ht := time_components t).
  assert (0 ≤ getUTCHours t < 24) by (apply Z.mod_pos_bound; lia).
  assert (0 ≤ getUTCMinutes t < 60) by (apply Z.mod_pos_bound; lia).
  assert (0 ≤ getUTCSeconds t < 60) by (apply Z.mod_pos_bound; lia).
  assert (0 ≤ getUTCMilliseconds t < 1000) by (apply Z.mod_pos_bound; lia).
  assert (days_from_civil (getUTCFullYear t) (getUTCMonth t + 1) (getUTCDate t) = day_of t
    ∧ 1 ≤ getUTCMonth t + 1 ≤ 12 ∧ 1 ≤ getUTCDate t ≤ 31) as (Hday & Hm & Hd).
  { unfold getUTCFullYear, getUTCMonth, getUTCDate.
    destruct (civil_from_days (day_of t)) as [[y m] d].
    replace (m - 1 + 1) with m by lia. done. }
  pose proof (pad_digits_ok 4 (getUTCFullYear t) ltac:(simpl; lia)) as (Ly & Dy & Vy).
  pose proof (pad_digits_ok 2 (getUTCMonth t + 1) ltac:(simpl; lia)) as (Lm & Dm & Vm).
  pose proof (pad_digits_ok 2 (getUTCDate t) ltac:(simpl; lia)) as (Ld & Dd & Vd).
  pose proof (pad_digits_ok 2 (getUTCHours t) ltac:(simpl; lia)) as (Lh & Dh & Vh).
  pose proof (pad_digits_ok 2 (getUTCMinutes t) ltac:(simpl; lia)) as (Ln & Dn & Vn).
  pose proof (pad_digits_ok 2 (getUTCSeconds t) ltac:(simpl; lia)) as (Ls & Ds & Vs).
  pose proof (pad_digits_ok 3 (getUTCMilliseconds t) ltac:(simpl; lia)) as (Lf & Df & Vf).
  revert Ly Lm Ld Lh Ln Ls Lf Dy Dm Dd Dh Dn Ds Df Vy Vm Vd Vh Vn Vs Vf.
  generalize (pad_digits 4 (getUTCFullYear t)) (pad_digits 2 (getUTCMonth t + 1))
    (pad_digits 2 (getUTCDate t)) (pad_digits 2 (getUTCHours t)) (pad_digits 2 (getUTCMinutes t))
    (pad_digits 2 (getUTCSeconds t)) (pad_digits 3 (getUTCMilliseconds t)).
  intros ly lm ld lh ln ls lf.
  destruct ly as [|y1 [|y2 [|y3 [|y4 [|? ?]]]]]; intros [=].
  destruct lm as [|m1 [|m2 [|? ?]]]; intros [=]. destruct ld as [|d1 [|d2 [|? ?]]]; intros [=].
  destruct lh as [|h1 [|h2 [|? ?]]]; intros [=]. destruct ln as [|n1 [|n2 [|? ?]]]; intros [=].
  destruct ls as [|s1 [|s2 [|? ?]]]; intros [=].
  destruct lf as [|f1 [|f2 [|f3 [|? ?]]]]; intros [=].
  intros Dy Dm Dd Dh Dn Ds Df Vy Vm Vd Vh Vn Vs Vf.
  cbn [app]. rewrite Vy, Vm, Vd, Vh, Vn, Vs, Vf.
  assert (forallb is_digit ([y1; y2; y3; y4] ++ [m1; m2] ++ [d1; d2] ++ [h1; h2] ++ [n1; n2]
    ++ [s1; s2] ++ [f1; f2; f3]) = true) as Hdig
    by (rewrite !forallb_app, Dy, Dm, Dd, Dh, Dn, Ds, Df; done).
  cbn [app] in Hdig. rewrite Hdig, Hday. by f_equal.
Qed.
