(* ===== verification/IsoOrder.v ===== *)
(** * The order of ISO dates

    The engine compares dates as strings.  For four-digit years the order of the
    strings [toISOString] prints is the order of the times. *)

From S2P Require Import Prelude JsString JsNum JsDate.
From Stdlib Require Import Ascii.
Open Scope Z_scope.

(** ** Days in March-based years *)

(** The days before March 1st of the year [Y], from March 1st of the year 0. *)
Definition march_start (Y : Z) : Z := 365 * Y + Y / 4 - Y / 100 + Y / 400.
Definition month_start (mp : Z) : Z := (153 * mp + 2) / 5.

(** The year and month of a date as one number. *)
Definition month_number (y m : Z) : Z := 12 * y + m.

Lemma march_start_mono Y Y' : Y ≤ Y' → march_start Y ≤ march_start Y'.
Proof. unfold march_start. intros H. Z.div_mod_to_equations. lia. Qed.

Lemma month_start_mono m m' : m ≤ m' → month_start m ≤ month_start m'.
Proof. unfold month_start. intros H. apply Z.div_le_mono; lia. Qed.

Lemma year_of_era doe :
  0 ≤ doe < 146097 →
  let yoe := (doe - doe / 1460 + doe / 36524 - doe / 146096) / 365 in
  doe < (if yoe =? 399 then 146097 else 365 * (yoe + 1) + (yoe + 1) / 4 - (yoe + 1) / 100).
Proof.
  intros Hdoe yoe. pose proof (yoe_bounds doe Hdoe). unfold yoe in *.
  destruct (_ =? 399) eqn:E; [lia|]. apply Z.eqb_neq in E. Z.div_mod_to_equations. lia.
Qed.

Lemma month_of_year doy :
  0 ≤ doy → month_start ((5 * doy + 2) / 153) ≤ doy < month_start ((5 * doy + 2) / 153 + 1).
Proof. intros. unfold month_start. Z.div_mod_to_equations. lia. Qed.

(** A date as March-based year, month and day. *)
Record march_date (z : Z) (y m d Y mp : Z) : Prop := {
  md_days : z + 719468 = march_start Y + month_start mp + d - 1;
  md_day : 1 ≤ d ∧ month_start mp + d - 1 < month_start (mp + 1);
  md_year : z + 719468 < march_start (Y + 1);
  md_month : 0 ≤ mp ≤ 11;
  md_number : month_number y m = month_number Y mp + 3;
}.

Lemma civil_march z :
  let '(y, m, d) := civil_from_days z in ∃ Y mp, march_date z y m d Y mp.
Proof.
  unfold civil_from_days. cbn zeta.
  set (era := (z + 719468) / 146097). set (doe := (z + 719468) mod 146097).
  assert (z + 719468 = era * 146097 + doe) as Hz by (unfold doe, era; pose proof (Z.div_mod (z + 719468) 146097); lia).
  assert (0 ≤ doe < 146097) as Hdoe by (apply Z.mod_pos_bound; lia).
  pose proof (yoe_bounds doe Hdoe) as Hyoe. pose proof (doy_bounds doe Hdoe) as Hdoy.
  pose proof (year_of_era doe Hdoe) as Hnext. cbn zeta in Hdoy, Hnext. clearbody era doe.
  set (yoe := (doe - _ + _ - _) / 365) in *.
  set (doy := doe - (365 * yoe + yoe / 4 - yoe / 100)) in *.
  pose proof (month_bounds _ Hdoy) as [Hmp Hd]. pose proof (month_of_year doy ltac:(lia)) as Hm.
  set (mp := (5 * doy + 2) / 153) in *. fold (month_start mp) in *.
  assert (∀ n, 0 ≤ n ≤ 399 → march_start (n + era * 400) = era * 146097 + (365 * n + n / 4 - n / 100)) as Hstart.
  { intros n Hn. unfold march_start. replace (n + era * 400) with (n + (era * 100) * 4) at 2 by lia.
    replace (n + era * 400) with (n + (era * 4) * 100) at 2 by lia.
    rewrite !Z.div_add by lia. rewrite (Z.div_small n 400) by lia. lia. }
  exists (yoe + era * 400), mp. split.
  - rewrite Hstart by done. unfold doy in *. lia.
  - lia.
  - destruct (yoe =? 399) eqn:E.
    + apply Z.eqb_eq in E. rewrite E. replace (399 + era * 400 + 1) with (0 + (era + 1) * 400) by lia.
      unfold march_start. replace (0 + (era + 1) * 400) with (0 + ((era + 1) * 100) * 4) at 2 by lia.
      replace (0 + (era + 1) * 400) with (0 + ((era + 1) * 4) * 100) at 2 by lia.
      rewrite !Z.div_add by lia. change (0 / 4) with 0. change (0 / 100) with 0. change (0 / 400) with 0. lia.
    + apply Z.eqb_neq in E. replace (yoe + era * 400 + 1) with ((yoe + 1) + era * 400) by lia.
      rewrite Hstart by lia. lia.
  - done.
  - unfold month_number. destruct (mp <? 10) eqn:E; [apply Z.ltb_lt in E|apply Z.ltb_ge in E].
    + destruct (Z.leb_spec (mp + 3) 2); lia.
    + destruct (Z.leb_spec (mp - 9) 2); lia.
Qed.

(** Later days have later dates. *)
Lemma civil_mono z z' :
  z < z' →
  let '(y, m, d) := civil_from_days z in let '(y', m', d') := civil_from_days z' in
  month_number y m < month_number y' m' ∨ (month_number y m = month_number y' m' ∧ d < d').
Proof.
  intros Hlt. pose proof (civil_march z) as H. pose proof (civil_march z') as H'.
  destruct (civil_from_days z) as [[y m] d], (civil_from_days z') as [[y' m'] d'].
  destruct H as (Y & mp & [H1 H2 H3 H4 H5]), H' as (Y' & mp' & [H1' H2' H3' H4' H5']).
  rewrite H5, H5'. unfold month_number in *.
  destruct (Z.lt_trichotomy Y Y') as [HY|[HY|HY]].
  - left. lia.
  - subst Y'. destruct (Z.lt_trichotomy mp mp') as [Hm|[Hm|Hm]]; [left; lia|subst mp'; right; lia|].
    pose proof (month_start_mono (mp' + 1) mp ltac:(lia)). lia.
  - pose proof (march_start_mono (Y' + 1) Y ltac:(lia)).
    pose proof (month_start_mono 0 mp ltac:(lia)). change (month_start 0) with 0 in *. lia.
Qed.

(** ** Times as lists of numbers *)

Fixpoint lex_ltb (a b : list Z) : bool :=
  match a, b with
  | x :: a, y :: b => if x <? y then true else if y <? x then false else lex_ltb a b
  | _, _ => false
  end.

Lemma lex_ltb_irrefl a : lex_ltb a a = false.
Proof. induction a as [|x a IH]; [done|]. cbn. by rewrite Z.ltb_irrefl. Qed.

Lemma lex_ltb_asym a b : lex_ltb a b = true → lex_ltb b a = false.
Proof.
  revert b. induction a as [|x a IH]; intros [|y b]; try done. cbn.
  destruct (Z.ltb_spec x y), (Z.ltb_spec y x); try done; try lia. apply IH.
Qed.

Definition iso_fields (t : Z) : list Z :=
  [getUTCFullYear t; getUTCMonth t + 1; getUTCDate t; getUTCHours t; getUTCMinutes t; getUTCSeconds t; getUTCMilliseconds t].

Lemma lex_fields_lt t t' : t < t' → lex_ltb (iso_fields t) (iso_fields t') = true.
Proof.
  intros Hlt. unfold iso_fields, getUTCFullYear, getUTCMonth, getUTCDate.
  assert (∀ t, 0 ≤ getUTCHours t < 24 ∧ 0 ≤ getUTCMinutes t < 60 ∧ 0 ≤ getUTCSeconds t < 60
    ∧ 0 ≤ getUTCMilliseconds t < 1000) as Hb by (intros; repeat split; by apply Z.mod_pos_bound).
  pose proof (time_components t) as Ht. pose proof (time_components t') as Ht'.
  pose proof (Hb t) as Hbt. pose proof (Hb t') as Hbt'. clear Hb.
  set (h := getUTCHours t) in *. set (n := getUTCMinutes t) in *. set (s := getUTCSeconds t) in *.
  set (f := getUTCMilliseconds t) in *. set (h' := getUTCHours t') in *. set (n' := getUTCMinutes t') in *.
  set (s' := getUTCSeconds t') in *. set (f' := getUTCMilliseconds t') in *.
  unfold make_date, msPerDay, msPerHour, msPerMinute in Ht, Ht'. clearbody h n s f h' n' s' f'.
  destruct (Z.lt_trichotomy (day_of t) (day_of t')) as [Hday|[Hday|Hday]]; [| |lia].
  - pose proof (civil_mono _ _ Hday) as Hc.
    pose proof (civil_round_trip (day_of t)) as Hr. pose proof (civil_round_trip (day_of t')) as Hr'.
    destruct (civil_from_days (day_of t)) as [[y m] d], (civil_from_days (day_of t')) as [[y' m'] d'].
    unfold month_number in Hc. cbn [lex_ltb].
    destruct (Z.ltb_spec y y'); [done|]. destruct (Z.ltb_spec y' y); [lia|].
    destruct (Z.ltb_spec (m - 1 + 1) (m' - 1 + 1)); [done|]. destruct (Z.ltb_spec (m' - 1 + 1) (m - 1 + 1)); [lia|].
    destruct (Z.ltb_spec d d'); [done|]. lia.
  - rewrite Hday. destruct (civil_from_days (day_of t')) as [[y m] d]. cbn [lex_ltb]. rewrite !Z.ltb_irrefl.
    destruct (Z.ltb_spec h h'); [done|]. destruct (Z.ltb_spec h' h); [lia|].
    destruct (Z.ltb_spec n n'); [done|]. destruct (Z.ltb_spec n' n); [lia|].
    destruct (Z.ltb_spec s s'); [done|]. destruct (Z.ltb_spec s' s); [lia|].
    destruct (Z.ltb_spec f f'); [done|]. lia.
Qed.

Lemma lex_fields t t' : lex_ltb (iso_fields t) (iso_fields t') = (t <? t').
Proof.
  destruct (Z.lt_trichotomy t t') as [H|[->|H]].
  - rewrite lex_fields_lt by done. symmetry. by apply Z.ltb_lt.
  - by rewrite lex_ltb_irrefl, Z.ltb_irrefl.
  - rewrite (lex_ltb_asym _ _ (lex_fields_lt _ _ H)). symmetry. apply Z.ltb_ge. lia.
Qed.

(** ** Strings of padded numbers *)

Lemma chars_ltb_irrefl l : chars_ltb l l = false.
Proof. induction l as [|c l IH]; [done|]. cbn. by rewrite N.ltb_irrefl. Qed.

Lemma chars_ltb_app l l' r r' :
  length l = length l' →
  chars_ltb (l ++ r) (l' ++ r') = chars_ltb l l' || (negb (chars_ltb l' l) && chars_ltb r r').
Proof.
  revert l'. induction l as [|c l IH]; intros [|c' l'] Hl; try done. cbn.
  destruct (char_code c <? char_code c')%N eqn:E1; [done|].
  destruct (char_code c' <? char_code c)%N eqn:E2; [done|]. apply IH. by injection Hl.
Qed.

Lemma digit_code z : 0 ≤ z < 10 → char_code (ascii_of_N (Z.to_N (48 + z))) = Z.to_N (48 + z).
Proof. intros Hz. unfold char_code. apply N_ascii_embedding. lia. Qed.

Lemma pad_digits_length w z : length (pad_digits w z) = w.
Proof. revert z. induction w as [|w IH]; intros z; [done|]. cbn [pad_digits]. rewrite length_app, IH. cbn. lia. Qed.

Lemma pad_digits_ltb w z z' :
  0 ≤ z < 10 ^ Z.of_nat w → 0 ≤ z' < 10 ^ Z.of_nat w →
  chars_ltb (pad_digits w z) (pad_digits w z') = (z <? z').
Proof.
  revert z z'. induction w as [|w IH]; intros z z' Hz Hz'.
  { simpl in Hz, Hz'. symmetry. apply Z.ltb_ge. lia. }
  rewrite Nat2Z.inj_succ, Z.pow_succ_r in Hz, Hz' by lia. cbn [pad_digits].
  pose proof (Z.div_mod z 10). pose proof (Z.div_mod z' 10).
  pose proof (Z.mod_pos_bound z 10). pose proof (Z.mod_pos_bound z' 10).
  rewrite chars_ltb_app by by rewrite !pad_digits_length.
  rewrite !IH by (split; [apply Z.div_pos; lia|apply Z.div_lt_upper_bound; lia]).
  cbn [chars_ltb]. rewrite !digit_code by lia.
  destruct (Z.ltb_spec (z / 10) (z' / 10)); [cbn; symmetry; apply Z.ltb_lt; lia|].
  destruct (Z.ltb_spec (z' / 10) (z / 10)); [cbn; symmetry; apply Z.ltb_ge; lia|]. cbn [negb andb orb].
  destruct (Z.to_N (48 + z mod 10) <? Z.to_N (48 + z' mod 10))%N eqn:E1;
    [apply N.ltb_lt in E1; symmetry; apply Z.ltb_lt; lia|].
  apply N.ltb_ge in E1. destruct (_ <? _)%N; symmetry; apply Z.ltb_ge; lia.
Qed.

(** A padded number and a separator decide, or leave the rest to decide. *)
Lemma chars_ltb_field w z z' c r r' :
  0 ≤ z < 10 ^ Z.of_nat w → 0 ≤ z' < 10 ^ Z.of_nat w →
  chars_ltb (pad_digits w z ++ c :: r) (pad_digits w z' ++ c :: r')
  = if z <? z' then true else if z' <? z then false else chars_ltb r r'.
Proof.
  intros Hz Hz'. rewrite chars_ltb_app by by rewrite !pad_digits_length. rewrite !pad_digits_ltb by done.
  cbn [chars_ltb]. rewrite N.ltb_irrefl. destruct (z <? z'); [done|]. by destruct (z' <? z).
Qed.

Definition four_digit_year (t : Z) : Prop := 0 ≤ getUTCFullYear t ≤ 9999.

Lemma field_bounds t :
  0 ≤ getUTCMonth t + 1 < 100 ∧ 0 ≤ getUTCDate t < 100 ∧ 0 ≤ getUTCHours t < 100 ∧ 0 ≤ getUTCMinutes t < 100
  ∧ 0 ≤ getUTCSeconds t < 100 ∧ 0 ≤ getUTCMilliseconds t < 1000.
Proof.
  pose proof (civil_round_trip (day_of t)) as Hc. unfold getUTCMonth, getUTCDate.
  assert (∀ a b, 0 < b ≤ 100 → 0 ≤ a mod b < 100) as Hm.
  { intros a b Hb. pose proof (Z.mod_pos_bound a b ltac:(lia)). lia. }
  destruct (civil_from_days (day_of t)) as [[y m] d].
  split; [lia|]. split; [lia|]. do 3 (split; [by apply Hm|]). by apply Z.mod_pos_bound.
Qed.

(** The order of ISO strings is the order of times. *)
Lemma toISOString_ltb t t' :
  four_digit_year t → four_digit_year t' → string_ltb (toISOString t) (toISOString t') = (t <? t').
Proof.
  intros Hy Hy'. unfold string_ltb, toISOString. rewrite !chars_of_chars, <-lex_fields. unfold iso_chars, iso_fields.
  rewrite !(proj2 (andb_true_iff _ _)) by (unfold four_digit_year in *; lia).
  destruct (field_bounds t) as (? & ? & ? & ? & ? & ?), (field_bounds t') as (? & ? & ? & ? & ? & ?).
  unfold four_digit_year in *. rewrite !chars_ltb_field by (simpl; lia). done.
Qed.

Lemma toISOString_leb t t' :
  four_digit_year t → four_digit_year t' → string_leb (toISOString t) (toISOString t') = (t <=? t').
Proof. intros. unfold string_leb. rewrite toISOString_ltb by done. by rewrite Z.leb_antisym. Qed.
