(* ===== verification/DomainTypes.v ===== *)
(** * Enumerations and errors of the domain (domain/types.ts, domain/errors.ts) *)

From S2P Require Import Prelude.

Inductive WorkflowState : Type :=
| Draft | Pending | Running | Waiting | Completed | Failed | Cancelled | DeadLettered.

Inductive TaskStatus : Type :=
| TaskQueued | TaskRunning | TaskSucceeded | TaskFailed | TaskSkipped | TaskRetrying.

Inductive FailureReason : Type :=
| ReasonValidation | ReasonTimeout | ReasonHandlerError | ReasonTransitionDenied
| ReasonConstraintViolation | ReasonMaxRetriesExceeded.

#[export] Instance WorkflowState_eq_dec : EqDecision WorkflowState.
Proof. solve_decision. Defined.
#[export] Instance TaskStatus_eq_dec : EqDecision TaskStatus.
Proof. solve_decision. Defined.
#[export] Instance FailureReason_eq_dec : EqDecision FailureReason.
Proof. solve_decision. Defined.

(** The string values of the enumerations, which messages and exports print. *)
Definition WorkflowState_string (s : WorkflowState) : string :=
  match s with
  | Draft => "draft" | Pending => "pending" | Running => "running" | Waiting => "waiting"
  | Completed => "completed" | Failed => "failed" | Cancelled => "cancelled"
  | DeadLettered => "dead_lettered"
  end.

Definition TaskStatus_string (s : TaskStatus) : string :=
  match s with
  | TaskQueued => "queued" | TaskRunning => "running" | TaskSucceeded => "succeeded"
  | TaskFailed => "failed" | TaskSkipped => "skipped" | TaskRetrying => "retrying"
  end.

Definition FailureReason_string (r : FailureReason) : string :=
  match r with
  | ReasonValidation => "validation" | ReasonTimeout => "timeout"
  | ReasonHandlerError => "handler_error" | ReasonTransitionDenied => "transition_denied"
  | ReasonConstraintViolation => "constraint_violation"
  | ReasonMaxRetriesExceeded => "max_retries_exceeded"
  end.

(** ** Errors

    The classes of domain/errors.ts, and the built-in errors the engine throws
    ([Error]) or runs into ([TypeError], and the schema library's [ZodError]). *)
Inductive JsError : Type :=
| JobflowError (code message : string)
| ValidationError (message : string) (details : list string)
| TransitionError (message : string)
| NotFoundError (entity id : string)
| ExecutionError (reason : FailureReason) (message : string)
| ConcurrencyError (message : string)
| PlainError (message : string)
| TypeError (message : string)
| ZodError (message : string).

Definition error_name (e : JsError) : string :=
  match e with
  | JobflowError _ _ => "JobflowError"
  | ValidationError _ _ => "ValidationError"
  | TransitionError _ => "TransitionError"
  | NotFoundError _ _ => "NotFoundError"
  | ExecutionError _ _ => "ExecutionError"
  | ConcurrencyError _ => "ConcurrencyError"
  | PlainError _ => "Error"
  | TypeError _ => "TypeError"
  | ZodError _ => "ZodError"
  end.

Definition error_message (e : JsError) : string :=
  match e with
  | NotFoundError entity id => entity +:+ " not found: " +:+ id
  | JobflowError _ m | ValidationError m _ | TransitionError m | ExecutionError _ m
  | ConcurrencyError m | PlainError m | TypeError m | ZodError m => m
  end.

Definition error_code (e : JsError) : option string :=
  match e with
  | JobflowError code _ => Some code
  | ValidationError _ _ => Some "VALIDATION_ERROR"
  | TransitionError _ => Some "TRANSITION_DENIED"
  | NotFoundError _ _ => Some "NOT_FOUND"
  | ExecutionError _ _ => Some "EXECUTION_ERROR"
  | ConcurrencyError _ => Some "CONCURRENCY_CONFLICT"
  | PlainError _ | TypeError _ | ZodError _ => None
  end.

(** [String(err)] of an [Error]; that of a [ZodError] is its message. *)
Definition error_to_string (e : JsError) : string :=
  match e with ZodError m => m | _ => error_name e +:+ ": " +:+ error_message e end.

(** The outcome of a call and the stateful calls of the engine. *)
Notation res := (outcome JsError).
Notation eff := (M JsError).
