(* ===== verification/JsValue.v ===== *)
(** * JavaScript values

    The values a run context, a task output or an expression can hold: the JSON
    values, [undefined], and the functions and objects inherited from
    [Object.prototype] and [Array.prototype].  Arrays and objects carry an
    identity, which [==] compares. *)

From S2P Require Import Prelude JsString JsNum DomainTypes.
From Stdlib Require Import Ascii.
Open Scope Z_scope.

Inductive jsval : Type :=
| JUndefined
| JNull
| JBool (b : bool)
| JNum (n : num)
| JStr (s : string)
| JArr (ident : N) (elems : list jsval)
| JObj (ident : N) (fields : list (string * jsval))
| JProto (array : bool)
| JMethod (array : bool) (name : string).

(** A [Record<string, unknown>]. *)
Notation jsrecord := (list (string * jsval)).

Fixpoint record_get (r : jsrecord) (k : string) : option jsval :=
  match r with
  | [] => None
  | (k', v) :: r' => if decide (k = k') then Some v else record_get r' k
  end.

(** [typeof v === "object"], which holds of [null]. *)
Definition is_object_type (v : jsval) : bool :=
  match v with JNull | JArr _ _ | JObj _ _ | JProto _ => true | _ => false end.

(** [Boolean(v)]. *)
Definition to_boolean (v : jsval) : bool :=
  match v with
  | JUndefined | JNull => false
  | JBool b => b
  | JNum n => num_truthy n
  | JStr s => truthy_string s
  | JArr _ _ | JObj _ _ | JProto _ | JMethod _ _ => true
  end.

(** ** Property access *)

Definition object_prototype_names : list string :=
  ["constructor"; "__defineGetter__"; "__defineSetter__"; "hasOwnProperty"; "__lookupGetter__";
   "__lookupSetter__"; "isPrototypeOf"; "propertyIsEnumerable"; "toString"; "valueOf";
   "toLocaleString"].

Definition array_prototype_names : list string :=
  ["at"; "concat"; "copyWithin"; "fill"; "find"; "findIndex"; "findLast"; "findLastIndex";
   "lastIndexOf"; "pop"; "push"; "reverse"; "shift"; "unshift"; "slice"; "sort"; "splice";
   "includes"; "indexOf"; "join"; "keys"; "entries"; "values"; "forEach"; "filter"; "flat";
   "flatMap"; "map"; "every"; "some"; "reduce"; "reduceRight"; "toReversed"; "toSorted";
   "toSpliced"; "with"; "toString"; "toLocaleString"; "constructor"].

Definition object_prototype_get (p : string) : jsval :=
  if bool_decide (p ∈ object_prototype_names) then JMethod false p else JUndefined.

Definition array_prototype_get (p : string) : jsval :=
  if bool_decide (p ∈ array_prototype_names) then JMethod true p else object_prototype_get p.

(** A canonical array index: no sign, no leading zero. *)
Definition array_index (p : string) : option nat :=
  match chars p with
  | [] => None
  | "0"%char :: _ :: _ => None
  | l => if forallb is_digit l then Some (Z.to_nat (digits_val l)) else None
  end.

(** [v[p]] for a [v] of object type other than [null]. *)
Definition get_property (v : jsval) (p : string) : jsval :=
  match v with
  | JObj _ fs =>
      match record_get fs p with
      | Some w => w
      | None => if decide (p = "__proto__") then JProto false else object_prototype_get p
      end
  | JArr _ l =>
      if decide (p = "length") then JNum (num_of_Z (Z.of_nat (length l)))
      else if decide (p = "__proto__") then JProto true
      else match array_index p with
           | Some i => default JUndefined (l !! i)
           | None => array_prototype_get p
           end
  | JProto true =>
      if decide (p = "length") then JNum num_zero
      else if decide (p = "__proto__") then JProto false
      else array_prototype_get p
  | JProto false => if decide (p = "__proto__") then JNull else object_prototype_get p
  | _ => JUndefined
  end.

(** ** Conversions *)

Definition method_source (array : bool) (name : string) : string :=
  let name :=
    if decide (name = "constructor") then (if array then "Array" else "Object") else name in
  "function " +:+ name +:+ "() { [native code] }".

Definition to_primitive_error : JsError := TypeError "Cannot convert object to primitive value".

(** [String(v)].  An object with a [toString] field of its own, which no JSON
    value makes callable, has no string value. *)
Fixpoint to_string (v : jsval) : res string :=
  match v with
  | JUndefined => Ok "undefined"
  | JNull => Ok "null"
  | JBool true => Ok "true"
  | JBool false => Ok "false"
  | JNum n => Ok (num_to_string n)
  | JStr s => Ok s
  | JArr _ l =>
      let fix elems (l : list jsval) : res (list string) :=
        match l with
        | [] => Ok []
        | e :: l' =>
            s ← match e with JUndefined | JNull => Ok "" | _ => to_string e end;
            ss ← elems l';
            Ok (s :: ss)
        end in
      ss ← elems l; Ok (join "," ss)
  | JObj _ fs =>
      match record_get fs "toString" with
      | Some _ => Throw to_primitive_error
      | None => Ok "[object Object]"
      end
  | JProto true => Ok ""
  | JProto false => Ok "[object Object]"
  | JMethod a name => Ok (method_source a name)
  end.

Definition is_primitive (v : jsval) : bool :=
  match v with JArr _ _ | JObj _ _ | JProto _ | JMethod _ _ => false | _ => true end.

(** [ToPrimitive(v)]: [valueOf] of an object is the object, so its string is used. *)
Definition to_primitive (v : jsval) : res jsval :=
  if is_primitive v then Ok v else s ← to_string v; Ok (JStr s).

Definition primitive_to_num (v : jsval) : num :=
  match v with
  | JNull => num_zero
  | JBool b => num_of_Z (if b then 1 else 0)
  | JNum n => n
  | JStr s => string_to_num s
  | _ => num_nan
  end.

(** [Number(v)]. *)
Definition to_number (v : jsval) : res num := p ← to_primitive v; Ok (primitive_to_num p).

(** The elements [name.map] goes over, for a variable [name] that holds [v]. *)
Definition array_elements (name : string) (v : jsval) : res (list jsval) :=
  match v with
  | JArr _ l => Ok l
  | JProto true => Ok []
  | JUndefined => Throw (TypeError "Cannot read properties of undefined (reading 'map')")
  | JNull => Throw (TypeError "Cannot read properties of null (reading 'map')")
  | _ => Throw (TypeError (name +:+ ".map is not a function"))
  end.

(** ** Loose equality *)

Definition is_nullish (v : jsval) : bool := match v with JUndefined | JNull => true | _ => false end.

Definition same_reference (v w : jsval) : bool :=
  match v, w with
  | JArr i _, JArr j _ | JObj i _, JObj j _ => (i =? j)%N
  | JProto a, JProto b => Bool.eqb a b
  | JMethod a n, JMethod b m => Bool.eqb a b && bool_decide (n = m)
  | _, _ => false
  end.

(** [v == w] for two primitives: equal types compare directly, otherwise both
    sides become numbers; [null] and [undefined] equal only each other. *)
Definition loose_eq_primitive (v w : jsval) : bool :=
  if is_nullish v || is_nullish w then is_nullish v && is_nullish w
  else match v, w with
       | JStr s, JStr t => bool_decide (s = t)
       | _, _ => num_eqb (primitive_to_num v) (primitive_to_num w)
       end.

Definition loose_eq (v w : jsval) : res bool :=
  if is_primitive v then
    if is_primitive w then Ok (loose_eq_primitive v w)
    else if is_nullish v then Ok false
    else q ← to_primitive w; Ok (loose_eq_primitive v q)
  else
    if is_primitive w then
      if is_nullish w then Ok false
      else p ← to_primitive v; Ok (loose_eq_primitive p w)
    else Ok (same_reference v w).

Example loose_eq_undefined_true : loose_eq JUndefined (JBool true) = Ok false.
Proof. reflexivity. Qed.
Example loose_eq_string_number : loose_eq (JStr " 12 ") (JNum (num_of_Z 12)) = Ok true.
Proof. reflexivity. Qed.
Example loose_eq_array_string :
  loose_eq (JArr 1 [JNum (num_of_Z 1); JNull; JStr "a"]) (JStr "1,,a") = Ok true.
Proof. reflexivity. Qed.
Example loose_eq_distinct_objects : loose_eq (JObj 1 []) (JObj 2 []) = Ok false.
Proof. reflexivity. Qed.
