(* ===== verification/Json.v ===== *)
(** * JSON

    [JSON.stringify], compact and indented, and [JSON.parse], as the program
    uses them.  The values of JSON texts are a type of their own: a value of the
    program is turned into one by [to_json], which drops what JSON cannot say.
    Strings are Latin-1 as everywhere; an escape for another code unit has no
    value here. *)

From S2P Require Import Prelude JsString JsNum JsObject DomainTypes JsValue.
From Stdlib Require Import Ascii SpecFloat.
Open Scope Z_scope.

Inductive json : Type :=
| JsonNull
| JsonBool (b : bool)
| JsonNum (n : num)
| JsonStr (s : string)
| JsonArr (l : list json)
| JsonObj (fs : list (string * json)).

Section json_induction.
Context (P : json → Prop).
Context (Hnull : P JsonNull) (Hbool : ∀ b, P (JsonBool b)) (Hnum : ∀ n, P (JsonNum n)) (Hstr : ∀ s, P (JsonStr s)).
Context (Harr : ∀ l, Forall P l → P (JsonArr l)) (Hobj : ∀ fs, Forall (λ kv : string * json, P kv.2) fs → P (JsonObj fs)).

Fixpoint json_induction (j : json) : P j :=
  match j with
  | JsonNull => Hnull
  | JsonBool b => Hbool b
  | JsonNum n => Hnum n
  | JsonStr s => Hstr s
  | JsonArr l =>
      Harr l ((fix go (l : list json) : Forall P l :=
        match l with [] => Forall_nil_2 P | j :: l => Forall_cons_2 P j l (json_induction j) (go l) end) l)
  | JsonObj fs =>
      Hobj fs ((fix go (fs : list (string * json)) : Forall (λ kv, P kv.2) fs :=
        match fs with
        | [] => Forall_nil_2 _
        | kv :: fs => Forall_cons_2 _ kv fs (json_induction kv.2) (go fs)
        end) fs)
  end.
End json_induction.

(** ** JSON.stringify *)

Definition is_finite (n : num) : bool :=
  match n with S754_zero _ | S754_finite _ _ _ => true | _ => false end.

(** [undefined] and functions have no JSON: an array has [null] in their place,
    an object leaves the field out.  The fields are listed in the object's own
    order. *)
Fixpoint to_json (v : jsval) : option json :=
  match v with
  | JUndefined | JMethod _ _ => None
  | JNull => Some JsonNull
  | JBool b => Some (JsonBool b)
  | JNum n => Some (if is_finite n then JsonNum n else JsonNull)
  | JStr s => Some (JsonStr s)
  | JArr _ l => Some (JsonArr (List.map (λ v, default JsonNull (to_json v)) l))
  | JObj _ fs =>
      Some (JsonObj (own_fields (List.flat_map (λ kv : string * jsval,
        match to_json kv.2 with Some j => [(kv.1, j)] | None => [] end) fs)))
  | JProto true => Some (JsonArr [])
  | JProto false => Some (JsonObj [])
  end.

Definition json_quote : ascii := ascii_of_N 34.
Definition backslash : ascii := ascii_of_N 92.
Definition hex_digit (n : N) : ascii := ascii_of_N (if (n <? 10)%N then 48 + n else 87 + n).

Definition escape_char (c : ascii) : list ascii :=
  let n := char_code c in
  if decide (c = json_quote) then [backslash; json_quote]
  else if decide (c = backslash) then [backslash; backslash]
  else if (n =? 8)%N then [backslash; "b"%char]
  else if (n =? 9)%N then [backslash; "t"%char]
  else if (n =? 10)%N then [backslash; "n"%char]
  else if (n =? 12)%N then [backslash; "f"%char]
  else if (n =? 13)%N then [backslash; "r"%char]
  else if (n <? 32)%N then [backslash; "u"%char; "0"%char; "0"%char; hex_digit (n / 16); hex_digit (n mod 16)]
  else [c].

Definition print_string (s : string) : list ascii := json_quote :: (chars s ≫= escape_char) ++ [json_quote].

Section printer.
(** The third argument of [JSON.stringify]: the width of an indentation step. *)
Context (gap : nat).

Definition break (depth : nat) : list ascii :=
  if (gap =? 0)%nat then [] else ascii_of_N 10 :: replicate (gap * depth) " "%char.

Definition colon : list ascii := if (gap =? 0)%nat then [":"%char] else [":"%char; " "%char].

(** Elements or members, each on a line of its own. *)
Definition print_seq {A} (pr : A → list ascii) (depth : nat) : list A → list ascii :=
  fix go l :=
    match l with
    | [] => []
    | [a] => break (S depth) ++ pr a
    | a :: l => break (S depth) ++ pr a ++ ","%char :: go l
    end.

Fixpoint print_json (depth : nat) (j : json) : list ascii :=
  match j with
  | JsonNull => chars "null"
  | JsonBool true => chars "true"
  | JsonBool false => chars "false"
  | JsonNum n => chars (num_to_string n)
  | JsonStr s => print_string s
  | JsonArr [] => ["["%char; "]"%char]
  | JsonArr l => "["%char :: print_seq (print_json (S depth)) depth l ++ break depth ++ ["]"%char]
  | JsonObj [] => ["{"%char; "}"%char]
  | JsonObj fs =>
      "{"%char :: print_seq (λ kv : string * json, print_string kv.1 ++ colon ++ print_json (S depth) kv.2) depth fs
        ++ break depth ++ ["}"%char]
  end.
End printer.

(** [JSON.stringify(v)] and [JSON.stringify(v, null, gap)]; [None] is
    [undefined]. *)
Definition stringify (gap : nat) (v : jsval) : option string :=
  (λ j, of_chars (print_json gap 0 j)) <$> to_json v.

(** ** JSON.parse *)

Definition is_json_space (c : ascii) : bool := bool_decide (char_code c ∈ [9; 10; 13; 32]%N).

Fixpoint skip_ws (s : list ascii) : list ascii :=
  match s with c :: r => if is_json_space c then skip_ws r else s | [] => [] end.

(** The four hexadecimal digits of an escape, when they name a Latin-1 unit. *)
Definition hex4 (a b c d : ascii) : option ascii :=
  a ← hex_val a; b ← hex_val b; c ← hex_val c; d ← hex_val d;
  let n := ((a * 16 + b) * 16 + c) * 16 + d in
  if n <? 256 then Some (ascii_of_N (Z.to_N n)) else None.

Definition simple_escape (c : ascii) : option ascii :=
  if decide (c = json_quote) then Some json_quote
  else if decide (c = backslash) then Some backslash
  else if decide (c = "/"%char) then Some "/"%char
  else if decide (c = "b"%char) then Some (ascii_of_N 8)
  else if decide (c = "f"%char) then Some (ascii_of_N 12)
  else if decide (c = "n"%char) then Some (ascii_of_N 10)
  else if decide (c = "r"%char) then Some (ascii_of_N 13)
  else if decide (c = "t"%char) then Some (ascii_of_N 9)
  else None.

(** The rest of a string after its opening quote. *)
Fixpoint parse_string (s : list ascii) (acc : list ascii) : option (string * list ascii) :=
  match s with
  | [] => None
  | c :: r =>
      if decide (c = json_quote) then Some (of_chars acc, r)
      else if decide (c = backslash) then
        match r with
        | "u"%char :: h1 :: h2 :: h3 :: h4 :: r =>
            match hex4 h1 h2 h3 h4 with Some d => parse_string r (acc ++ [d]) | None => None end
        | e :: r => match simple_escape e with Some d => parse_string r (acc ++ [d]) | None => None end
        | [] => None
        end
      else if (char_code c <? 32)%N then None
      else parse_string r (acc ++ [c])
  end.

Definition is_number_char (c : ascii) : bool :=
  is_digit c || bool_decide (c ∈ ["+"; "-"; "."; "e"; "E"]%char).

Fixpoint span_number (s : list ascii) : list ascii * list ascii :=
  match s with
  | c :: r => if is_number_char c then let '(t, r) := span_number r in (c :: t, r) else ([], s)
  | [] => ([], [])
  end.

(** Digits, at least one. *)
Fixpoint skip_digits (s : list ascii) : list ascii :=
  match s with c :: r => if is_digit c then skip_digits r else s | [] => [] end.

Definition digits1 (s : list ascii) : option (list ascii) :=
  match s with c :: r => if is_digit c then Some (skip_digits r) else None | [] => None end.

(** The grammar of numbers: an optional minus sign, an integer without leading
    zeros, an optional fraction and an optional exponent. *)
Definition is_json_number (t : list ascii) : bool :=
  let t := match t with "-"%char :: r => r | _ => t end in
  match (match t with "0"%char :: r => Some r | _ => digits1 t end) with
  | None => false
  | Some r =>
      match (match r with "."%char :: r => digits1 r | _ => Some r end) with
      | None => false
      | Some r =>
          match r with
          | [] => true
          | e :: r =>
              if bool_decide (e ∈ ["e"; "E"]%char)
              then
                let r := match r with "+"%char :: r | "-"%char :: r => r | _ => r end in
                match digits1 r with Some [] => true | _ => false end
              else false
          end
      end
  end.

Definition parse_number (s : list ascii) : option (json * list ascii) :=
  let '(t, r) := span_number s in
  if is_json_number t then Some (JsonNum (string_to_num (of_chars t)), r) else None.

(** A later field of the same name takes the place of the earlier one.  The
    object that has been read lists its fields in its own order. *)
Fixpoint json_set (k : string) (j : json) (fs : list (string * json)) : list (string * json) :=
  match fs with
  | [] => [(k, j)]
  | (k', j') :: fs => if decide (k = k') then (k', j) :: fs else (k', j') :: json_set k j fs
  end.

Fixpoint parse_value (fuel : nat) (s : list ascii) : option (json * list ascii) :=
  match fuel with
  | O => None
  | S fuel =>
      match skip_ws s with
      | "n" :: "u" :: "l" :: "l" :: r => Some (JsonNull, r)
      | "t" :: "r" :: "u" :: "e" :: r => Some (JsonBool true, r)
      | "f" :: "a" :: "l" :: "s" :: "e" :: r => Some (JsonBool false, r)
      | "[" :: r =>
          match skip_ws r with
          | "]" :: r => Some (JsonArr [], r)
          | _ => '(l, r) ← parse_elements fuel r; Some (JsonArr l, r)
          end
      | "{" :: r =>
          match skip_ws r with
          | "}" :: r => Some (JsonObj [], r)
          | _ => '(fs, r) ← parse_members fuel r []; Some (JsonObj (own_fields fs), r)
          end
      | c :: r =>
          if decide (c = json_quote) then '(t, r) ← parse_string r []; Some (JsonStr t, r)
          else parse_number (c :: r)
      | [] => None
      end%char
  end
with parse_elements (fuel : nat) (s : list ascii) : option (list json * list ascii) :=
  match fuel with
  | O => None
  | S fuel =>
      '(j, r) ← parse_value fuel s;
      match skip_ws r with
      | "," :: r => '(l, r) ← parse_elements fuel r; Some (j :: l, r)
      | "]" :: r => Some ([j], r)
      | _ => None
      end%char
  end
with parse_members (fuel : nat) (s : list ascii) (fs : list (string * json)) : option (list (string * json) * list ascii) :=
  match fuel with
  | O => None
  | S fuel =>
      match skip_ws s with
      | q :: r =>
          if decide (q = json_quote) then
            '(k, r) ← parse_string r [];
            match skip_ws r with
            | ":" :: r =>
                '(j, r) ← parse_value fuel r;
                let fs := json_set k j fs in
                match skip_ws r with
                | "," :: r => parse_members fuel r fs
                | "}" :: r => Some (fs, r)
                | _ => None
                end
            | _ => None
            end%char
          else None
      | [] => None
      end
  end.

(** [JSON.parse(text)]; [None] is a [SyntaxError]. *)
Definition json_parse (text : string) : option json :=
  '(j, r) ← parse_value (2 * String.length text + 2) (chars text);
  match skip_ws r with [] => Some j | _ => None end.

(** The value a text denotes; its arrays and objects are new and numbered from
    [next].  The fields of the objects [json_parse] reads are in their own order
    already. *)
Fixpoint of_json (next : N) (j : json) : jsval * N :=
  match j with
  | JsonNull => (JNull, next)
  | JsonBool b => (JBool b, next)
  | JsonNum n => (JNum n, next)
  | JsonStr s => (JStr s, next)
  | JsonArr l =>
      let '(vs, next') := (fix go (next : N) (l : list json) : list jsval * N :=
        match l with
        | [] => ([], next)
        | j :: l => let '(v, next) := of_json next j in let '(vs, next) := go next l in (v :: vs, next)
        end) (N.succ next) l in
      (JArr next vs, next')
  | JsonObj fs =>
      let '(vs, next') := (fix go (next : N) (fs : list (string * json)) : jsrecord * N :=
        match fs with
        | [] => ([], next)
        | (k, j) :: fs => let '(v, next) := of_json next j in let '(vs, next) := go next fs in ((k, v) :: vs, next)
        end) (N.succ next) fs in
      (JObj next vs, next')
  end.

(** ** The round trip *)

(** What [Number::toString] guarantees of a finite number, checked for the number
    at hand: its text is a number of the grammar, and reads back as the number. *)
Definition number_ok (n : num) : bool :=
  let t := chars (num_to_string n) in
  forallb is_number_char t && is_json_number t && bool_decide (string_to_num (num_to_string n) = n).

(** The values that have a text of their own: their numbers are finite and not
    [-0], and their objects list fields of different names in their own order, as
    every object does that was parsed or is printed. *)
Fixpoint printable (j : json) : bool :=
  match j with
  | JsonNum n => number_ok n
  | JsonArr l => forallb printable l
  | JsonObj fs => bool_decide (own_keys fs.*1) && forallb (λ kv : string * json, printable kv.2) fs
  | _ => true
  end.

Fixpoint weight (j : json) : nat :=
  match j with
  | JsonArr l => S (list_sum (List.map (λ j, S (weight j)) l))
  | JsonObj fs => S (list_sum (List.map (λ kv : string * json, S (weight kv.2)) fs))
  | _ => 1
  end.

(** What may follow a value. *)
Definition stops (s : list ascii) : Prop := match s with [] => True | c :: _ => is_number_char c = false end.

Lemma skip_ws_app ws s : forallb is_json_space ws = true → skip_ws (ws ++ s) = skip_ws s.
Proof. induction ws as [|c ws IH]; [done|]. cbn. intros [-> Hws]%andb_true_iff. by apply IH. Qed.

Lemma break_space gap depth : forallb is_json_space (break gap depth) = true.
Proof.
  unfold break. destruct (gap =? 0)%nat; [done|]. cbn. induction (gap * depth)%nat; [done|]. by cbn.
Qed.

Lemma skip_break gap depth s : skip_ws (break gap depth ++ s) = skip_ws s.
Proof. apply skip_ws_app, break_space. Qed.

Lemma parse_escape c k acc : parse_string (escape_char c ++ k) acc = parse_string k (acc ++ [c]).
Proof. destruct c as [[] [] [] [] [] [] [] []]; reflexivity. Qed.

Lemma parse_print_string s k : parse_string ((chars s ≫= escape_char) ++ json_quote :: k) [] = Some (s, k).
Proof.
  assert (∀ l acc, parse_string ((l ≫= escape_char) ++ json_quote :: k) acc = Some (of_chars (acc ++ l), k)) as Hg.
  { induction l as [|c l IH]; intros acc; [cbn; by rewrite app_nil_r|].
    cbn [mbind list_bind]. rewrite <-app_assoc, parse_escape, IH, <-app_assoc. done. }
  rewrite Hg. cbn. by rewrite of_chars_chars.
Qed.

Lemma span_number_app t r : forallb is_number_char t = true → stops r → span_number (t ++ r) = (t, r).
Proof.
  intros Ht Hr. induction t as [|c t IH]; cbn in *.
  - destruct r as [|c r]; [done|]. cbn in *. by rewrite Hr.
  - apply andb_true_iff in Ht as [-> Ht]. by rewrite IH.
Qed.

Lemma json_set_new k j fs : k ∉ fs.*1 → json_set k j fs = fs ++ [(k, j)].
Proof.
  induction fs as [|[k' j'] fs IH]; [done|]. cbn. intros Hk. rewrite decide_False by set_solver.
  f_equal. apply IH. set_solver.
Qed.

(** The parser reads its text through [skip_ws] only. *)
Lemma parse_value_skip fuel s s' : skip_ws s = skip_ws s' → parse_value fuel s = parse_value fuel s'.
Proof. destruct fuel; [done|]. cbn [parse_value]. by intros ->. Qed.

Lemma parse_members_skip fuel s s' fs : skip_ws s = skip_ws s' → parse_members fuel s fs = parse_members fuel s' fs.
Proof. destruct fuel; [done|]. cbn [parse_members]. by intros ->. Qed.

(** The first character of a value. *)
Definition opens (c : ascii) : bool := negb (is_json_space c) && negb (bool_decide (c = "]"%char)).

Lemma skip_ws_char c s : is_json_space c = false → skip_ws (c :: s) = c :: s.
Proof. cbn. by intros ->. Qed.

Lemma skip_ws_opens c s : opens c = true → skip_ws (c :: s) = c :: s.
Proof. unfold opens. cbn. by destruct (is_json_space c). Qed.

Lemma number_text n : number_ok n = true → ∃ c t, chars (num_to_string n) = c :: t ∧ is_number_char c = true.
Proof.
  unfold number_ok. destruct (chars (num_to_string n)) as [|c t]; [done|].
  intros [[[Hc _]%andb_true_iff _]%andb_true_iff _]%andb_true_iff. by exists c, t.
Qed.

Lemma print_opens gap depth j : printable j = true → ∃ c l, print_json gap depth j = c :: l ∧ opens c = true.
Proof.
  destruct j as [|[]|n|s|[]|[]]; intros Hj; try (eexists _, _; split; [reflexivity|done]).
  cbn in *. destruct (number_text n Hj) as (c & t & -> & Hc). eexists _, _. split; [reflexivity|].
  by destruct c as [[] [] [] [] [] [] [] []].
Qed.

Lemma parse_value_number fuel c t : is_number_char c = true → parse_value (S fuel) (c :: t) = parse_number (c :: t).
Proof. intros Hc. destruct c as [[] [] [] [] [] [] [] []]; first [discriminate | reflexivity]. Qed.

Lemma parse_value_array fuel r c l :
  skip_ws r = c :: l → opens c = true →
  parse_value (S fuel) ("["%char :: r) = ('(l, r) ← parse_elements fuel r; Some (JsonArr l, r)).
Proof.
  intros Hr Hc. trans (match skip_ws r with
    | "]"%char :: r => Some (JsonArr [], r)
    | _ => '(l, r) ← parse_elements fuel r; Some (JsonArr l, r)
    end); [done|].
  rewrite Hr. destruct c as [[] [] [] [] [] [] [] []]; first [discriminate | reflexivity].
Qed.

Lemma parse_value_object fuel r l :
  skip_ws r = json_quote :: l →
  parse_value (S fuel) ("{"%char :: r) = ('(fs, r) ← parse_members fuel r []; Some (JsonObj (own_fields fs), r)).
Proof.
  intros Hr. trans (match skip_ws r with
    | "}"%char :: r => Some (JsonObj [], r)
    | _ => '(fs, r) ← parse_members fuel r []; Some (JsonObj (own_fields fs), r)
    end); [done|].
  by rewrite Hr.
Qed.

Lemma parse_number_print n rest :
  number_ok n = true → stops rest → parse_number (chars (num_to_string n) ++ rest) = Some (JsonNum n, rest).
Proof.
  unfold number_ok. intros [[Hc Hg]%andb_true_iff Hn%bool_decide_eq_true]%andb_true_iff Hr. unfold parse_number.
  by rewrite span_number_app, Hg, of_chars_chars, Hn.
Qed.

Lemma stops_break gap depth c rest : is_number_char c = false → stops (break gap depth ++ c :: rest).
Proof. unfold break. by destruct (gap =? 0)%nat. Qed.

Lemma print_string_app s rest : print_string s ++ rest = json_quote :: (chars s ≫= escape_char) ++ json_quote :: rest.
Proof. unfold print_string. cbn [app]. by rewrite <-(assoc_L (++)). Qed.

Lemma print_seq_one {A} gap (pr : A → list ascii) depth a rest :
  print_seq gap pr depth [a] ++ rest = break gap (S depth) ++ pr a ++ rest.
Proof. symmetry. apply (assoc_L (++)). Qed.

Lemma print_seq_cons {A} gap (pr : A → list ascii) depth a a' l rest :
  print_seq gap pr depth (a :: a' :: l) ++ rest
  = break gap (S depth) ++ pr a ++ ","%char :: print_seq gap pr depth (a' :: l) ++ rest.
Proof.
  trans ((break gap (S depth) ++ pr a ++ ","%char :: print_seq gap pr depth (a' :: l)) ++ rest); [done|].
  by rewrite <-!(assoc_L (++)).
Qed.

(** What the induction over values provides, and what the lists of elements and
    members then give. *)
Definition reads_back (gap : nat) (j : json) : Prop :=
  ∀ depth fuel rest, printable j = true → (weight j ≤ fuel)%nat → stops rest →
    parse_value fuel (print_json gap depth j ++ rest) = Some (j, rest).

Lemma parse_print_elements gap l :
  Forall (reads_back gap) l → l ≠ [] → ∀ depth fuel rest,
  forallb printable l = true → (list_sum (List.map (λ j, S (weight j)) l) ≤ fuel)%nat →
  parse_elements fuel (print_seq gap (print_json gap (S depth)) depth l ++ break gap depth ++ "]"%char :: rest)
  = Some (l, rest).
Proof.
  induction 1 as [|j l Hj _ IH]; intros Hne depth fuel rest Hp Hw; [done|].
  cbn in Hp, Hw. apply andb_true_iff in Hp as [Hpj Hp]. destruct fuel as [|fuel]; [lia|].
  destruct l as [|j' l].
  - rewrite print_seq_one. cbn [parse_elements]. rewrite (parse_value_skip _ _ _ (skip_break _ _ _)).
    rewrite Hj; [|done|lia|by apply stops_break]. cbn [mbind option_bind]. by rewrite skip_break.
  - rewrite print_seq_cons. cbn [parse_elements]. rewrite (parse_value_skip _ _ _ (skip_break _ _ _)).
    rewrite Hj; [|done|lia|done]. cbn [mbind option_bind]. rewrite skip_ws_char by done.
    rewrite IH; [done..|cbn in Hw |- *; lia].
Qed.

Lemma parse_print_members gap fs :
  Forall (λ kv : string * json, reads_back gap kv.2) fs → fs ≠ [] → ∀ depth fuel rest seen,
  NoDup (seen ++ fs).*1 → forallb (λ kv : string * json, printable kv.2) fs = true →
  (list_sum (List.map (λ kv : string * json, S (weight kv.2)) fs) ≤ fuel)%nat →
  parse_members fuel
    (print_seq gap (λ kv : string * json, print_string kv.1 ++ colon gap ++ print_json gap (S depth) kv.2) depth fs
      ++ break gap depth ++ "}"%char :: rest) seen
  = Some (seen ++ fs, rest).
Proof.
  induction 1 as [|[k j] fs Hj _ IH]; intros Hne depth fuel rest seen Hnd Hp Hw; [done|].
  cbn [forallb List.map list_sum fst snd] in *. simpl in Hw. apply andb_true_iff in Hp as [Hpj Hp].
  destruct fuel as [|fuel]; [lia|].
  assert (k ∉ seen.*1) as Hk.
  { rewrite fmap_app in Hnd. apply NoDup_app in Hnd as (_ & Hd & _). intros Hin. apply (Hd k Hin). set_solver. }
  assert (∀ r, parse_members (S fuel) (break gap (S depth) ++ print_string k ++ colon gap ++ print_json gap (S depth) j ++ r) seen
    = match skip_ws (colon gap ++ print_json gap (S depth) j ++ r) with
      | ":"%char :: r => '(j, r) ← parse_value fuel r;
          match skip_ws r with
          | ","%char :: r => parse_members fuel r (json_set k j seen)
          | "}"%char :: r => Some (json_set k j seen, r)
          | _ => None
          end
      | _ => None
      end) as Hone.
  { intros r. rewrite (parse_members_skip _ _ _ _ (skip_break _ _ _)).
    rewrite print_string_app. cbn [parse_members]. rewrite skip_ws_char, decide_True by done.
    by rewrite parse_print_string. }
  assert (∀ r, stops r → ∃ r', skip_ws (colon gap ++ print_json gap (S depth) j ++ r) = ":"%char :: r'
    ∧ parse_value fuel r' = Some (j, r)) as Hval.
  { intros r Hr. unfold colon. destruct (gap =? 0)%nat; eexists; (split; [reflexivity|]).
    - apply Hj; [done|cbn; lia|done].
    - rewrite (parse_value_skip _ _ (print_json gap (S depth) j ++ r)) by done. apply Hj; [done|cbn; lia|done]. }
  destruct fs as [|kv fs].
  - rewrite print_seq_one. cbn [fst snd]. rewrite <-!(assoc_L (++)), Hone. destruct (Hval (break gap depth ++ "}"%char :: rest)) as (r' & -> & Hv).
    { by apply stops_break. }
    rewrite Hv. cbn [mbind option_bind]. by rewrite skip_break, json_set_new.
  - rewrite print_seq_cons. cbn [fst snd]. rewrite <-!(assoc_L (++)), Hone.
    match goal with |- context [print_json gap (S depth) j ++ ?r] => destruct (Hval r) as (r' & -> & Hv); [done|] end.
    rewrite Hv. cbn [mbind option_bind]. rewrite skip_ws_char, json_set_new by done.
    rewrite IH; [by rewrite <-(assoc_L (++))|done| |done|].
    + by rewrite <-(assoc_L (++)).
    + cbn in Hw |- *; lia.
Qed.

Lemma print_seq_opens {A} gap (pr : A → list ascii) depth a l rest c t :
  pr a = c :: t → opens c = true → ∃ t', skip_ws (print_seq gap pr depth (a :: l) ++ rest) = c :: t'.
Proof.
  intros E Hc. destruct l as [|a' l]; rewrite ?print_seq_one, ?print_seq_cons, skip_break, E; cbn [app];
    rewrite skip_ws_opens by done; by eexists.
Qed.

Lemma print_array_app gap depth j l rest :
  print_json gap depth (JsonArr (j :: l)) ++ rest
  = "["%char :: print_seq gap (print_json gap (S depth)) depth (j :: l) ++ break gap depth ++ "]"%char :: rest.
Proof.
  trans ("["%char :: (print_seq gap (print_json gap (S depth)) depth (j :: l) ++ break gap depth ++ ["]"%char]) ++ rest); [done|].
  by rewrite <-!(assoc_L (++)).
Qed.

Lemma print_object_app gap depth kv fs rest :
  print_json gap depth (JsonObj (kv :: fs)) ++ rest
  = "{"%char :: print_seq gap (λ kv : string * json, print_string kv.1 ++ colon gap ++ print_json gap (S depth) kv.2) depth (kv :: fs)
      ++ break gap depth ++ "}"%char :: rest.
Proof.
  trans ("{"%char :: (print_seq gap (λ kv : string * json, print_string kv.1 ++ colon gap ++ print_json gap (S depth) kv.2)
    depth (kv :: fs) ++ break gap depth ++ ["}"%char]) ++ rest); [done|].
  by rewrite <-!(assoc_L (++)).
Qed.

Lemma parse_print gap j : reads_back gap j.
Proof.
  induction j as [|b|n|s|l Hl|fs Hfs] using json_induction; intros depth fuel rest Hp Hw Hr;
    (destruct fuel as [|fuel]; [cbn in Hw; lia|]).
  - done.
  - by destruct b.
  - cbn [print_json printable] in *. destruct (number_text n Hp) as (c & t & E & Hc).
    rewrite <-(parse_number_print n rest) by done. rewrite E. by apply parse_value_number.
  - cbn [print_json]. rewrite print_string_app.
    trans ('(t, r) ← parse_string ((chars s ≫= escape_char) ++ json_quote :: rest) []; Some (JsonStr t, r)); [done|].
    by rewrite parse_print_string.
  - destruct l as [|j l]; [done|]. cbn [printable] in Hp.
    destruct (print_opens gap (S depth) j) as (c & t & E & Hc); [by apply andb_true_iff in Hp as [? _]|].
    rewrite print_array_app. destruct (print_seq_opens gap (print_json gap (S depth)) depth j l
      (break gap depth ++ "]"%char :: rest) c t E Hc) as (t' & Ht').
    rewrite (parse_value_array _ _ _ _ Ht' Hc), parse_print_elements; [done..|cbn in Hw |- *; lia].
  - destruct fs as [|kv fs]; [done|]. cbn [printable] in Hp. apply andb_true_iff in Hp as [[Hnd Hord]%bool_decide_eq_true Hp].
    rewrite print_object_app.
    match goal with |- context [print_seq gap ?pr depth (kv :: fs) ++ ?r] =>
      destruct (print_seq_opens gap pr depth kv fs r json_quote _ eq_refl eq_refl) as (t' & Ht') end.
    rewrite (parse_value_object _ _ _ Ht'), parse_print_members; [|done..|cbn in Hw |- *; lia].
    cbn [mbind option_bind app]. by rewrite own_fields_ordered.
Qed.

(** The fuel of [json_parse] is enough for a text it reads back. *)
Lemma length_print_seq {A} gap (pr : A → list ascii) depth l :
  (list_sum (List.map (λ a, S (length (pr a))) l) ≤ S (length (print_seq gap pr depth l)))%nat.
Proof.
  induction l as [|a l IH]; [cbn; lia|]. rewrite <-(app_nil_r (print_seq _ _ _ _)).
  destruct l as [|a' l]; rewrite ?print_seq_one, ?print_seq_cons, ?app_nil_r, !length_app.
  - cbn. lia.
  - cbn [length]. change (list_sum (List.map ?f (?x :: ?l))) with (f x + list_sum (List.map f l))%nat. cbn beta. lia.
Qed.

Lemma list_sum_double {A} (f g : A → nat) l :
  Forall (λ a, f a ≤ 2 * g a)%nat l → (list_sum (List.map f l) ≤ 2 * list_sum (List.map g l))%nat.
Proof. induction 1; [done|]. unfold list_sum in *. cbn [List.map foldr] in *. lia. Qed.

Lemma weight_length gap j : ∀ depth, printable j = true → (weight j ≤ 2 * length (print_json gap depth j))%nat.
Proof.
  induction j as [|b|n|s|l Hl|fs Hfs] using json_induction; intros depth Hp.
  1, 2, 4: try destruct b; cbn; lia.
  - cbn in *. destruct (number_text n Hp) as (c & t & -> & _). cbn. lia.
  - destruct l as [|j l]; [cbn; lia|]. rewrite <-(app_nil_r (print_json _ _ _)), print_array_app. cbn [length weight].
    rewrite !length_app. cbn [length]. cbn [printable] in Hp.
    enough (list_sum (List.map (λ j, S (weight j)) (j :: l))
      ≤ 2 * list_sum (List.map (λ j, S (length (print_json gap (S depth) j))) (j :: l)))%nat as Hd.
    { pose proof (length_print_seq gap (print_json gap (S depth)) depth (j :: l)). lia. }
    apply list_sum_double. rewrite List.forallb_forall in Hp. rewrite Forall_forall in Hl |- *. intros a Ha.
    specialize (Hl a Ha (S depth) (Hp a (proj1 (list_elem_of_In _ _) Ha))). lia.
  - destruct fs as [|kv fs]; [cbn; lia|]. rewrite <-(app_nil_r (print_json _ _ _)), print_object_app. cbn [length weight].
    rewrite !length_app. cbn [length]. cbn [printable] in Hp. apply andb_true_iff in Hp as [_ Hp].
    set (pr := λ kv : string * json, print_string kv.1 ++ colon gap ++ print_json gap (S depth) kv.2).
    enough (list_sum (List.map (λ kv : string * json, S (weight kv.2)) (kv :: fs))
      ≤ 2 * list_sum (List.map (λ kv, S (length (pr kv))) (kv :: fs)))%nat as Hd.
    { pose proof (length_print_seq gap pr depth (kv :: fs)). lia. }
    apply list_sum_double. rewrite List.forallb_forall in Hp. rewrite Forall_forall in Hfs |- *. intros a Ha.
    specialize (Hfs a Ha (S depth) (Hp a (proj1 (list_elem_of_In _ _) Ha))). subst pr. cbn beta. rewrite !length_app. lia.
Qed.

(** What [JSON.stringify] prints, compact or indented, [JSON.parse] reads back. *)
Lemma json_round_trip gap j : printable j = true → json_parse (of_chars (print_json gap 0 j)) = Some j.
Proof.
  intros Hj. unfold json_parse. rewrite chars_of_chars. rewrite <-(app_nil_r (print_json gap 0 j)) at 2.
  rewrite parse_print; [done|done| |done].
  pose proof (weight_length gap j 0 Hj). 
  rewrite <-length_chars, chars_of_chars. lia.
Qed.

Lemma number_ok_finite n : number_ok n = true → is_finite n = true.
Proof. by destruct n as [| [] | |]. Qed.

(** A parsed value prints as the text it was read from. *)
Lemma to_json_of_json j : ∀ next, printable j = true → to_json (of_json next j).1 = Some j.
Proof.
  induction j as [|b|n|s|l Hl|fs Hfs] using json_induction; intros next Hp; try done.
  - cbn in *. by rewrite number_ok_finite.
  - cbn [of_json printable] in *. generalize (N.succ next). intros next'.
    match goal with |- context [?g next' l] => set (go := g) end.
    enough (List.map (λ v, default JsonNull (to_json v)) (go next' l).1 = l) as He.
    { destruct (go next' l) as [vs ?]. cbn in *. by rewrite He. }
    revert next'. induction Hl as [|j l Hj _ IH]; intros next'; [done|].
    cbn [forallb] in Hp. apply andb_true_iff in Hp as [Hpj Hp]. specialize (Hj next' Hpj).
    cbn. destruct (of_json next' j) as [v next2]. cbn in Hj. specialize (IH Hp next2).
    destruct (go next2 l) as [vs next3] eqn:E. cbn in *. by rewrite Hj, IH.
  - cbn [of_json printable] in *. apply andb_true_iff in Hp as [[_ Hord]%bool_decide_eq_true Hp].
    generalize (N.succ next). intros next'. match goal with |- context [?g next' fs] => set (go := g) end.
    enough (List.flat_map (λ kv : string * jsval,
        match to_json kv.2 with Some j => [(kv.1, j)] | None => [] end) (go next' fs).1 = fs) as He.
    { destruct (go next' fs) as [vs ?]. cbn in *. by rewrite He, own_fields_ordered. }
    clear Hord. revert next'. induction Hfs as [|[k j] fs Hj _ IH]; intros next'; [done|].
    cbn [forallb snd] in *. apply andb_true_iff in Hp as [Hpj Hp]. specialize (Hj next' Hpj).
    cbn. destruct (of_json next' j) as [v next2]. cbn in Hj. specialize (IH Hp next2).
    destruct (go next2 fs) as [vs next3] eqn:E. cbn in *. by rewrite Hj, IH.
Qed.

(** The objects of a printed value are in their own order, at every level. *)
Fixpoint ordered (j : json) : bool :=
  match j with
  | JsonArr l => forallb ordered l
  | JsonObj fs => in_own_order fs.*1 && forallb (λ kv : string * json, ordered kv.2) fs
  | _ => true
  end.

Lemma to_json_ordered : ∀ v j, to_json v = Some j → ordered j = true.
Proof.
  fix IH 1. intros v j. destruct v as [| |b|n|s|i l|i fs|[]|a name]; cbn [to_json]; intros [= <-]; try done.
  - by destruct (is_finite n).
  - cbn [ordered]. induction l as [|v l IHl]; [done|]. cbn [List.map forallb]. rewrite IHl, andb_true_r.
    specialize (IH v). destruct (to_json v) as [j|]; [by apply IH|done].
  - cbn [ordered]. rewrite own_fields_in_order. cbn [andb].
    assert (Forall (λ kv : string * json, ordered kv.2 = true) (List.flat_map (λ kv : string * jsval,
      match to_json kv.2 with Some j => [(kv.1, j)] | None => [] end) fs)) as Hall.
    { induction fs as [|[k v] fs IHl]; [constructor|]. cbn [List.flat_map snd fst]. apply Forall_app. split; [|exact IHl].
      specialize (IH v). destruct (to_json v) as [j|]; [|constructor]. repeat constructor. by apply IH. }
    rewrite <-own_fields_perm in Hall. rewrite List.forallb_forall. rewrite Forall_forall in Hall.
    intros kv Hin. by apply Hall, list_elem_of_In.
Qed.
