(* ===== verification/Schema.v ===== *)
(** * Schemas of JSON values (config/schema.ts, batch/loader.ts, plugins/loader.ts)

    The expressions the program builds its schemas from, as data.  The schema
    library is a parameter: a class with the operation [schema.parse], whose law
    says, one constructor at a time, what the library documents; a concrete
    parser shows the law can hold.  Lemmas read the parts of a parsed value off
    its schema. *)

From Stdlib Require Import SpecFloat QArith.
From S2P Require Import Prelude JsString JsNum DomainTypes JsValue Json.
Open Scope Z_scope.

(** ** The value of a number *)

Definition signed (s : bool) (m : positive) : Z := if s then Zneg m else Zpos m.

(** The exact value of a finite number, and the integer it is, if it is one. *)
Definition num_value (n : num) : option Q :=
  match n with
  | S754_zero _ => Some 0%Q
  | S754_finite s m e =>
      Some (if 0 <=? e then inject_Z (signed s m * 2 ^ e) else Qmake (signed s m) (Z.to_pos (2 ^ (- e))))
  | _ => None
  end.

Definition num_int (n : num) : option Z :=
  match n with
  | S754_zero _ => Some 0
  | S754_finite s m e =>
      if 0 <=? e then Some (signed s m * 2 ^ e)
      else if signed s m mod 2 ^ (- e) =? 0 then Some (signed s m / 2 ^ (- e)) else None
  | _ => None
  end.

Lemma num_int_value n z : num_int n = Some z → ∃ q, num_value n = Some q ∧ (q == inject_Z z)%Q.
Proof.
  destruct n as [s| | |s m e]; try done; cbn.
  - intros [= <-]. by exists 0%Q.
  - destruct (0 <=? e) eqn:He; [intros [= <-]; by eexists|].
    destruct (_ =? 0) eqn:Hm; [|done]. intros [= <-]. eexists. split; [done|].
    apply Z.leb_gt in He. apply Z.eqb_eq in Hm.
    assert (0 < 2 ^ (- e)) as Hp by (apply Z.pow_pos_nonneg; lia).
    unfold Qeq, inject_Z. cbn [Qnum Qden]. rewrite Z2Pos.id by done. rewrite Z.mul_1_r.
    rewrite (Z.div_mod (signed s m) (2 ^ (- e))) at 1 by lia. rewrite Hm. lia.
Qed.

(** ** Schemas *)

Inductive num_check : Type := IsInt | AtLeast (z : Z) | AtMost (z : Z) | IsPositive.

(** [z.unknown()], [z.string().min(n)], [z.number()] with its checks,
    [z.boolean()], [z.enum(...)], [z.array(s).min(n)], [z.object(...)],
    [z.record(s)], [s.optional()] and [s.default(d)]. *)
Inductive schema : Type :=
| ZUnknown
| ZString (min : nat)
| ZNumber (checks : list num_check)
| ZBoolean
| ZEnum (values : list string)
| ZArray (min : nat) (elem : schema)
| ZObject (shape : list (string * schema))
| ZRecord (value : schema)
| ZOptional (inner : schema)
| ZDefault (d : json) (inner : schema).

(** Comparison with an integer; an infinity compares as it should. *)
Definition check_num (n : num) (c : num_check) : bool :=
  match c, n, num_value n with
  | IsInt, _, _ => bool_decide (is_Some (num_int n))
  | AtLeast _, S754_infinity s, _ | IsPositive, S754_infinity s, _ => negb s
  | AtMost _, S754_infinity s, _ => s
  | AtLeast z, _, Some q => Qle_bool (inject_Z z) q
  | AtMost z, _, Some q => Qle_bool q (inject_Z z)
  | IsPositive, _, Some q => negb (Qle_bool q 0)
  | _, _, None => false
  end.

Definition json_get (fs : list (string * json)) (k : string) : option json :=
  snd <$> List.find (λ kv, bool_decide (kv.1 = k)) fs.

(** What is parsed, and what [parse] returns: [None] stands for [undefined]; the
    outer [None] of a result is a thrown [ZodError]. *)
Notation parser := (schema → option json → option (option json)).

Section parts.
Context (parse : parser).

(** The fields of the shape, in its order; other fields are left out. *)
Fixpoint parse_shape (shape : list (string * schema)) (fs : list (string * json)) : option (list (string * json)) :=
  match shape with
  | [] => Some []
  | (k, s) :: shape =>
      v ← parse s (json_get fs k);
      rest ← parse_shape shape fs;
      Some (match v with Some j => (k, j) :: rest | None => rest end)
  end.

Fixpoint parse_all (s : schema) (l : list json) : option (list json) :=
  match l with
  | [] => Some []
  | j :: l => v ← parse s (Some j); rest ← parse_all s l; Some (default JsonNull v :: rest)
  end.

Fixpoint parse_values (s : schema) (fs : list (string * json)) : option (list (string * json)) :=
  match fs with
  | [] => Some []
  | (k, j) :: fs => v ← parse s (Some j); rest ← parse_values s fs; Some ((k, default JsonNull v) :: rest)
  end.

(** What the library documents of a schema, in terms of its parts. *)
Definition documented (s : schema) (v : option json) : option (option json) :=
  match s, v with
  | ZUnknown, _ => Some v
  | ZString n, Some (JsonStr t) => if (n <=? String.length t)%nat then Some v else None
  | ZNumber checks, Some (JsonNum x) => if negb (num_is_nan x) && forallb (check_num x) checks then Some v else None
  | ZBoolean, Some (JsonBool _) => Some v
  | ZEnum values, Some (JsonStr t) => if bool_decide (t ∈ values) then Some v else None
  | ZArray n s, Some (JsonArr l) =>
      if (n <=? length l)%nat then Some ∘ JsonArr <$> parse_all s l else None
  | ZObject shape, Some (JsonObj fs) => Some ∘ JsonObj <$> parse_shape shape fs
  | ZRecord s, Some (JsonObj fs) => Some ∘ JsonObj <$> parse_values s fs
  | ZOptional s, None => Some None
  | ZOptional s, _ => parse s v
  | ZDefault d s, _ => parse s (Some (default d v))
  | _, _ => None
  end.
End parts.

Class Zod := zod_parse : parser.
Class ZodLaws `{Zod} := zod_documented s v : zod_parse s v = documented zod_parse s v.

(** A parser with the law. *)
Fixpoint zod_eval (s : schema) (v : option json) : option (option json) :=
  match s, v with
  | ZUnknown, _ => Some v
  | ZString n, Some (JsonStr t) => if (n <=? String.length t)%nat then Some v else None
  | ZNumber checks, Some (JsonNum x) => if negb (num_is_nan x) && forallb (check_num x) checks then Some v else None
  | ZBoolean, Some (JsonBool _) => Some v
  | ZEnum values, Some (JsonStr t) => if bool_decide (t ∈ values) then Some v else None
  | ZArray n s, Some (JsonArr l) =>
      if (n <=? length l)%nat then
        Some ∘ JsonArr <$> (fix go l := match l with
          | [] => Some []
          | j :: l => v ← zod_eval s (Some j); rest ← go l; Some (default JsonNull v :: rest)
          end) l
      else None
  | ZObject shape, Some (JsonObj fs) =>
      Some ∘ JsonObj <$> (fix go shape := match shape with
        | [] => Some []
        | (k, s) :: shape =>
            v ← zod_eval s (json_get fs k); rest ← go shape;
            Some (match v with Some j => (k, j) :: rest | None => rest end)
        end) shape
  | ZRecord s, Some (JsonObj fs) =>
      Some ∘ JsonObj <$> (fix go fs := match fs with
        | [] => Some []
        | (k, j) :: fs => v ← zod_eval s (Some j); rest ← go fs; Some ((k, default JsonNull v) :: rest)
        end) fs
  | ZOptional s, None => Some None
  | ZOptional s, _ => zod_eval s v
  | ZDefault d s, _ => zod_eval s (Some (default d v))
  | _, _ => None
  end.

#[export] Instance plain_zod : Zod := zod_eval.
#[export] Instance plain_zod_laws : ZodLaws (H := plain_zod).
Proof.
  intros s v. unfold zod_parse, plain_zod. destruct s as [| | | | |n s|shape|s| |], v as [[]|]; try done; cbn [zod_eval documented].
  - destruct (_ <=? _)%nat; [|done]. f_equal. induction l as [|j l IH]; [done|]. cbn. by rewrite IH.
  - f_equal. induction shape as [|[k s] shape IH]; [done|]. cbn. by rewrite IH.
  - f_equal. induction fs as [|[k j] fs IH]; [done|]. cbn. by rewrite IH.
Qed.

(** ** Reading a parsed value *)

Definition as_string (j : json) : option string := match j with JsonStr t => Some t | _ => None end.
Definition as_enum {A} (f : string → option A) (j : json) : option A := t ← as_string j; f t.
Definition as_num (j : json) : option num := match j with JsonNum n => Some n | _ => None end.
Definition as_bool (j : json) : option bool := match j with JsonBool b => Some b | _ => None end.
Definition as_int (j : json) : option Z := match j with JsonNum n => num_int n | _ => None end.
Definition as_value (j : json) : option Q := match j with JsonNum n => num_value n | _ => None end.
Definition as_fields (j : json) : option (list (string * json)) := match j with JsonObj fs => Some fs | _ => None end.
Definition as_list {A} (f : json → option A) (j : json) : option (list A) :=
  match j with JsonArr l => mapM f l | _ => None end.
Definition as_record {A} (f : json → option A) (j : json) : option (list (string * A)) :=
  match j with JsonObj fs => mapM (λ kv : string * json, a ← f kv.2; Some (kv.1, a)) fs | _ => None end.
Definition req_field {A} (f : json → option A) (fs : list (string * json)) (k : string) : option A :=
  j ← json_get fs k; f j.
Definition opt_field {A} (f : json → option A) (fs : list (string * json)) (k : string) : option (option A) :=
  match json_get fs k with Some j => Some <$> f j | None => Some None end.

(** No number of the text overflowed. *)
Fixpoint json_finite (j : json) : bool :=
  match j with
  | JsonNum n => is_finite n
  | JsonArr l => forallb json_finite l
  | JsonObj fs => forallb (λ kv : string * json, json_finite kv.2) fs
  | _ => true
  end.

Definition value_finite (v : option json) : Prop := match v with Some j => json_finite j = true | None => True end.

Lemma json_get_finite fs k : json_finite (JsonObj fs) = true → value_finite (json_get fs k).
Proof.
  cbn. unfold json_get. induction fs as [|[k' j] fs IH]; [done|]. cbn. intros [Hj Hfs]%andb_true_iff.
  case_bool_decide; [done|by apply IH].
Qed.

Definition int_check (z : Z) (c : num_check) : bool :=
  match c with IsInt => true | AtLeast a => a <=? z | AtMost b => z <=? b | IsPositive => 0 <? z end.
Definition value_check (q : Q) (c : num_check) : Prop :=
  match c with IsInt => True | AtLeast a => (inject_Z a <= q)%Q | AtMost b => (q <= inject_Z b)%Q | IsPositive => (0 < q)%Q end.

Lemma check_num_value n q c : num_value n = Some q → check_num n c = true → value_check q c.
Proof.
  intros Hq. destruct n as [s| | |s m e]; try done; injection Hq as <-; destruct c; try done; cbn [check_num num_value value_check];
    try (by intros ?%Qle_bool_iff); intros Hn%negb_true_iff; apply Qnot_le_lt; rewrite <-Qle_bool_iff; congruence.
Qed.

Lemma check_num_int n z c : num_int n = Some z → check_num n c = true → int_check z c = true.
Proof.
  intros Hz Hc. destruct (num_int_value _ _ Hz) as (q & Hq & Hqz). pose proof (check_num_value _ _ _ Hq Hc) as Hv.
  destruct c; cbn in *; [done|..]; rewrite Hqz in Hv.
  - rewrite <-Zle_Qle in Hv. lia.
  - rewrite <-Zle_Qle in Hv. lia.
  - change 0%Q with (inject_Z 0) in Hv. rewrite <-Zlt_Qlt in Hv. lia.
Qed.

Section laws.
Context `{ZodLaws}.

(** What [s] lets through reads as an [A] of which [P] holds. *)
Definition reads {A} (s : schema) (f : json → option A) (P : A → Prop) : Prop :=
  ∀ v w, value_finite v → zod_parse s v = Some w → ∃ j a, w = Some j ∧ f j = Some a ∧ P a.

Lemma reads_weaken {A} s (f : json → option A) (P Q : A → Prop) : (∀ a, P a → Q a) → reads s f P → reads s f Q.
Proof. intros HPQ Hs v w Hf Hv. destruct (Hs v w Hf Hv) as (j & a & ? & ? & ?). exists j, a. auto. Qed.

Lemma reads_string n : reads (ZString n) as_string (λ t, (n ≤ String.length t)%nat).
Proof.
  intros v w _. rewrite zod_documented. destruct v as [[| | |t| |]|]; try done. cbn.
  destruct (n <=? String.length t)%nat eqn:E; [|done]. intros [= <-]. apply Nat.leb_le in E. by exists (JsonStr t), t.
Qed.

Lemma reads_boolean : reads ZBoolean as_bool (λ _, True).
Proof. intros v w _. rewrite zod_documented. destruct v as [[| b| | | |]|]; try done. intros [= <-]. by exists (JsonBool b), b. Qed.

Lemma reads_enum {A} values (f : string → option A) :
  Forall (λ t, is_Some (f t)) values →
  reads (ZEnum values) (as_enum f) (λ _, True).
Proof.
  intros Hall v w _. rewrite zod_documented. destruct v as [[| | |t| |]|]; try done. cbn. case_bool_decide as Ht; [|done].
  intros [= <-]. rewrite Forall_forall in Hall. destruct (Hall t Ht) as [a Ha]. by exists (JsonStr t), a.
Qed.

Lemma zod_number checks v w :
  zod_parse (ZNumber checks) v = Some w → ∃ n, v = Some (JsonNum n) ∧ w = v ∧ Forall (λ c, check_num n c = true) checks.
Proof.
  rewrite zod_documented. destruct v as [[| |n| | |]|]; try done. cbn.
  destruct (negb _ && _) eqn:E; [|done]. intros [= <-]. exists n. split_and!; [done..|].
  apply andb_true_iff in E as [_ E]. rewrite List.forallb_forall in E. apply Forall_forall. intros c Hc.
  by apply E, list_elem_of_In.
Qed.

Lemma reads_int checks :
  reads (ZNumber (IsInt :: checks)) as_int (λ z, forallb (int_check z) checks = true).
Proof.
  intros v w _ (n & -> & -> & Hc)%zod_number. apply Forall_cons in Hc as [Hi Hc].
  apply bool_decide_eq_true in Hi as [z Hz]. exists (JsonNum n), z. split_and!; [done..|].
  apply List.forallb_forall. intros c Hin%list_elem_of_In. rewrite Forall_forall in Hc. eapply check_num_int; eauto.
Qed.

Lemma reads_value checks : reads (ZNumber checks) as_value (λ q, Forall (value_check q) checks).
Proof.
  intros v w Hf (n & -> & -> & Hc)%zod_number. cbn in Hf. assert (is_Some (num_value n)) as [q Hq] by by destruct n.
  exists (JsonNum n), q. split_and!; [done..|]. eapply Forall_impl; [exact Hc|]. intros c. by apply check_num_value.
Qed.

Lemma reads_num checks : reads (ZNumber checks) as_num (λ n, Forall (λ c, check_num n c = true) checks).
Proof. intros v w _ (n & -> & -> & Hc)%zod_number. by exists (JsonNum n), n. Qed.

Lemma reads_default {A} d s (f : json → option A) P : json_finite d = true → reads s f P → reads (ZDefault d s) f P.
Proof.
  intros Hd Hs v w Hf. rewrite zod_documented. cbn. apply Hs. by destruct v.
Qed.

Lemma parse_all_reads {A} s (f : json → option A) P l out :
  reads s f P → json_finite (JsonArr l) = true → parse_all zod_parse s l = Some out →
  ∃ as_, mapM f out = Some as_ ∧ Forall P as_ ∧ length as_ = length l.
Proof.
  intros Hs. revert out. induction l as [|j l IH]; intros out; cbn.
  { intros _ [= <-]. by exists []. }
  intros [Hj Hl]%andb_true_iff. destruct (zod_parse s (Some j)) as [v|] eqn:E; [|done]. cbn.
  destruct (parse_all zod_parse s l) as [rest|]; [|done]. intros [= <-].
  destruct (Hs (Some j) v Hj E) as (j' & a & -> & Ha & HP). destruct (IH rest Hl eq_refl) as (as_ & Has & Hall & Hlen).
  exists (a :: as_). cbn. rewrite Ha. cbn. rewrite Has. cbn. split_and!; [done|by constructor|by f_equal].
Qed.

Lemma reads_array {A} n s (f : json → option A) P :
  reads s f P → reads (ZArray n s) (as_list f) (λ l, (n ≤ length l)%nat ∧ Forall P l).
Proof.
  intros Hs v w Hf. rewrite zod_documented. destruct v as [[| | | |l|]|]; try done. cbn.
  destruct (n <=? length l)%nat eqn:E; [|done]. apply Nat.leb_le in E.
  destruct (parse_all zod_parse s l) as [out|] eqn:Eo; [|done]. intros [= <-].
  destruct (parse_all_reads _ _ _ _ _ Hs Hf Eo) as (as_ & Has & Hall & Hlen).
  exists (JsonArr out), as_. split_and!; [done|done|lia|done].
Qed.

Lemma reads_record {A} s (f : json → option A) P :
  reads s f P → reads (ZRecord s) (as_record f) (λ l, Forall (λ kv, P kv.2) l).
Proof.
  intros Hs v w Hf. rewrite zod_documented. destruct v as [[| | | | |fs]|]; try done. cbn.
  destruct (parse_values zod_parse s fs) as [out|] eqn:Eo; [|done]. intros [= <-].
  enough (∃ as_, as_record f (JsonObj out) = Some as_ ∧ Forall (λ kv, P kv.2) as_) as (as_ & ? & ?) by eauto.
  revert out Eo Hf. induction fs as [|[k j] fs IH]; intros out; cbn; [intros [= <-] _; by exists []|].
  destruct (zod_parse s (Some j)) as [v|] eqn:E; [|done]. cbn. destruct (parse_values zod_parse s fs) as [rest|]; [|done].
  intros [= <-] [Hj Hfs]%andb_true_iff. destruct (Hs (Some j) v Hj E) as (j' & a & -> & Ha & HP).
  destruct (IH rest eq_refl Hfs) as (as_ & Has & Hall). exists ((k, a) :: as_). cbn in *. rewrite Ha. cbn.
  unfold mbind, option_bind in *. rewrite Has. split; [done|by constructor].
Qed.

Lemma zod_object shape v w :
  zod_parse (ZObject shape) v = Some w →
  ∃ fs out, v = Some (JsonObj fs) ∧ w = Some (JsonObj out) ∧ parse_shape zod_parse shape fs = Some out.
Proof.
  rewrite zod_documented. destruct v as [[| | | | |fs]|]; try done. cbn.
  destruct (parse_shape _ _ _) as [out|] eqn:E; [|done]. intros [= <-]. by exists fs, out.
Qed.

Lemma json_get_absent out k : k ∉ out.*1 → json_get out k = None.
Proof.
  unfold json_get. induction out as [|[k' j] out IH]; [done|]. cbn. intros Hk. rewrite bool_decide_eq_false_2 by set_solver.
  apply IH. set_solver.
Qed.

Lemma parse_shape_keys shape fs out : parse_shape zod_parse shape fs = Some out → out.*1 ⊆ shape.*1.
Proof.
  revert out. induction shape as [|[k s] shape IH]; intros out; cbn; [intros [= <-]; done|].
  destruct (zod_parse s _) as [v|]; [|done]. cbn. destruct (parse_shape zod_parse shape fs) as [rest|]; [|done].
  intros [= <-]. specialize (IH rest eq_refl). destruct v; set_solver.
Qed.

(** A field of the parsed object is the field of the input, parsed. *)
Lemma parse_shape_get shape fs out k s :
  parse_shape zod_parse shape fs = Some out → NoDup shape.*1 → (k, s) ∈ shape →
  zod_parse s (json_get fs k) = Some (json_get out k).
Proof.
  revert out. induction shape as [|[k' s'] shape IH]; intros out; cbn; [by intros _ _ ?%elem_of_nil|].
  destruct (zod_parse s' _) as [v|] eqn:E; [|done]. cbn. destruct (parse_shape zod_parse shape fs) as [rest|] eqn:Er; [|done].
  intros [= <-] [Hk Hnd]%NoDup_cons [[= -> ->]|Hin]%elem_of_cons.
  - rewrite E. f_equal. pose proof (parse_shape_keys _ _ _ Er) as Hsub. unfold json_get. destruct v as [j|]; cbn.
    + by rewrite bool_decide_eq_true_2.
    + symmetry. apply json_get_absent. set_solver.
  - rewrite (IH rest eq_refl Hnd Hin). f_equal. assert (k ≠ k') as Hne.
    { intros ->. apply Hk, list_elem_of_fmap. by exists (k', s). }
    unfold json_get. destruct v as [j|]; [|done]. cbn. by rewrite bool_decide_eq_false_2.
Qed.

Lemma req_field_reads {A} shape fs out k s (f : json → option A) P :
  parse_shape zod_parse shape fs = Some out → NoDup shape.*1 → json_finite (JsonObj fs) = true →
  (k, s) ∈ shape → reads s f P → ∃ a, req_field f out k = Some a ∧ P a.
Proof.
  intros Ho Hnd Hf Hin Hs. pose proof (parse_shape_get _ _ _ _ _ Ho Hnd Hin) as Hg.
  destruct (Hs _ _ (json_get_finite fs k Hf) Hg) as (j & a & Hj & Ha & HP). exists a. unfold req_field. by rewrite Hj.
Qed.

Lemma opt_field_reads {A} shape fs out k s (f : json → option A) P :
  parse_shape zod_parse shape fs = Some out → NoDup shape.*1 → json_finite (JsonObj fs) = true →
  (k, ZOptional s) ∈ shape → reads s f P →
  ∃ o, opt_field f out k = Some o ∧ match o with Some a => P a | None => True end.
Proof.
  intros Ho Hnd Hf Hin Hs. pose proof (parse_shape_get _ _ _ _ _ Ho Hnd Hin) as Hg.
  rewrite zod_documented in Hg. unfold opt_field. destruct (json_get fs k) as [j|] eqn:Ej; cbn in Hg.
  - pose proof (json_get_finite fs k Hf) as Hfin. rewrite Ej in Hfin.
    destruct (Hs _ _ Hfin Hg) as (j' & a & -> & Ha & HP). exists (Some a). by rewrite Ha.
  - injection Hg as <-. by exists None.
Qed.
End laws.

(** An object field by field: its input is finite, and its shape parsed. *)
Ltac in_shape := repeat (first [apply list_elem_of_here | apply list_elem_of_further]).
Ltac read_object :=
  let v := fresh "v" in let w := fresh "w" in let Hf := fresh "Hf" in let Hw := fresh "Hw" in
  let fs := fresh "fs" in let out := fresh "out" in let Ho := fresh "Ho" in let Hnd := fresh "Hnd" in
  intros v w Hf Hw; apply zod_object in Hw as (fs & out & -> & -> & Ho);
  match type of Ho with parse_shape _ ?shape _ = _ =>
    assert (NoDup shape.*1) as Hnd by (apply (bool_decide_unpack _); vm_compute; exact I) end;
  exists (JsonObj out); cbn [as_fields mbind option_bind].
Tactic Notation "read_req" constr(k) uconstr(Hr) :=
  let a := fresh "a" in let Ha := fresh "Ha" in
  match goal with
  | Ho : parse_shape _ _ ?fs = Some ?out, Hnd : NoDup _, Hf : value_finite (Some (JsonObj ?fs)) |- _ =>
      destruct (req_field_reads _ _ _ k _ _ _ Ho Hnd Hf ltac:(in_shape) Hr) as (a & Ha & ?)
  end;
  rewrite Ha; cbn [mbind option_bind]; clear Ha.
Tactic Notation "read_opt" constr(k) uconstr(Hr) :=
  let a := fresh "a" in let Ha := fresh "Ha" in
  match goal with
  | Ho : parse_shape _ _ ?fs = Some ?out, Hnd : NoDup _, Hf : value_finite (Some (JsonObj ?fs)) |- _ =>
      destruct (opt_field_reads _ _ _ k _ _ _ Ho Hnd Hf ltac:(in_shape) Hr) as (a & Ha & ?)
  end;
  rewrite Ha; cbn [mbind option_bind]; clear Ha.
(** What was read is the value; what was learnt of it is left to combine. *)
Ltac object_read :=
  match goal with Ho : parse_shape _ _ _ = Some _, Hnd : NoDup _, Hf : value_finite _ |- _ => clear Ho Hnd Hf end;
  eexists; split; [done|split; [done|]].
