(* ===== verification/Domain.v ===== *)
(** * The domain model (src/domain/)

    Records for the interfaces of task.ts, job-definition.ts,
    workflow-instance.ts, tenant.ts, events.ts, priority.ts and
    handler-manifest.ts.  An optional field is an [option]. *)

From S2P Require Import Prelude JsMap JsNum DomainTypes JsValue.
From Stdlib Require Import QArith.
Open Scope Z_scope.

(** ** Retry policies and transition rules (types.ts) *)

Record RetryPolicy : Type := mkRetryPolicy {
  maxAttempts : Z;
  initialDelayMs : Z;
  backoffMultiplier : Q;
  maxDelayMs : Z;
}.

Record TransitionRule : Type := mkRule {
  rule_from : WorkflowState;
  rule_to : WorkflowState;
  rule_event : string;
}.

(** ** Tasks (task.ts) *)

Record TaskRun : Type := mkTaskRun {
  tr_id : string;
  tr_runId : string;
  definitionTaskId : string;
  tr_handler : string;
  status : TaskStatus;
  attempt : Z;
  tr_startedAt : option string;
  tr_finishedAt : option string;
  output : option jsrecord;
  errorMessage : option string;
}.

Definition createTaskRun (id runId definitionTaskId handler : string) : TaskRun :=
  mkTaskRun id runId definitionTaskId handler TaskQueued 0 None None None None.

(** Spread updates [{ ...t, status }]. *)
Definition set_status (t : TaskRun) (s : TaskStatus) : TaskRun :=
  mkTaskRun (tr_id t) (tr_runId t) (definitionTaskId t) (tr_handler t) s (attempt t)
    (tr_startedAt t) (tr_finishedAt t) (output t) (errorMessage t).

(** ** Job definitions (job-definition.ts) *)

Record TaskDefinition : Type := mkTaskDefinition {
  td_id : string;
  td_name : string;
  handler : string;
  timeoutMs : Z;
  optional : option bool;
  dependsOn : option (list string);
}.

(** [t.dependsOn ?? []]. *)
Definition deps (t : TaskDefinition) : list string := default [] (dependsOn t).

(** [d.optional] as a condition. *)
Definition is_optional (t : TaskDefinition) : bool := default false (optional t).

Inductive Severity : Type := SeverityWarn | SeverityBlock.

#[export] Instance Severity_eq_dec : EqDecision Severity.
Proof. solve_decision. Defined.

Record JobConstraint : Type := mkConstraint {
  c_id : string;
  expression : string;
  severity : Severity;
}.

Record JobDefinition : Type := mkJobDefinition {
  jd_id : string;
  jd_name : string;
  jd_version : Z;
  description : option string;
  tasks : list TaskDefinition;
  constraints : list JobConstraint;
  retryPolicy : RetryPolicy;
  allowedTransitions : list string;
  metadata : jsmap string string;
  jd_createdAt : string;
  jd_updatedAt : string;
}.

(** [cloneJobDefinition] copies the arrays and records of the definition field by
    field ([t.dependsOn ? [...t.dependsOn] : undefined]). *)
Definition cloneJobDefinition (def : JobDefinition) : JobDefinition :=
  mkJobDefinition (jd_id def) (jd_name def) (jd_version def) (description def)
    ((λ t, mkTaskDefinition (td_id t) (td_name t) (handler t) (timeoutMs t) (optional t)
             (match dependsOn t with Some ds => Some ds | None => None end)) <$> tasks def)
    ((λ c, mkConstraint (c_id c) (expression c) (severity c)) <$> constraints def)
    (retryPolicy def) (allowedTransitions def) (metadata def) (jd_createdAt def) (jd_updatedAt def).

(** ** Workflow instances and runs (workflow-instance.ts) *)

Record WorkflowHistoryEntry : Type := mkHistoryEntry {
  he_at : string;
  he_from : WorkflowState;
  he_to : WorkflowState;
  he_event : string;
  he_actor : string;
  he_note : option string;
}.

Record WorkflowInstance : Type := mkWorkflow {
  wf_id : string;
  wf_jobId : string;
  wf_runId : string;
  state : WorkflowState;
  currentTaskId : option string;
  context : jsrecord;
  wf_tasks : list TaskRun;
  history : list WorkflowHistoryEntry;
  wf_version : Z;
  wf_createdAt : string;
  wf_updatedAt : string;
}.

Record JobRun : Type := mkJobRun {
  run_id : string;
  run_jobId : string;
  run_workflowId : string;
  run_status : WorkflowState;
  run_startedAt : string;
  run_finishedAt : option string;
  trigger : string;
  run_input : jsrecord;
}.

(** [{ ...workflow, tasks, updatedAt }]. *)
Definition set_tasks (w : WorkflowInstance) (ts : list TaskRun) (at_ : string) : WorkflowInstance :=
  mkWorkflow (wf_id w) (wf_jobId w) (wf_runId w) (state w) (currentTaskId w) (context w) ts
    (history w) (wf_version w) (wf_createdAt w) at_.

(** The assignments [run.status = s] and [run.finishedAt = at]. *)
Definition set_run_status (r : JobRun) (s : WorkflowState) : JobRun :=
  mkJobRun (run_id r) (run_jobId r) (run_workflowId r) s (run_startedAt r) (run_finishedAt r)
    (trigger r) (run_input r).
Definition set_run_finishedAt (r : JobRun) (at_ : string) : JobRun :=
  mkJobRun (run_id r) (run_jobId r) (run_workflowId r) (run_status r) (run_startedAt r) (Some at_)
    (trigger r) (run_input r).

(** ** Domain events (events.ts) *)

Inductive DomainEvent : Type :=
| JobRegistered (jobId at_ : string)
| RunStarted (runId jobId at_ : string)
| RunCompleted (runId at_ : string)
| WorkflowTransitioned (runId : string) (from to : WorkflowState) (event at_ : string)
| TaskStarted (runId taskId : string) (attempt : Z) (at_ : string)
| TaskFinished (runId taskId : string) (success : bool) (at_ : string)
| TaskRetryScheduled (runId taskId : string) (attempt : Z) (delayMs : JsNum.num) (at_ : string)
| RunFailed (runId : string) (reason : FailureReason) (at_ : string)
| RunDeadLettered (runId at_ : string).

(** ** Tenants (tenant.ts) *)

Inductive Environment : Type := Development | Staging | Production.

Record TenantQuotas : Type := mkQuotas {
  maxConcurrentRuns : Z;
  maxJobs : Z;
  maxWebhookEndpoints : Z;
}.

Definition DEFAULT_QUOTAS : TenantQuotas := mkQuotas 50 200 10.

Record TenantContext : Type := mkTenant {
  tenantId : string;
  environment : Environment;
  quotas : TenantQuotas;
}.

(** ** Priorities (priority.ts)

    [RunPriority] is a numeric enumeration; the batch loader accepts any number,
    so a priority is an integer. *)

Definition RunPriority : Type := Z.
Definition PriorityLow : RunPriority := 1.
Definition PriorityNormal : RunPriority := 5.
Definition PriorityHigh : RunPriority := 10.
Definition PriorityCritical : RunPriority := 20.

Definition comparePriority (a b : RunPriority) : Z := b - a.

(** ** Handler manifests (handler-manifest.ts) *)

Record HandlerManifestEntry : Type := mkManifest {
  hm_name : string;
  hm_version : string;
  hm_description : string;
  hm_timeoutMs : Z;
  retryable : bool;
  tags : list string;
}.

Definition BUILTIN_HANDLERS : list HandlerManifestEntry := [
  mkManifest "invoice.fetch" "2.1" "Pull invoice batch from ERP" 30000 true ["erp"; "finance"];
  mkManifest "invoice.normalize" "1.4" "Normalize line items" 15000 true ["finance"];
  mkManifest "invoice.post_gl" "1.0" "Post journal entries to GL" 30000 true ["finance"; "erp"];
  mkManifest "reconcile.extract" "2.0" "Extract ledger transactions" 90000 true ["finance"];
  mkManifest "reconcile.match" "3.0" "Match PO to invoice lines" 60000 true ["finance"];
  mkManifest "onboard.validate" "1.0" "KYC validation gate" 20000 false ["compliance"];
  mkManifest "onboard.provision" "1.2" "Provision tenant resources" 45000 true ["platform"];
  mkManifest "external.risky_notify" "0.9" "Third-party notification" 8000 true ["external"];
  mkManifest "report.aggregate" "1.1" "Roll up metrics for BI export" 120000 true ["analytics"]
].
