(* ===== verification/Retry.v ===== *)
(** * Retry policies (domain/retry-policy.ts, workers/retry-handler.ts)

    Delays are computed in doubles, as the engine computes them.  The delays of a
    policy are integers and its backoff multiplier is a rational, the exact value
    of a finite double; [num_of_Z] and [num_of_Q] are the doubles nearest to them.
    The value of a finite [Math.pow] is left to the implementation by ECMAScript;
    here it is correctly rounded ([JsNum.math_pow]). *)

From S2P Require Import Prelude JsMap JsNum JsRound DomainTypes JsValue Domain.
From Stdlib Require Import QArith SpecFloat.
Open Scope Z_scope.

Definition DEFAULT_RETRY_POLICY : RetryPolicy := mkRetryPolicy 3 500 (2 # 1) 30000.

Definition num_of_Q (q : Q) : JsNum.num :=
  match Qnum q with
  | Zneg m => num_opp (num_of_ratio (Zpos m) (Qden q))
  | z => num_of_ratio z (Qden q)
  end.

Definition computeBackoffDelay (policy : RetryPolicy) (attempt : Z) : JsNum.num :=
  if attempt <=? 0 then num_of_Z (initialDelayMs policy)
  else
    let raw := num_mul (num_of_Z (initialDelayMs policy))
                 (math_pow (num_of_Q (backoffMultiplier policy)) (attempt - 1)) in
    math_min (math_floor raw) (num_of_Z (maxDelayMs policy)).

Definition shouldRetry (policy : RetryPolicy) (attempt : Z) : bool :=
  attempt <? maxAttempts policy.

Record RetryDecision : Type := mkDecision {
  retry : bool;
  delayMs : JsNum.num;
  nextAttempt : Z;
}.

(** [RetryHandler.decide]. *)
Definition decide_retry (policy : RetryPolicy) (task : TaskRun) : RetryDecision :=
  let next := attempt task + 1 in
  if negb (shouldRetry policy next) then mkDecision false num_zero next
  else mkDecision true (computeBackoffDelay policy next) next.

(** [RetryHandler.assertWithinAttempts]. *)
Definition assertWithinAttempts (policy : RetryPolicy) (task : TaskRun) : res unit :=
  if maxAttempts policy <=? attempt task then
    Throw (ExecutionError ReasonMaxRetriesExceeded
      ("task " +:+ definitionTaskId task +:+ " exceeded max attempts ("
         +:+ pretty_Z (maxAttempts policy) +:+ ")"))
  else Ok tt.

(** [RetryHandler.scheduleNote], given the clock's reading. *)
Definition scheduleNote (task : TaskRun) (delay : JsNum.num) (nowIso : string) : string :=
  "retry #" +:+ pretty_Z (attempt task + 1) +:+ " scheduled at " +:+ nowIso
    +:+ " (+" +:+ num_to_string delay +:+ "ms)".

(** What [retryPolicySchema] (config/schema.ts) accepts. *)
Definition policy_valid (p : RetryPolicy) : Prop :=
  1 ≤ maxAttempts p ≤ 20 ∧ 0 ≤ initialDelayMs p ∧ (1 <= backoffMultiplier p)%Q ∧ 0 ≤ maxDelayMs p.

(** ** Backoff *)

Example backoff_1 : computeBackoffDelay (mkRetryPolicy 3 100 (2#1) 1000) 1 = num_of_Z 100.
Proof. by vm_compute. Qed.
Example backoff_2 : computeBackoffDelay (mkRetryPolicy 3 100 (2#1) 1000) 2 = num_of_Z 200.
Proof. by vm_compute. Qed.
Example backoff_10 : computeBackoffDelay (mkRetryPolicy 3 100 (2#1) 1000) 10 = num_of_Z 1000.
Proof. by vm_compute. Qed.
Example backoff_fraction : computeBackoffDelay (mkRetryPolicy 5 333 (3#2) 30000) 4 = num_of_Z 1123.
Proof. by vm_compute. Qed.

(** The delays of the default policy. *)
Example backoff_default :
  computeBackoffDelay DEFAULT_RETRY_POLICY <$> [1; 2; 3; 4; 5; 6; 7; 8; 20]
  = num_of_Z <$> [500; 1000; 2000; 4000; 8000; 16000; 30000; 30000; 30000].
Proof. by vm_compute. Qed.

(** A valid policy whose first delay gives no number: the power overflows and
    zero is multiplied with infinity, which [Math.min] keeps. *)
Definition overflowing_policy : RetryPolicy := mkRetryPolicy 5 0 (inject_Z (10 ^ 200)) 30000.

Example overflowing_policy_valid : policy_valid overflowing_policy.
Proof. unfold policy_valid. cbn -[Z.pow]. split; [lia|]. split; [lia|]. split; [by vm_compute|lia]. Qed.

Example backoff_not_a_number : computeBackoffDelay overflowing_policy 3 = num_nan.
Proof. by vm_compute. Qed.

Section backoff.
Context (p : RetryPolicy) (n : Z) (Hp : policy_valid p) (Hn : 1 ≤ n).
Context (Hi : initialDelayMs p < 2 ^ 53) (Hm : maxDelayMs p < 2 ^ 53).
#[local] Notation factor := (math_pow (num_of_Q (backoffMultiplier p)) (n - 1)).
#[local] Notation raw := (num_mul (num_of_Z (initialDelayMs p)) factor).

Lemma computeBackoffDelay_raw :
  computeBackoffDelay p n = math_min (math_floor raw) (num_of_Z (maxDelayMs p)).
Proof using Hn. unfold computeBackoffDelay. by rewrite (proj2 (Z.leb_gt n 0)) by lia. Qed.

Lemma factor_nonneg : nonneg factor.
Proof using Hp.
  apply math_pow_nonneg. destruct Hp as (_ & _ & Hb & _). unfold Qle in Hb. simpl in Hb.
  unfold num_of_Q. destruct (Qnum (backoffMultiplier p)); [done|apply num_of_ratio_nonneg|lia].
Qed.

(** The product is no number when zero meets infinity, and otherwise not negative. *)
Lemma raw_cases :
  (raw = num_nan ∧ initialDelayMs p = 0 ∧ factor = S754_infinity false)
  ∨ (nonneg raw ∧ ¬ (initialDelayMs p = 0 ∧ factor = S754_infinity false)).
Proof using Hp Hi.
  pose proof Hp as (_ & Hi0 & _).
  destruct (num_mul_nonneg (num_of_Z (initialDelayMs p)) factor) as [Hr|(Hr & [[Hz Hf]|[Hz _]])];
    [by apply num_of_Z_nonneg|apply factor_nonneg|..].
  - right. split; [exact Hr|]. intros [Hz Hf]. by rewrite Hz, Hf in Hr.
  - left. split; [exact Hr|]. split; [|exact Hf]. destruct (decide (initialDelayMs p = 0)) as [|Hne]; [done|].
    by rewrite num_of_Z_double in Hz by lia.
  - destruct (decide (initialDelayMs p = 0)) as [He|Hne]; [by rewrite He in Hz|].
    by rewrite num_of_Z_double in Hz by lia.
Qed.

(** With a whole multiplier the factor is exact or beyond [2 ^ 53]. *)
Lemma factor_whole b :
  backoffMultiplier p = inject_Z b → b < 2 ^ 53 →
  1 ≤ b ^ (n - 1) ∧ ((b ^ (n - 1) < 2 ^ 53 ∧ factor = num_of_Z (b ^ (n - 1))) ∨ (2 ^ 53 ≤ b ^ (n - 1) ∧ large factor)).
Proof using Hp Hn.
  intros Hb Hlt. pose proof Hp as (_ & _ & Hb1 & _). rewrite Hb in Hb1. unfold Qle in Hb1. simpl in Hb1.
  assert (num_of_Q (backoffMultiplier p) = num_of_Z b) as Hq.
  { rewrite Hb. unfold num_of_Q. cbn [inject_Z Qnum Qden]. destruct b; [done|apply num_of_ratio_exact; lia|lia]. }
  split; [pose proof (Z.pow_pos_nonneg b (n - 1)); lia|]. rewrite Hq.
  destruct (Z.lt_ge_cases (b ^ (n - 1)) (2 ^ 53)).
  - left. split; [done|]. apply math_pow_exact; lia.
  - right. split; [done|]. apply math_pow_large; lia.
Qed.

Lemma delay_whole b :
  backoffMultiplier p = inject_Z b → b < 2 ^ 53 → nonneg raw →
  math_min (math_floor raw) (num_of_Z (maxDelayMs p)) = num_of_Z (Z.min (initialDelayMs p * b ^ (n - 1)) (maxDelayMs p)).
Proof using Hp Hn Hi Hm.
  intros Hb Hlt Hr. pose proof Hp as (_ & Hi0 & _ & Hm0).
  destruct (factor_whole b Hb Hlt) as [Hpow Hf].
  assert (large raw → 2 ^ 53 ≤ initialDelayMs p * b ^ (n - 1) →
    math_min (math_floor raw) (num_of_Z (maxDelayMs p))
    = num_of_Z (Z.min (initialDelayMs p * b ^ (n - 1)) (maxDelayMs p))) as Hlarge.
  { intros Hl Hbig. rewrite math_floor_large, math_min_large, Z.min_r by (done || lia). done. }
  destruct Hf as [[Hsmall Hf]|[Hbig Hf]].
  - destruct (Z.lt_ge_cases (initialDelayMs p * b ^ (n - 1)) (2 ^ 53)) as [Hprod|Hprod].
    + rewrite Hf, num_mul_exact, math_floor_exact, math_min_exact by nia. done.
    + apply Hlarge; [|done]. rewrite Hf. apply num_mul_exact_large; nia.
  - destruct (decide (initialDelayMs p = 0)) as [Hz|Hz].
    + rewrite Hz in *. destruct factor as [s|s| |s m e]; try done. destruct Hf as (-> & _).
      change (num_mul (num_of_Z 0) (S754_finite false m e)) with (num_of_Z 0).
      rewrite math_floor_exact, math_min_exact by lia. done.
    + apply Hlarge; [apply num_mul_large; [lia|done]|nia].
Qed.

(** C38: The delay before attempt [n] of a policy that the schema accepts and
    whose delays are below [2 ^ 53] ms, computed in doubles: it is [NaN] exactly
    when the first delay is zero and the power of the multiplier is infinite;
    otherwise it is at least zero and at most the longest delay; and with a whole
    multiplier below [2 ^ 53] it is then, however large the power, exactly the
    smaller of [initialDelayMs * multiplier ^ (n - 1)] and the longest delay. *)
Theorem backoff_correct :
  (computeBackoffDelay p n = num_nan ↔
     initialDelayMs p = 0 ∧ math_pow (num_of_Q (backoffMultiplier p)) (n - 1) = S754_infinity false)
  ∧ (computeBackoffDelay p n ≠ num_nan →
       num_leb num_zero (computeBackoffDelay p n) = true
       ∧ num_leb (computeBackoffDelay p n) (num_of_Z (maxDelayMs p)) = true
       ∧ ∀ b, backoffMultiplier p = inject_Z b → b < 2 ^ 53 →
           computeBackoffDelay p n = num_of_Z (Z.min (initialDelayMs p * b ^ (n - 1)) (maxDelayMs p))).
Proof using Hp Hn Hi Hm.
  rewrite computeBackoffDelay_raw. pose proof Hp as (_ & _ & _ & Hm0).
  destruct raw_cases as [(Hr & Hz & Hf)|[Hr Hno]].
  - rewrite Hr. cbn [math_floor]. change (math_min S754_nan _) with num_nan. done.
  - assert (nonneg (math_min (math_floor raw) (num_of_Z (maxDelayMs p)))) as Hd.
    { apply math_min_nonneg; [by apply math_floor_nonneg|by apply num_of_Z_nonneg]. }
    pose proof (nonneg_not_nan _ Hd). split; [tauto|]. intros _. split; [by apply nonneg_leb|].
    split; [by destruct (math_min_le (math_floor raw) (num_of_Z (maxDelayMs p)))|].
    intros b Hb Hlt. by apply delay_whole.
Qed.
End backoff.

(** The default policy, also far beyond the attempts the engine makes: the power is
    [2 ^ 53] at attempt 54 and infinite from attempt 1025 on. *)
Lemma backoff_correct_witness :
  computeBackoffDelay DEFAULT_RETRY_POLICY 3 = num_of_Z 2000
  ∧ computeBackoffDelay DEFAULT_RETRY_POLICY 2000 = num_of_Z 30000.
Proof.
  assert (∀ n, 1 ≤ n → computeBackoffDelay DEFAULT_RETRY_POLICY n = num_of_Z (Z.min (500 * 2 ^ (n - 1)) 30000)) as Hall.
  { intros n Hn. destruct (backoff_correct DEFAULT_RETRY_POLICY n) as [Hnan Hdelay].
    - unfold policy_valid. cbn. unfold Qle. cbn. lia.
    - exact Hn.
    - cbn. lia.
    - cbn. lia.
    - apply Hdelay; [|reflexivity|lia]. rewrite Hnan. cbn. lia. }
  split; [by rewrite Hall|]. rewrite Hall by lia. reflexivity.
Defined.
