(* ===== verification/Transitions.v ===== *)
(** * The workflow state machine

    validators/transition-validator.ts, engine/state-machine.ts and
    engine/transition-guard.ts: the table of legal transitions, the recorded
    history, and the guards on [complete], [retry] and [cancel]. *)

From S2P Require Import Prelude JsMap JsNum DomainTypes JsValue Domain.
Open Scope Z_scope.

(** ** The transition table *)

Definition rule_matches (from to : WorkflowState) (event : string) (r : TransitionRule) : bool :=
  bool_decide (rule_from r = from) && bool_decide (rule_to r = to)
  && bool_decide (rule_event r = event).

Definition canTransition (rules : list TransitionRule) (from to : WorkflowState)
    (event : string) : bool :=
  existsb (rule_matches from to event) rules.

Definition assertTransition (rules : list TransitionRule) (from to : WorkflowState)
    (event : string) : res unit :=
  if canTransition rules from to event then Ok tt
  else Throw (TransitionError
    ("transition denied: " +:+ WorkflowState_string from +:+ " -[" +:+ event +:+ "]-> "
       +:+ WorkflowState_string to)).

(** [[...new Set(events)]]: the events in order, first occurrences only. *)
Definition allowedEvents (rules : list TransitionRule) (from : WorkflowState) : list string :=
  map_keys (map_of_entries
    ((λ r, (rule_event r, tt)) <$> List.filter (λ r, bool_decide (rule_from r = from)) rules)).

Definition DEFAULT_TRANSITION_RULES : list TransitionRule := [
  mkRule Draft Pending "submit";
  mkRule Pending Running "start";
  mkRule Running Waiting "await";
  mkRule Waiting Running "resume";
  mkRule Running Completed "complete";
  mkRule Running Failed "fail";
  mkRule Waiting Failed "fail";
  mkRule Failed Running "retry";
  mkRule Failed DeadLettered "dead_letter";
  mkRule Pending Cancelled "cancel";
  mkRule Running Cancelled "cancel"
].

(** ** The state machine *)

(** [WorkflowStateMachine.transition]; [at1] and [at2] are its two clock readings. *)
Definition transition (rules : list TransitionRule) (instance : WorkflowInstance) (event : string)
    (target : WorkflowState) (actor : string) (note : option string) (at1 at2 : string)
    : res WorkflowInstance :=
  _ ← assertTransition rules (state instance) target event;
  let entry := mkHistoryEntry at1 (state instance) target event actor note in
  Ok (mkWorkflow (wf_id instance) (wf_jobId instance) (wf_runId instance) target
        (currentTaskId instance) (context instance) (wf_tasks instance)
        (history instance ++ [entry]) (wf_version instance + 1) (wf_createdAt instance) at2).

Definition isTerminal (s : WorkflowState) : bool :=
  bool_decide (s = Completed) || bool_decide (s = Cancelled) || bool_decide (s = DeadLettered).

(** ** Guards *)

Definition task_done (t : TaskRun) : bool :=
  bool_decide (status t = TaskSucceeded) || bool_decide (status t = TaskSkipped).

Definition assertAllRequiredTasksSucceeded (ts : list TaskRun) : res unit :=
  let incomplete := List.filter (λ t, negb (task_done t)) ts in
  match incomplete with
  | [] => Ok tt
  | _ => Throw (TransitionError
           ("cannot complete workflow: " +:+ pretty (length incomplete) +:+ " tasks not succeeded"))
  end.

(** [TransitionGuard.evaluate]: the three checks in order. *)
Definition evaluate_guard (instance : WorkflowInstance) (event : string)
    (target : WorkflowState) : res unit :=
  _ ← (if bool_decide (event = "complete") && bool_decide (target = Completed)
       then assertAllRequiredTasksSucceeded (wf_tasks instance) else Ok tt);
  _ ← (if bool_decide (event = "retry") && bool_decide (target = Running)
       then match List.filter (λ t, bool_decide (status t = TaskFailed)) (wf_tasks instance) with
            | [] => Throw (TransitionError "retry requires at least one failed task")
            | _ => Ok tt
            end
       else Ok tt);
  if bool_decide (event = "cancel") && bool_decide (state instance = Running) then
    if existsb (λ t, bool_decide (status t = TaskRunning)) (wf_tasks instance)
    then Throw (TransitionError "cannot cancel while tasks are running") else Ok tt
  else Ok tt.

(** ** Histories as paths of the transition relation *)

Inductive step (rules : list TransitionRule) : WorkflowState → WorkflowState → Prop :=
| step_rule r : r ∈ rules → step rules (rule_from r) (rule_to r).

Inductive reachable (rules : list TransitionRule) (s0 : WorkflowState) : WorkflowState → Prop :=
| reachable_refl : reachable rules s0 s0
| reachable_step s s' : reachable rules s0 s → step rules s s' → reachable rules s0 s'.

(** [path rules s0 h s]: the entries [h] lead from [s0] to [s] by legal steps. *)
Inductive path (rules : list TransitionRule) (s0 : WorkflowState)
    : list WorkflowHistoryEntry → WorkflowState → Prop :=
| path_nil : path rules s0 [] s0
| path_snoc h s e :
    path rules s0 h s → he_from e = s → canTransition rules s (he_to e) (he_event e) = true →
    path rules s0 (h ++ [e]) (he_to e).

#[export] Hint Constructors step reachable path : jobflow.

(** The audit invariant of a workflow: its history is a legal path from
    [pending] to its state, and its version counts the entries. *)
Definition audited (rules : list TransitionRule) (w : WorkflowInstance) : Prop :=
  path rules Pending (history w) (state w) ∧ wf_version w = 1 + Z.of_nat (length (history w)).

(** ** Lemmas *)

Lemma canTransition_true rules from to event :
  canTransition rules from to event = true ↔ mkRule from to event ∈ rules.
Proof.
  unfold canTransition. rewrite existsb_exists. split.
  - intros ([f t e] & Hin & Hm). unfold rule_matches in Hm. simpl in Hm.
    rewrite !andb_true_iff, !bool_decide_eq_true in Hm. destruct Hm as [[-> ->] ->].
    by apply list_elem_of_In.
  - intros Hin. exists (mkRule from to event). split; [by apply list_elem_of_In|].
    unfold rule_matches. simpl. by rewrite !bool_decide_eq_true_2.
Qed.

Lemma canTransition_step rules from to event :
  canTransition rules from to event = true → step rules from to.
Proof. intros H%canTransition_true. by apply (step_rule _ (mkRule from to event)). Qed.

Lemma transition_Ok rules w event target actor note at1 at2 w' :
  transition rules w event target actor note at1 at2 = Ok w' →
  canTransition rules (state w) target event = true
  ∧ state w' = target ∧ wf_id w' = wf_id w ∧ wf_runId w' = wf_runId w
  ∧ wf_jobId w' = wf_jobId w ∧ context w' = context w ∧ wf_tasks w' = wf_tasks w
  ∧ wf_version w' = wf_version w + 1
  ∧ history w' = history w ++ [mkHistoryEntry at1 (state w) target event actor note].
Proof.
  unfold transition, assertTransition.
  destruct (canTransition rules (state w) target event) eqn:Hc; intros [=]; by subst.
Qed.

Lemma transition_denied rules w event target actor note at1 at2 :
  canTransition rules (state w) target event = false →
  ∃ m, transition rules w event target actor note at1 at2 = Throw (TransitionError m).
Proof. unfold transition, assertTransition. intros ->. by eexists. Qed.

Lemma transition_audited rules w event target actor note at1 at2 w' :
  audited rules w → transition rules w event target actor note at1 at2 = Ok w' → audited rules w'.
Proof.
  intros [Hp Hv] (Hc & Hs & _ & _ & _ & _ & _ & Hv' & Hh)%transition_Ok.
  unfold audited. rewrite Hs, Hh, Hv', Hv, length_app. split; [|simpl; lia].
  by apply (path_snoc _ _ _ _ (mkHistoryEntry at1 (state w) target event actor note) Hp).
Qed.

Lemma set_tasks_audited rules w ts at_ : audited rules w → audited rules (set_tasks w ts at_).
Proof. done. Qed.

Lemma path_reachable rules s0 h s : path rules s0 h s → reachable rules s0 s.
Proof. induction 1; subst; eauto using canTransition_step with jobflow. Qed.

(** A state without outgoing rule ends every path that visits it. *)
Lemma path_prefix rules s0 h1 h2 s :
  path rules s0 (h1 ++ h2) s → ∃ s1, path rules s0 h1 s1 ∧ (h2 = [] → s1 = s).
Proof.
  remember (h1 ++ h2) as h eqn:Hh. intros Hp. revert h1 h2 Hh.
  induction Hp as [|h s e Hp IH Hf Hc]; intros h1 h2 Hh.
  - symmetry in Hh. apply app_eq_nil in Hh as [-> ->]. eauto with jobflow.
  - destruct (decide (h2 = [])) as [->|Hne].
    + rewrite app_nil_r in Hh. subst h1. eauto with jobflow.
    + destruct (exists_last Hne) as (h2' & e' & ->). rewrite app_assoc in Hh.
      apply app_inj_tail in Hh as [-> ->]. destruct (IH h1 h2' eq_refl) as (s1 & Hs1 & _).
      exists s1. split; [done|]. intros Hnil. by destruct h2'.
Qed.

Lemma default_rules_deterministic r1 r2 :
  r1 ∈ DEFAULT_TRANSITION_RULES → r2 ∈ DEFAULT_TRANSITION_RULES →
  rule_from r1 = rule_from r2 → rule_event r1 = rule_event r2 → rule_to r1 = rule_to r2.
Proof.
  assert (Forall (λ r1, Forall (λ r2, rule_from r1 = rule_from r2 →
    rule_event r1 = rule_event r2 → rule_to r1 = rule_to r2) DEFAULT_TRANSITION_RULES)
    DEFAULT_TRANSITION_RULES) as H by (apply (bool_decide_unpack _); by vm_compute).
  rewrite Forall_forall in H. intros H1 H2. specialize (H r1 H1).
  rewrite Forall_forall in H. by apply H.
Qed.

Lemma task_done_true t : task_done t = true ↔ status t = TaskSucceeded ∨ status t = TaskSkipped.
Proof. unfold task_done. by rewrite orb_true_iff, !bool_decide_eq_true. Qed.

Lemma assertAll_Ok ts :
  assertAllRequiredTasksSucceeded ts = Ok tt ↔ Forall (λ t, task_done t = true) ts.
Proof.
  unfold assertAllRequiredTasksSucceeded.
  induction ts as [|t ts IH]; simpl; [done|]. rewrite Forall_cons.
  destruct (task_done t); simpl; [tauto|]. split; [done|]. naive_solver.
Qed.

(** The guard accepts or denies. *)
Lemma evaluate_guard_cases w event target :
  evaluate_guard w event target = Ok tt
  ∨ ∃ m, evaluate_guard w event target = Throw (TransitionError m).
Proof.
  unfold evaluate_guard, assertAllRequiredTasksSucceeded.
  repeat (case_match; simpl); eauto.
Qed.

#[export] Instance transition_enabled_dec w event target :
  Decision (evaluate_guard w event target = Ok tt ∧ canTransition DEFAULT_TRANSITION_RULES (state w) target event = true).
Proof.
  apply and_dec; [|apply _].
  destruct (evaluate_guard w event target) as [[]| |] eqn:E; [by left|by right..].
Defined.

(** ** Properties *)

(** No default rule leaves a terminal state. *)
Lemma terminal_no_rule s to event :
  isTerminal s = true → canTransition DEFAULT_TRANSITION_RULES s to event = false.
Proof. by destruct s. Qed.

Lemma path_app_inv rules s0 h1 h2 s :
  path rules s0 (h1 ++ h2) s → ∃ s1, path rules s0 h1 s1 ∧ path rules s1 h2 s.
Proof.
  remember (h1 ++ h2) as h eqn:Hh. intros Hp. revert h1 h2 Hh.
  induction Hp as [|h s e Hp IH Hf Hc]; intros h1 h2 Hh.
  - symmetry in Hh. apply app_eq_nil in Hh as [-> ->]. eauto with jobflow.
  - destruct (decide (h2 = [])) as [->|Hne].
    + rewrite app_nil_r in Hh. subst h1. eauto with jobflow.
    + destruct (exists_last Hne) as (h2' & e' & ->). rewrite app_assoc in Hh.
      apply app_inj_tail in Hh as [-> ->]. destruct (IH h1 h2' eq_refl) as (s1 & Hs1 & Hs2).
      exists s1. split; [done|]. by apply path_snoc with s.
Qed.

Lemma path_functional rules s0 h s s' : path rules s0 h s → path rules s0 h s' → s = s'.
Proof.
  intros [|h1 s1 e1 _ _ _] H2.
  - inversion H2 as [|h2 s2 e2 _ _ _ Heq]; [done|]. symmetry in Heq. by apply app_cons_not_nil in Heq.
  - inversion H2 as [Heq|h2 s2 e2 _ _ _ Heq]; [by apply app_cons_not_nil in Heq|].
    by apply app_inj_tail in Heq as [_ ->].
Qed.

Lemma path_head rules s0 e h s :
  path rules s0 (e :: h) s → he_from e = s0 ∧ canTransition rules s0 (he_to e) (he_event e) = true.
Proof.
  remember (e :: h) as l eqn:Hl. intros Hp. revert e h Hl.
  induction Hp as [|l s e' Hp IH Hf Hc]; intros e h Hl; [done|].
  destruct l as [|e'' l]; simplify_eq/=.
  - by rewrite (path_functional _ _ _ _ _ Hp (path_nil _ _)) in *.
  - by apply (IH e l).
Qed.

(** Terminal states are final: in an audited history, a prefix that reaches
    [completed], [cancelled] or [dead_lettered] is the whole history, and a
    workflow in such a state refuses every transition. *)
Theorem terminal_final (w : WorkflowInstance) (h1 h2 : list WorkflowHistoryEntry) (s1 : WorkflowState)
    (Hau : audited DEFAULT_TRANSITION_RULES w) (Hh : history w = h1 ++ h2)
    (Hp : path DEFAULT_TRANSITION_RULES Pending h1 s1) (Ht : isTerminal s1 = true) :
  h2 = [] ∧ state w = s1
  ∧ ∀ event target actor note at1 at2, ∃ m,
      transition DEFAULT_TRANSITION_RULES w event target actor note at1 at2 = Throw (TransitionError m).
Proof.
  destruct Hau as [Hpath _]. rewrite Hh in Hpath.
  destruct (path_app_inv _ _ _ _ _ Hpath) as (s2 & Hp2 & Hrest).
  pose proof (path_functional _ _ _ _ _ Hp Hp2) as <-.
  assert (h2 = []) as ->.
  { destruct h2 as [|e h2]; [done|]. apply path_head in Hrest as [_ Hc].
    by rewrite terminal_no_rule in Hc. }
  pose proof (path_functional _ _ _ _ _ Hrest (path_nil _ _)) as Hs.
  split; [done|]. split; [done|]. intros. apply transition_denied. rewrite Hs. by apply terminal_no_rule.
Qed.

Lemma terminal_final_witness :
  ∃ m, transition DEFAULT_TRANSITION_RULES
    (mkWorkflow "w" "j" "r" Cancelled None [] [] [mkHistoryEntry "t" Pending Cancelled "cancel" "user" None] 2 "t" "t")
    "start" Running "user" None "t" "t" = Throw (TransitionError m).
Proof.
  apply (terminal_final
    (mkWorkflow "w" "j" "r" Cancelled None [] [] [mkHistoryEntry "t" Pending Cancelled "cancel" "user" None] 2 "t" "t")
    [mkHistoryEntry "t" Pending Cancelled "cancel" "user" None] [] Cancelled).
  - split; [|reflexivity].
    apply (path_snoc _ _ [] Pending (mkHistoryEntry "t" Pending Cancelled "cancel" "user" None)); constructor.
  - reflexivity.
  - apply (path_snoc _ _ [] Pending (mkHistoryEntry "t" Pending Cancelled "cancel" "user" None)); constructor.
  - reflexivity.
Defined.
