(* ===== verification/Locks.v ===== *)
(** * Run locks (engine/run-lock.ts)

    A registry maps a run to the owner of its lock.  An empty owner is falsy in
    JavaScript, so a lock held under the empty name does not exclude anyone. *)

From S2P Require Import Prelude JsMap JsString DomainTypes.

Definition RunLockRegistry : Type := jsmap string string.

Definition acquire (locks : RunLockRegistry) (runId owner : string) : res RunLockRegistry :=
  match map_get locks runId with
  | Some current =>
      if truthy_string current && negb (bool_decide (current = owner)) then
        Throw (ConcurrencyError ("run " +:+ runId +:+ " locked by " +:+ current))
      else Ok (map_set locks runId owner)
  | None => Ok (map_set locks runId owner)
  end.

Definition release (locks : RunLockRegistry) (runId owner : string) : RunLockRegistry :=
  if bool_decide (map_get locks runId = Some owner) then map_delete locks runId else locks.

Definition isLocked (locks : RunLockRegistry) (runId : string) : bool := map_has locks runId.

(** ** Interleavings of lock operations *)

Inductive lock_op : Type :=
| OpAcquire (runId owner : string)
| OpRelease (runId owner : string).

#[export] Instance lock_op_eq_dec : EqDecision lock_op.
Proof. solve_decision. Defined.

(** A refused [acquire] throws to its caller and leaves the registry as it was. *)
Definition lock_step (locks : RunLockRegistry) (op : lock_op) : RunLockRegistry :=
  match op with
  | OpAcquire r o => match acquire locks r o with Ok l => l | _ => locks end
  | OpRelease r o => release locks r o
  end.

Definition lock_steps (locks : RunLockRegistry) (ops : list lock_op) : RunLockRegistry :=
  foldl lock_step locks ops.

Lemma acquire_held locks r o o' :
  map_get locks r = Some o → o ≠ "" → o' ≠ o →
  acquire locks r o' = Throw (ConcurrencyError ("run " +:+ r +:+ " locked by " +:+ o)).
Proof.
  intros Hg Ho Hne. unfold acquire. rewrite Hg.
  rewrite (proj2 (truthy_string_true o)), bool_decide_eq_false_2 by congruence. done.
Qed.

Lemma acquire_free locks r o :
  map_get locks r = None ∨ map_get locks r = Some o → acquire locks r o = Ok (map_set locks r o).
Proof.
  unfold acquire. intros [->| ->]; [done|]. rewrite bool_decide_eq_true_2, andb_false_r by done. done.
Qed.

Lemma acquire_Ok locks r o locks' :
  acquire locks r o = Ok locks' → locks' = map_set locks r o.
Proof. unfold acquire. repeat case_match; naive_solver. Qed.

Lemma release_other locks r o r' :
  r ≠ r' → map_get (release locks r o) r' = map_get locks r'.
Proof. intros Hne. unfold release. case_bool_decide; [by apply map_get_delete_ne|done]. Qed.

Lemma lock_step_keeps locks r o op :
  o ≠ "" → map_get locks r = Some o → op ≠ OpRelease r o →
  map_get (lock_step locks op) r = Some o.
Proof.
  intros Ho Hg Hop. destruct op as [r' o'|r' o']; simpl.
  - destruct (decide (r' = r)) as [->|Hr].
    + destruct (decide (o' = o)) as [->|Hne].
      * rewrite acquire_free by auto. apply map_get_set_eq.
      * by rewrite (acquire_held _ _ o).
    + destruct (acquire locks r' o') eqn:Ha; [|done..].
      apply acquire_Ok in Ha as ->. by rewrite map_get_set_ne.
  - destruct (decide (r' = r)) as [->|Hr]; [|by rewrite release_other].
    unfold release. rewrite bool_decide_eq_false_2; congruence.
Qed.

Lemma lock_steps_keep locks r o ops :
  o ≠ "" → map_get locks r = Some o → OpRelease r o ∉ ops →
  map_get (lock_steps locks ops) r = Some o.
Proof.
  intros Ho. unfold lock_steps. revert locks.
  induction ops as [|op ops IH]; intros locks Hg Hn; simpl; [done|].
  apply IH; [|set_solver]. apply lock_step_keeps; set_solver.
Qed.

Lemma lock_step_ok locks op : map_ok locks → map_ok (lock_step locks op).
Proof.
  intros Hok. destruct op as [r o|r o]; simpl.
  - destruct (acquire locks r o) eqn:Ha; [|done..]. apply acquire_Ok in Ha as ->.
    by apply map_set_ok.
  - unfold release. case_bool_decide; [by apply map_delete_ok|done].
Qed.

Lemma release_own locks r o :
  map_ok locks → map_get locks r = Some o → isLocked (release locks r o) r = false.
Proof.
  intros Hok Hg. unfold release, isLocked, map_has.
  rewrite (bool_decide_eq_true_2 (map_get locks r = Some o)) by exact Hg.
  apply bool_decide_eq_false.
  rewrite map_get_delete_eq by exact Hok. intros [? [=]].
Qed.

(** ** Properties *)

(** A lock excludes other owners: once a non-empty owner holds a run, then
    whatever operations follow, in any order and from anyone, as long as that
    owner does not release it, it still holds the run and every other owner's
    [acquire] throws the concurrency error without changing the registry; the
    owner's own release frees it. *)
Theorem lock_excludes (locks : RunLockRegistry) (r o : string) (ops : list lock_op)
    (Hok : map_ok locks) (Ho : o ≠ "") (Hg : map_get locks r = Some o) (Hn : OpRelease r o ∉ ops) :
  map_get (lock_steps locks ops) r = Some o
  ∧ (∀ o', o' ≠ o → acquire (lock_steps locks ops) r o'
       = Throw (ConcurrencyError ("run " +:+ r +:+ " locked by " +:+ o)))
  ∧ isLocked (release (lock_steps locks ops) r o) r = false.
Proof.
  pose proof (lock_steps_keep locks r o ops Ho Hg Hn) as Hk.
  split; [done|]. split; [intros o' Hne; by apply acquire_held|].
  apply release_own; [|done]. clear Hg Hn Hk. unfold lock_steps. revert locks Hok.
  induction ops as [|op ops IH]; intros locks Hok; simpl; [done|]. by apply IH, lock_step_ok.
Qed.

Lemma lock_excludes_witness :
  acquire (lock_steps [("r", "a")] [OpRelease "r" "b"; OpAcquire "r" "b"; OpAcquire "q" "b"]) "r" "b"
    = Throw (ConcurrencyError "run r locked by a").
Proof.
  apply (lock_excludes [("r", "a")] "r" "a" [OpRelease "r" "b"; OpAcquire "r" "b"; OpAcquire "q" "b"]).
  - apply (bool_decide_unpack _). vm_compute. exact I.
  - discriminate.
  - reflexivity.
  - apply (bool_decide_unpack _). vm_compute. exact I.
  - discriminate.
Defined.
