(* ===== verification/Stores.v ===== *)
(** * Stores (src/storage/)

    storage/interfaces.ts becomes one class per interface: the operations and
    the laws their callers rely on.  The in-memory stores and the SQL
    repositories that wrap them are the instances. *)

From S2P Require Import Prelude JsMap JsString JsNum DomainTypes JsValue Domain.

(** ** Interfaces *)

Class JobDefinitionStore (S : Type) := {
  job_save : JobDefinition → S → S;
  job_get : string → S → option JobDefinition;
  job_list : S → list JobDefinition;
  job_delete : string → S → bool * S;
}.

Class JobDefinitionStoreLaws (S : Type) `{JobDefinitionStore S} := {
  job_get_save : ∀ id d s, job_get id (job_save d s) = if decide (jd_id d = id) then Some d else job_get id s;
}.

Class WorkflowStore (S : Type) := {
  workflow_save : WorkflowInstance → S → S;
  workflow_get : string → S → option WorkflowInstance;
  workflow_getByRunId : string → S → option WorkflowInstance;
  workflow_store_ok : S → Prop;
}.

Class WorkflowStoreLaws (S : Type) `{WorkflowStore S} := {
  workflow_save_ok : ∀ w s, workflow_store_ok s → workflow_store_ok (workflow_save w s);
  workflow_getByRunId_save : ∀ w s,
    wf_id w ≠ "" → workflow_getByRunId (wf_runId w) (workflow_save w s) = Some w;
  workflow_getByRunId_save_ne : ∀ w s r,
    workflow_store_ok s → r ≠ wf_runId w →
    (∀ w', workflow_getByRunId r s = Some w' → wf_id w' ≠ wf_id w) →
    workflow_getByRunId r (workflow_save w s) = workflow_getByRunId r s;
  workflow_getByRunId_nonempty : ∀ s r w,
    workflow_store_ok s → workflow_getByRunId r s = Some w → wf_id w ≠ "";
}.

Class RunStore (S : Type) := {
  run_save : JobRun → S → S;
  run_get : string → S → option JobRun;
  run_listByJob : string → S → list JobRun;
  run_listActive : S → list JobRun;
}.

Class RunStoreLaws (S : Type) `{RunStore S} := {
  run_get_save : ∀ id r s, run_get id (run_save r s) = if decide (run_id r = id) then Some r else run_get id s;
}.

(** ** In-memory stores *)

Definition InMemoryJobStore : Type := jsmap string JobDefinition.

#[export] Instance InMemoryJobStore_ops : JobDefinitionStore InMemoryJobStore := {
  job_save d s := map_set s (jd_id d) d;
  job_get id s := map_get s id;
  job_list s := map_values s;
  job_delete id s := (map_has s id, map_delete s id);
}.

#[export] Instance InMemoryJobStore_laws : JobDefinitionStoreLaws InMemoryJobStore.
Proof. split. intros. apply map_get_set. Qed.

Definition active_states : list WorkflowState := [Pending; Running; Waiting].

Definition InMemoryRunStore : Type := jsmap string JobRun.

#[export] Instance InMemoryRunStore_ops : RunStore InMemoryRunStore := {
  run_save r s := map_set s (run_id r) r;
  run_get id s := map_get s id;
  run_listByJob jobId s := List.filter (λ r, bool_decide (run_jobId r = jobId)) (map_values s);
  run_listActive s := List.filter (λ r, bool_decide (run_status r ∈ active_states)) (map_values s);
}.

#[export] Instance InMemoryRunStore_laws : RunStoreLaws InMemoryRunStore.
Proof. split. intros. apply map_get_set. Qed.

Record InMemoryWorkflowStore : Type := mkWorkflowStore {
  byId : jsmap string WorkflowInstance;
  byRunId : jsmap string string;
}.

Definition empty_workflow_store : InMemoryWorkflowStore := mkWorkflowStore [] [].

(** Every indexed run points to a stored workflow under its own id. *)
Definition index_ok (s : InMemoryWorkflowStore) : Prop :=
  ∀ r i, map_get (byRunId s) r = Some i → ∃ w, map_get (byId s) i = Some w ∧ wf_id w = i.

#[export] Instance InMemoryWorkflowStore_ops : WorkflowStore InMemoryWorkflowStore := {
  workflow_save w s :=
    mkWorkflowStore (map_set (byId s) (wf_id w) w) (map_set (byRunId s) (wf_runId w) (wf_id w));
  workflow_get id s := map_get (byId s) id;
  workflow_getByRunId r s :=
    match map_get (byRunId s) r with
    | Some i => if truthy_string i then map_get (byId s) i else None
    | None => None
    end;
  workflow_store_ok := index_ok;
}.

#[export] Instance InMemoryWorkflowStore_laws : WorkflowStoreLaws InMemoryWorkflowStore.
Proof.
  split; simpl.
  - intros w s Hok r i. unfold index_ok in *. simpl. rewrite map_get_set.
    destruct (decide (wf_runId w = r)) as [_|Hr].
    + intros [= <-]. rewrite map_get_set_eq. eauto.
    + intros (w' & Hw' & <-)%Hok. rewrite map_get_set. case_decide; [|eauto].
      exists w. done.
  - intros w s Hne. rewrite map_get_set_eq, (proj2 (truthy_string_true _)) by done.
    apply map_get_set_eq.
  - intros w s r Hok Hr Hdiff. rewrite map_get_set_ne by done.
    destruct (map_get (byRunId s) r) as [i|] eqn:Hi; [|done].
    destruct (truthy_string i) eqn:Ht; [|done].
    destruct (Hok _ _ Hi) as (w' & Hw' & Hid). rewrite map_get_set_ne; [done|].
    rewrite <-Hid. apply not_eq_sym, Hdiff. done.
  - intros s r w Hok. destruct (map_get (byRunId s) r) as [i|] eqn:Hi; [|done].
    destruct (truthy_string i) eqn:Ht; [|done].
    destruct (Hok _ _ Hi) as (w' & Hw' & Hid). intros Hw. simplify_eq.
    by apply truthy_string_true.
Qed.

Lemma empty_workflow_store_ok : workflow_store_ok empty_workflow_store.
Proof. intros r i. done. Qed.

(** ** Dead letters *)

Record DeadLetterEntry : Type := mkDeadLetter {
  dl_runId : string;
  dl_payload : jsrecord;
  dl_at : string;
}.

Definition dead_letter_push (runId : string) (payload : jsrecord) (nowIso : string)
    (entries : list DeadLetterEntry) : list DeadLetterEntry :=
  entries ++ [mkDeadLetter runId payload nowIso].

(** [entries.slice(-limit)]: all of them for [limit = 0], none of the tail is
    lost when there are fewer, and a negative limit counts from the front. *)
Definition slice_last {A} (l : list A) (limit : Z) : list A :=
  (if decide (limit < 0) then drop (Z.to_nat (- limit)) l
   else if decide (limit = 0) then l
   else drop (length l - Z.to_nat limit) l)%Z.

Definition dead_letter_list (limit : Z) (entries : list DeadLetterEntry) : list DeadLetterEntry :=
  slice_last entries limit.

(** ** SQL repositories

    A repository builds a query, discards it and delegates to its inner store. *)

Record SqlJobRepository (S : Type) : Type := mkSqlJob { sql_job_inner : S }.
Arguments mkSqlJob {S}.
Arguments sql_job_inner {S}.

#[export] Instance SqlJobRepository_ops {S : Type} `{JobDefinitionStore S} :
    JobDefinitionStore (SqlJobRepository S) := {
  job_save d s := mkSqlJob (job_save d (sql_job_inner s));
  job_get id s := job_get id (sql_job_inner s);
  job_list s := job_list (sql_job_inner s);
  job_delete id s := let '(b, s') := job_delete id (sql_job_inner s) in (b, mkSqlJob s');
}.

#[export] Instance SqlJobRepository_laws {S : Type} `{JobDefinitionStoreLaws S} :
  JobDefinitionStoreLaws (SqlJobRepository S).
Proof. split. intros. apply (@job_get_save S _ _). Qed.

Record SqlRunRepository (S : Type) : Type := mkSqlRun { sql_run_inner : S }.
Arguments mkSqlRun {S}.
Arguments sql_run_inner {S}.

#[export] Instance SqlRunRepository_ops {S : Type} `{RunStore S} : RunStore (SqlRunRepository S) := {
  run_save r s := mkSqlRun (run_save r (sql_run_inner s));
  run_get id s := run_get id (sql_run_inner s);
  run_listByJob jobId s := run_listByJob jobId (sql_run_inner s);
  run_listActive s := run_listActive (sql_run_inner s);
}.

#[export] Instance SqlRunRepository_laws {S : Type} `{RunStoreLaws S} : RunStoreLaws (SqlRunRepository S).
Proof. split. intros. apply (@run_get_save S _ _). Qed.
