(* ===== verification/Metrics.v ===== *)
(** * Metrics (src/metrics/)

    The registry of counters and histograms, the collector that feeds it from
    domain events, and the Prometheus text export.  Label keys are ordered by
    code units where the engine calls [localeCompare]; the label sets the engine
    builds have at most one key. *)

From S2P Require Import Prelude JsMap JsString JsNum JsObject DomainTypes JsValue Domain.
From Stdlib Require Import Ascii.
Open Scope Z_scope.

Notation labels := (jsmap string string).

Record Histogram : Type := mkHistogram {
  h_sum : Z;
  h_count : Z;
  h_buckets : list Z;
}.

Record MetricsRegistry : Type := mkRegistry {
  counters : jsmap string Z;
  histograms : jsmap string Histogram;
}.

Definition empty_registry : MetricsRegistry := mkRegistry [] [].

(** ** Keys *)

(** [entries.sort(([a], [b]) => a.localeCompare(b))]: insertion keeps the order
    of equal keys. *)
Fixpoint insert_label (l : string * string) (ls : labels) : labels :=
  match ls with
  | [] => [l]
  | l' :: ls' => if string_leb l.1 l'.1 then l :: ls else l' :: insert_label l ls'
  end.
Definition sort_labels (ls : labels) : labels := foldr insert_label [] ls.

Definition metric_key (name : string) (ls : labels) : string :=
  name +:+ "|" +:+ join "," ((λ '(k, v), k +:+ "=" +:+ v) <$> sort_labels ls).

Definition parse_label (part : string) (acc : labels) : labels :=
  match split part "="%char with
  | k :: v :: _ => if truthy_string k && truthy_string v then map_set acc k v else acc
  | _ => acc
  end.

(** [key.split("|")] always has a first element. *)
Definition parseKey (key : string) : string * labels :=
  match split key "|"%char with
  | [] => (key, [])
  | [name] => (name, [])
  | name :: labelStr :: _ =>
      (name, if truthy_string labelStr
             then foldl (λ acc part, parse_label part acc) [] (split labelStr ","%char) else [])
  end.

(** ** Updates *)

Definition increment (name : string) (ls : labels) (delta : Z) (r : MetricsRegistry)
    : MetricsRegistry :=
  let key := metric_key name ls in
  mkRegistry (map_set (counters r) key (default 0 (map_get (counters r) key) + delta))
    (histograms r).

Definition bounds : list Z := [10; 50; 100; 500; 1000].

Definition empty_histogram : Histogram := mkHistogram 0 0 [0; 0; 0; 0; 0].

(** [bounds.forEach((b, i) => { if (value <= b) buckets[i] += 1 })]. *)
Definition bump (value : Z) (buckets : list Z) : list Z :=
  zip_with (λ b n, if value <=? b then n + 1 else n) bounds buckets.

Definition record_value (value : Z) (h : Histogram) : Histogram :=
  mkHistogram (h_sum h + value) (h_count h + 1) (bump value (h_buckets h)).

Definition observe (name : string) (value : Z) (ls : labels) (r : MetricsRegistry)
    : MetricsRegistry :=
  let key := metric_key name ls in
  let cur := default empty_histogram (map_get (histograms r) key) in
  mkRegistry (counters r) (map_set (histograms r) key (record_value value cur)).

(** ** The collector *)

Definition onDomainEvent (event : DomainEvent) (r : MetricsRegistry) : MetricsRegistry :=
  match event with
  | RunStarted _ jobId _ => increment "jobflow_runs_started_total" [("job_id", jobId)] 1 r
  | RunCompleted _ _ => increment "jobflow_runs_completed_total" [] 1 r
  | RunFailed _ reason _ =>
      increment "jobflow_runs_failed_total" [("reason", FailureReason_string reason)] 1 r
  | TaskFinished _ _ success _ =>
      increment "jobflow_tasks_finished_total"
        [("success", if success then "true" else "false")] 1 r
  | TaskRetryScheduled _ _ _ _ _ => increment "jobflow_task_retries_total" [] 1 r
  | _ => r
  end.

Definition recordTaskDuration (handler : string) (ms : Z) (r : MetricsRegistry) : MetricsRegistry :=
  observe "jobflow_task_duration_ms" ms [("handler", handler)] r.

(** ** Export *)

Record CounterMetric : Type := mkCounter { cm_name : string; cm_labels : labels; cm_value : Z }.

Record HistogramMetric : Type := mkHistogramMetric {
  hmx_name : string;
  hmx_labels : labels;
  hmx_sum : Z;
  hmx_count : Z;
  hmx_buckets : list (Z * Z);
}.

Definition snapshot (r : MetricsRegistry) : list CounterMetric * list HistogramMetric :=
  ((λ '(key, value), let '(name, ls) := parseKey key in mkCounter name ls value) <$> counters r,
   (λ '(key, h), let '(name, ls) := parseKey key in
      mkHistogramMetric name ls (h_sum h) (h_count h) (zip bounds (h_buckets h))) <$> histograms r).

Definition dquote : ascii := "034"%char.
Definition dquotes : string := of_chars [dquote].
Definition newline : ascii := "010"%char.
Definition newlines : string := of_chars [newline].
Definition backslash : ascii := "092"%char.
Definition backslashes : string := of_chars [backslash].

Definition escapeLabel (v : string) : string :=
  replace_all newline (backslashes +:+ "n")
    (replace_all dquote (backslashes +:+ dquotes)
      (replace_all backslash (backslashes +:+ backslashes) v)).

Definition formatLabels (ls : labels) : string :=
  match ls with
  | [] => ""
  | _ => "{" +:+ join "," ((λ '(k, v), k +:+ "=" +:+ dquotes +:+ escapeLabel v +:+ dquotes) <$> own_fields ls)
           +:+ "}"
  end.

(** The running sum of the bucket loop. *)
Fixpoint cumulate (acc : Z) (buckets : list (Z * Z)) : list (Z * Z) :=
  match buckets with
  | [] => []
  | (le, n) :: bs => (le, acc + n) :: cumulate (acc + n) bs
  end.

Definition histogram_lines (h : HistogramMetric) : list string :=
  ((λ '(le, cumulative),
     hmx_name h +:+ "_bucket" +:+ formatLabels (map_set (hmx_labels h) "le" (pretty_Z le))
       +:+ " " +:+ pretty_Z cumulative) <$> cumulate 0 (hmx_buckets h))
  ++ [hmx_name h +:+ "_sum" +:+ formatLabels (hmx_labels h) +:+ " " +:+ pretty_Z (hmx_sum h);
      hmx_name h +:+ "_count" +:+ formatLabels (hmx_labels h) +:+ " " +:+ pretty_Z (hmx_count h)].

Definition counter_lines (c : CounterMetric) : list string :=
  ["# TYPE " +:+ cm_name c +:+ " counter";
   cm_name c +:+ formatLabels (cm_labels c) +:+ " " +:+ pretty_Z (cm_value c)].

Definition formatPrometheus (r : MetricsRegistry) : string :=
  let '(cs, hs) := snapshot r in
  join newlines ((cs ≫= counter_lines) ++ (hs ≫= histogram_lines)) +:+ newlines.

(** ** What the registry and the export compute *)

(** The observations at or below a bound. *)
Definition count_le (b : Z) (xs : list Z) : Z := Z.of_nat (length (List.filter (λ x, x <=? b) xs)).

Definition observe_all (name : string) (ls : labels) (xs : list Z) (r : MetricsRegistry)
    : MetricsRegistry := foldl (λ r x, observe name x ls r) r xs.

Definition histogram_of (xs : list Z) : Histogram := foldl (λ h x, record_value x h) empty_histogram xs.

Lemma histogram_of_app xs ys :
  histogram_of (xs ++ ys) = foldl (λ h x, record_value x h) (histogram_of xs) ys.
Proof. unfold histogram_of. by rewrite foldl_app. Qed.

Lemma count_le_snoc b xs x : count_le b (xs ++ [x]) = count_le b xs + (if x <=? b then 1 else 0).
Proof.
  unfold count_le. rewrite List.filter_app, length_app. simpl.
  destruct (x <=? b); simpl; lia.
Qed.

(** A bucket of the registry already counts every observation at or below its
    bound. *)
Lemma histogram_of_spec xs :
  h_count (histogram_of xs) = Z.of_nat (length xs)
  ∧ h_buckets (histogram_of xs) = (λ b, count_le b xs) <$> bounds.
Proof.
  induction xs as [|x xs [IHc IHb]] using rev_ind; [done|].
  rewrite histogram_of_app. cbn [foldl record_value h_count h_buckets].
  rewrite IHc, IHb, length_app. split; [simpl; lia|].
  unfold bump, bounds. simpl. rewrite !count_le_snoc.
  repeat (case_match; f_equal); lia.
Qed.

Lemma observe_all_get name ls xs r :
  map_get (histograms r) (metric_key name ls) = None → xs ≠ [] →
  map_get (histograms (observe_all name ls xs r)) (metric_key name ls) = Some (histogram_of xs).
Proof.
  intros Hr. induction xs as [|x xs IH] using rev_ind; [done|]. intros _.
  unfold observe_all. rewrite foldl_app, histogram_of_app. cbn [foldl].
  fold (observe_all name ls xs r). unfold observe. cbn [histograms]. rewrite map_get_set_eq.
  destruct (decide (xs = [])) as [->|Hne]; simpl; [by rewrite Hr|]. by rewrite IH.
Qed.

Lemma count_le_mono b c xs : b ≤ c → count_le b xs ≤ count_le c xs.
Proof.
  intros Hbc. unfold count_le. induction xs as [|x xs IH]; simpl; [lia|].
  destruct (Z.leb_spec x b), (Z.leb_spec x c); simpl in *; lia.
Qed.

Lemma count_le_bounds b xs : 0 ≤ count_le b xs ≤ Z.of_nat (length xs).
Proof.
  unfold count_le. pose proof (List.filter_length_le (λ x, x <=? b) xs). lia.
Qed.

(** ** Properties *)

(** After any sequence of observations of a fresh key, the registry holds
    their number and, for each bound, the number of observations at or below it;
    the observations do not touch the counters or the other histograms. *)
Theorem observe_counts (name : string) (ls : labels) (xs : list Z) (r : MetricsRegistry)
    (Hr : map_get (histograms r) (metric_key name ls) = None) (Hxs : xs ≠ []) :
  ∃ h, map_get (histograms (observe_all name ls xs r)) (metric_key name ls) = Some h
    ∧ h_count h = Z.of_nat (length xs) ∧ h_buckets h = (λ b, count_le b xs) <$> bounds
    ∧ counters (observe_all name ls xs r) = counters r
    ∧ ∀ k, k ≠ metric_key name ls →
        map_get (histograms (observe_all name ls xs r)) k = map_get (histograms r) k.
Proof.
  exists (histogram_of xs). split; [by apply observe_all_get|].
  split; [apply histogram_of_spec|]. split; [apply histogram_of_spec|].
  clear Hr Hxs. unfold observe_all. split.
  - revert r. induction xs as [|x xs IH]; intros r; simpl; [done|]. by rewrite IH.
  - intros k Hk. revert r. induction xs as [|x xs IH]; intros r; simpl; [done|].
    rewrite IH. simpl. by rewrite map_get_set_ne.
Qed.

Lemma observe_counts_witness :
  ∃ h, map_get (histograms (observe_all "d" [] [5; 70; 2000] empty_registry)) "d|" = Some h
    ∧ h_buckets h = [1; 1; 2; 2; 2].
Proof.
  destruct (observe_counts "d" [] [5; 70; 2000] empty_registry eq_refl ltac:(discriminate))
    as (h & Hget & _ & Hb & _).
  exists h. split; [exact Hget|]. rewrite Hb. vm_compute. reflexivity.
Defined.

(** The Prometheus export sums the registry's buckets again, although each
    already counts every observation at or below its bound: the exported bucket
    is at least the true count, and exceeds it from the second bound on as soon
    as one observation is at or below the first. *)
Lemma prometheus_overcounts (xs : list Z) (i : nat) (b n : Z)
    (Hi : cumulate 0 (zip bounds (h_buckets (histogram_of xs))) !! i = Some (b, n)) :
  bounds !! i = Some b ∧ count_le b xs ≤ n
  ∧ ((0 < i)%nat → (∃ x, x ∈ xs ∧ x ≤ 10) → count_le b xs < n).
Proof.
  rewrite (proj2 (histogram_of_spec xs)) in Hi. unfold bounds in *. simpl in Hi.
  assert ((∃ x, x ∈ xs ∧ x ≤ 10) → 0 < count_le 10 xs) as H10.
  { intros (x & Hx & Hle). unfold count_le.
    assert (x ∈ List.filter (λ x, x <=? 10) xs) as Hin.
    { apply list_elem_of_In, List.filter_In. split; [by apply list_elem_of_In|by apply Z.leb_le]. }
    destruct (List.filter (λ x, x <=? 10) xs); [by apply not_elem_of_nil in Hin|simpl; lia]. }
  pose proof (count_le_bounds 10 xs). pose proof (count_le_bounds 50 xs).
  pose proof (count_le_bounds 100 xs). pose proof (count_le_bounds 500 xs).
  do 5 (destruct i as [|i]; [simpl in Hi; injection Hi as <- <-; split; [done|];
    split; [lia|]; intros ? ?; specialize (H10 ltac:(done)); lia|]).
  done.
Qed.

Example prometheus_overcounts_example : count_le 50 [5] < 2.
Proof.
  apply (prometheus_overcounts [5] 1 50 2).
  - vm_compute. reflexivity.
  - lia.
  - exists 5. split; [left|lia].
Qed.
