(* ===== verification/Handlers.v ===== *)
(** * Handler registry and resolver (handlers/registry.ts, handlers/resolver.ts) *)

From S2P Require Import Prelude JsMap JsString JsNum DomainTypes JsValue Domain.
Open Scope Z_scope.

Definition HandlerRegistry : Type := jsmap string HandlerManifestEntry.

(** The constructor registers the built-in handlers. *)
Definition new_handler_registry : HandlerRegistry :=
  foldl (λ m h, map_set m (hm_name h) h) [] BUILTIN_HANDLERS.

Definition register_handler (reg : HandlerRegistry) (entry : HandlerManifestEntry)
    : res HandlerRegistry :=
  if map_has reg (hm_name entry)
  then Throw (ValidationError ("handler already registered: " +:+ hm_name entry) [])
  else Ok (map_set reg (hm_name entry) entry).

Definition get_handler (reg : HandlerRegistry) (name : string) : option HandlerManifestEntry :=
  map_get reg name.

(** An absent or empty tag lists everything. *)
Definition list_handlers (reg : HandlerRegistry) (tag : option string) : list HandlerManifestEntry :=
  match tag with
  | Some t => if truthy_string t
              then List.filter (λ h, bool_decide (t ∈ tags h)) (map_values reg) else map_values reg
  | None => map_values reg
  end.

Definition assertKnown (reg : HandlerRegistry) (h : string) : res unit :=
  if map_has reg h then Ok tt else Throw (ValidationError ("unknown handler: " +:+ h) [h]).

Definition set_timeout (t : TaskDefinition) (ms : Z) : TaskDefinition :=
  mkTaskDefinition (td_id t) (td_name t) (handler t) ms (optional t) (dependsOn t).

(** The body of the loop of [HandlerResolver.resolveTasks]: a timeout over twice
    the manifest's is lowered to that bound. *)
Definition resolve_task (reg : HandlerRegistry) (t : TaskDefinition) : TaskDefinition :=
  match get_handler reg (handler t) with
  | None => t
  | Some manifest =>
      if hm_timeoutMs manifest * 2 <? timeoutMs t then set_timeout t (hm_timeoutMs manifest * 2) else t
  end.

(** [resolveTasks] updates the tasks in place. *)
Definition resolveTasks (reg : HandlerRegistry) (ts : list TaskDefinition) : list TaskDefinition :=
  resolve_task reg <$> ts.

(** Every task's handler is known and its timeout within twice the manifest's. *)
Definition task_resolved (reg : HandlerRegistry) (t : TaskDefinition) : Prop :=
  ∃ m, get_handler reg (handler t) = Some m ∧ timeoutMs t ≤ 2 * hm_timeoutMs m.

Lemma assertKnown_Ok reg h : assertKnown reg h = Ok tt ↔ is_Some (map_get reg h).
Proof. unfold assertKnown, map_has. case_bool_decide; naive_solver. Qed.

Lemma resolve_task_id reg t : td_id (resolve_task reg t) = td_id t.
Proof. unfold resolve_task. by repeat case_match. Qed.
Lemma resolve_task_deps reg t : deps (resolve_task reg t) = deps t.
Proof. unfold resolve_task. by repeat case_match. Qed.
Lemma resolve_task_handler reg t : handler (resolve_task reg t) = handler t.
Proof. unfold resolve_task. by repeat case_match. Qed.

Lemma resolve_task_resolved reg t :
  is_Some (get_handler reg (handler t)) → task_resolved reg (resolve_task reg t).
Proof.
  intros [m Hm]. unfold task_resolved. rewrite resolve_task_handler. exists m. split; [done|].
  unfold resolve_task. rewrite Hm. case_match; simpl; lia.
Qed.

Lemma map_has_Some {V} (m : jsmap string V) k : map_has m k = true ↔ is_Some (map_get m k).
Proof. apply bool_decide_eq_true. Qed.
