(* ===== verification/Validator.v ===== *)
(** * Job definition validation (validators/job-definition-validator.ts) *)

From S2P Require Import Prelude JsMap JsString Graph JsNum DomainTypes JsValue Domain Retry.
From stdpp Require Import relations.
Open Scope Z_scope.

(** ** [validate] *)

(** The messages [validateTask] pushes for one task. *)
Definition validateTask (task : TaskDefinition) (taskIds : list string) : list string :=
  (if timeoutMs task <=? 0
   then ["task " +:+ td_id task +:+ ": timeoutMs must be positive"] else [])
  ++ (deps task ≫= λ dep,
        (if bool_decide (dep ∈ taskIds) then []
         else ["task " +:+ td_id task +:+ ": depends on unknown task " +:+ dep])
        ++ (if bool_decide (dep = td_id task)
            then ["task " +:+ td_id task +:+ ": cannot depend on itself"] else [])).

(** The loop over the tasks; a task with an id already [seen] is reported and
    skipped. *)
Fixpoint validate_tasks (allTaskIds seen : list string) (ts : list TaskDefinition) : list string :=
  match ts with
  | [] => []
  | t :: ts' =>
      if bool_decide (td_id t ∈ seen)
      then ("duplicate task id: " +:+ td_id t) :: validate_tasks allTaskIds seen ts'
      else validateTask t allTaskIds ++ validate_tasks allTaskIds (td_id t :: seen) ts'
  end.

Definition validation_errors (def : JobDefinition) : list string :=
  (match tasks def with [] => ["job must define at least one task"] | _ => [] end)
  ++ validate_tasks (td_id <$> tasks def) [] (tasks def)
  ++ (if maxAttempts (retryPolicy def) <? 1 then ["retryPolicy.maxAttempts must be >= 1"] else []).

Definition validate (def : JobDefinition) : res unit :=
  match validation_errors def with
  | [] => Ok tt
  | errors => Throw (ValidationError "job definition validation failed" errors)
  end.

(** ** [validateDependencyOrder] *)

(** [new Map(tasks.map((t) => [t.id, t]))]. *)
Definition tasks_by_id (ts : list TaskDefinition) : jsmap string TaskDefinition :=
  map_of_entries ((λ t, (td_id t, t)) <$> ts).

(** [task?.dependsOn ?? []] of the task stored under an id. *)
Definition dep_children (ts : list TaskDefinition) (id : string) : list string :=
  match map_get (tasks_by_id ts) id with Some t => deps t | None => [] end.

(** The ids the search can meet; one more unit of fuel than that is enough. *)
Definition dep_universe (ts : list TaskDefinition) : list string :=
  (td_id <$> ts) ++ (ts ≫= deps).

Definition validateDependencyOrder (ts : list TaskDefinition) : res unit :=
  match search (dep_children ts) (S (length (dep_universe ts))) (td_id <$> ts) with
  | Ok _ => Ok tt
  | Throw id => Throw (ValidationError "circular task dependency detected" [id])
  | OutOfFuel => OutOfFuel
  end.

(** ** The specification: well-formed definitions *)

Definition task_ok (ids : list string) (t : TaskDefinition) : Prop :=
  0 < timeoutMs t ∧ ∀ d, d ∈ deps t → d ∈ ids ∧ d ≠ td_id t.

Record well_formed (def : JobDefinition) : Prop := {
  wf_nonempty : tasks def ≠ [];
  wf_unique : NoDup (td_id <$> tasks def);
  wf_tasks_ok : Forall (task_ok (td_id <$> tasks def)) (tasks def);
  wf_attempts : 1 ≤ maxAttempts (retryPolicy def);
}.

(** No task depends on itself through other tasks. *)
Definition acyclic (ts : list TaskDefinition) : Prop := ∀ id, ¬ cyclic (dep_children ts) id.

(** ** Lemmas *)

Lemma app_nil_iff {A} (l k : list A) : l ++ k = [] ↔ l = [] ∧ k = [].
Proof. split; [apply app_eq_nil|by intros [-> ->]]. Qed.

Lemma bind_nil_iff {A B} (f : A → list B) l : l ≫= f = [] ↔ ∀ x, x ∈ l → f x = [].
Proof.
  induction l as [|x l IH]; [set_solver|]. cbn. rewrite app_nil_iff.
  setoid_rewrite IH. setoid_rewrite elem_of_cons. naive_solver.
Qed.

Lemma validateTask_nil t ids : validateTask t ids = [] ↔ task_ok ids t.
Proof.
  unfold validateTask, task_ok. rewrite app_nil_iff, bind_nil_iff.
  apply Morphisms_Prop.and_iff_morphism.
  - destruct (Z.leb_spec (timeoutMs t) 0); split; (done || lia || (intros; exfalso; lia) || idtac).
  - split; intros H d Hd; specialize (H d Hd); repeat case_bool_decide; naive_solver.
Qed.

Lemma validate_tasks_nil ids seen ts :
  validate_tasks ids seen ts = [] ↔
  NoDup (td_id <$> ts) ∧ (∀ t, t ∈ ts → td_id t ∉ seen) ∧ Forall (task_ok ids) ts.
Proof.
  revert seen. induction ts as [|t ts IH]; intros seen.
  - simpl. split; [|done]. intros _. split; [apply NoDup_nil_2|]. split; [set_solver|done].
  - simpl. rewrite NoDup_cons, Forall_cons.
    case_bool_decide as Hs; [split; [done|set_solver]|].
    rewrite app_nil_iff, validateTask_nil, IH. clear IH.
    setoid_rewrite elem_of_cons. rewrite list_elem_of_fmap. split.
    + intros (Ht & Hnd & Hseen & Hall). split; [split; [|done]|].
      * intros (y & Hy1 & Hy2). specialize (Hseen y Hy2). rewrite Hy1 in Hseen. tauto.
      * split; [|done]. intros y [->|Hy]; [done|]. specialize (Hseen y Hy). tauto.
    + intros ([Hn Hnd] & Hseen & Ht & Hall). split; [done|]. split; [done|]. split; [|done].
      intros y Hy [Heq|Hin]; [|by apply (Hseen y); [right|]]. apply Hn. by exists y.
Qed.

Lemma validation_errors_nil def : validation_errors def = [] ↔ well_formed def.
Proof.
  unfold validation_errors. rewrite !app_nil_iff, validate_tasks_nil. split.
  - intros (Hne & (Hnd & _ & Hall) & Hm). split; [by destruct (tasks def)|done..|].
    destruct (Z.ltb_spec (maxAttempts (retryPolicy def)) 1); [done|lia].
  - intros [Hne Hnd Hall Hm]. split; [by destruct (tasks def)|]. split; [set_solver|].
    destruct (Z.ltb_spec (maxAttempts (retryPolicy def)) 1); [lia|done].
Qed.

Lemma validate_iff def : validate def = Ok tt ↔ well_formed def.
Proof.
  rewrite <-validation_errors_nil. unfold validate. destruct (validation_errors def); [done|].
  split; done.
Qed.

Lemma tasks_by_id_in ts id t : map_get (tasks_by_id ts) id = Some t → t ∈ ts ∧ td_id t = id.
Proof.
  unfold tasks_by_id, map_of_entries.
  induction ts as [|t' ts IH] using rev_ind; [done|].
  rewrite fmap_app, foldl_app. simpl. rewrite map_get_set. case_decide as Hd.
  - intros [= ->]. set_solver.
  - intros Ht. destruct (IH Ht). set_solver.
Qed.

Lemma tasks_by_id_unique ts t :
  NoDup (td_id <$> ts) → t ∈ ts → map_get (tasks_by_id ts) (td_id t) = Some t.
Proof.
  unfold tasks_by_id, map_of_entries.
  induction ts as [|t' ts IH] using rev_ind; [set_solver|].
  rewrite !fmap_app, foldl_app. simpl. rewrite NoDup_app, map_get_set.
  intros (Hnd & Hdisj & _) [Ht|Ht]%elem_of_app.
  - rewrite decide_False; [auto|]. intros Heq. apply (Hdisj (td_id t)).
    + by apply list_elem_of_fmap_2.
    + rewrite Heq. set_solver.
  - apply list_elem_of_singleton in Ht as ->. by rewrite decide_True.
Qed.

Lemma dep_children_in ts id c :
  c ∈ dep_children ts id → ∃ t, t ∈ ts ∧ td_id t = id ∧ c ∈ deps t.
Proof.
  unfold dep_children. destruct (map_get (tasks_by_id ts) id) as [t|] eqn:E; [|set_solver].
  apply tasks_by_id_in in E as [? ?]. eauto.
Qed.

Lemma dep_children_task ts t :
  NoDup (td_id <$> ts) → t ∈ ts → dep_children ts (td_id t) = deps t.
Proof. intros Hnd Ht. unfold dep_children. by rewrite tasks_by_id_unique. Qed.

Lemma dep_universe_closed ts id c : c ∈ dep_children ts id → c ∈ dep_universe ts.
Proof.
  intros (t & Ht & _ & Hc)%dep_children_in. unfold dep_universe.
  apply elem_of_app. right. apply list_elem_of_bind. eauto.
Qed.

Lemma dep_search_iff ts :
  (∃ m, search (dep_children ts) (S (length (dep_universe ts))) (td_id <$> ts) = Ok m)
  ↔ acyclic ts.
Proof.
  apply (search_Ok_iff _ (dep_universe ts)).
  - intros x c _. apply dep_universe_closed.
  - intros x c (t & Ht & <- & _)%dep_children_in. by apply list_elem_of_fmap_2.
  - unfold dep_universe. set_solver.
  - lia.
Qed.

Lemma dep_search_total ts :
  search (dep_children ts) (S (length (dep_universe ts))) (td_id <$> ts) ≠ OutOfFuel.
Proof.
  apply (search_fuel _ (dep_universe ts)).
  - intros x c _. apply dep_universe_closed.
  - unfold dep_universe. set_solver.
  - lia.
Qed.

(** An acyclic task list has a topological order that holds every task. *)
Lemma acyclic_topo ts :
  acyclic ts → ∃ l, topo (dep_children ts) l ∧ ∀ t, t ∈ ts → td_id t ∈ l.
Proof.
  intros (m & Hm)%dep_search_iff. apply search_sound in Hm as [Ht Hin].
  exists (visited m). split; [done|]. intros t Htin. by apply Hin, list_elem_of_fmap_2.
Qed.
