(* ===== verification/Dag.v ===== *)
(** * The DAG planner (engine/dag-planner.ts)

    [buildGraph] checks that the dependency graph has no cycle,
    [topologicalLevels] groups the tasks by counting dependencies down, and
    [criticalPath] finds a heaviest dependency chain with a memo table.  The
    [while] loop and the recursion of [longestFrom] are bounded by fuel; the
    theorems show the bounds in [plan] are always enough. *)

From S2P Require Import Prelude JsMap JsString Graph JsNum DomainTypes JsValue Domain Retry Validator.
Open Scope Z_scope.

Record DagNode : Type := mkNode {
  taskId : string;
  node_dependsOn : list string;
  weightMs : Z;
}.

Record DagPlan : Type := mkPlan {
  levels : list (list string);
  plan_criticalPath : list string;
  estimatedMs : Z;
}.

Notation dag := (jsmap string DagNode).

(** ** Building the graph *)

Definition node_of (t : TaskDefinition) : DagNode := mkNode (td_id t) (deps t) (timeoutMs t).

(** [node?.dependsOn ?? []]. *)
Definition node_children (graph : dag) (id : string) : list string :=
  match map_get graph id with Some n => node_dependsOn n | None => [] end.

(** The ids the searches can meet. *)
Definition dag_universe (graph : dag) : list string :=
  map_keys graph ++ (map_values graph ≫= node_dependsOn).

Definition assertAcyclic (graph : dag) : res unit :=
  match search (node_children graph) (S (length (dag_universe graph))) (map_keys graph) with
  | Ok _ => Ok tt
  | Throw id => Throw (PlainError ("cycle detected at task " +:+ id))
  | OutOfFuel => OutOfFuel
  end.

Definition graph_of (ts : list TaskDefinition) : dag :=
  foldl (λ g t, map_set g (td_id t) (node_of t)) [] ts.

Definition buildGraph (ts : list TaskDefinition) : res dag :=
  let graph := graph_of ts in
  _ ← assertAcyclic graph; Ok graph.

(** ** Topological levels *)

(** The state of one round: the degrees and the set [next]. *)
Notation level_state := (jsmap string Z * list string)%type.

Definition set_add (s : list string) (x : string) : list string :=
  if bool_decide (x ∈ s) then s else s ++ [x].

(** The body of the loop over the graph. *)
Definition relax_node (id : string) (st : level_state) (e : string * DagNode) : level_state :=
  let '(inDegree, next) := st in
  let '(tid, node) := e in
  if bool_decide (id ∈ node_dependsOn node) then
    let deg := default 0 (map_get inDegree tid) - 1 in
    (map_set inDegree tid deg, if deg =? 0 then set_add next tid else next)
  else st.

Definition relax (graph : dag) (st : level_state) (id : string) : level_state :=
  foldl (relax_node id) st graph.

Fixpoint levels_loop (fuel : nat) (graph : dag) (inDegree : jsmap string Z)
    (ready : list string) : res (list (list string)) :=
  match ready with
  | [] => Ok []
  | _ =>
      match fuel with
      | O => OutOfFuel
      | S fuel' =>
          let '(inDegree', next) := foldl (relax graph) (inDegree, []) ready in
          rest ← levels_loop fuel' graph inDegree' next; Ok (ready :: rest)
      end
  end.

Definition init_degrees (graph : dag) : jsmap string Z :=
  foldl (λ m n, map_set m (taskId n) (Z.of_nat (length (node_dependsOn n))))
    (foldl (λ m id, map_set m id 0) [] (map_keys graph)) (map_values graph).

Definition topologicalLevels (graph : dag) : res (list (list string)) :=
  let inDegree := init_degrees graph in
  let ready := List.filter (λ id, default 0 (map_get inDegree id) =? 0) (map_keys graph) in
  levels_loop (S (length graph)) graph inDegree ready.

(** ** The critical path *)

Definition memo_entry : Type := Z * list string.

(** The body both loops share: call [longestFrom], keep the heavier result. *)
Definition keep_best
    (f : string → jsmap string memo_entry → res (memo_entry * jsmap string memo_entry))
    (id : string) (st : memo_entry * jsmap string memo_entry)
    : res (memo_entry * jsmap string memo_entry) :=
  let '(best, memo) := st in
  '(child, memo') ← f id memo;
  Ok (if best.1 <? child.1 then child else best, memo').

(** Recursion and the loop over the dependencies, with the memo table threaded. *)
Fixpoint longestFrom (fuel : nat) (graph : dag) (id : string) (memo : jsmap string memo_entry)
    : res (memo_entry * jsmap string memo_entry) :=
  match fuel with
  | O => OutOfFuel
  | S fuel' =>
      match map_get memo id with
      | Some cached => Ok (cached, memo)
      | None =>
          match map_get graph id with
          | None => Ok ((0, []), memo)
          | Some node =>
              '(bestChild, memo') ← ofold (keep_best (longestFrom fuel' graph)) (node_dependsOn node) ((0, []) : memo_entry, memo);
              let result : memo_entry := (weightMs node + bestChild.1, bestChild.2 ++ [id]) in
              Ok (result, map_set memo' id result)
          end
      end
  end.

Definition criticalPath (graph : dag) : res (list string) :=
  '(best, _) ← ofold (keep_best (longestFrom (S (length (dag_universe graph))) graph))
    (map_keys graph) ((0, []) : memo_entry, [] : jsmap string memo_entry);
  Ok best.2.

Definition weight_of (graph : dag) (id : string) : Z :=
  match map_get graph id with Some n => weightMs n | None => 0 end.

Definition path_weight (graph : dag) (p : list string) : Z :=
  foldl (λ sum id, sum + weight_of graph id) 0 p.

Definition plan (ts : list TaskDefinition) : res DagPlan :=
  graph ← buildGraph ts;
  ls ← topologicalLevels graph;
  cp ← criticalPath graph;
  Ok (mkPlan ls cp (path_weight graph cp)).

(** ** The graph of a task list *)

Definition graph_ok (graph : dag) : Prop :=
  map_ok graph ∧ ∀ id n, map_get graph id = Some n → taskId n = id.

Lemma map_set_fmap {V W} (f : V → W) (m : jsmap string V) k v :
  map_set (prod_map id f <$> m) k (f v) = prod_map id f <$> map_set m k v.
Proof.
  induction m as [|[k' v'] m IH]; cbn -[decide]; [done|].
  unfold prod_map in *. simpl. case_decide; cbn; [done|]. f_equal. apply IH.
Qed.

Lemma map_get_fmap {V W} (f : V → W) (m : jsmap string V) k :
  map_get (prod_map id f <$> m) k = f <$> map_get m k.
Proof. induction m as [|[k' v'] m IH]; simpl; [done|]. by case_decide. Qed.

Lemma graph_of_tasks ts : graph_of ts = prod_map id node_of <$> tasks_by_id ts.
Proof.
  unfold graph_of, tasks_by_id, map_of_entries.
  induction ts as [|t ts IH] using rev_ind; [done|].
  rewrite fmap_app, !foldl_app. simpl. rewrite IH. apply map_set_fmap.
Qed.

Lemma graph_of_get ts id : map_get (graph_of ts) id = node_of <$> map_get (tasks_by_id ts) id.
Proof. by rewrite graph_of_tasks, map_get_fmap. Qed.

Lemma graph_of_keys ts : map_keys (graph_of ts) = map_keys (tasks_by_id ts).
Proof. rewrite graph_of_tasks. unfold map_keys. by rewrite <-list_fmap_compose. Qed.

Lemma graph_of_ok ts : graph_ok (graph_of ts).
Proof.
  split.
  - unfold map_ok. rewrite graph_of_keys. apply map_of_entries_ok.
  - intros id n. rewrite graph_of_get.
    destruct (map_get (tasks_by_id ts) id) as [t|] eqn:E; intros [= <-].
    by apply tasks_by_id_in in E as [_ ?].
Qed.

Lemma graph_of_children ts id : node_children (graph_of ts) id = dep_children ts id.
Proof. unfold node_children, dep_children. rewrite graph_of_get. by destruct (map_get _ id). Qed.

Lemma graph_of_in_keys ts id : id ∈ map_keys (graph_of ts) ↔ id ∈ td_id <$> ts.
Proof.
  rewrite graph_of_keys. unfold tasks_by_id, map_of_entries.
  induction ts as [|t ts IH] using rev_ind; [done|].
  rewrite fmap_app, foldl_app. simpl. rewrite map_keys_set, fmap_app. simpl.
  case_decide; set_solver.
Qed.

Lemma foldl_set_notin {V} (l : list (string * V)) (m : jsmap string V) k :
  k ∉ l.*1 → map_get (foldl (λ m '(k, v), map_set m k v) m l) k = map_get m k.
Proof.
  revert m. induction l as [|[k' v'] l IH]; intros m Hk; [done|]. simpl.
  rewrite IH by set_solver. apply map_get_set_ne. set_solver.
Qed.

Lemma graph_of_NoDup_keys ts : NoDup (td_id <$> ts) → map_keys (graph_of ts) = td_id <$> ts.
Proof.
  rewrite graph_of_keys. unfold tasks_by_id, map_of_entries.
  induction ts as [|t ts IH] using rev_ind; [done|].
  rewrite !fmap_app, foldl_app. simpl. rewrite NoDup_app, map_keys_set.
  intros (Hnd & Hd & _). rewrite IH by done. rewrite decide_False; [done|].
  intros Hin. apply (Hd _ Hin). set_solver.
Qed.

Lemma node_children_universe graph id c :
  c ∈ node_children graph id → c ∈ dag_universe graph.
Proof.
  unfold node_children, dag_universe. destruct (map_get graph id) as [n|] eqn:E; [|set_solver].
  intros Hc. apply elem_of_app. right. apply list_elem_of_bind. exists n. split; [done|].
  apply map_get_Some_in in E. by apply (list_elem_of_fmap_2 snd) in E.
Qed.

Lemma children_key graph x c : edge (node_children graph) x c → x ∈ map_keys graph.
Proof.
  unfold edge, node_children. destruct (map_get graph x) eqn:E; [|set_solver].
  intros _. by apply map_get_is_Some; exists d.
Qed.

(** A graph that passes [assertAcyclic] has a topological order of its universe. *)
Lemma assertAcyclic_iff graph :
  assertAcyclic graph = Ok tt ↔ ∀ id, ¬ cyclic (node_children graph) id.
Proof.
  rewrite <-(search_Ok_iff (node_children graph) (dag_universe graph)
    (λ x c _, node_children_universe graph x c) (map_keys graph)
    (S (length (dag_universe graph)))).
  - unfold assertAcyclic. destruct (search _ _ _); naive_solver.
  - apply children_key.
  - unfold dag_universe. set_solver.
  - lia.
Qed.

Lemma assertAcyclic_topo graph :
  assertAcyclic graph = Ok tt →
  ∃ l, topo (node_children graph) l ∧ map_keys graph ⊆ l ∧ (length l ≤ length (dag_universe graph))%nat.
Proof.
  unfold assertAcyclic. destruct (search _ _ _) as [m| |] eqn:E; [|done..]. intros _.
  apply search_sound in E as [Ht Hin].
  exists (filter (λ x, x ∈ dag_universe graph) (visited m)). split; [|split].
  - apply topo_filter; [|done]. intros x c _. apply node_children_universe.
  - intros x Hx. apply list_elem_of_filter. split; [|by apply Hin].
    unfold dag_universe. set_solver.
  - apply NoDup_incl_length.
    + apply NoDup_ListNoDup, NoDup_filter, (topo_NoDup (node_children graph)), Ht.
    + intros x Hx%list_elem_of_In. apply list_elem_of_In. by apply list_elem_of_filter in Hx as [? _].
Qed.

Lemma buildGraph_Ok_iff ts : (∃ g, buildGraph ts = Ok g) ↔ acyclic ts.
Proof.
  unfold acyclic, buildGraph.
  assert (acyclic ts ↔ ∀ id, ¬ cyclic (node_children (graph_of ts)) id) as Hac.
  { unfold acyclic. split; intros H id Hc; apply (H id); revert Hc; apply cyclic_ext; intros y;
      [|symmetry]; apply graph_of_children. }
  unfold acyclic in Hac. rewrite Hac, <-assertAcyclic_iff.
  destruct (assertAcyclic (graph_of ts)) as [[]| |]; naive_solver.
Qed.

Lemma buildGraph_cases ts :
  buildGraph ts = Ok (graph_of ts)
  ∨ ∃ id, buildGraph ts = Throw (PlainError ("cycle detected at task " +:+ id)).
Proof.
  unfold buildGraph, assertAcyclic.
  destruct (search _ _ _) as [m|id|] eqn:E; [by left|right; by exists id|].
  exfalso. revert E. apply (search_fuel _ (dag_universe (graph_of ts))).
  - intros x c _. apply node_children_universe.
  - unfold dag_universe. set_solver.
  - lia.
Qed.

Lemma buildGraph_Ok ts g : buildGraph ts = Ok g → g = graph_of ts ∧ assertAcyclic g = Ok tt.
Proof. unfold buildGraph. intros H. inv_bind H. destruct a. naive_solver. Qed.

(** ** Levels: the counting argument *)

Definition deg (inDegree : jsmap string Z) (t : string) : Z := default 0 (map_get inDegree t).

(** How many of the processed ids [t] depends on. *)
Definition count_in (ds P : list string) : Z :=
  Z.of_nat (length (filter (λ id, id ∈ ds) P)).

Lemma deg_set m k v t : deg (map_set m k v) t = if decide (k = t) then v else deg m t.
Proof. unfold deg. rewrite map_get_set. by case_decide. Qed.

Lemma count_in_cons ds x P : count_in ds (x :: P) = (if decide (x ∈ ds) then 1 else 0) + count_in ds P.
Proof.
  unfold count_in. destruct (decide (x ∈ ds)).
  - rewrite filter_cons_True by done. simpl length. lia.
  - by rewrite filter_cons_False by done.
Qed.

Lemma count_in_app ds P Q : count_in ds (P ++ Q) = count_in ds P + count_in ds Q.
Proof. unfold count_in. rewrite filter_app, length_app. lia. Qed.

Lemma count_in_nonneg ds P : 0 ≤ count_in ds P.
Proof. unfold count_in. lia. Qed.

Lemma set_add_elem s x y : y ∈ set_add s x ↔ y ∈ s ∨ y = x.
Proof. unfold set_add. case_bool_decide; set_solver. Qed.

Lemma set_add_NoDup s x : NoDup s → NoDup (set_add s x).
Proof.
  intros Hs. unfold set_add. case_bool_decide; [done|]. apply NoDup_app.
  split; [done|]. split; [set_solver|apply NoDup_singleton].
Qed.

(** The effect of a round on degrees and [next], in terms of the ids relaxed. *)
Definition relaxed (hit : string → Z) (st st' : level_state) : Prop :=
  (∀ t, deg st'.1 t = deg st.1 t - hit t)
  ∧ (∀ x, x ∈ st'.2 ↔ x ∈ st.2 ∨ 1 ≤ deg st.1 x ≤ hit x)
  ∧ (NoDup st.2 → NoDup st'.2).

Lemma relaxed_trans h1 h2 st1 st2 st3 :
  (∀ t, 0 ≤ h1 t) → (∀ t, 0 ≤ h2 t) →
  relaxed h1 st1 st2 → relaxed h2 st2 st3 → relaxed (λ t, h1 t + h2 t) st1 st3.
Proof.
  intros H1 H2 (Hd & Hn & Hnd) (Hd' & Hn' & Hnd'). split; [|split].
  - intros t. rewrite Hd', Hd. lia.
  - intros x. rewrite Hn', Hn, Hd. specialize (H1 x). specialize (H2 x).
    destruct (decide (x ∈ st1.2)); [tauto|].
    split; [intros [[?|?]|?]; [tauto|right; lia..]|intros [?|?]; [tauto|]].
    destruct (decide (deg st1.1 x ≤ h1 x)); [left; right; lia|right; lia].
  - auto.
Qed.

Lemma relaxed_ext h1 h2 st st' : (∀ t, h1 t = h2 t) → relaxed h1 st st' → relaxed h2 st st'.
Proof.
  intros Hh (Hd & Hn & Hnd). split; [|split]; [| |done].
  - intros t. by rewrite <-Hh.
  - intros x. by rewrite <-Hh.
Qed.

Lemma relaxed_refl st : relaxed (λ _, 0) st st.
Proof. split; [intros; lia|]. split; [|done]. intros x. split; [auto|]. intros [?|?]; [done|lia]. Qed.

Lemma relax_node_relaxed id st tid node :
  relaxed (λ t, if decide (t = tid ∧ id ∈ node_dependsOn node) then 1 else 0)
    st (relax_node id st (tid, node)).
Proof.
  destruct st as [d n]. unfold relax_node. case_bool_decide as Hin.
  - split; [|split]; simpl.
    + intros t. rewrite deg_set. unfold deg at 1. repeat case_decide; subst; unfold deg; lia || naive_solver.
    + intros x. fold (deg d tid). destruct (Z.eqb_spec (deg d tid - 1) 0).
      * rewrite set_add_elem. case_decide as Hx; [destruct Hx as [-> _]|].
        -- split; [intros _; right; lia|auto].
        -- split; [intros [?| ->]; [auto|naive_solver]|intros [?|?]; [auto|lia]].
      * case_decide as Hx; [destruct Hx as [-> _]|]; split; auto; intros [?|?]; auto; lia.
    + intros Hn. case_match; [by apply set_add_NoDup|done].
  - eapply relaxed_ext; [|apply relaxed_refl]. intros t. simpl. rewrite decide_False; [done|tauto].
Qed.

Lemma relax_entries_relaxed id (es : dag) st :
  NoDup es.*1 →
  relaxed (λ t, if decide (id ∈ node_children es t) then 1 else 0) st (foldl (relax_node id) st es).
Proof.
  revert st. induction es as [|[tid node] es IH]; intros st Hnd.
  - eapply relaxed_ext; [|apply relaxed_refl]. intros t. unfold node_children. cbn [map_get].
    rewrite decide_False; [done|set_solver].
  - simpl in Hnd. apply NoDup_cons in Hnd as [Hn Hnd]. cbn [foldl].
    eapply relaxed_ext; [|eapply relaxed_trans; [| |apply relax_node_relaxed|by apply IH]].
    + intros t. unfold node_children. cbn [map_get].
      destruct (decide (t = tid)) as [->|Hne].
      * rewrite (proj2 (map_get_None es tid)) by done.
        rewrite (decide_False (P := id ∈ [])) by set_solver.
        destruct (decide (id ∈ node_dependsOn node)).
        -- by rewrite decide_True.
        -- by rewrite decide_False by tauto.
      * rewrite (decide_False (P := t = tid ∧ _)) by tauto. lia.
    + intros t. simpl. case_decide; lia.
    + intros t. simpl. case_decide; lia.
Qed.

Lemma round_relaxed graph ready st :
  map_ok graph →
  relaxed (λ t, count_in (node_children graph t) ready) st (foldl (relax graph) st ready).
Proof.
  intros Hok. revert st. induction ready as [|id ready IH]; intros st.
  - eapply relaxed_ext; [|apply relaxed_refl]. done.
  - cbn [foldl]. eapply relaxed_ext; [|eapply relaxed_trans; [| |by apply relax_entries_relaxed|by apply IH]].
    + intros t. by rewrite count_in_cons.
    + intros t. simpl. case_decide; lia.
    + intros t. simpl. apply count_in_nonneg.
Qed.

Lemma init_degrees_deg graph t :
  graph_ok graph → deg (init_degrees graph) t = Z.of_nat (length (node_children graph t)).
Proof.
  intros [Hok Hid]. unfold init_degrees.
  assert (∀ l (m : jsmap string Z),
    deg (foldl (λ m n, map_set m (taskId n) (Z.of_nat (length (node_dependsOn n)))) m l) t =
    deg m t ∨ ∃ n, n ∈ l ∧ taskId n = t) as Hno.
  { intros l. induction l as [|n l IH]; intros m; [by left|]. simpl.
    destruct (IH (map_set m (taskId n) (Z.of_nat (length (node_dependsOn n))))) as [H|(n' & ? & ?)].
    - rewrite deg_set in H. case_decide; [right; exists n; set_solver|auto].
    - right. exists n'. set_solver. }
  assert (∀ l (m : jsmap string Z) n, n ∈ l → taskId n = t →
    (∀ n', n' ∈ l → taskId n' = t → n' = n) →
    deg (foldl (λ m n, map_set m (taskId n) (Z.of_nat (length (node_dependsOn n)))) m l) t =
    Z.of_nat (length (node_dependsOn n))) as Hyes.
  { intros l. induction l as [|n0 l IH]; intros m n Hn Ht Hu; [set_solver|]. simpl.
    destruct (Hno l (map_set m (taskId n0) (Z.of_nat (length (node_dependsOn n0))))) as [H|(n' & Hn' & Ht')].
    - apply elem_of_cons in Hn as [->|Hn]; [|apply IH; [done|done|]; intros; apply Hu; set_solver].
      rewrite H, deg_set. by rewrite decide_True.
    - apply IH; [|done|intros; apply Hu; set_solver].
      rewrite <-(Hu n'); [done|set_solver|done]. }
  assert (∀ l (m : jsmap string Z), deg m t = 0 → deg (foldl (λ m id, map_set m id 0) m l) t = 0) as H0.
  { intros l. induction l as [|x l IH]; intros m Hm; [done|]. simpl. apply IH. rewrite deg_set.
    by case_decide. }
  unfold node_children. destruct (map_get graph t) as [n|] eqn:E.
  - apply Hyes.
    + apply map_get_Some_in in E. by apply (list_elem_of_fmap_2 snd) in E.
    + by apply Hid.
    + intros n' Hn' Ht'. apply list_elem_of_fmap in Hn' as ([k v] & -> & Hkv). simpl in *.
      apply map_get_in in Hkv; [|done]. pose proof (Hid _ _ Hkv). congruence.
  - destruct (Hno (map_values graph) (foldl (λ m id, map_set m id 0) [] (map_keys graph)))
      as [->|(n & Hn & Ht)]; [by apply H0|].
    apply list_elem_of_fmap in Hn as ([k v] & -> & Hkv). simpl in *.
    apply map_get_in in Hkv; [|done]. pose proof (Hid _ _ Hkv). congruence.
Qed.

(** ** Levels: the specification *)

(** [layered graph done ls]: after the tasks [done], the levels [ls] take each
    task after all its dependencies, each task once, and as early as possible. *)
Inductive layered (graph : dag) : list string → list (list string) → Prop :=
| layered_nil done :
    (∀ x, x ∈ map_keys graph → NoDup (node_children graph x) → node_children graph x ⊆ done →
      x ∈ done) →
    layered graph done []
| layered_cons done level rest :
    level ≠ [] → NoDup (done ++ level) → level ⊆ map_keys graph →
    (∀ x, x ∈ level → NoDup (node_children graph x) ∧ node_children graph x ⊆ done) →
    (∀ x, x ∈ map_keys graph → NoDup (node_children graph x) → node_children graph x ⊆ done →
      x ∈ done ++ level) →
    layered graph (done ++ level) rest →
    layered graph done (level :: rest).

Definition round_inv (graph : dag) (P ready : list string) (d : jsmap string Z) : Prop :=
  (∀ t, deg d t = Z.of_nat (length (node_children graph t)) - count_in (node_children graph t) P)
  ∧ NoDup (P ++ ready) ∧ P ++ ready ⊆ map_keys graph
  ∧ ∀ t, t ∈ map_keys graph → t ∈ P ++ ready ↔ deg d t ≤ 0.

Lemma count_all_in ds P :
  NoDup P → Z.of_nat (length ds) - count_in ds P ≤ 0 → NoDup ds ∧ ds ⊆ P.
Proof.
  intros Hnd Hc. unfold count_in in Hc.
  assert (List.NoDup (filter (λ id, id ∈ ds) P)) as Hf by apply NoDup_ListNoDup, NoDup_filter, Hnd.
  assert (incl (filter (λ id, id ∈ ds) P) ds) as Hi.
  { intros x Hx%list_elem_of_In. apply list_elem_of_In. by apply list_elem_of_filter in Hx as [? _]. }
  assert (length ds ≤ length (filter (λ id, id ∈ ds) P))%nat as Hl by lia.
  split; [apply NoDup_ListNoDup; eapply NoDup_incl_NoDup; eassumption|].
  assert (incl ds (filter (λ id, id ∈ ds) P)) as H by (apply NoDup_length_incl; assumption).
  intros x Hx%list_elem_of_In. apply H, list_elem_of_In, list_elem_of_filter in Hx. tauto.
Qed.

Lemma count_in_all ds P :
  NoDup ds → ds ⊆ P → Z.of_nat (length ds) - count_in ds P ≤ 0.
Proof.
  intros Hnd Hsub. unfold count_in.
  assert (length ds ≤ length (filter (λ id, id ∈ ds) P))%nat; [|lia].
  apply NoDup_incl_length; [by apply NoDup_ListNoDup|].
  intros x Hx%list_elem_of_In. apply list_elem_of_In, list_elem_of_filter. auto.
Qed.

Lemma round_inv_ready graph P ready d :
  round_inv graph P ready d →
  (∀ x, x ∈ ready → NoDup (node_children graph x) ∧ node_children graph x ⊆ P)
  ∧ ∀ x, x ∈ map_keys graph → NoDup (node_children graph x) → node_children graph x ⊆ P →
      x ∈ P ++ ready.
Proof.
  intros (Hd & Hnd & Hsub & Hiff). split.
  - intros x Hx. apply count_all_in; [by apply NoDup_app in Hnd as [? _]|].
    rewrite <-Hd. apply Hiff; set_solver.
  - intros x Hx Hndx Hch. apply Hiff; [done|]. rewrite Hd. by apply count_in_all.
Qed.

Lemma round_inv_step graph P ready d d' next :
  graph_ok graph → round_inv graph P ready d →
  foldl (relax graph) (d, []) ready = (d', next) → round_inv graph (P ++ ready) next d'.
Proof.
  intros [Hok _] (Hd & Hnd & Hsub & Hiff) Hf.
  pose proof (round_relaxed graph ready (d, []) Hok) as (Hd' & Hn & Hndn).
  rewrite Hf in *. simpl in *.
  assert (∀ x, x ∈ next ↔ 1 ≤ deg d x ≤ count_in (node_children graph x) ready) as Hnext.
  { intros x. rewrite Hn. split; [intros [?%not_elem_of_nil|?]; done|auto]. }
  assert (∀ x, x ∈ next → x ∈ map_keys graph) as Hkeys.
  { intros x [Hx _]%Hnext. rewrite Hd in Hx. apply map_get_is_Some. unfold node_children in *.
    destruct (map_get graph x); [by eexists|]. simpl in Hx.
    pose proof (count_in_nonneg [] P). lia. }
  split; [|split; [|split]].
  - intros t. rewrite Hd', Hd, count_in_app. lia.
  - apply NoDup_app. split; [done|]. split; [|apply Hndn, NoDup_nil_2].
    intros x Hx Hx'. apply Hiff in Hx; [|by apply Hkeys]. apply Hnext in Hx'. lia.
  - set_solver.
  - intros t Ht. rewrite elem_of_app, Hiff, Hnext, Hd' by done.
    pose proof (count_in_nonneg (node_children graph t) ready).
    split; [intros [?|?]; lia|]. intros ?. destruct (decide (deg d t ≤ 0)); [by left|right; lia].
Qed.

Lemma levels_loop_layered graph fuel P ready d :
  graph_ok graph → round_inv graph P ready d → (length (map_keys graph) < fuel + length P)%nat →
  ∃ ls, levels_loop fuel graph d ready = Ok ls ∧ layered graph P ls.
Proof.
  intros Hok. revert P ready d. induction fuel as [|fuel IH]; intros P ready d Hinv Hf.
  - destruct Hinv as (_ & Hnd & Hsub & _). exfalso.
    assert (length P ≤ length (map_keys graph))%nat; [|simpl in Hf; lia].
    apply NoDup_incl_length; [apply NoDup_app in Hnd as [? _]; by apply NoDup_ListNoDup|].
    intros x Hx%list_elem_of_In. apply list_elem_of_In. set_solver.
  - destruct (round_inv_ready _ _ _ _ Hinv) as [Hready Hall].
    destruct ready as [|x ready].
    + exists []. split; [by destruct fuel|]. constructor. rewrite app_nil_r in Hall. done.
    + cbn [levels_loop]. destruct (foldl (relax graph) (d, []) (x :: ready)) as [d' next] eqn:Hfold.
      pose proof (round_inv_step _ _ _ _ _ _ Hok Hinv Hfold) as Hinv'.
      destruct (IH _ _ _ Hinv') as (ls & -> & Hls); [rewrite length_app; simpl; lia|].
      exists ((x :: ready) :: ls). split; [done|].
      destruct Hinv as (_ & Hnd & Hsub & _). constructor; [done..| |done|done|done]. set_solver.
Qed.

Lemma round_inv_init graph :
  graph_ok graph →
  round_inv graph []
    (List.filter (λ id, default 0 (map_get (init_degrees graph) id) =? 0) (map_keys graph))
    (init_degrees graph).
Proof.
  intros Hok. split; [|split; [|split]]; simpl.
  - intros t. rewrite init_degrees_deg by done. unfold count_in. simpl. lia.
  - apply NoDup_ListNoDup, List.NoDup_filter, NoDup_ListNoDup, Hok.
  - intros x Hx%list_elem_of_In. apply List.filter_In in Hx as [Hx _]. by apply list_elem_of_In.
  - intros t Ht. rewrite list_elem_of_In, List.filter_In, <-list_elem_of_In, Z.eqb_eq.
    change (default 0 _) with (deg (init_degrees graph) t). rewrite init_degrees_deg by done.
    split; [intros [_ ->]; done|]. split; [done|lia].
Qed.

Lemma topologicalLevels_layered graph :
  graph_ok graph → ∃ ls, topologicalLevels graph = Ok ls ∧ layered graph [] ls.
Proof.
  intros Hok. apply levels_loop_layered; [done|by apply round_inv_init|].
  unfold map_keys. rewrite length_fmap. simpl. lia.
Qed.

(** Consequences of being layered. *)
Lemma layered_keys graph done ls : layered graph done ls → concat ls ⊆ map_keys graph.
Proof. induction 1; simpl; set_solver. Qed.

Lemma layered_NoDup graph done ls : NoDup done → layered graph done ls → NoDup (done ++ concat ls).
Proof.
  intros Hd H. revert Hd. induction H as [|done level rest ? ? ? ? ? ? IH]; simpl; intros Hd.
  - by rewrite app_nil_r.
  - rewrite app_assoc. auto.
Qed.

Lemma layered_order graph done ls l1 level l2 x :
  layered graph done ls → ls = l1 ++ level :: l2 → x ∈ level →
  node_children graph x ⊆ done ++ concat l1.
Proof.
  intros H. revert l1. induction H as [|done level' rest ? ? ? Hch ? ? IH]; intros l1 Heq Hx.
  - by destruct l1.
  - destruct l1 as [|lv l1]; simplify_eq/=.
    + rewrite app_nil_r. by apply (Hch x).
    + rewrite app_assoc. by apply IH.
Qed.

Lemma layered_maximal graph done ls x :
  layered graph done ls → x ∈ map_keys graph → NoDup (node_children graph x) →
  node_children graph x ⊆ done ++ concat ls → x ∈ done ++ concat ls.
Proof.
  induction 1 as [done Hmax|done level rest ? ? ? Hch ? ? IH]; simpl.
  - rewrite app_nil_r. auto.
  - rewrite app_assoc. auto.
Qed.

(** A task that lists a dependency twice is in no level. *)
Lemma layered_no_repeat graph done ls x :
  layered graph done ls → x ∈ concat ls → NoDup (node_children graph x).
Proof.
  induction 1 as [|done level rest ? ? ? Hch ? ? IH]; simpl; [set_solver|].
  intros [Hx|Hx]%elem_of_app; [by apply Hch|by apply IH].
Qed.

(** A level and those before it hold every task whose dependencies are done. *)
Lemma layered_eager graph done ls l1 level l2 x :
  layered graph done ls → ls = l1 ++ level :: l2 → x ∈ map_keys graph →
  NoDup (node_children graph x) → node_children graph x ⊆ done ++ concat l1 →
  x ∈ done ++ concat (l1 ++ [level]).
Proof.
  intros H. revert l1. induction H as [|done level' rest ? ? ? ? Heager ? IH]; intros l1 Heq Hx Hnd Hch.
  - by destruct l1.
  - destruct l1 as [|lv l1]; simplify_eq/=.
    + rewrite app_nil_r in *. by apply Heager.
    + rewrite app_assoc in *. by apply IH.
Qed.

(** On an acyclic closed graph without repeated dependencies no task is lost. *)
Lemma layered_complete graph ls l :
  layered graph [] ls → topo (node_children graph) l → map_keys graph ⊆ l →
  (∀ x, x ∈ map_keys graph → NoDup (node_children graph x) ∧ node_children graph x ⊆ map_keys graph) →
  map_keys graph ⊆ concat ls.
Proof.
  intros Hl Ht Hk Hwf x Hx. destruct (decide (x ∈ concat ls)) as [|Hn]; [done|exfalso].
  destruct (topo_minimal (node_children graph) (λ y, y ∈ map_keys graph ∧ y ∉ concat ls) l x Ht)
    as (y & Hy & [Hyk Hyn] & Hc); [auto..|].
  apply Hyn, (layered_maximal graph [] ls y Hl Hyk); [by apply Hwf|].
  intros c Hcin. simpl. specialize (Hc c Hcin). destruct (Hwf y Hyk) as [_ Hsub].
  specialize (Hsub c Hcin). destruct (decide (c ∈ concat ls)); [done|tauto].
Qed.


(** ** The critical path: the specification *)

(** [chain graph p x]: a path through tasks, each depending on the one before,
    that ends in [x]. *)
Inductive chain (graph : dag) : list string → string → Prop :=
| chain_one x : x ∈ map_keys graph → chain graph [x] x
| chain_snoc p y x :
    chain graph p y → x ∈ map_keys graph → y ∈ node_children graph x → chain graph (p ++ [x]) x.

Section critical.
Context (graph : dag).

Notation weight := (path_weight graph).

(** What [longestFrom] returns for an id: the weight of a heaviest chain to it. *)
Definition result_ok (id : string) (r : memo_entry) : Prop :=
  r.1 = weight r.2
  ∧ (chain graph r.2 id ∨ (r.2 = [] ∧ id ∉ map_keys graph))
  ∧ ∀ q, chain graph q id → weight q ≤ r.1.

Definition best_ok (ids : list string) (r : memo_entry) : Prop :=
  r.1 = weight r.2 ∧ 0 ≤ r.1
  ∧ (r.2 = [] ∨ ∃ d, d ∈ ids ∧ chain graph r.2 d)
  ∧ ∀ d q, d ∈ ids → chain graph q d → weight q ≤ r.1.

Definition memo_ok (memo : jsmap string memo_entry) : Prop :=
  ∀ id r, map_get memo id = Some r → result_ok id r.

Lemma weight_snoc p x : weight (p ++ [x]) = weight p + weight_of graph x.
Proof. unfold path_weight. by rewrite foldl_app. Qed.

Lemma chain_key p x : chain graph p x → x ∈ map_keys graph.
Proof. by destruct 1. Qed.

Lemma best_ok_nil : best_ok [] (0, []).
Proof. repeat split; [done|by left|set_solver]. Qed.

Lemma best_ok_snoc ids best d child :
  best_ok ids best → result_ok d child →
  best_ok (ids ++ [d]) (if best.1 <? child.1 then child else best).
Proof.
  intros (Hb & H0 & Hp & Hmax) (Hc & Hcp & Hcmax).
  assert (∀ x q, x ∈ ids ++ [d] → chain graph q x → weight q ≤ Z.max best.1 child.1) as Hm.
  { intros x q [Hx|Hx%list_elem_of_singleton]%elem_of_app Hq.
    - specialize (Hmax x q Hx Hq). lia.
    - subst. specialize (Hcmax q Hq). lia. }
  destruct (Z.ltb_spec best.1 child.1).
  - rewrite Z.max_r in Hm by lia. repeat split; [done|lia| |done].
    destruct Hcp as [?|[? ?]]; [right; exists d; set_solver|by left].
  - rewrite Z.max_l in Hm by lia. repeat split; [done|lia| |done].
    destruct Hp as [?|(x & ? & ?)]; [by left|right; exists x; set_solver].
Qed.

Lemma best_fold (f : string → jsmap string memo_entry → res (memo_entry * jsmap string memo_entry))
    ds ids best memo :
  (∀ d memo, d ∈ ds → memo_ok memo →
    ∃ r memo', f d memo = Ok (r, memo') ∧ result_ok d r ∧ memo_ok memo') →
  best_ok ids best → memo_ok memo →
  ∃ best' memo',
    ofold (keep_best f) ds (best, memo) = Ok (best', memo') ∧ best_ok (ids ++ ds) best' ∧ memo_ok memo'.
Proof.
  revert ids best memo. induction ds as [|d ds IH]; intros ids best memo Hf Hb Hm.
  - exists best, memo. by rewrite app_nil_r.
  - destruct (Hf d memo) as (r & memo' & Hr & Hok & Hm'); [set_solver|done|].
    cbn [ofold]. unfold keep_best at 1. cbn. rewrite Hr. cbn.
    destruct (IH (ids ++ [d]) (if best.1 <? r.1 then r else best) memo')
      as (best' & memo'' & Heq & Hb' & Hm''); [intros; apply Hf; set_solver| |done|].
    + by apply best_ok_snoc.
    + exists best', memo''. by rewrite <-app_assoc in Hb'.
Qed.

Lemma result_ok_node id best :
  id ∈ map_keys graph → best_ok (node_children graph id) best →
  result_ok id (weight_of graph id + best.1, best.2 ++ [id]).
Proof.
  intros Hid (Hb & H0 & Hp & Hmax). split; [|split]; simpl.
  - rewrite weight_snoc. lia.
  - left. destruct Hp as [->|(d & Hd & Hch)]; [by constructor|by eapply chain_snoc].
  - intros q Hq. inversion Hq as [x Hx|p y x Hch Hx Hy]; subst.
    + change [id] with ([] ++ [id]). rewrite weight_snoc. unfold path_weight. simpl. lia.
    + rewrite weight_snoc. specialize (Hmax y p Hy Hch). lia.
Qed.

Lemma topo_split (children : string → list string) l x :
  topo children l → x ∈ l →
  ∃ l1, topo children l1 ∧ (length l1 < length l)%nat ∧ children x ⊆ l1.
Proof.
  induction 1 as [|l z Hl IH Hz Hc]; [set_solver|].
  rewrite elem_of_app, list_elem_of_singleton, length_app. simpl. intros [Hx| ->].
  - destruct (IH Hx) as (l1 & ? & ? & ?). exists l1. split; [done|]. split; [lia|done].
  - exists l. split; [done|]. split; [lia|done].
Qed.

Lemma longestFrom_ok fuel l id memo :
  topo (node_children graph) l → id ∈ l → (length l ≤ fuel)%nat → memo_ok memo →
  ∃ r memo', longestFrom fuel graph id memo = Ok (r, memo') ∧ result_ok id r ∧ memo_ok memo'.
Proof.
  revert l id memo. induction fuel as [|fuel IH]; intros l id memo Ht Hid Hf Hm.
  { destruct l; [set_solver|simpl in Hf; lia]. }
  cbn [longestFrom]. destruct (map_get memo id) as [r|] eqn:Hmemo; [exists r, memo; auto|].
  destruct (map_get graph id) as [node|] eqn:Hg.
  - destruct (topo_split _ _ _ Ht Hid) as (l1 & Ht1 & Hlen & Hsub).
    assert (node_children graph id = node_dependsOn node) as Hch
      by (unfold node_children; by rewrite Hg).
    destruct (best_fold (longestFrom fuel graph)
      (node_dependsOn node) [] (0, []) memo) as (best & memo' & Heq & Hb & Hm').
    + intros d memo0 Hd Hm0. apply (IH l1); [done|apply Hsub; by rewrite Hch|lia|done].
    + apply best_ok_nil.
    + done.
    + rewrite Heq. cbn. rewrite <-Hch in Hb.
      assert (result_ok id (weightMs node + best.1, best.2 ++ [id])) as Hr.
      { replace (weightMs node) with (weight_of graph id) by (unfold weight_of; by rewrite Hg).
        apply result_ok_node; [|done]. apply map_get_is_Some. by eexists. }
      eexists _, _. split; [done|]. split; [done|].
      intros id' r'. rewrite map_get_set. case_decide as Hd; [subst; by intros [= <-]|apply Hm'].
  - exists (0, []), memo. split; [done|]. split; [|done]. split; [done|].
    apply map_get_None in Hg. split; [by right|].
    intros q Hq. by apply chain_key in Hq.
Qed.

Lemma criticalPath_ok :
  assertAcyclic graph = Ok tt →
  ∃ p, criticalPath graph = Ok p ∧ best_ok (map_keys graph) (weight p, p).
Proof.
  intros (l & Ht & Hk & Hlen)%assertAcyclic_topo. unfold criticalPath.
  destruct (best_fold (longestFrom (S (length (dag_universe graph))) graph)
    (map_keys graph) [] (0, []) []) as ([c p] & memo' & Heq & Hb & _).
  - intros d memo Hd Hm. apply (longestFrom_ok _ l); [done|by apply Hk|lia|done].
  - apply best_ok_nil.
  - intros id r. done.
  - exists p. rewrite Heq. split; [done|]. destruct Hb as [Hc ?]. simpl in *. by subst.
Qed.
End critical.

(** [plan] returns exactly on the acyclic task lists. *)
Lemma plan_inv ts p :
  plan ts = Ok p →
  assertAcyclic (graph_of ts) = Ok tt
  ∧ topologicalLevels (graph_of ts) = Ok (levels p)
  ∧ criticalPath (graph_of ts) = Ok (plan_criticalPath p)
  ∧ estimatedMs p = path_weight (graph_of ts) (plan_criticalPath p).
Proof.
  unfold plan. intros H. inv_bind H. apply buildGraph_Ok in E as [-> ?].
  inv_bind H. inv_bind H. injection H as <-. done.
Qed.

Lemma plan_total ts : acyclic ts → ∃ p, plan ts = Ok p.
Proof.
  intros [g Hg]%buildGraph_Ok_iff. unfold plan. rewrite Hg. apply buildGraph_Ok in Hg as [-> Hac]. cbn [mbind outcome_bind].
  destruct (topologicalLevels_layered _ (graph_of_ok ts)) as (ls & -> & _).
  destruct (criticalPath_ok _ Hac) as (p & -> & _). cbn. by eexists.
Qed.

(** What the plan's theorems ask of a task list: the conditions the job
    validators check, and that no task names a dependency twice. *)
Record plannable (ts : list TaskDefinition) : Prop := {
  pl_unique : NoDup (td_id <$> ts);
  pl_closed : ∀ t d, t ∈ ts → d ∈ deps t → d ∈ td_id <$> ts;
  pl_acyclic : acyclic ts;
  pl_no_repeat : ∀ t, t ∈ ts → NoDup (deps t);
}.

Lemma plan_complete ts p : plannable ts → plan ts = Ok p → concat (levels p) ≡ₚ td_id <$> ts.
Proof.
  intros [Hu Hc _ Hr] (Hac & Hls & _ & _)%plan_inv.
  destruct (topologicalLevels_layered _ (graph_of_ok ts)) as (ls & Hls' & Hlay).
  rewrite Hls in Hls'. injection Hls' as <-.
  destruct (assertAcyclic_topo _ Hac) as (l & Ht & Hk & _).
  pose proof (graph_of_NoDup_keys ts Hu) as Hkeys.
  apply NoDup_Permutation; [by apply (layered_NoDup _ [] _ (NoDup_nil_2)) in Hlay|done|].
  intros x. rewrite <-Hkeys. split; [by apply (layered_keys _ _ _ Hlay)|].
  revert x. eapply layered_complete; [done..|]. intros x Hx.
  rewrite Hkeys in *. apply list_elem_of_fmap in Hx as (t & -> & Htin).
  rewrite graph_of_children, dep_children_task by done. split; [by apply Hr|].
  intros d Hd. by apply (Hc t).
Qed.

(** ** Properties *)

(** C15: On a task list with distinct ids, known dependencies, none of them
    repeated within a task - which the validators do not refuse -, and no cycle,
    [plan] returns, its levels list every task exactly once, every dependency of
    a task is in an earlier level, and a level holds every task whose
    dependencies are all in the levels before it: the levels are the earliest
    possible ones. *)
Theorem plan_levels (ts : list TaskDefinition) (Hts : plannable ts) :
  ∃ p, plan ts = Ok p
    ∧ concat (levels p) ≡ₚ td_id <$> ts
    ∧ (∀ l1 level l2 t, levels p = l1 ++ level :: l2 → t ∈ ts → td_id t ∈ level →
         deps t ⊆ concat l1)
    ∧ (∀ l1 level l2 t, levels p = l1 ++ level :: l2 → t ∈ ts → deps t ⊆ concat l1 →
         td_id t ∈ concat (l1 ++ [level])).
Proof.
  destruct (plan_total ts (pl_acyclic _ Hts)) as [p Hp]. exists p. split; [done|].
  split; [by apply plan_complete|].
  destruct (plan_inv _ _ Hp) as (_ & Hls & _).
  destruct (topologicalLevels_layered _ (graph_of_ok ts)) as (ls & Hls' & Hlay).
  rewrite Hls in Hls'. injection Hls' as <-.
  assert (∀ t, t ∈ ts → node_children (graph_of ts) (td_id t) = deps t) as Hch.
  { intros t Ht. rewrite graph_of_children. by apply dep_children_task; [apply Hts|]. }
  split; intros l1 level l2 t Heq Ht Hin.
  - rewrite <-(Hch t Ht). by apply (layered_order _ _ _ _ _ _ _ Hlay Heq Hin).
  - apply (layered_eager _ [] _ l1 level l2 (td_id t) Hlay Heq).
    + apply graph_of_in_keys. by apply list_elem_of_fmap_2.
    + rewrite (Hch t Ht). by apply (pl_no_repeat _ Hts).
    + by rewrite (Hch t Ht).
Qed.

Definition example_tasks : list TaskDefinition := [
  mkTaskDefinition "fetch" "Fetch" "invoice.fetch" 300 None None;
  mkTaskDefinition "prepare" "Prepare" "invoice.normalize" 150 None (Some ["fetch"]);
  mkTaskDefinition "audit" "Audit" "report.aggregate" 500 None (Some ["fetch"]);
  mkTaskDefinition "post" "Post" "invoice.post_gl" 200 None (Some ["prepare"; "audit"])
].

Lemma acyclic_computed ts : validateDependencyOrder ts = Ok tt → acyclic ts.
Proof.
  intros H. apply dep_search_iff. unfold validateDependencyOrder in H.
  destruct (search _ _ _); [by eexists|done..].
Qed.

Lemma plannable_example : plannable example_tasks.
Proof.
  split.
  - by apply (bool_decide_unpack _); vm_compute.
  - assert (Forall (λ t, Forall (λ d, d ∈ td_id <$> example_tasks) (deps t)) example_tasks) as H
      by (apply (bool_decide_unpack _); by vm_compute).
    rewrite Forall_forall in H. intros t d Ht Hd. specialize (H t Ht).
    rewrite Forall_forall in H. auto.
  - apply acyclic_computed. by vm_compute.
  - assert (Forall (λ t, NoDup (deps t)) example_tasks) as H
      by (apply (bool_decide_unpack _); by vm_compute).
    by rewrite Forall_forall in H.
Qed.

Lemma plan_levels_witness :
  plannable example_tasks ∧ ∃ p, plan example_tasks = Ok p
    ∧ concat (levels p) ≡ₚ ["fetch"; "prepare"; "audit"; "post"].
Proof.
  split; [exact plannable_example|].
  destruct (plan_levels example_tasks plannable_example) as (p & Hp & Hperm & _).
  exists p. split; [exact Hp|exact Hperm].
Defined.

(** C22: Whatever plan is returned, its critical path is empty or a chain of
    tasks each depending on the one before it, [estimatedMs] is the sum of its
    timeouts, and no chain of dependent tasks has a larger sum. *)
Theorem plan_critical_path (ts : list TaskDefinition) (p : DagPlan) (Hp : plan ts = Ok p) :
  estimatedMs p = path_weight (graph_of ts) (plan_criticalPath p)
  ∧ (plan_criticalPath p = [] ∨ ∃ x, chain (graph_of ts) (plan_criticalPath p) x)
  ∧ 0 ≤ estimatedMs p
  ∧ ∀ q x, chain (graph_of ts) q x → path_weight (graph_of ts) q ≤ estimatedMs p.
Proof.
  destruct (plan_inv _ _ Hp) as (Hac & _ & Hcp & Hest).
  destruct (criticalPath_ok _ Hac) as (cp & Hcp' & _ & H0 & Hch & Hmax).
  rewrite Hcp in Hcp'. injection Hcp' as <-. simpl in *. rewrite Hest.
  split; [done|]. split; [naive_solver|]. split; [done|].
  intros q x Hq. apply (Hmax x); [by apply chain_key in Hq|done].
Qed.

Lemma plan_critical_path_witness :
  ∃ p, plan example_tasks = Ok p ∧ estimatedMs p = 1000
    ∧ ∀ q x, chain (graph_of example_tasks) q x → path_weight (graph_of example_tasks) q ≤ 1000.
Proof.
  eexists. split; [vm_compute; reflexivity|]. split; [reflexivity|].
  apply (plan_critical_path example_tasks
    (mkPlan [["fetch"]; ["prepare"; "audit"]; ["post"]] ["fetch"; "audit"; "post"] 1000)).
  vm_compute. reflexivity.
Defined.

(** [buildGraph] accepts exactly the task lists without a dependency cycle,
    and any rejection is the cycle error: the search always ends. *)
Theorem buildGraph_acyclic (ts : list TaskDefinition) :
  (buildGraph ts = Ok (graph_of ts) ↔ acyclic ts)
  ∧ (¬ acyclic ts ↔ ∃ id, buildGraph ts = Throw (PlainError ("cycle detected at task " +:+ id))).
Proof.
  pose proof (buildGraph_Ok_iff ts) as Hiff.
  assert (buildGraph ts = Ok (graph_of ts)
    ∨ ∃ id, buildGraph ts = Throw (PlainError ("cycle detected at task " +:+ id))) as Hcases
    by apply buildGraph_cases.
  destruct Hcases as [Hb|[id Hb]]; rewrite Hb in *; naive_solver.
Qed.

(** A task that lists one of its dependencies twice passes the planner's
    cycle check but is in none of its levels: the planner drops it. *)
Theorem plan_drops_repeated_dependency (ts : list TaskDefinition) (p : DagPlan) (t : TaskDefinition)
    (Hp : plan ts = Ok p) (Hu : NoDup (td_id <$> ts)) (Ht : t ∈ ts) (Hr : ¬ NoDup (deps t)) :
  td_id t ∉ concat (levels p).
Proof.
  destruct (plan_inv _ _ Hp) as (_ & Hls & _).
  destruct (topologicalLevels_layered _ (graph_of_ok ts)) as (ls & Hls' & Hlay).
  rewrite Hls in Hls'. injection Hls' as <-. intros Hin. apply Hr.
  apply (layered_no_repeat _ _ _ _ Hlay) in Hin.
  by rewrite graph_of_children, dep_children_task in Hin.
Qed.

Lemma plan_drops_repeated_dependency_witness :
  "b" ∉ concat [["a"]].
Proof.
  pose (b := mkTaskDefinition "b" "B" "report.aggregate" 10 None (Some ["a"; "a"])).
  pose (ts := [mkTaskDefinition "a" "A" "report.aggregate" 10 None None; b]).
  apply (plan_drops_repeated_dependency ts (mkPlan [["a"]] ["a"; "b"] 20) b).
  - vm_compute. reflexivity.
  - apply (bool_decide_unpack _). vm_compute. exact I.
  - right. left.
  - intros Hnd. apply NoDup_cons in Hnd as [Hn _]. apply Hn. left.
Defined.
