(* ===== verification/Expressions.v ===== *)
(** * The expression language (src/expressions/)

    tokenizer.ts, parser.ts, builtins.ts and evaluator.ts.  The parser is a
    recursive descent over the token list; its fuel bounds the nesting of
    parentheses and calls, and the length of the token list is enough.  The
    parser looks at [peek().value] without the token's type, as the source
    does, so a string literal that spells an operator is taken for one. *)

From S2P Require Import Prelude JsMap JsString JsNum DomainTypes JsValue Metrics.
From Stdlib Require Import Ascii.
Open Scope Z_scope.

(** ** Syntax trees (ast.ts) *)

Inductive UnaryOp : Type := OpNot | OpNeg.

Inductive ExprNode : Type :=
| ELiteral (value : jsval)
| EIdent (name : string)
| EUnary (op : UnaryOp) (arg : ExprNode)
| EBinary (op : string) (left right : ExprNode)
| ECall (name : string) (args : list ExprNode).

(** ** Tokens (tokenizer.ts) *)

Inductive TokenType : Type :=
| TIdent | TNumber | TString | TOp | TLparen | TRparen | TComma | TEof.

#[export] Instance TokenType_eq_dec : EqDecision TokenType.
Proof. solve_decision. Defined.

Definition TokenType_string (t : TokenType) : string :=
  match t with
  | TIdent => "ident" | TNumber => "number" | TString => "string" | TOp => "op"
  | TLparen => "lparen" | TRparen => "rparen" | TComma => "comma" | TEof => "eof"
  end.

Record Token : Type := mkToken { t_type : TokenType; t_value : string }.

Definition is_op_char (c : ascii) : bool := bool_decide (c ∈ chars "+-*/<>=!&|").
Definition is_quote (c : ascii) : bool := bool_decide (c = dquote) || bool_decide (c = "'"%char).
Definition is_ident_start (c : ascii) : bool :=
  is_lower c || is_upper c || bool_decide (c = "_"%char).
Definition is_ident_char (c : ascii) : bool :=
  is_ident_start c || is_digit c || bool_decide (c = "."%char).
Definition is_number_char (c : ascii) : bool := is_digit c || bool_decide (c = "."%char).

Definition two_char_ops : list (list ascii) :=
  chars <$> ["=="; "!="; "<="; ">="; "&&"; "||"].

(** [readOp]: the operator and the input after it. *)
Definition readOp (s : list ascii) : list ascii * list ascii :=
  if bool_decide (take 2 s ∈ two_char_ops) then (take 2 s, drop 2 s) else (take 1 s, drop 1 s).

(** [readString] from after the quote; a missing closing quote is accepted. *)
Definition readString (quote : ascii) (s : list ascii) : list ascii * list ascii :=
  let p := λ c, negb (bool_decide (c = quote)) in
  (take_while p s, drop 1 (drop_while p s)).

(** [tokenize]; [fuel] counts the characters left. *)
Fixpoint tokenize_go (fuel : nat) (total : nat) (s : list ascii) : res (list Token) :=
  match fuel with
  | O => OutOfFuel
  | S fuel' =>
      match drop_while is_space s with
      | [] => Ok [mkToken TEof ""]
      | ch :: rest =>
          let continue (t : Token) (s' : list ascii) :=
            ts ← tokenize_go fuel' total s'; Ok (t :: ts) in
          if bool_decide (ch = "("%char) then continue (mkToken TLparen "(") rest
          else if bool_decide (ch = ")"%char) then continue (mkToken TRparen ")") rest
          else if bool_decide (ch = ","%char) then continue (mkToken TComma ",") rest
          else if is_op_char ch then
            let '(op, s') := readOp (ch :: rest) in continue (mkToken TOp (of_chars op)) s'
          else if is_quote ch then
            let '(str, s') := readString ch rest in continue (mkToken TString (of_chars str)) s'
          else if is_digit ch then
            continue (mkToken TNumber (of_chars (take_while is_number_char (ch :: rest))))
              (drop_while is_number_char (ch :: rest))
          else if is_ident_start ch then
            continue (mkToken TIdent (of_chars (take_while is_ident_char (ch :: rest))))
              (drop_while is_ident_char (ch :: rest))
          else Throw (PlainError
            ("unexpected character at " +:+ pretty (total - S (length rest))%nat +:+ ": "
               +:+ of_chars [ch]))
      end
  end.

Definition tokenize (input : string) : res (list Token) :=
  tokenize_go (S (String.length input)) (String.length input) (chars input).

(** ** The parser (parser.ts) *)

Notation parser A := (list Token → res (A * list Token)).

(** [peek()]: the parser never moves past the final [eof]. *)
Definition peek (ts : list Token) : Token := default (mkToken TEof "") (head ts).

Definition consume (type : TokenType) (ts : list Token) : res (Token * list Token) :=
  let t := peek ts in
  if bool_decide (t_type t = type) then Ok (t, tail ts)
  else Throw (PlainError
    ("expected " +:+ TokenType_string type +:+ ", got " +:+ TokenType_string (t_type t))).

Section parser.
(** [parseOr], for the parenthesised expressions and arguments. *)
Context (parse_or : list Token → res (ExprNode * list Token)).

(** The loop over the arguments after the first. *)
Fixpoint parse_args (fuel : nat) (ts : list Token) : res (list ExprNode * list Token) :=
  match fuel with
  | O => OutOfFuel
  | S fuel' =>
      if bool_decide (t_type (peek ts) = TComma) then
        '(_, ts1) ← consume TComma ts;
        '(arg, ts2) ← parse_or ts1;
        '(rest, ts3) ← parse_args fuel' ts2;
        Ok (arg :: rest, ts3)
      else Ok ([], ts)
  end.

Definition parse_call_args (ts : list Token) : res (list ExprNode * list Token) :=
  if bool_decide (t_type (peek ts) = TRparen) then Ok ([], ts)
  else
    '(arg, ts1) ← parse_or ts;
    '(rest, ts2) ← parse_args (S (length ts1)) ts1;
    Ok (arg :: rest, ts2).

Definition parsePrimary (ts : list Token) : res (ExprNode * list Token) :=
  let t := peek ts in
  match t_type t with
  | TNumber => Ok (ELiteral (JNum (string_to_num (t_value t))), tail ts)
  | TString => Ok (ELiteral (JStr (t_value t)), tail ts)
  | TIdent =>
      '(tok, ts1) ← consume TIdent ts;
      let name := t_value tok in
      if bool_decide (name = "true") then Ok (ELiteral (JBool true), ts1)
      else if bool_decide (name = "false") then Ok (ELiteral (JBool false), ts1)
      else if bool_decide (name = "null") then Ok (ELiteral JNull, ts1)
      else if bool_decide (t_type (peek ts1) = TLparen) then
        '(_, ts2) ← consume TLparen ts1;
        '(args, ts3) ← parse_call_args ts2;
        '(_, ts4) ← consume TRparen ts3;
        Ok (ECall name args, ts4)
      else Ok (EIdent name, ts1)
  | TLparen =>
      '(_, ts1) ← consume TLparen ts;
      '(inner, ts2) ← parse_or ts1;
      '(_, ts3) ← consume TRparen ts2;
      Ok (inner, ts3)
  | type => Throw (PlainError ("unexpected token " +:+ TokenType_string type))
  end.

(** The recursion of [parseUnary] eats a token each time. *)
Fixpoint parse_unary_go (fuel : nat) (ts : list Token) : res (ExprNode * list Token) :=
  match fuel with
  | O => OutOfFuel
  | S fuel' =>
      if bool_decide (t_value (peek ts) = "!") then
        '(_, ts1) ← consume TOp ts;
        '(arg, ts2) ← parse_unary_go fuel' ts1;
        Ok (EUnary OpNot arg, ts2)
      else if bool_decide (t_value (peek ts) = "-") then
        '(_, ts1) ← consume TOp ts;
        '(arg, ts2) ← parse_unary_go fuel' ts1;
        Ok (EUnary OpNeg arg, ts2)
      else parsePrimary ts
  end.

Definition parseUnary (ts : list Token) : res (ExprNode * list Token) :=
  parse_unary_go (S (length ts)) ts.

(** [while (ops.includes(peek().value)) left = { left op sub() }]. *)
Fixpoint binary_loop (fuel : nat) (ops : list string) (sub : parser ExprNode)
    (lhs : ExprNode) (ts : list Token) : res (ExprNode * list Token) :=
  match fuel with
  | O => OutOfFuel
  | S fuel' =>
      if bool_decide (t_value (peek ts) ∈ ops) then
        '(op, ts1) ← consume TOp ts;
        '(rhs, ts2) ← sub ts1;
        binary_loop fuel' ops sub (EBinary (t_value op) lhs rhs) ts2
      else Ok (lhs, ts)
  end.

Definition left_assoc (ops : list string) (sub : parser ExprNode) : parser ExprNode := λ ts,
  '(lhs, ts1) ← sub ts;
  binary_loop (S (length ts1)) ops sub lhs ts1.

Definition parseMul : parser ExprNode := left_assoc ["*"; "/"] parseUnary.
Definition parseAdd : parser ExprNode := left_assoc ["+"; "-"] parseMul.

(** One comparison at most: the result of a comparison is not compared again. *)
Definition parseComparison : parser ExprNode := λ ts,
  '(lhs, ts1) ← parseAdd ts;
  if bool_decide (t_value (peek ts1) ∈ ["=="; "!="; "<"; "<="; ">"; ">="]) then
    '(op, ts2) ← consume TOp ts1;
    '(rhs, ts3) ← parseAdd ts2;
    Ok (EBinary (t_value op) lhs rhs, ts3)
  else Ok (lhs, ts1).

Definition parseAnd : parser ExprNode := left_assoc ["&&"] parseComparison.
Definition parseOr_body : parser ExprNode := left_assoc ["||"] parseAnd.
End parser.

Fixpoint parseOr (fuel : nat) (ts : list Token) : res (ExprNode * list Token) :=
  match fuel with
  | O => OutOfFuel
  | S fuel' => parseOr_body (parseOr fuel') ts
  end.

Definition parse_tokens (ts : list Token) : res ExprNode :=
  '(node, rest) ← parseOr (S (length ts)) ts;
  if bool_decide (t_type (peek rest) = TEof) then Ok node
  else Throw (PlainError ("unexpected token " +:+ t_value (peek rest))).

Definition parse (input : string) : res ExprNode := ts ← tokenize input; parse_tokens ts.

(** ** The evaluator (builtins.ts, evaluator.ts) *)

Definition is_empty_value (v : jsval) : bool :=
  match v with JNull | JUndefined => true | JStr s => negb (truthy_string s) | _ => false end.

Definition arg (n : nat) (args : list jsval) : jsval := default JUndefined (args !! n).

(** [x ?? ""]. *)
Definition or_empty (v : jsval) : jsval := if is_nullish v then JStr "" else v.

(** A function of [BUILTINS], of the prototype of that object, or [None] where
    [BUILTINS[name]] is undefined.  The state is the next fresh identity. *)
Definition call_builtin (name : string) (args : list jsval) : option (eff N jsval) :=
  if decide (name = "isempty") then Some (mret (JBool (is_empty_value (arg 0 args))))
  else if decide (name = "length") then
    Some (mret (JNum (num_of_Z
      match arg 0 args with
      | JStr s => Z.of_nat (String.length s)
      | JArr _ l => Z.of_nat (length l)
      | _ => 0
      end)))
  else if decide (name = "contains") then
    Some (hay ← lift_outcome (to_string (or_empty (arg 0 args)));
          needle ← lift_outcome (to_string (or_empty (arg 1 args)));
          mret (JBool (includes hay needle)))
  else if decide (name = "coalesce") then
    Some (mret (default JNull (head (List.filter (λ a, negb (is_empty_value a)) args))))
  else if decide (name = "toString") then Some (mret (JStr "[object Undefined]"))
  else if decide (name = "constructor") then
    Some (λ n, (Ok (JArr n args), N.succ n))
  else if decide (name = "__proto__") then Some (throw (TypeError "fn is not a function"))
  else if bool_decide (name ∈ object_prototype_names) then
    Some (throw (TypeError "Cannot convert undefined or null to object"))
  else None.

(** The walk of [resolveIdent] over the parts of a dotted name. *)
Fixpoint resolve_parts (cur : jsval) (parts : list string) : jsval :=
  match parts with
  | [] => cur
  | p :: ps =>
      if is_nullish cur || negb (is_object_type cur) then JUndefined
      else resolve_parts (get_property cur p) ps
  end.

Definition resolveIdent (name : string) (ctx : jsrecord) : jsval :=
  resolve_parts (JObj 0 ctx) (split name "."%char).

(** [Number(v) || 0]. *)
Definition number_or_zero (x : num) : num := if num_truthy x then x else num_zero.

(** The [switch] of [evalBinary], on the values of both sides. *)
Definition apply_binary (op : string) (l r : jsval) : res jsval :=
  let numeric (f : num → num → jsval) : res jsval :=
    x ← to_number l; y ← to_number r; Ok (f x y) in
  if decide (op = "==") then b ← loose_eq l r; Ok (JBool b)
  else if decide (op = "!=") then b ← loose_eq l r; Ok (JBool (negb b))
  else if decide (op = "<") then numeric (λ x y, JBool (num_ltb x y))
  else if decide (op = "<=") then numeric (λ x y, JBool (num_leb x y))
  else if decide (op = ">") then numeric (λ x y, JBool (num_ltb y x))
  else if decide (op = ">=") then numeric (λ x y, JBool (num_leb y x))
  else if decide (op = "&&") then Ok (JBool (to_boolean l && to_boolean r))
  else if decide (op = "||") then Ok (JBool (to_boolean l || to_boolean r))
  else if decide (op = "+") then numeric (λ x y, JNum (num_add x y))
  else if decide (op = "-") then numeric (λ x y, JNum (num_sub x y))
  else if decide (op = "*") then numeric (λ x y, JNum (num_mul x y))
  else if decide (op = "/") then numeric (λ x y, JNum (num_div x y))
  else Throw (PlainError ("unknown operator " +:+ op)).

(** Both sides are evaluated before the operator is looked at, so [&&] and [||]
    do not short-circuit; a call looks the function up before its arguments. *)
Fixpoint evalNode (node : ExprNode) (ctx : jsrecord) : eff N jsval :=
  match node with
  | ELiteral v => mret v
  | EIdent name => mret (resolveIdent name ctx)
  | EUnary OpNot arg => v ← evalNode arg ctx; mret (JBool (negb (to_boolean v)))
  | EUnary OpNeg arg =>
      v ← evalNode arg ctx;
      x ← lift_outcome (to_number v);
      mret (JNum (num_opp (number_or_zero x)))
  | EBinary op lhs rhs =>
      l ← evalNode lhs ctx;
      r ← evalNode rhs ctx;
      lift_outcome (apply_binary op l r)
  | ECall name args =>
      let fix eval_args (l : list ExprNode) : eff N (list jsval) :=
        match l with
        | [] => mret []
        | a :: l' => v ← evalNode a ctx; vs ← eval_args l'; mret (v :: vs)
        end in
      match call_builtin name [] with
      | None => throw (PlainError ("unknown function: " +:+ name))
      | Some _ =>
          vs ← eval_args args;
          default (throw (PlainError ("unknown function: " +:+ name))) (call_builtin name vs)
      end
  end.

(** [evaluate], with identities for new arrays from [fresh] on. *)
Definition evaluate (fresh : N) (expression : string) (context : jsrecord) : res jsval :=
  ast ← parse expression; (evalNode ast context fresh).1.

Definition evaluateBoolean (fresh : N) (expression : string) (context : jsrecord) : res bool :=
  v ← evaluate fresh expression context; Ok (to_boolean v).

(** ** Computed examples *)

Example parse_precedence :
  parse "1 + 2 * 3 == 7 && !a.b" = Ok (EBinary "&&"
    (EBinary "==" (EBinary "+" (ELiteral (JNum (num_of_Z 1)))
      (EBinary "*" (ELiteral (JNum (num_of_Z 2))) (ELiteral (JNum (num_of_Z 3)))))
      (ELiteral (JNum (num_of_Z 7))))
    (EUnary OpNot (EIdent "a.b"))).
Proof. reflexivity. Qed.

Example parse_unclosed : parse "(1" = Throw (PlainError "expected rparen, got eof").
Proof. reflexivity. Qed.

Example eval_not_short_circuit :
  evaluate 0 "true || nosuch(1)" [] = Throw (PlainError "unknown function: nosuch").
Proof. reflexivity. Qed.
