(* ===== verification/ExprGrammar.v ===== *)
(** * The grammar of expressions

    An EBNF of the expression language as inductive relations, and the proof
    that the recursive descent of [Expressions] accepts exactly its sentences,
    returns the tree each one denotes, and always stops. *)

From S2P Require Import Prelude JsMap JsString JsNum DomainTypes JsValue Metrics Expressions.
From Stdlib Require Import Ascii.

(** ** The grammar *)

Inductive level : Type := LPrimary | LUnary | LMul | LAdd | LComparison | LAnd | LOr.

Definition level_ops (l : level) : list string :=
  match l with
  | LPrimary | LUnary => []
  | LMul => ["*"; "/"]
  | LAdd => ["+"; "-"]
  | LComparison => ["=="; "!="; "<"; "<="; ">"; ">="]
  | LAnd => ["&&"]
  | LOr => ["||"]
  end.

(** The operand level of a level. *)
Definition level_sub (l : level) : level :=
  match l with
  | LPrimary | LUnary => LPrimary
  | LMul => LUnary | LAdd => LMul | LComparison => LAdd | LAnd => LComparison | LOr => LAnd
  end.

Definition level_repeats (l : level) : bool :=
  match l with LMul | LAdd | LAnd | LOr => true | _ => false end.

Definition op_token (op : string) : Token := mkToken TOp op.
Definition keywords : list string := ["true"; "false"; "null"].

(** [gram l e ts]: the tokens [ts] derive the tree [e] from [l].
    [gtail l lhs e ts]: [ts] is a sequence of operators and operands that turns
    [lhs] into [e].  [gargs es ts]: [ts] derives the arguments after the first. *)
Inductive gram : level → ExprNode → list Token → Prop :=
| g_number s : gram LPrimary (ELiteral (JNum (string_to_num s))) [mkToken TNumber s]
| g_string s : s ≠ "!" → s ≠ "-" → gram LPrimary (ELiteral (JStr s)) [mkToken TString s]
| g_true : gram LPrimary (ELiteral (JBool true)) [mkToken TIdent "true"]
| g_false : gram LPrimary (ELiteral (JBool false)) [mkToken TIdent "false"]
| g_null : gram LPrimary (ELiteral JNull) [mkToken TIdent "null"]
| g_ident s : s ∉ keywords → gram LPrimary (EIdent s) [mkToken TIdent s]
| g_call0 s : s ∉ keywords →
    gram LPrimary (ECall s []) [mkToken TIdent s; mkToken TLparen "("; mkToken TRparen ")"]
| g_call s e es ts1 ts2 : s ∉ keywords → gram LOr e ts1 → gargs es ts2 →
    gram LPrimary (ECall s (e :: es))
      (mkToken TIdent s :: mkToken TLparen "(" :: ts1 ++ ts2 ++ [mkToken TRparen ")"])
| g_paren e ts : gram LOr e ts →
    gram LPrimary e (mkToken TLparen "(" :: ts ++ [mkToken TRparen ")"])
| g_not e ts : gram LUnary e ts → gram LUnary (EUnary OpNot e) (op_token "!" :: ts)
| g_neg e ts : gram LUnary e ts → gram LUnary (EUnary OpNeg e) (op_token "-" :: ts)
| g_primary e ts : gram LPrimary e ts → gram LUnary e ts
| g_compare l r op ts1 ts2 :
    gram LAdd l ts1 → op ∈ level_ops LComparison → gram LAdd r ts2 →
    gram LComparison (EBinary op l r) (ts1 ++ op_token op :: ts2)
| g_no_compare e ts : gram LAdd e ts → gram LComparison e ts
| g_left l lhs e ts1 ts2 :
    level_repeats l = true → gram (level_sub l) lhs ts1 → gtail l lhs e ts2 →
    gram l e (ts1 ++ ts2)
with gtail : level → ExprNode → ExprNode → list Token → Prop :=
| gt_nil l lhs : gtail l lhs lhs []
| gt_cons l lhs op r e ts1 ts2 :
    op ∈ level_ops l → gram (level_sub l) r ts1 → gtail l (EBinary op lhs r) e ts2 →
    gtail l lhs e (op_token op :: ts1 ++ ts2)
with gargs : list ExprNode → list Token → Prop :=
| ga_nil : gargs [] []
| ga_cons e es ts1 ts2 : gram LOr e ts1 → gargs es ts2 →
    gargs (e :: es) (mkToken TComma "," :: ts1 ++ ts2).

Scheme gram_mut := Minimality for gram Sort Prop
  with gtail_mut := Minimality for gtail Sort Prop
  with gargs_mut := Minimality for gargs Sort Prop.
Combined Scheme gram_ind3 from gram_mut, gtail_mut, gargs_mut.

(** The tokens of the tokenizer: only an operator or a string literal has an
    operator's text, punctuation has its own, and the end marker is empty. *)
Definition op_texts : list string :=
  "!" :: level_ops LMul ++ level_ops LAdd ++ level_ops LComparison ++ level_ops LAnd ++ level_ops LOr.

Definition token_ok (t : Token) : Prop :=
  (t_value t ∈ op_texts → t_type t = TOp ∨ t_type t = TString)
  ∧ (t_type t = TLparen → t_value t = "(") ∧ (t_type t = TRparen → t_value t = ")")
  ∧ (t_type t = TComma → t_value t = ",").

(** ** Soundness and termination

    One statement per parsing function: with the recursive parser sound and
    total below a length, so is the function at it. *)

Definition sound_at (g : ExprNode → list Token → Prop) (p : parser ExprNode) (ts : list Token) : Prop :=
  p ts ≠ OutOfFuel ∧
  ∀ e rest, p ts = Ok (e, rest) →
    ∃ used, ts = used ++ rest ∧ used ≠ [] ∧ g e used.

Lemma consume_cases type ts :
  type ≠ TEof →
  (∃ t rest, ts = t :: rest ∧ t_type t = type ∧ consume type ts = Ok (t, rest))
  ∨ ∃ e, consume type ts = Throw e.
Proof.
  intros Hne. unfold consume, peek. destruct ts as [|t ts]; simpl; case_bool_decide; eauto 10.
  congruence.
Qed.

Lemma token_comma t : token_ok t → t_type t = TComma → t = mkToken TComma ",".
Proof. destruct t. intros (_ & _ & _ & Hc) Ht. simpl in *. subst. f_equal. auto. Qed.
Lemma token_lparen t : token_ok t → t_type t = TLparen → t = mkToken TLparen "(".
Proof. destruct t. intros (_ & Hc & _) Ht. simpl in *. subst. f_equal. auto. Qed.
Lemma token_rparen t : token_ok t → t_type t = TRparen → t = mkToken TRparen ")".
Proof. destruct t. intros (_ & _ & Hc & _) Ht. simpl in *. subst. f_equal. auto. Qed.
Lemma token_op t : t_type t = TOp → t = op_token (t_value t).
Proof. destruct t. simpl. by intros ->. Qed.

Section soundness.
Context (rec : parser ExprNode) (n : nat).
Hypothesis rec_sound : ∀ ts, Forall token_ok ts → (length ts < n)%nat → sound_at (gram LOr) rec ts.

Lemma parse_args_sound fuel ts :
  Forall token_ok ts → (length ts ≤ n)%nat → (length ts < fuel)%nat →
  parse_args rec fuel ts ≠ OutOfFuel ∧
  ∀ es rest, parse_args rec fuel ts = Ok (es, rest) → ∃ used, ts = used ++ rest ∧ gargs es used.
Proof.
  revert ts. induction fuel as [|fuel IH]; intros ts Hok Hn Hf; [lia|]. cbn [parse_args].
  case_bool_decide as Hc; [|split; [done|]; intros es rest [= <- <-]; exists []; split; [done|constructor]].
  destruct (consume_cases TComma ts) as [(t & r & -> & Hty & ->)|[x ->]]; [done| |done].
  cbn -[parse_args]. apply Forall_cons in Hok as [Ht Hok]. simpl in Hn, Hf.
  destruct (rec_sound r Hok) as [Hnf Hs]; [lia|].
  destruct (rec r) as [[e r1]| |] eqn:Hr; [|done..]. cbn -[parse_args].
  destruct (Hs _ _ eq_refl) as (u1 & -> & Hne & Hg). apply Forall_app in Hok as [_ Hok].
  rewrite length_app in *. destruct (IH r1) as [Hnf' Hs']; [done|lia..|].
  destruct (parse_args rec fuel r1) as [[es r2]| |]; [|done..]. cbn.
  split; [done|]. intros es' rest [= <- <-].
  destruct (Hs' _ _ eq_refl) as (u2 & -> & Hg').
  exists (mkToken TComma "," :: u1 ++ u2). split; [|by constructor].
  rewrite (token_comma t Ht Hty). simpl. by rewrite <-app_assoc.
Qed.

Lemma primary_literal_sound t e ts :
  gram LPrimary e [t] → sound_at (gram LPrimary) (λ _, Ok (e, ts)) (t :: ts).
Proof. intros Hg. split; [done|]. intros e' rest [= <- <-]. by exists [t]. Qed.

(** The parenthesised arguments of a call. *)
Inductive gcall : list ExprNode → list Token → Prop :=
| gc_nil : gcall [] []
| gc_cons e es u1 u2 : gram LOr e u1 → gargs es u2 → gcall (e :: es) (u1 ++ u2).

Lemma call_args_sound ts :
  Forall token_ok ts → (length ts < n)%nat →
  parse_call_args rec ts ≠ OutOfFuel ∧ ∀ es rest, parse_call_args rec ts = Ok (es, rest) →
    ∃ used, ts = used ++ rest ∧ gcall es used.
Proof.
  intros Hok Hn. unfold parse_call_args. case_bool_decide as Hrp.
  { split; [done|]. intros es rest [= <- <-]. exists []. split; [done|constructor]. }
  destruct (rec_sound ts Hok Hn) as [Hnf Hs].
  destruct (rec ts) as [[e r1]| |] eqn:Hr; [|done..]. cbn -[parse_args].
  destruct (Hs _ _ eq_refl) as (u1 & -> & Hne & Hg). apply Forall_app in Hok as [_ Hok].
  rewrite length_app in Hn.
  destruct (parse_args_sound (S (length r1)) r1) as [Hnf' Hs']; [done|lia..|].
  destruct (parse_args rec (S (length r1)) r1) as [[es r2]| |]; [|done..]. cbn.
  split; [done|]. intros es' rest [= <- <-].
  destruct (Hs' _ _ eq_refl) as (u2 & -> & Hg'). exists (u1 ++ u2). rewrite <-app_assoc.
  split; [done|by constructor].
Qed.

Lemma gcall_call s es u :
  s ∉ keywords → gcall es u →
  gram LPrimary (ECall s es)
    (mkToken TIdent s :: mkToken TLparen "(" :: u ++ [mkToken TRparen ")"]).
Proof. intros Hs [|e es' u1 u2 ? ?]; [by constructor|]. rewrite <-app_assoc. by constructor. Qed.

Lemma consume_hd type v ts : consume type (mkToken type v :: ts) = Ok (mkToken type v, ts).
Proof. unfold consume. by rewrite bool_decide_eq_true_2. Qed.

Lemma call_sound v ts :
  Forall token_ok ts → (length ts < n)%nat → v ∉ keywords → t_type (peek ts) = TLparen →
  sound_at (gram LPrimary) (λ _, '(_, ts2) ← consume TLparen ts;
        '(args, ts3) ← parse_call_args rec ts2;
        '(_, ts4) ← consume TRparen ts3;
        Ok (ECall v args, ts4)) (mkToken TIdent v :: ts).
Proof.
  intros Hok Hn Hv Hlp. unfold sound_at.
  destruct (consume_cases TLparen ts) as [(t & r & -> & Hty & ->)|[x ->]]; [done| |done].
  cbn. apply Forall_cons in Hok as [Ht Hok]. simpl in Hn.
  destruct (call_args_sound r Hok) as [Hnf Hs]; [lia|].
  destruct (parse_call_args rec r) as [[es r1]| |]; [|done..]. cbn.
  destruct (Hs _ _ eq_refl) as (u & -> & Hg). apply Forall_app in Hok as [_ Hok].
  destruct (consume_cases TRparen r1) as [(t' & r & -> & Hty' & ->)|[x ->]]; [done| |done].
  cbn. split; [done|]. intros e' rest [= <- <-]. apply Forall_cons in Hok as [Ht' _].
  rewrite (token_lparen _ Ht Hty), (token_rparen _ Ht' Hty').
  exists (mkToken TIdent v :: mkToken TLparen "(" :: u ++ [mkToken TRparen ")"]).
  split; [simpl; by rewrite <-app_assoc|]. split; [done|by apply gcall_call].
Qed.

Lemma primary_sound ts :
  Forall token_ok ts → (length ts ≤ n)%nat → t_value (peek ts) ≠ "!" → t_value (peek ts) ≠ "-" →
  sound_at (gram LPrimary) (parsePrimary rec) ts.
Proof.
  intros Hok Hn H1 H2. destruct ts as [|[ty v] ts]; [by split|]. cbn in Hn, H1, H2.
  apply Forall_cons in Hok as [Ht Hok]. unfold sound_at, parsePrimary.
  change (peek (mkToken ty v :: ts)) with (mkToken ty v). cbn [t_type t_value].
  destruct ty; try by split.
  - rewrite consume_hd. cbn -[parse_call_args consume]. repeat case_bool_decide; subst.
    + apply primary_literal_sound. constructor.
    + apply primary_literal_sound. constructor.
    + apply primary_literal_sound. constructor.
    + apply call_sound; [done|lia| |done]. unfold keywords. set_solver.
    + apply primary_literal_sound. constructor. unfold keywords. set_solver.
  - apply primary_literal_sound. constructor.
  - apply primary_literal_sound. by constructor.
  - rewrite consume_hd. cbn.
    destruct (rec_sound ts Hok) as [Hnf Hs]; [lia|].
    destruct (rec ts) as [[e r1]| |]; [|done..]. cbn.
    destruct (Hs _ _ eq_refl) as (u1 & -> & Hne & Hg). apply Forall_app in Hok as [_ Hok].
    destruct (consume_cases TRparen r1) as [(t & r & -> & Hty & ->)|[x ->]]; [done| |done].
    cbn. split; [done|]. intros e' rest [= <- <-]. apply Forall_cons in Hok as [Hrp _].
    rewrite (token_rparen t Hrp Hty), (token_lparen _ Ht eq_refl).
    exists (mkToken TLparen "(" :: u1 ++ [mkToken TRparen ")"]).
    split; [simpl; by rewrite <-app_assoc|]. split; [done|by constructor].
Qed.

Lemma unary_sound fuel ts :
  Forall token_ok ts → (length ts ≤ n)%nat → (length ts < fuel)%nat →
  sound_at (gram LUnary) (parse_unary_go rec fuel) ts.
Proof.
  revert ts. induction fuel as [|fuel IH]; intros ts Hok Hn Hf; [lia|].
  unfold sound_at. cbn [parse_unary_go].
  assert (∀ op mk, (∀ e u, gram LUnary e u → gram LUnary (mk e) (op_token op :: u)) →
    t_value (peek ts) = op →
    sound_at (gram LUnary) (λ ts, '(_, ts1) ← consume TOp ts;
        '(arg, ts2) ← parse_unary_go rec fuel ts1; Ok (mk arg, ts2)) ts) as Hun.
  { intros op mk Hmk Hop. unfold sound_at.
    destruct (consume_cases TOp ts) as [(t & r & -> & Hty & ->)|[x ->]]; [done| |done].
    cbn. apply Forall_cons in Hok as [_ Hok]. simpl in *.
    destruct (IH r Hok) as [Hnf Hs]; [lia..|].
    destruct (parse_unary_go rec fuel r) as [[e r1]| |]; [|done..]. cbn.
    destruct (Hs _ _ eq_refl) as (u & -> & _ & Hg).
    split; [done|]. intros e' rest [= <- <-]. exists (op_token op :: u).
    unfold peek in Hop. simpl in Hop. rewrite (token_op t Hty), Hop. auto. }
  case_bool_decide as H1; [apply (Hun "!" (EUnary OpNot)); [by constructor|done]|].
  case_bool_decide as H2; [apply (Hun "-" (EUnary OpNeg)); [by constructor|done]|].
  destruct (primary_sound ts Hok Hn H1 H2) as [Hnf Hs].
  split; [done|]. intros e rest He. destruct (Hs e rest He) as (u & -> & Hu & Hg).
  exists u. eauto using gram.
Qed.

Lemma loop_sound l sub fuel lhs ts :
  (∀ ts, Forall token_ok ts → (length ts ≤ n)%nat → sound_at (gram (level_sub l)) sub ts) →
  Forall token_ok ts → (length ts ≤ n)%nat → (length ts < fuel)%nat →
  binary_loop fuel (level_ops l) sub lhs ts ≠ OutOfFuel ∧
  ∀ e rest, binary_loop fuel (level_ops l) sub lhs ts = Ok (e, rest) →
    ∃ used, ts = used ++ rest ∧ gtail l lhs e used.
Proof.
  intros Hsub. revert lhs ts. induction fuel as [|fuel IH]; intros lhs ts Hok Hn Hf; [lia|].
  cbn [binary_loop]. case_bool_decide as Hop.
  2: { split; [done|]. intros e rest [= <- <-]. exists []. split; [done|constructor]. }
  destruct (consume_cases TOp ts) as [(t & r & -> & Hty & ->)|[x ->]]; [done| |done].
  cbn -[binary_loop]. apply Forall_cons in Hok as [_ Hok]. simpl in *.
  destruct (Hsub r Hok) as [Hnf Hs]; [lia|].
  destruct (sub r) as [[rhs r1]| |]; [|done..]. cbn -[binary_loop].
  destruct (Hs _ _ eq_refl) as (u1 & -> & _ & Hg). apply Forall_app in Hok as [_ Hok].
  rewrite length_app in *. destruct (IH (EBinary (t_value t) lhs rhs) r1 Hok) as [Hnf' Hs']; [lia..|].
  split; [done|]. intros e rest He. destruct (Hs' e rest He) as (u2 & -> & Hg').
  exists (op_token (t_value t) :: u1 ++ u2). split; [|by econstructor].
  rewrite (token_op t Hty) at 1. simpl. by rewrite <-app_assoc.
Qed.

Lemma left_assoc_sound l sub ts :
  level_repeats l = true →
  (∀ ts, Forall token_ok ts → (length ts ≤ n)%nat → sound_at (gram (level_sub l)) sub ts) →
  Forall token_ok ts → (length ts ≤ n)%nat →
  sound_at (gram l) (left_assoc (level_ops l) sub) ts.
Proof.
  intros Hl Hsub Hok Hn. unfold sound_at, left_assoc.
  destruct (Hsub ts Hok Hn) as [Hnf Hs].
  destruct (sub ts) as [[lhs r1]| |]; [|done..]. cbn -[binary_loop].
  destruct (Hs _ _ eq_refl) as (u1 & -> & Hne & Hg). apply Forall_app in Hok as [_ Hok].
  rewrite length_app in Hn.
  destruct (loop_sound l sub (S (length r1)) lhs r1 Hsub Hok) as [Hnf' Hs']; [lia..|].
  split; [done|]. intros e rest He. destruct (Hs' e rest He) as (u2 & -> & Hg').
  exists (u1 ++ u2). rewrite <-app_assoc. split; [done|]. split; [by destruct u1|].
  by eapply g_left.
Qed.

Lemma comparison_sound ts :
  (∀ ts, Forall token_ok ts → (length ts ≤ n)%nat → sound_at (gram LAdd) (parseAdd rec) ts) →
  Forall token_ok ts → (length ts ≤ n)%nat →
  sound_at (gram LComparison) (parseComparison rec) ts.
Proof.
  intros Hsub Hok Hn. unfold sound_at, parseComparison.
  destruct (Hsub ts Hok Hn) as [Hnf Hs].
  destruct (parseAdd rec ts) as [[lhs r1]| |]; [|done..]. cbn -[parseAdd].
  destruct (Hs _ _ eq_refl) as (u1 & -> & Hne & Hg). apply Forall_app in Hok as [_ Hok].
  case_bool_decide as Hop.
  2: { split; [done|]. intros e rest [= <- <-]. exists u1. eauto using gram. }
  destruct (consume_cases TOp r1) as [(t & r & -> & Hty & ->)|[x ->]]; [done| |done].
  cbn -[parseAdd]. apply Forall_cons in Hok as [_ Hok]. rewrite length_app in Hn. simpl in *.
  destruct (Hsub r Hok) as [Hnf' Hs']; [lia|].
  destruct (parseAdd rec r) as [[rhs r2]| |]; [|done..]. cbn.
  destruct (Hs' _ _ eq_refl) as (u2 & -> & _ & Hg').
  split; [done|]. intros e rest [= <- <-].
  exists (u1 ++ op_token (t_value t) :: u2). rewrite <-app_assoc. simpl.
  split; [by rewrite (token_op t Hty) at 1|]. split; [by destruct u1|by constructor].
Qed.

Lemma body_sound ts :
  Forall token_ok ts → (length ts ≤ n)%nat → sound_at (gram LOr) (parseOr_body rec) ts.
Proof.
  assert (∀ ts, Forall token_ok ts → (length ts ≤ n)%nat → sound_at (gram LAdd) (parseAdd rec) ts).
  { intros. apply (left_assoc_sound LAdd); [done| |done..]. intros.
    apply (left_assoc_sound LMul); [done| |done..]. intros. apply unary_sound; [done..|lia]. }
  intros. apply (left_assoc_sound LOr); [done| |done..]. intros.
  apply (left_assoc_sound LAnd); [done| |done..]. intros. by apply comparison_sound.
Qed.
End soundness.

Lemma parseOr_sound fuel ts :
  Forall token_ok ts → (length ts < fuel)%nat → sound_at (gram LOr) (parseOr fuel) ts.
Proof.
  revert ts. induction fuel as [|fuel IH]; intros ts Hok Hf; [lia|].
  apply (body_sound (parseOr fuel) (length ts)); [|done|lia].
  intros ts' Hok' Hlt. apply IH; [done|lia].
Qed.

(** ** Completeness *)

Definition ops_upto (l : level) : list string :=
  match l with
  | LPrimary | LUnary => []
  | LMul => level_ops LMul
  | LAdd => level_ops LMul ++ level_ops LAdd
  | LComparison => level_ops LMul ++ level_ops LAdd ++ level_ops LComparison
  | LAnd => level_ops LMul ++ level_ops LAdd ++ level_ops LComparison ++ level_ops LAnd
  | LOr => level_ops LMul ++ level_ops LAdd ++ level_ops LComparison ++ level_ops LAnd ++ level_ops LOr
  end.

(** What may come after a sentence of a level. *)
Definition follow (l : level) (rest : list Token) : Prop :=
  t_type (peek rest) ≠ TLparen ∧ t_value (peek rest) ∉ ops_upto l.

Definition level_parser (rec : parser ExprNode) (l : level) : parser ExprNode :=
  match l with
  | LPrimary => parsePrimary rec
  | LUnary => parseUnary rec
  | LMul => parseMul rec
  | LAdd => parseAdd rec
  | LComparison => parseComparison rec
  | LAnd => parseAnd rec
  | LOr => parseOr_body rec
  end.

Lemma level_parser_left rec l :
  level_repeats l = true →
  level_parser rec l = left_assoc (level_ops l) (level_parser rec (level_sub l)).
Proof. by destruct l. Qed.

Lemma follow_weaken l rest : follow l rest → follow (level_sub l) rest ∧ follow LPrimary rest ∧
  t_value (peek rest) ∉ level_ops l.
Proof.
  intros [Ht Hv]. unfold follow. destruct l; simpl in *; (split; [|split]); try split; set_solver.
Qed.

Lemma follow_op l op ts : op ∈ level_ops l → follow (level_sub l) (op_token op :: ts).
Proof.
  intros Hop. split; [done|]. change (t_value (peek (op_token op :: ts))) with op.
  destruct l; simpl in *; set_unfold; naive_solver.
Qed.

Lemma follow_closer l ty v ts :
  ty ≠ TLparen → v ∉ op_texts → follow l (mkToken ty v :: ts).
Proof.
  intros Hty Hv. split; [done|]. unfold op_texts in Hv. unfold peek.
  destruct l; simpl in *; set_solver.
Qed.

Lemma unary_fuel rec f1 f2 ts :
  (length ts < f1)%nat → (length ts < f2)%nat → parse_unary_go rec f1 ts = parse_unary_go rec f2 ts.
Proof.
  revert f2 ts. induction f1 as [|f1 IH]; intros [|f2] ts H1 H2; [lia..|]. cbn [parse_unary_go].
  destruct (consume_cases TOp ts) as [(t & r & -> & _ & ->)|[x ->]]; [done| |done].
  cbn. simpl in *. rewrite (IH f2 r) by lia. done.
Qed.

Lemma unary_op rec n op mk ts e rest :
  (op = "!" ∧ mk = EUnary OpNot) ∨ (op = "-" ∧ mk = EUnary OpNeg) →
  parse_unary_go rec n ts = Ok (e, rest) →
  parse_unary_go rec (S n) (op_token op :: ts) = Ok (mk e, rest).
Proof.
  intros Hop H. cbn [parse_unary_go]. change (peek (op_token op :: ts)) with (op_token op).
  cbn [t_value op_token].
  destruct Hop as [[-> ->]|[-> ->]]; rewrite consume_hd; cbn -[consume]; by rewrite H.
Qed.

Lemma token_not_unary ty v :
  ty ≠ TOp → ty ≠ TString → token_ok (mkToken ty v) → v ≠ "!" ∧ v ≠ "-".
Proof.
  intros H1 H2 [Hv _]. simpl in Hv.
  split; intros ->; destruct Hv as [?|?]; (done || (unfold op_texts; simpl; set_solver)).
Qed.

Lemma gram_primary_head e ts :
  gram LPrimary e ts → Forall token_ok ts →
  ∃ t ts', ts = t :: ts' ∧ t_value t ≠ "!" ∧ t_value t ≠ "-".
Proof.
  inversion 1; subst; try done; intros Hok; apply Forall_cons in Hok as [Hok _];
    (eexists _, _; split; [done|]); try done; eapply token_not_unary; try exact Hok; done.
Qed.

(** A sentence starts with some token, and not with a closing parenthesis. *)
Lemma gram_start l e ts : gram l e ts → ∃ t ts', ts = t :: ts' ∧ t_type t ≠ TRparen.
Proof.
  induction 1 as [| | | | | | | | | | | | | |l lhs e ts1 ts2 Hl Hg IH Ht]; try (by eexists _, _);
    repeat match goal with H : ∃ _, _ |- _ => destruct H as (? & ? & -> & ?) end; by eexists _, _.
Qed.

Lemma parsePrimary_number rec s ts :
  parsePrimary rec (mkToken TNumber s :: ts) = Ok (ELiteral (JNum (string_to_num s)), ts).
Proof. done. Qed.

Lemma parsePrimary_ident rec s ts :
  s ∉ keywords → t_type (peek ts) ≠ TLparen →
  parsePrimary rec (mkToken TIdent s :: ts) = Ok (EIdent s, ts).
Proof.
  intros Hs Hts. unfold keywords in Hs. unfold parsePrimary. unfold peek at 1. cbn [default head t_type].
  unfold peek in Hts. cbn -[consume peek]. rewrite consume_hd. cbn -[consume peek].
  rewrite !bool_decide_eq_false_2; [done|done|set_solver..].
Qed.

Lemma parsePrimary_call rec s args u ts :
  s ∉ keywords → parse_call_args rec (u ++ mkToken TRparen ")" :: ts) = Ok (args, mkToken TRparen ")" :: ts) →
  parsePrimary rec (mkToken TIdent s :: mkToken TLparen "(" :: u ++ mkToken TRparen ")" :: ts)
    = Ok (ECall s args, ts).
Proof.
  intros Hs Hargs. unfold keywords in Hs. unfold parsePrimary.
  change (peek (mkToken TIdent s :: _)) with (mkToken TIdent s). cbn [t_type].
  rewrite consume_hd. cbn -[consume parse_call_args peek].
  rewrite !(bool_decide_eq_false_2 (s = _)) by set_solver.
  rewrite bool_decide_eq_true_2 by done. rewrite consume_hd. cbn -[consume parse_call_args].
  rewrite Hargs. cbn -[consume]. by rewrite consume_hd.
Qed.

Lemma parsePrimary_paren rec e ts rest :
  rec (ts ++ mkToken TRparen ")" :: rest) = Ok (e, mkToken TRparen ")" :: rest) →
  parsePrimary rec (mkToken TLparen "(" :: ts ++ mkToken TRparen ")" :: rest) = Ok (e, rest).
Proof.
  intros H. unfold parsePrimary. change (peek (mkToken TLparen "(" :: _)) with (mkToken TLparen "(").
  cbn [t_type]. rewrite consume_hd. cbn -[consume]. rewrite H. cbn -[consume]. by rewrite consume_hd.
Qed.

Definition complete_at (l : level) (e : ExprNode) (ts : list Token) : Prop :=
  ∀ f rest, Forall token_ok ts → follow l rest → (length (ts ++ rest) ≤ f)%nat →
    level_parser (parseOr f) l (ts ++ rest) = Ok (e, rest).

Definition loop_complete_at (l : level) (lhs e : ExprNode) (ts : list Token) : Prop :=
  ∀ f fuel rest, Forall token_ok ts → follow l rest →
    (length (ts ++ rest) ≤ f)%nat → (length (ts ++ rest) < fuel)%nat →
    binary_loop fuel (level_ops l) (level_parser (parseOr f) (level_sub l)) lhs (ts ++ rest)
      = Ok (e, rest).

Definition args_complete_at (es : list ExprNode) (ts : list Token) : Prop :=
  ∀ f fuel rest, Forall token_ok ts → t_type (peek rest) = TRparen → t_value (peek rest) = ")" →
    (length (ts ++ rest) ≤ f)%nat → (length (ts ++ rest) < fuel)%nat →
    parse_args (parseOr f) fuel (ts ++ rest) = Ok (es, rest).

(** [complete_at] for the recursive call. *)
Lemma complete_rec e ts f rest :
  complete_at LOr e ts → Forall token_ok ts → follow LOr rest → (length (ts ++ rest) < f)%nat →
  parseOr f (ts ++ rest) = Ok (e, rest).
Proof. intros H Hok Hf Hl. destruct f as [|f]; [lia|]. apply (H f); [done..|lia]. Qed.

Lemma gargs_follow es ts2 rest l :
  gargs es ts2 → t_type (peek rest) = TRparen → t_value (peek rest) = ")" → follow l (ts2 ++ rest).
Proof.
  intros Ha Hr Hv. destruct Ha.
  - split; simpl; rewrite ?Hr, ?Hv; [done|]. destruct l; simpl; set_solver.
  - apply follow_closer; [done|]. unfold op_texts; simpl; set_solver.
Qed.

Lemma complete_left l lhs e ts1 ts2 :
  level_repeats l = true → complete_at (level_sub l) lhs ts1 → gtail l lhs e ts2 →
  loop_complete_at l lhs e ts2 → complete_at l e (ts1 ++ ts2).
Proof.
  intros Hl H1 Ht H2 f rest Hok Hf Hlen. apply Forall_app in Hok as [Hok1 Hok2].
  rewrite (level_parser_left _ l Hl). unfold left_assoc. rewrite <-app_assoc in *.
  rewrite H1; [|done| |done].
  - cbn -[binary_loop]. rewrite !length_app in Hlen. apply H2; [done..| |lia].
    rewrite length_app. lia.
  - destruct Ht; [by apply follow_weaken|by apply follow_op].
Qed.

Lemma complete_cons l lhs op r e ts1 ts2 :
  op ∈ level_ops l → complete_at (level_sub l) r ts1 → gtail l (EBinary op lhs r) e ts2 →
  loop_complete_at l (EBinary op lhs r) e ts2 →
  loop_complete_at l lhs e (op_token op :: ts1 ++ ts2).
Proof.
  intros Hop H1 Ht H2 f fuel rest Hok Hf Hlen Hfuel. destruct fuel as [|fuel]; [lia|].
  apply Forall_cons in Hok as [_ Hok]. apply Forall_app in Hok as [Hok1 Hok2].
  simpl in Hlen, Hfuel. rewrite <-app_assoc, !length_app in *. cbn [binary_loop app].
  change (peek (op_token op :: _)) with (op_token op). cbn [t_value op_token].
  rewrite bool_decide_eq_true_2 by done. rewrite consume_hd. cbn -[binary_loop].
  rewrite <-app_assoc. rewrite H1; [|done| |rewrite !length_app; lia].
  - cbn -[binary_loop]. apply H2; [done..| |]; rewrite length_app; lia.
  - destruct Ht; [by apply follow_weaken|by apply follow_op].
Qed.

Lemma complete_args e es ts1 ts2 :
  complete_at LOr e ts1 → gargs es ts2 → args_complete_at es ts2 →
  args_complete_at (e :: es) (mkToken TComma "," :: ts1 ++ ts2).
Proof.
  intros H1 Hg H2 f fuel rest Hok Hr Hv Hlen Hfuel. destruct fuel as [|fuel]; [lia|].
  apply Forall_cons in Hok as [_ Hok]. apply Forall_app in Hok as [Hok1 Hok2].
  simpl in Hlen, Hfuel. rewrite <-app_assoc, !length_app in *. cbn [parse_args app].
  change (peek (mkToken TComma "," :: _)) with (mkToken TComma ","). cbn [t_type].
  rewrite bool_decide_eq_true_2 by done. rewrite consume_hd. cbn -[parse_args].
  rewrite <-app_assoc. rewrite (complete_rec e); [|done|done| |rewrite !length_app; lia].
  - cbn -[parse_args]. rewrite H2; [done..| |]; rewrite length_app; lia.
  - by eapply gargs_follow.
Qed.

Lemma complete_call s e es ts1 ts2 :
  s ∉ keywords → complete_at LOr e ts1 → gargs es ts2 → args_complete_at es ts2 → 
  gram LOr e ts1 →
  complete_at LPrimary (ECall s (e :: es))
    (mkToken TIdent s :: mkToken TLparen "(" :: ts1 ++ ts2 ++ [mkToken TRparen ")"]).
Proof.
  intros Hs H1 Hg H2 Hg1 f rest Hok Hf Hlen. simpl in Hlen. rewrite !length_app in Hlen. simpl in Hlen.
  repeat (apply Forall_cons in Hok as [_ Hok]). apply Forall_app in Hok as [Hok1 Hok2].
  apply Forall_app in Hok2 as [Hok2 _].
  cbn [level_parser app]. rewrite <-!app_assoc. cbn [app].
  rewrite (app_assoc ts1). apply parsePrimary_call; [done|]. rewrite <-app_assoc.
  unfold parse_call_args. rewrite bool_decide_eq_false_2.
  - rewrite (complete_rec e); [|done|done| |rewrite !length_app; simpl; lia].
    + cbn -[parse_args]. rewrite H2; [done..| |]; rewrite length_app; simpl; lia.
    + by eapply gargs_follow.
  - destruct (gram_start _ _ _ Hg1) as (t & ts' & -> & Ht). done.
Qed.

Lemma complete_keyword s v :
  (s = "true" ∧ v = JBool true) ∨ (s = "false" ∧ v = JBool false) ∨ (s = "null" ∧ v = JNull) →
  complete_at LPrimary (ELiteral v) [mkToken TIdent s].
Proof. intros Hs f rest _ _ _. by destruct Hs as [[-> ->]|[[-> ->]|[-> ->]]]. Qed.

Lemma complete_paren e ts : complete_at LOr e ts →
  complete_at LPrimary e (mkToken TLparen "(" :: ts ++ [mkToken TRparen ")"]).
Proof.
  intros IH f rest Hok Hf Hlen. cbn [level_parser app]. rewrite <-app_assoc in *.
  apply parsePrimary_paren. apply Forall_cons in Hok as [_ Hok]. apply Forall_app in Hok as [Hok _].
  apply (complete_rec e ts); [done|done| |simpl in Hlen; rewrite !length_app in *; simpl in *; lia].
  apply follow_closer; [done|]. unfold op_texts; simpl; set_solver.
Qed.

Lemma complete_unary op mk e ts :
  (op = "!" ∧ mk = EUnary OpNot) ∨ (op = "-" ∧ mk = EUnary OpNeg) →
  complete_at LUnary e ts → complete_at LUnary (mk e) (op_token op :: ts).
Proof.
  intros Hop IH f rest Hok Hf Hlen. apply Forall_cons in Hok as [_ Hok]. simpl in Hlen.
  apply unary_op; [done|]. apply (IH f rest); [done..|lia].
Qed.

Lemma complete_primary e ts : gram LPrimary e ts → complete_at LPrimary e ts → complete_at LUnary e ts.
Proof.
  intros Hg IH f rest Hok Hf Hlen. specialize (IH f rest Hok Hf Hlen).
  destruct (gram_primary_head _ _ Hg Hok) as (t & ts' & -> & H1 & H2).
  simpl in *. unfold parseUnary. cbn [parse_unary_go length app].
  change (peek (t :: _)) with t. by rewrite !bool_decide_eq_false_2.
Qed.

Lemma complete_compare l r op ts1 ts2 :
  complete_at LAdd l ts1 → op ∈ level_ops LComparison → complete_at LAdd r ts2 →
  complete_at LComparison (EBinary op l r) (ts1 ++ op_token op :: ts2).
Proof.
  intros H1 Hop H2 f rest Hok Hf Hlen. apply Forall_app in Hok as [Hok1 Hok2].
  apply Forall_cons in Hok2 as [_ Hok2]. rewrite <-app_assoc in *. cbn [level_parser app] in *.
  unfold parseComparison. rewrite !length_app in Hlen. simpl in Hlen. rewrite length_app in Hlen.
  specialize (H1 f (op_token op :: ts2 ++ rest)). cbn [level_parser] in H1.
  rewrite H1; [|done|by apply (follow_op LComparison)|rewrite length_app; simpl; rewrite length_app; lia].
  cbn -[consume parseAdd peek level_ops].
  change (peek (op_token op :: _)) with (op_token op). cbn [t_value op_token].
  change ["=="; "!="; "<"; "<="; ">"; ">="] with (level_ops LComparison).
  rewrite bool_decide_eq_true_2 by done. rewrite consume_hd. cbn -[parseAdd].
  specialize (H2 f rest). cbn [level_parser] in H2.
  rewrite H2; [done|done|by apply (follow_weaken LComparison)|rewrite length_app; lia].
Qed.

Lemma complete_no_compare e ts : complete_at LAdd e ts → complete_at LComparison e ts.
Proof.
  intros IH f rest Hok Hf Hlen. cbn [level_parser]. unfold parseComparison.
  specialize (IH f rest). cbn [level_parser] in IH.
  destruct (follow_weaken _ _ Hf) as (Hf1 & _ & Hop).
  rewrite IH by done. cbn -[parseAdd peek]. by rewrite bool_decide_eq_false_2.
Qed.

Lemma gram_complete :
  (∀ l e ts, gram l e ts → complete_at l e ts)
  ∧ (∀ l lhs e ts, gtail l lhs e ts → loop_complete_at l lhs e ts)
  ∧ (∀ es ts, gargs es ts → args_complete_at es ts).
Proof.
  apply gram_ind3.
  - by intros s f rest.
  - by intros s H1 H2 f rest.
  - apply complete_keyword; auto.
  - apply complete_keyword; auto.
  - apply complete_keyword; auto.
  - intros s Hs f rest _ [Hf _] _. by apply parsePrimary_ident.
  - intros s Hs f rest _ _ _. by apply (parsePrimary_call _ s [] []).
  - intros s e es ts1 ts2 Hs Hg IH Ha IHa. by apply complete_call.
  - intros e ts _. apply complete_paren.
  - intros e ts _ IH. apply (complete_unary "!"); auto.
  - intros e ts _ IH. apply (complete_unary "-"); auto.
  - apply complete_primary.
  - intros l r op ts1 ts2 _ H1 Hop _ H2. by apply complete_compare.
  - intros e ts _. apply complete_no_compare.
  - intros l lhs e ts1 ts2 Hl _ H1 Ht H2. by eapply complete_left.
  - intros l lhs f fuel rest _ Hf _ Hfuel. destruct fuel as [|fuel]; [simpl in Hfuel; lia|].
    cbn [binary_loop app]. rewrite bool_decide_eq_false_2; [done|]. by apply follow_weaken.
  - intros l lhs op r e ts1 ts2 Hop _ H1 Ht H2. by eapply complete_cons.
  - intros f fuel rest _ Hr _ _ Hfuel. destruct fuel as [|fuel]; [simpl in Hfuel; lia|].
    cbn [parse_args app]. by rewrite Hr.
  - intros e es ts1 ts2 _ H1 Ha H2. by apply complete_args.
Qed.

Definition eof_token : Token := mkToken TEof "".

Definition not_eof (t : Token) : Prop := t_type t ≠ TEof.

Lemma gram_no_eof :
  (∀ l e ts, gram l e ts → Forall not_eof ts)
  ∧ (∀ l lhs e ts, gtail l lhs e ts → Forall not_eof ts)
  ∧ (∀ es ts, gargs es ts → Forall not_eof ts).
Proof.
  apply gram_ind3; intros;
    repeat first [done | apply Forall_nil | apply Forall_cons; split | apply Forall_app; split].
Qed.

Lemma split_at_eof (ts used rest : list Token) :
  Forall not_eof ts → t_type (peek rest) = TEof → Forall not_eof used →
  ts ++ [eof_token] = used ++ rest → used = ts.
Proof.
  intros Hts Hp Hu. destruct rest as [|t rest]; intros Heq.
  - rewrite app_nil_r in Heq. subst used. apply Forall_app in Hu as [_ Hu].
    by rewrite Forall_singleton in Hu.
  - destruct (decide (rest = [])) as [->|Hne].
    + by apply app_inj_tail in Heq as [-> _].
    + destruct (exists_last Hne) as (r' & x & ->).
      change (used ++ t :: r' ++ [x]) with (used ++ (t :: r') ++ [x]) in Heq.
      rewrite app_assoc in Heq. apply app_inj_tail in Heq as [-> _].
      apply Forall_app in Hts as [_ Hts]. by apply Forall_cons in Hts as [? _].
Qed.

(** The parser and the grammar agree on token lists. *)
Lemma parse_tokens_iff ts e :
  Forall token_ok ts → Forall not_eof ts →
  parse_tokens (ts ++ [eof_token]) = Ok e ↔ gram LOr e ts.
Proof.
  intros Hok Hne. unfold parse_tokens.
  assert (Forall token_ok (ts ++ [eof_token])) as Hok'.
  { apply Forall_app. split; [done|]. apply Forall_singleton. split; [|done].
    simpl. unfold op_texts. simpl. set_solver. }
  split.
  - destruct (parseOr_sound (S (length (ts ++ [eof_token]))) (ts ++ [eof_token]) Hok') as [_ Hs]; [lia|].
    intros H. inv_bind H. destruct a as [node rest].
    destruct (Hs _ _ E) as (used & Hts & _ & Hg). case_bool_decide as Hp; [|done].
    injection H as ->. apply split_at_eof in Hts as ->; [done..|]. by apply gram_no_eof in Hg.
  - intros Hg. rewrite (complete_rec e ts _ [eof_token]); [done| |done| |lia].
    + by apply gram_complete.
    + split; [done|]. simpl. set_solver.
Qed.

Lemma parse_tokens_total ts : Forall token_ok ts → parse_tokens ts ≠ OutOfFuel.
Proof.
  intros Hok. unfold parse_tokens. destruct (parseOr_sound (S (length ts)) ts Hok) as [Hnf _]; [lia|].
  destruct (parseOr _ ts) as [[e r]| |]; [|done..]. cbn. by case_bool_decide.
Qed.

(** ** The tokenizer *)

Lemma take_while_hd {A} (p : A → bool) x l : p x = true → take_while p (x :: l) = x :: take_while p l.
Proof. simpl. by intros ->. Qed.

Lemma of_chars_cons c l : of_chars (c :: l) = String.String c (of_chars l).
Proof. done. Qed.

Lemma word_token_ok ty c l :
  ty = TNumber ∨ ty = TIdent → is_op_char c = false → token_ok (mkToken ty (of_chars (c :: l))).
Proof.
  intros Hty Hc. split; [|by destruct Hty as [-> | ->]]. simpl. intros Hin. exfalso.
  apply bool_decide_eq_false in Hc. apply Hc. clear -Hin.
  unfold op_texts in Hin. simpl in Hin.
  repeat (apply elem_of_cons in Hin as [[= -> _]|Hin]; [apply (bool_decide_unpack _); by vm_compute|]).
  by apply not_elem_of_nil in Hin.
Qed.

Lemma drop_while_le {A} (p : A → bool) l : (length (drop_while p l) ≤ length l)%nat.
Proof. apply drop_while_length. Qed.

Lemma tokenize_go_sound fuel total s :
  (length s < fuel)%nat →
  tokenize_go fuel total s ≠ OutOfFuel ∧
  ∀ ts, tokenize_go fuel total s = Ok ts →
    ∃ ts', ts = ts' ++ [eof_token] ∧ Forall token_ok ts' ∧ Forall not_eof ts'.
Proof.
  revert s. induction fuel as [|fuel IH]; intros s Hf; [lia|]. cbn [tokenize_go].
  pose proof (drop_while_le is_space s) as Hle.
  destruct (drop_while is_space s) as [|ch rest].
  { split; [done|]. intros ts [= <-]. by exists []. }
  simpl in Hle.
  assert (∀ t s', (length s' ≤ length rest)%nat → token_ok t → not_eof t →
    (ts ← tokenize_go fuel total s'; Ok (t :: ts)) ≠ OutOfFuel ∧
    ∀ ts, (ts ← tokenize_go fuel total s'; Ok (t :: ts)) = Ok ts →
      ∃ ts', ts = ts' ++ [eof_token] ∧ Forall token_ok ts' ∧ Forall not_eof ts') as Hgo.
  { intros t s' Hs' Ht Hne. destruct (IH s') as [Hnf Hs]; [lia|].
    destruct (tokenize_go fuel total s') as [ts| |]; [|done..]. cbn. split; [done|].
    intros ts0 [= <-]. destruct (Hs _ eq_refl) as (ts' & -> & H1 & H2).
    exists (t :: ts'). auto using Forall_cons_2. }
  assert (∀ v, v ∉ op_texts → ∀ ty, ty ∈ [TLparen; TRparen; TComma] → 
    (ty = TLparen → v = "(") → (ty = TRparen → v = ")") → (ty = TComma → v = ",") →
    token_ok (mkToken ty v)) as Hpunct by (intros; split; [done|auto]).
  case_bool_decide; [apply Hgo; [done| |done]; apply Hpunct; unfold op_texts; simpl; set_solver|].
  case_bool_decide; [apply Hgo; [done| |done]; apply Hpunct; unfold op_texts; simpl; set_solver|].
  case_bool_decide; [apply Hgo; [done| |done]; apply Hpunct; unfold op_texts; simpl; set_solver|].
  destruct (is_op_char ch) eqn:Hop.
  { unfold readOp. case_bool_decide; apply Hgo; try done.
    - rewrite length_drop. simpl. lia.
    - split; [by left|done].
    - split; [by left|done]. }
  destruct (is_quote ch).
  { cbn -[tokenize_go]. apply Hgo; [|split; [by right|done]|done].
    rewrite length_drop. pose proof (drop_while_le (λ c, negb (bool_decide (c = ch))) rest). lia. }
  destruct (is_digit ch) eqn:Hd.
  { assert (is_number_char ch = true) as Hn by (unfold is_number_char; by rewrite Hd).
    rewrite take_while_hd by done. apply Hgo; [|by apply word_token_ok; auto|done].
    simpl. rewrite Hn. apply drop_while_le. }
  destruct (is_ident_start ch) eqn:Hi; [|done].
  assert (is_ident_char ch = true) as Hn by (unfold is_ident_char; by rewrite Hi).
  rewrite take_while_hd by done. apply Hgo; [|by apply word_token_ok; auto|done].
  simpl. rewrite Hn. apply drop_while_le.
Qed.

Lemma tokenize_sound s :
  tokenize s ≠ OutOfFuel ∧
  ∀ ts, tokenize s = Ok ts →
    ∃ ts', ts = ts' ++ [eof_token] ∧ Forall token_ok ts' ∧ Forall not_eof ts'.
Proof. apply tokenize_go_sound. rewrite length_chars. lia. Qed.

Lemma token_ok_eof : token_ok eof_token.
Proof. split; [|done]. simpl. unfold op_texts. simpl. set_solver. Qed.

(** The recursive descent accepts exactly the sentences of the grammar, and
    returns the tree each one denotes. *)
Lemma parse_iff s e :
  parse s = Ok e ↔ ∃ ts, tokenize s = Ok (ts ++ [eof_token]) ∧ gram LOr e ts.
Proof.
  destruct (tokenize_sound s) as [_ Hs]. unfold parse. split.
  - intros H. inv_bind H. destruct (Hs _ E) as (ts & -> & Hok & Hne).
    exists ts. split; [done|]. by apply parse_tokens_iff.
  - intros (ts & Hts & Hg). rewrite Hts. cbn. destruct (Hs _ Hts) as (ts' & Heq & Hok & Hne).
    apply app_inj_tail in Heq as [<- _]. by apply parse_tokens_iff.
Qed.

(** Every string is parsed or rejected. *)
Lemma parse_total s : parse s ≠ OutOfFuel.
Proof.
  destruct (tokenize_sound s) as [Hnf Hs]. unfold parse.
  destruct (tokenize s) as [ts| |]; [|done..]. cbn.
  destruct (Hs _ eq_refl) as (ts' & -> & Hok & _). apply parse_tokens_total.
  apply Forall_app. split; [done|]. apply Forall_singleton, token_ok_eof.
Qed.

(** ** Property *)

(** C14: The expression parser ends on every string, and it accepts a string with
    a tree exactly when the string's tokens derive that tree in the grammar:
    precedence, left associativity, non-associative comparisons, calls and
    parentheses are those of the grammar. *)
Theorem expression_parser_correct (s : string) (e : ExprNode) :
  parse s ≠ OutOfFuel
  ∧ (parse s = Ok e ↔ ∃ ts, tokenize s = Ok (ts ++ [eof_token]) ∧ gram LOr e ts).
Proof. split; [apply parse_total|apply parse_iff]. Qed.
