(* ===== verification/Constraints.v ===== *)
(** * Job constraints (validators/constraint-validator.ts, services/rule-engine.ts)

    A constraint is violated when its expression evaluates to a truthy value; an
    expression that throws falls back to the emptiness of a context key.  The
    objects the validator builds for an evaluation get identities that no value
    of the context or the outputs has. *)

From S2P Require Import Prelude JsMap JsString JsNum DomainTypes JsValue Domain Expressions ExprGrammar.
From Stdlib Require Import Ascii.
Open Scope Z_scope.

Record ConstraintContext : Type := mkConstraintContext {
  cc_context : jsrecord;
  taskOutputs : list (string * jsrecord);
}.

(** ** Fresh identities *)

Fixpoint max_ident (v : jsval) : N :=
  match v with
  | JArr i l => foldr (λ e m, N.max (max_ident e) m) i l
  | JObj i fs => foldr (λ e m, N.max (max_ident e.2) m) i fs
  | _ => 0%N
  end.

Definition record_max_ident (r : jsrecord) : N := max_ident (JObj 0 r).

(** The first identity free for the evaluation's own objects. *)
Definition first_fresh (ctx : ConstraintContext) : N :=
  N.succ (foldr (λ e m, N.max (record_max_ident e.2) m) (record_max_ident (cc_context ctx))
            (taskOutputs ctx)).

(** [{ ctx: ctx.context, output: ctx.taskOutputs }], whose objects are numbered
    from [n] on. *)
Definition eval_context (n : N) (ctx : ConstraintContext) : jsrecord := [
  ("ctx", JObj n (cc_context ctx));
  ("output", JObj (n + 1) (imap (λ i e, (e.1, JObj (n + 2 + N.of_nat i) e.2)) (taskOutputs ctx)))
].

(** ** The validator *)

(** The [catch] branch: an expression [ctx.key] is violated when the key is
    missing or empty. *)
Definition fallback (expr : string) (ctx : ConstraintContext) : bool :=
  if starts_with expr "ctx."
  then is_empty_value (get_property (JObj 0 (cc_context ctx)) (slice_from expr 4))
  else false.

Definition evaluateExpression (expr : string) (ctx : ConstraintContext) : bool :=
  if decide (expr = "always") then true
  else
    let n := first_fresh ctx in
    match evaluateBoolean (n + 2 + N.of_nat (length (taskOutputs ctx))) expr (eval_context n ctx) with
    | Ok b => b
    | _ => fallback expr ctx
    end.

Record ConstraintResult : Type := mkConstraintResult {
  warnings : list string;
  blocks : list string;
}.

Definition evaluate_constraints (cs : list JobConstraint) (ctx : ConstraintContext)
    : ConstraintResult :=
  foldl (λ r c,
    if negb (evaluateExpression (expression c) ctx) then r
    else match severity c with
         | SeverityWarn => mkConstraintResult (warnings r ++ [c_id c]) (blocks r)
         | SeverityBlock => mkConstraintResult (warnings r) (blocks r ++ [c_id c])
         end)
    (mkConstraintResult [] []) cs.

Definition assertPassing (cs : list JobConstraint) (ctx : ConstraintContext) : res unit :=
  match blocks (evaluate_constraints cs ctx) with
  | [] => Ok tt
  | bs => Throw (ExecutionError ReasonConstraintViolation ("constraints blocked: " +:+ join ", " bs))
  end.

(** [RuleEngine.apply]: the warnings it logs, and how it ends. *)
Definition apply_rules (definition : JobDefinition) (ctx : ConstraintContext)
    : list string * res unit :=
  (warnings (evaluate_constraints (constraints definition) ctx),
   assertPassing (constraints definition) ctx).

(** ** Specification *)

Definition violated (ctx : ConstraintContext) (c : JobConstraint) : Prop :=
  evaluateExpression (expression c) ctx = true.

#[export] Instance violated_dec ctx c : Decision (violated ctx c).
Proof. unfold violated. apply _. Defined.

Definition violated_ids (s : Severity) (ctx : ConstraintContext) (cs : list JobConstraint) : list string :=
  c_id <$> filter (λ c, violated ctx c ∧ severity c = s) cs.

Lemma evaluate_constraints_spec cs ctx :
  warnings (evaluate_constraints cs ctx) = violated_ids SeverityWarn ctx cs
  ∧ blocks (evaluate_constraints cs ctx) = violated_ids SeverityBlock ctx cs.
Proof.
  unfold evaluate_constraints, violated_ids.
  induction cs as [|c cs [IHw IHb]] using rev_ind; [done|].
  rewrite foldl_app, !filter_app, !fmap_app. cbn [foldl].
  destruct (evaluateExpression (expression c) ctx) eqn:Hv; cbn [negb].
  - destruct (severity c) eqn:Hs; cbn [warnings blocks]; rewrite IHw, IHb.
    + rewrite filter_cons_True, filter_cons_False by (unfold violated; intuition congruence).
      by rewrite app_nil_r.
    + rewrite filter_cons_False, filter_cons_True by (unfold violated; intuition congruence).
      by rewrite app_nil_r.
  - rewrite !filter_cons_False by (unfold violated; intuition congruence). by rewrite !app_nil_r.
Qed.

Lemma assertPassing_Ok cs ctx :
  assertPassing cs ctx = Ok tt ↔ ∀ c, c ∈ cs → violated ctx c → severity c = SeverityWarn.
Proof.
  unfold assertPassing. rewrite (proj2 (evaluate_constraints_spec cs ctx)).
  unfold violated_ids. destruct (filter _ cs) as [|c l] eqn:E.
  - split; [|done]. intros _ c Hc Hv. destruct (severity c) eqn:Hs; [done|].
    assert (c ∈ filter (λ c, violated ctx c ∧ severity c = SeverityBlock) cs) as Hin
      by (apply list_elem_of_filter; auto).
    rewrite E in Hin. by apply not_elem_of_nil in Hin.
  - split; [done|]. intros H.
    assert (c ∈ filter (λ c, violated ctx c ∧ severity c = SeverityBlock) cs) as Hin
      by (rewrite E; set_solver).
    apply list_elem_of_filter in Hin as [[Hv Hs] Hin]. specialize (H c Hin Hv). congruence.
Qed.

Lemma assertPassing_cases cs ctx :
  assertPassing cs ctx = Ok tt
  ∨ assertPassing cs ctx = Throw (ExecutionError ReasonConstraintViolation
      ("constraints blocked: " +:+ join ", " (violated_ids SeverityBlock ctx cs))).
Proof.
  unfold assertPassing. rewrite (proj2 (evaluate_constraints_spec cs ctx)).
  destruct (violated_ids _ _ _); auto.
Qed.

(** ** Names outside [ctx] and [output]

    An expression can only read the context under [ctx] and the outputs under
    [output]; any other name is undefined. *)

Definition root (name : string) : string := default "" (head (split name "."%char)).

Definition unbound (name : string) : Prop :=
  ∃ rest, split name "."%char = root name :: rest ∧ root name ∉ ["ctx"; "output"; "__proto__"]
          ∧ root name ∉ object_prototype_names.

Lemma resolve_undefined parts : resolve_parts JUndefined parts = JUndefined.
Proof. by destruct parts. Qed.

Lemma resolveIdent_unbound name n ctx :
  unbound name → resolveIdent name (eval_context n ctx) = JUndefined.
Proof.
  intros (rest & Hs & Hr & Hp). unfold resolveIdent. rewrite Hs.
  cbn -[get_property resolve_parts eval_context]. cbn [resolve_parts].
  replace (is_nullish _ || negb _) with false by done.
  cbn [get_property]. unfold eval_context. cbn -[object_prototype_names root].
  rewrite !decide_False by set_solver. unfold object_prototype_get.
  rewrite bool_decide_eq_false_2 by done. apply resolve_undefined.
Qed.

Lemma unbound_intro name r rest :
  split name "."%char = r :: rest → r ∉ ["ctx"; "output"; "__proto__"] →
  r ∉ object_prototype_names → unbound name.
Proof. intros Hs Hr Hp. exists rest. unfold root. rewrite Hs. done. Qed.

(** A comparison of an unbound name with a number or with [true] is false. *)
Lemma evaluate_unbound_comparison expr name op v ctx :
  parse expr = Ok (EBinary op (EIdent name) (ELiteral v)) → expr ≠ "always" → unbound name →
  (op = "==" ∧ v = JBool true) ∨ (op ∈ ["<"; "<="; ">"; ">="] ∧ ∃ x, v = JNum x) →
  evaluateExpression expr ctx = false.
Proof.
  intros Hp Ha Hu Hop. unfold evaluateExpression, evaluateBoolean, evaluate.
  rewrite decide_False by done. rewrite Hp. cbn [mbind outcome_bind].
  cbn [evalNode]. unfold mbind at 2, M_bind. cbn -[apply_binary resolveIdent eval_context].
  rewrite resolveIdent_unbound by done.
  destruct Hop as [[-> ->]|[Hop [x ->]]]; [done|].
  repeat (apply elem_of_cons in Hop as [->|Hop]); [..|by apply not_elem_of_nil in Hop];
    by destruct x.
Qed.

(** ** Property *)

(** The rule engine passes a definition exactly when no constraint of
    severity [block] is violated; otherwise it throws a constraint-violation
    error that lists the violated blocking constraints in order.  The warnings it
    logs are the violated constraints of severity [warn]. *)
Theorem apply_rules_correct (def : JobDefinition) (ctx : ConstraintContext) :
  (apply_rules def ctx).1 = violated_ids SeverityWarn ctx (constraints def)
  ∧ ((apply_rules def ctx).2 = Ok tt ↔ violated_ids SeverityBlock ctx (constraints def) = [])
  ∧ ((apply_rules def ctx).2 ≠ Ok tt → (apply_rules def ctx).2 = Throw
       (ExecutionError ReasonConstraintViolation
          ("constraints blocked: "
             +:+ join ", " (violated_ids SeverityBlock ctx (constraints def))))).
Proof.
  destruct (evaluate_constraints_spec (constraints def) ctx) as [Hw Hb].
  unfold apply_rules, assertPassing. simpl. rewrite Hw, Hb.
  destruct (violated_ids SeverityBlock ctx (constraints def)); naive_solver.
Qed.
