(* ===== verification/Engine.v ===== *)
(** * The execution engine

    engine/orchestrator.ts, engine/run-context.ts, workers/scheduler.ts,
    workers/task-executor.ts, services/workflow-service.ts and
    services/execution-service.ts over one [world]: the stores, the two lock
    tables, the events published so far and the metrics.  Clock readings, UUIDs
    and the simulator's answers come from an [Environment]; the [k]-th call gets
    the [k]-th answer.  The operations run to completion here;
    EngineThreads.v has them await by await. *)

From S2P Require Import Prelude JsMap JsString JsNum DomainTypes JsValue Domain Retry Transitions Locks Stores Metrics Expressions Constraints.
Open Scope Z_scope.

(** ** The environment *)

Record HandlerContext : Type := mkHandlerContext {
  hc_runId : string;
  hc_taskId : string;
  hc_input : jsrecord;
  priorOutputs : list (string * jsrecord);
}.

Record SimulatedResult : Type := mkSimResult {
  sim_success : bool;
  sim_output : jsrecord;
  sim_latencyMs : Z;
  sim_errorMessage : option string;
}.

(** [TaskSimulator.execute]: a result, or the error it rejects with. *)
Class Environment := {
  nowIso : nat → string;
  randomUUID : nat → string;
  elapsedMs : nat → Z;
  simulate : nat → string → jsrecord → HandlerContext → SimulatedResult + JsError;
}.

(** ** Scheduling (workers/scheduler.ts) *)

Definition status_map (ts : list TaskRun) : jsmap string TaskStatus :=
  map_of_entries ((λ t, (definitionTaskId t, status t)) <$> ts).

Definition done_status (s : option TaskStatus) : bool :=
  bool_decide (s = Some TaskSucceeded) || bool_decide (s = Some TaskSkipped).

Definition dependenciesMet (def : TaskDefinition) (statusByDef : jsmap string TaskStatus) : bool :=
  forallb (λ dep, done_status (map_get statusByDef dep)) (deps def).

Definition runnable (statusByDef : jsmap string TaskStatus) (def : TaskDefinition) : bool :=
  let status := map_get statusByDef (td_id def) in
  if done_status status then false
  else if bool_decide (status = Some TaskRunning) || bool_decide (status = Some TaskRetrying)
  then false
  else dependenciesMet def statusByDef.

Definition nextRunnable (ts : list TaskRun) (definitions : list TaskDefinition)
    : option TaskDefinition :=
  List.find (runnable (status_map ts)) definitions.

Definition allDone (ts : list TaskRun) (definitions : list TaskDefinition) : bool :=
  forallb (λ d, done_status (map_get (status_map ts) (td_id d)))
    (List.filter (λ d, negb (is_optional d)) definitions).

(** ** Run contexts (engine/run-context.ts) *)

Record RunContext : Type := mkRunContext {
  rc_run : JobRun;
  rc_definition : JobDefinition;
  rc_workflow : WorkflowInstance;
}.

Definition build_context (run : JobRun) (definition : JobDefinition) (workflow : WorkflowInstance)
    : res RunContext :=
  if negb (bool_decide (run_id run = wf_runId workflow))
  then Throw (PlainError "run/workflow mismatch")
  else if negb (bool_decide (jd_id definition = run_jobId run))
  then Throw (PlainError "run/job definition mismatch")
  else Ok (mkRunContext run definition workflow).

(** [out[t.definitionTaskId] = t.output] for every task with an output. *)
Definition task_outputs (workflow : WorkflowInstance) : list (string * jsrecord) :=
  foldl (λ out t, match output t with
                  | Some o => map_set out (definitionTaskId t) o
                  | None => out
                  end) [] (wf_tasks workflow).

Section engine.
Context {JS WS RS : Type} `{JobDefinitionStore JS} `{WorkflowStore WS} `{RunStore RS}.
Context `{Environment}.

Record world : Type := mkWorld {
  w_jobs : JS;
  w_workflows : WS;
  w_runs : RS;
  w_dead : list DeadLetterEntry;
  w_localLocks : list string;
  w_locks : RunLockRegistry;
  w_events : list DomainEvent;
  w_metrics : MetricsRegistry;
  w_ticks : nat;
  w_uuids : nat;
  w_calls : nat;
}.

Definition with_jobs (x : JS) (w : world) : world :=
  mkWorld x (w_workflows w) (w_runs w) (w_dead w) (w_localLocks w) (w_locks w) (w_events w)
    (w_metrics w) (w_ticks w) (w_uuids w) (w_calls w).
Definition with_workflows (x : WS) (w : world) : world :=
  mkWorld (w_jobs w) x (w_runs w) (w_dead w) (w_localLocks w) (w_locks w) (w_events w)
    (w_metrics w) (w_ticks w) (w_uuids w) (w_calls w).
Definition with_runs (x : RS) (w : world) : world :=
  mkWorld (w_jobs w) (w_workflows w) x (w_dead w) (w_localLocks w) (w_locks w) (w_events w)
    (w_metrics w) (w_ticks w) (w_uuids w) (w_calls w).
Definition with_dead (x : list DeadLetterEntry) (w : world) : world :=
  mkWorld (w_jobs w) (w_workflows w) (w_runs w) x (w_localLocks w) (w_locks w) (w_events w)
    (w_metrics w) (w_ticks w) (w_uuids w) (w_calls w).
Definition with_localLocks (x : list string) (w : world) : world :=
  mkWorld (w_jobs w) (w_workflows w) (w_runs w) (w_dead w) x (w_locks w) (w_events w)
    (w_metrics w) (w_ticks w) (w_uuids w) (w_calls w).
Definition with_locks (x : RunLockRegistry) (w : world) : world :=
  mkWorld (w_jobs w) (w_workflows w) (w_runs w) (w_dead w) (w_localLocks w) x (w_events w)
    (w_metrics w) (w_ticks w) (w_uuids w) (w_calls w).
Definition with_metrics (x : MetricsRegistry) (w : world) : world :=
  mkWorld (w_jobs w) (w_workflows w) (w_runs w) (w_dead w) (w_localLocks w) (w_locks w)
    (w_events w) x (w_ticks w) (w_uuids w) (w_calls w).
Definition with_ticks (x : nat) (w : world) : world :=
  mkWorld (w_jobs w) (w_workflows w) (w_runs w) (w_dead w) (w_localLocks w) (w_locks w)
    (w_events w) (w_metrics w) x (w_uuids w) (w_calls w).
Definition with_uuids (x : nat) (w : world) : world :=
  mkWorld (w_jobs w) (w_workflows w) (w_runs w) (w_dead w) (w_localLocks w) (w_locks w)
    (w_events w) (w_metrics w) (w_ticks w) x (w_calls w).
Definition with_calls (x : nat) (w : world) : world :=
  mkWorld (w_jobs w) (w_workflows w) (w_runs w) (w_dead w) (w_localLocks w) (w_locks w)
    (w_events w) (w_metrics w) (w_ticks w) (w_uuids w) x.

(** One reading of the clock. *)
Definition now : eff world string := λ w,
  (Ok (nowIso (w_ticks w)), with_ticks (S (w_ticks w)) w).

(** [newRunId()] and its kin: a prefix and the first 12 characters of a UUID. *)
Definition new_id (prefix : string) : eff world string := λ w,
  (Ok (prefix +:+ slice_to (randomUUID (w_uuids w)) 12), with_uuids (S (w_uuids w)) w).

(** Look a value up or throw. *)
Definition require {A} (e : JsError) (f : world → option A) : eff world A := λ w,
  match f w with Some a => (Ok a, w) | None => (Throw e, w) end.

(** ** The orchestrator *)

(** [emit] reaches the event bus, whose first subscriber is the metrics
    collector. *)
Definition emit (event : DomainEvent) : eff world unit := modify (λ w,
  mkWorld (w_jobs w) (w_workflows w) (w_runs w) (w_dead w) (w_localLocks w) (w_locks w)
    (w_events w ++ [event]) (onDomainEvent event (w_metrics w)) (w_ticks w) (w_uuids w)
    (w_calls w)).

(** [stateMachine.transition] reads the clock twice, after the check. *)
Definition machine_transition (instance : WorkflowInstance) (event : string)
    (target : WorkflowState) (actor : string) : eff world WorkflowInstance := λ w,
  let k := w_ticks w in
  match transition DEFAULT_TRANSITION_RULES instance event target actor None (nowIso k) (nowIso (S k)) with
  | Ok next => (Ok next, with_ticks (S (S k)) w)
  | Throw e => (Throw e, w)
  | OutOfFuel => (OutOfFuel, w)
  end.

(** The update of the run that goes with a transition. *)
Definition update_run (runId : string) (target : WorkflowState) : eff world unit :=
  run ← gets (λ w, run_get runId (w_runs w));
  match run with
  | None => mret tt
  | Some run =>
      let run := set_run_status run target in
      run ← (if isTerminal target then at_ ← now; mret (set_run_finishedAt run at_) else mret run);
      modify (λ w, with_runs (run_save run (w_runs w)) w)
  end.

Definition applyTransition (instance : WorkflowInstance) (event : string)
    (target : WorkflowState) (actor : string) : eff world WorkflowInstance :=
  _ ← lift_outcome (evaluate_guard instance event target);
  next ← machine_transition instance event target actor;
  _ ← modify (λ w, with_workflows (workflow_save next (w_workflows w)) w);
  _ ← update_run (wf_runId next) target;
  at_ ← now;
  _ ← emit (WorkflowTransitioned (wf_runId next) (state instance) target event at_);
  mret next.

Definition startRun (workflow : WorkflowInstance) : eff world WorkflowInstance :=
  if bool_decide (state workflow = Pending)
  then applyTransition workflow "start" Running "orchestrator"
  else mret workflow.

(** ** The workflow service *)

(** The task runs of a new run, each with an id of its own. *)
Fixpoint create_task_runs (runId : string) (ts : list TaskDefinition) : eff world (list TaskRun) :=
  match ts with
  | [] => mret []
  | t :: ts' =>
      id ← new_id "task_";
      rest ← create_task_runs runId ts';
      mret (createTaskRun id runId (td_id t) (handler t) :: rest)
  end.

Definition createRun (jobId trigger : string) (input : jsrecord)
    : eff world (JobRun * WorkflowInstance * JobDefinition) :=
  definition ← require (NotFoundError "JobDefinition" jobId) (λ w, job_get jobId (w_jobs w));
  runId ← new_id "run_";
  workflowId ← new_id "wf_";
  now_ ← now;
  ts ← create_task_runs runId (tasks definition);
  let workflow := mkWorkflow workflowId jobId runId Pending None input ts [] 1 now_ now_ in
  let run := mkJobRun runId jobId workflowId Pending now_ None trigger input in
  _ ← modify (λ w, with_workflows (workflow_save workflow (w_workflows w)) w);
  _ ← modify (λ w, with_runs (run_save run (w_runs w)) w);
  mret (run, workflow, definition).

Definition getWorkflowByRun (runId : string) : eff world WorkflowInstance :=
  require (NotFoundError "WorkflowInstance" runId) (λ w, workflow_getByRunId runId (w_workflows w)).

(** ** The task executor *)

Record ExecuteResult : Type := mkExecuteResult {
  er_task : TaskRun;
  retryAfterMs : option num;
}.

Definition handleFailure (task : TaskRun) (policy : RetryPolicy) (message : string)
    : eff world ExecuteResult :=
  at_ ← now;
  let failed := mkTaskRun (tr_id task) (tr_runId task) (definitionTaskId task) (tr_handler task)
                  TaskFailed (attempt task) (tr_startedAt task) (Some at_) (output task)
                  (Some message) in
  let decision := decide_retry policy failed in
  if retry decision
  then mret (mkExecuteResult (set_status failed TaskRetrying) (Some (delayMs decision)))
  else mret (mkExecuteResult failed None).

(** The executor hands the handler an empty record of earlier outputs. *)
Definition run_task (taskRun : TaskRun) (definition : TaskDefinition) (policy : RetryPolicy)
    (input : jsrecord) : eff world ExecuteResult :=
  startedAt ← now;
  let running := mkTaskRun (tr_id taskRun) (tr_runId taskRun) (definitionTaskId taskRun)
                   (tr_handler taskRun) TaskRunning (attempt taskRun + 1) (Some startedAt)
                   (tr_finishedAt taskRun) (output taskRun) (errorMessage taskRun) in
  call ← gets w_calls;
  _ ← modify (with_calls (S call));
  match simulate call (handler definition) input
          (mkHandlerContext (tr_runId taskRun) (definitionTaskId taskRun) input []) with
  | inr err => handleFailure running policy (error_message err)
  | inl result =>
      if negb (sim_success result)
      then handleFailure running policy (default "unknown error" (sim_errorMessage result))
      else
        at_ ← now;
        mret (mkExecuteResult
          (mkTaskRun (tr_id running) (tr_runId running) (definitionTaskId running)
             (tr_handler running) TaskSucceeded (attempt running) (tr_startedAt running)
             (Some at_) (Some (sim_output result)) (errorMessage running)) None)
  end.

(** ** The execution service *)

Definition replace_task (task : TaskRun) (ts : list TaskRun) : list TaskRun :=
  (λ t, if bool_decide (tr_id t = tr_id task) then task else t) <$> ts.

Definition updateTask (workflow : WorkflowInstance) (task : TaskRun) : eff world WorkflowInstance :=
  at_ ← now;
  let updated := set_tasks workflow (replace_task task (wf_tasks workflow)) at_ in
  _ ← modify (λ w, with_workflows (workflow_save updated (w_workflows w)) w);
  mret updated.

Definition execution_owner : string := "execution-service".

(** One task: run it, store the result, queue it again for a retry. *)
Definition run_next (definition : JobDefinition) (workflow : WorkflowInstance)
    (nextDef : TaskDefinition) : eff world (WorkflowInstance * TaskStatus) :=
  taskRun ← lift_outcome
    match List.find (λ t, bool_decide (definitionTaskId t = td_id nextDef)) (wf_tasks workflow) with
    | Some t => Ok t
    | None => Throw (TypeError "Cannot read properties of undefined (reading 'attempt')")
    end;
  result ← run_task taskRun nextDef (retryPolicy definition) (context workflow);
  call ← gets w_calls;
  _ ← modify (λ w, with_metrics (recordTaskDuration (handler nextDef) (elapsedMs call) (w_metrics w)) w);
  workflow ← updateTask workflow (er_task result);
  workflow ← match retryAfterMs result with
             | Some _ => updateTask workflow (set_status (er_task result) TaskQueued)
             | None => mret workflow
             end;
  mret (workflow, status (er_task result)).

(** Nothing is runnable: complete the run if its required tasks are done, or
    wait. *)
Definition finish_run (definition : JobDefinition) (workflow : WorkflowInstance)
    : eff world WorkflowInstance :=
  if allDone (wf_tasks workflow) (tasks definition) then
    _ ← lift_outcome (apply_rules definition
          (mkConstraintContext (context workflow) (task_outputs workflow))).2;
    applyTransition workflow "complete" Completed execution_owner
  else applyTransition workflow "await" Waiting execution_owner.

(** The [while] loop of [executeRun]. *)
Fixpoint execute_loop (fuel : nat) (definition : JobDefinition) (workflow : WorkflowInstance)
    : eff world WorkflowInstance :=
  match fuel with
  | O => diverge
  | S fuel' =>
      if negb (bool_decide (state workflow = Running)) then mret workflow
      else
        match nextRunnable (wf_tasks workflow) (tasks definition) with
        | None => finish_run definition workflow
        | Some nextDef =>
            '(workflow', st) ← run_next definition workflow nextDef;
            if bool_decide (st = TaskFailed)
            then applyTransition workflow' "fail" Failed execution_owner
            else execute_loop fuel' definition workflow'
        end
  end.

Definition total_attempts (ts : list TaskRun) : Z := foldl (λ s t, s + attempt t) 0 ts.

Definition dead_letter (runId : string) (definition : JobDefinition) (workflow : WorkflowInstance)
    : eff world unit :=
  if bool_decide (state workflow = Failed)
     && (maxAttempts (retryPolicy definition) * Z.of_nat (length (tasks definition))
           <=? total_attempts (wf_tasks workflow)) then
    workflow ← applyTransition workflow "dead_letter" DeadLettered execution_owner;
    at_ ← now;
    modify (λ w, with_dead (dead_letter_push runId
      [("reason", JStr (FailureReason_string ReasonMaxRetriesExceeded)); ("workflowId", JStr (wf_id workflow))]
      at_ (w_dead w)) w)
  else mret tt.

(** The body of the [try]. *)
Definition execute_body (fuel : nat) (runId : string) : eff world unit :=
  run ← require (NotFoundError "JobRun" runId) (λ w, run_get runId (w_runs w));
  definition ← require (NotFoundError "JobDefinition" (run_jobId run))
                 (λ w, job_get (run_jobId run) (w_jobs w));
  workflow ← require (NotFoundError "WorkflowInstance" runId)
               (λ w, workflow_getByRunId runId (w_workflows w));
  workflow ← startRun workflow;
  workflow ← execute_loop fuel definition workflow;
  dead_letter runId definition workflow.

(** The [finally] block. *)
Definition unlock (runId : string) (w : world) : world :=
  with_locks (release (w_locks w) runId execution_owner)
    (with_localLocks (List.filter (λ r, negb (bool_decide (r = runId))) (w_localLocks w)) w).

(** [acquire] runs after the run is marked and before the [try]. *)
Definition executeRun (fuel : nat) (runId : string) : eff world unit :=
  busy ← gets (λ w, bool_decide (runId ∈ w_localLocks w));
  if (busy : bool) then mret tt
  else
    _ ← modify (λ w, with_localLocks (w_localLocks w ++ [runId]) w);
    locks ← gets w_locks;
    locks ← lift_outcome (acquire locks runId execution_owner);
    _ ← modify (with_locks locks);
    finally (execute_body fuel runId) (unlock runId).
End engine.
Arguments world : clear implicits.
