(* ===== verification/EngineThreads.v ===== *)
(** * The engine, await by await

    The asynchronous operations of engine/orchestrator.ts,
    workers/task-executor.ts, services/workflow-service.ts ([createRun]) and
    services/execution-service.ts as threads: one [awaiting] per [await] of the
    source.  Run without interruption they are the
    operations of Engine.v. *)

From S2P Require Import Prelude Threads JsMap JsString JsNum DomainTypes JsValue Domain Retry Transitions Locks Stores Metrics Expressions Constraints Engine.
Open Scope Z_scope.

Section engine.
Context {JS WS RS : Type} `{JobDefinitionStore JS} `{WorkflowStore WS} `{RunStore RS}.
Context `{Environment}.
Notation world := (world JS WS RS).
Notation async := (thread JsError world).

(** ** The orchestrator *)

Definition applyTransition_async (instance : WorkflowInstance) (event : string)
    (target : WorkflowState) (actor : string) : async WorkflowInstance :=
  _ ← atomic (lift_outcome (evaluate_guard instance event target));
  next ← atomic (machine_transition instance event target actor);
  _ ← awaiting (atomic (modify (λ w, with_workflows (workflow_save next (w_workflows w)) w)));
  run ← awaiting (atomic (gets (λ w, run_get (wf_runId next) (w_runs w))));
  _ ← match run with
      | None => mret tt
      | Some run =>
          let run := set_run_status run target in
          run ← (if isTerminal target then at_ ← atomic now; mret (set_run_finishedAt run at_) else mret run);
          awaiting (atomic (modify (λ w, with_runs (run_save run (w_runs w)) w)))
      end;
  at_ ← atomic now;
  _ ← atomic (emit (WorkflowTransitioned (wf_runId next) (state instance) target event at_));
  mret next.

Definition startRun_async (workflow : WorkflowInstance) : async WorkflowInstance :=
  if bool_decide (state workflow = Pending)
  then awaiting (applyTransition_async workflow "start" Running "orchestrator")
  else mret workflow.

(** ** The workflow service *)

(** The block between the lookup of the definition and the first [save]. *)
Definition new_run (jobId trigger : string) (input : jsrecord) (definition : JobDefinition)
    : eff world (JobRun * WorkflowInstance) :=
  runId ← new_id "run_";
  workflowId ← new_id "wf_";
  now_ ← now;
  ts ← create_task_runs runId (tasks definition);
  mret (mkJobRun runId jobId workflowId Pending now_ None trigger input,
        mkWorkflow workflowId jobId runId Pending None input ts [] 1 now_ now_).

Definition createRun_async (jobId trigger : string) (input : jsrecord)
    : async (JobRun * WorkflowInstance * JobDefinition) :=
  definition ← awaiting (atomic (gets (λ w, job_get jobId (w_jobs w))));
  definition ← atomic (lift_outcome (from_option Ok (Throw (NotFoundError "JobDefinition" jobId)) definition));
  '(run, workflow) ← atomic (new_run jobId trigger input definition);
  _ ← awaiting (atomic (modify (λ w, with_workflows (workflow_save workflow (w_workflows w)) w)));
  _ ← awaiting (atomic (modify (λ w, with_runs (run_save run (w_runs w)) w)));
  mret (run, workflow, definition).

(** ** The task executor *)

(** The handler starts in the block of the call; its answer arrives later. *)
Definition run_task_async (taskRun : TaskRun) (definition : TaskDefinition) (policy : RetryPolicy)
    (input : jsrecord) : async ExecuteResult :=
  startedAt ← atomic now;
  let running := mkTaskRun (tr_id taskRun) (tr_runId taskRun) (definitionTaskId taskRun)
                   (tr_handler taskRun) TaskRunning (attempt taskRun + 1) (Some startedAt)
                   (tr_finishedAt taskRun) (output taskRun) (errorMessage taskRun) in
  call ← awaiting (atomic (call ← gets w_calls; _ ← modify (with_calls (S call)); mret call));
  match simulate call (handler definition) input
          (mkHandlerContext (tr_runId taskRun) (definitionTaskId taskRun) input []) with
  | inr err => atomic (handleFailure running policy (error_message err))
  | inl result =>
      if negb (sim_success result)
      then atomic (handleFailure running policy (default "unknown error" (sim_errorMessage result)))
      else
        at_ ← atomic now;
        mret (mkExecuteResult
          (mkTaskRun (tr_id running) (tr_runId running) (definitionTaskId running)
             (tr_handler running) TaskSucceeded (attempt running) (tr_startedAt running)
             (Some at_) (Some (sim_output result)) (errorMessage running)) None)
  end.

(** ** The execution service *)

Definition updateTask_async (workflow : WorkflowInstance) (task : TaskRun) : async WorkflowInstance :=
  at_ ← atomic now;
  let updated := set_tasks workflow (replace_task task (wf_tasks workflow)) at_ in
  _ ← awaiting (atomic (modify (λ w, with_workflows (workflow_save updated (w_workflows w)) w)));
  mret updated.

(** The timer of [sleep] fires in a later block. *)
Definition sleep_async (ms : num) : async unit := awaiting (mret tt).

Definition run_next_async (definition : JobDefinition) (workflow : WorkflowInstance)
    (nextDef : TaskDefinition) : async (WorkflowInstance * TaskStatus) :=
  taskRun ← atomic (lift_outcome
    match List.find (λ t, bool_decide (definitionTaskId t = td_id nextDef)) (wf_tasks workflow) with
    | Some t => Ok t
    | None => Throw (TypeError "Cannot read properties of undefined (reading 'attempt')")
    end);
  result ← awaiting (run_task_async taskRun nextDef (retryPolicy definition) (context workflow));
  call ← atomic (gets w_calls);
  _ ← atomic (modify (λ w, with_metrics (recordTaskDuration (handler nextDef) (elapsedMs call) (w_metrics w)) w));
  workflow ← awaiting (updateTask_async workflow (er_task result));
  workflow ← match retryAfterMs result with
             | Some ms =>
                 _ ← sleep_async ms;
                 awaiting (updateTask_async workflow (set_status (er_task result) TaskQueued))
             | None => mret workflow
             end;
  mret (workflow, status (er_task result)).

Definition finish_run_async (definition : JobDefinition) (workflow : WorkflowInstance)
    : async WorkflowInstance :=
  if allDone (wf_tasks workflow) (tasks definition) then
    _ ← atomic (lift_outcome (apply_rules definition
          (mkConstraintContext (context workflow) (task_outputs workflow))).2);
    awaiting (applyTransition_async workflow "complete" Completed execution_owner)
  else awaiting (applyTransition_async workflow "await" Waiting execution_owner).

Fixpoint execute_loop_async (fuel : nat) (definition : JobDefinition) (workflow : WorkflowInstance)
    : async WorkflowInstance :=
  match fuel with
  | O => Done OutOfFuel
  | S fuel' =>
      if negb (bool_decide (state workflow = Running)) then mret workflow
      else
        match nextRunnable (wf_tasks workflow) (tasks definition) with
        | None => finish_run_async definition workflow
        | Some nextDef =>
            '(workflow', st) ← run_next_async definition workflow nextDef;
            if bool_decide (st = TaskFailed)
            then awaiting (applyTransition_async workflow' "fail" Failed execution_owner)
            else execute_loop_async fuel' definition workflow'
        end
  end.

Definition dead_letter_async (runId : string) (definition : JobDefinition) (workflow : WorkflowInstance)
    : async unit :=
  if bool_decide (state workflow = Failed)
     && (maxAttempts (retryPolicy definition) * Z.of_nat (length (tasks definition))
           <=? total_attempts (wf_tasks workflow)) then
    workflow ← awaiting (applyTransition_async workflow "dead_letter" DeadLettered execution_owner);
    awaiting (atomic (
      at_ ← now;
      modify (λ w, with_dead (dead_letter_push runId
        [("reason", JStr (FailureReason_string ReasonMaxRetriesExceeded)); ("workflowId", JStr (wf_id workflow))]
        at_ (w_dead w)) w)))
  else mret tt.

Definition execute_body_async (fuel : nat) (runId : string) : async unit :=
  run ← awaiting (atomic (gets (λ w, run_get runId (w_runs w))));
  run ← atomic (lift_outcome (from_option Ok (Throw (NotFoundError "JobRun" runId)) run));
  definition ← awaiting (atomic (gets (λ w, job_get (run_jobId run) (w_jobs w))));
  definition ← atomic (lift_outcome (from_option Ok (Throw (NotFoundError "JobDefinition" (run_jobId run))) definition));
  workflow ← awaiting (atomic (gets (λ w, workflow_getByRunId runId (w_workflows w))));
  workflow ← atomic (lift_outcome (from_option Ok (Throw (NotFoundError "WorkflowInstance" runId)) workflow));
  workflow ← awaiting (startRun_async workflow);
  workflow ← execute_loop_async fuel definition workflow;
  dead_letter_async runId definition workflow.

(** The first block takes both locks: no [await] lies between the test of
    [localLocks] and the [try]. *)
Definition enter (runId : string) : eff world bool :=
  busy ← gets (λ w, bool_decide (runId ∈ w_localLocks w));
  if (busy : bool) then mret false
  else
    _ ← modify (λ w, with_localLocks (w_localLocks w ++ [runId]) w);
    locks ← gets w_locks;
    locks ← lift_outcome (acquire locks runId execution_owner);
    _ ← modify (with_locks locks);
    mret true.

Definition executeRun_async (fuel : nat) (runId : string) : async unit :=
  entered ← atomic (enter runId);
  if (entered : bool) then finally_thread (execute_body_async fuel runId) (unlock runId) else mret tt.

(** ** Without interruption *)

Lemma bind_ext {A B} (m m' : eff world A) (f f' : A → eff world B) w :
  (∀ w, m w = m' w) → (∀ a w, f a w = f' a w) → (m ≫= f) w = (m' ≫= f') w.
Proof. intros Hm Hf. unfold mbind, M_bind. rewrite Hm. by destruct (m' w) as [[] ?]. Qed.

Lemma bind_assoc {A B C} (m : eff world A) (f : A → eff world B) (g : B → eff world C) w :
  ((m ≫= f) ≫= g) w = (m ≫= λ a, f a ≫= g) w.
Proof. unfold mbind, M_bind. by destruct (m w) as [[] ?]. Qed.

Lemma require_bind {A B} e (f : world → option A) (g : A → eff world B) w :
  (require e f ≫= g) w = (gets f ≫= λ o, lift_outcome (from_option Ok (Throw e) o) ≫= g) w.
Proof. unfold require, gets, lift_outcome, mbind, M_bind. by destruct (f w). Qed.

Lemma run_bind_ext {A B} (t : async A) (m : eff world A) (f : A → async B) (g : A → eff world B) w :
  (∀ w, run t w = m w) → (∀ a w, run (f a) w = g a w) → run (t ≫= f) w = (m ≫= g) w.
Proof. intros Ht Hf. rewrite run_bind. by apply bind_ext. Qed.

Lemma run_awaiting_atomic {A} (m : eff world A) w : run (awaiting (atomic m)) w = m w.
Proof. by rewrite run_awaiting, run_atomic. Qed.

Lemma run_applyTransition wf event target actor w :
  run (applyTransition_async wf event target actor) w = applyTransition wf event target actor w.
Proof.
  unfold applyTransition_async, applyTransition.
  apply run_bind_ext; [apply run_atomic|]. intros [] w1. apply run_bind_ext; [apply run_atomic|]. intros next w2.
  apply run_bind_ext; [apply run_awaiting_atomic|]. intros [] w3.
  unfold update_run. rewrite bind_assoc. apply run_bind_ext; [apply run_awaiting_atomic|]. intros [r|] w4.
  - apply run_bind_ext.
    + intros w5. apply run_bind_ext; [|intros; apply run_awaiting_atomic]. intros w6.
      destruct (isTerminal target); [|done]. apply run_bind_ext; [apply run_atomic|done].
    + intros [] w5. apply run_bind_ext; [apply run_atomic|]. intros at_ w6.
      apply run_bind_ext; [apply run_atomic|done].
  - apply run_bind_ext; [done|]. intros [] w5. apply run_bind_ext; [apply run_atomic|]. intros at_ w6.
    apply run_bind_ext; [apply run_atomic|done].
Qed.

(** Run without interruption, the asynchronous creation is [createRun]. *)
Lemma run_createRun jobId trigger input w :
  run (createRun_async jobId trigger input) w = createRun jobId trigger input w.
Proof.
  unfold createRun_async, createRun, new_run. rewrite require_bind.
  apply run_bind_ext; [apply run_awaiting_atomic|]. intros d w1. apply run_bind_ext; [apply run_atomic|]. intros d' w2.
  rewrite run_bind. unfold mbind, M_bind. rewrite run_atomic. unfold new_id, now, mret, M_ret.
  cbn -[create_task_runs String.append slice_to modify].
  by destruct (create_task_runs _ _ _) as [[ts|e|] w3].
Qed.

Lemma run_run_task t d p input w : run (run_task_async t d p input) w = run_task t d p input w.
Proof.
  unfold run_task_async, run_task. apply run_bind_ext; [apply run_atomic|]. intros at_ w1.
  rewrite run_bind. unfold mbind, M_bind. rewrite run_awaiting_atomic. cbn.
  destruct (simulate _ _ _ _) as [r|e]; [|apply run_atomic].
  destruct (negb (sim_success r)); [apply run_atomic|]. done.
Qed.

Lemma run_updateTask wf t w : run (updateTask_async wf t) w = updateTask wf t w.
Proof.
  unfold updateTask_async, updateTask. apply run_bind_ext; [apply run_atomic|]. intros at_ w1.
  apply run_bind_ext; [apply run_awaiting_atomic|done].
Qed.

Lemma run_run_next def wf d w : run (run_next_async def wf d) w = run_next def wf d w.
Proof.
  unfold run_next_async, run_next. apply run_bind_ext; [apply run_atomic|]. intros t w1.
  apply run_bind_ext; [intros; rewrite run_awaiting; apply run_run_task|]. intros res w2.
  apply run_bind_ext; [apply run_atomic|]. intros call w3. apply run_bind_ext; [apply run_atomic|]. intros [] w4.
  apply run_bind_ext; [intros; rewrite run_awaiting; apply run_updateTask|]. intros wf' w5.
  apply run_bind_ext; [|done]. intros w6. destruct (retryAfterMs res); [|done].
  unfold sleep_async. rewrite run_bind. unfold mbind, M_bind. rewrite run_awaiting. cbn [run mret thread_ret].
  rewrite run_awaiting. apply run_updateTask.
Qed.

Lemma run_execute_loop fuel def wf w : run (execute_loop_async fuel def wf) w = execute_loop fuel def wf w.
Proof.
  revert wf w. induction fuel as [|fuel IH]; intros wf w; [done|]. cbn [execute_loop_async execute_loop].
  destruct (negb _); [done|]. destruct (nextRunnable _ _) as [d|].
  - apply run_bind_ext; [apply run_run_next|]. intros [wf' st] w1. case_bool_decide; [|apply IH].
    rewrite run_awaiting. apply run_applyTransition.
  - unfold finish_run_async, finish_run. destruct (allDone _ _); [|rewrite run_awaiting; apply run_applyTransition].
    apply run_bind_ext; [apply run_atomic|]. intros [] w1. rewrite run_awaiting. apply run_applyTransition.
Qed.

Lemma run_dead_letter rid def wf w : run (dead_letter_async rid def wf) w = dead_letter rid def wf w.
Proof.
  unfold dead_letter_async, dead_letter. destruct (_ && _); [|done].
  apply run_bind_ext; [intros; rewrite run_awaiting; apply run_applyTransition|].
  intros wf' w1. apply run_awaiting_atomic.
Qed.

Lemma run_execute_body fuel rid w : run (execute_body_async fuel rid) w = execute_body fuel rid w.
Proof.
  unfold execute_body_async, execute_body. rewrite require_bind.
  apply run_bind_ext; [apply run_awaiting_atomic|]. intros r w1. apply run_bind_ext; [apply run_atomic|]. intros r' w2.
  rewrite require_bind.
  apply run_bind_ext; [apply run_awaiting_atomic|]. intros d w3. apply run_bind_ext; [apply run_atomic|]. intros d' w4.
  rewrite require_bind.
  apply run_bind_ext; [apply run_awaiting_atomic|]. intros wf w5. apply run_bind_ext; [apply run_atomic|]. intros wf' w6.
  apply run_bind_ext.
  - intros w7. rewrite run_awaiting. unfold startRun_async, startRun. case_bool_decide; [|done].
    rewrite run_awaiting. apply run_applyTransition.
  - intros wf1 w7. apply run_bind_ext; [apply run_execute_loop|]. intros wf2 w8. apply run_dead_letter.
Qed.

(** Run without interruption, the asynchronous execution is [executeRun]. *)
Lemma run_executeRun fuel rid w : run (executeRun_async fuel rid) w = executeRun fuel rid w.
Proof.
  unfold executeRun_async. rewrite run_bind. unfold mbind at 1, M_bind at 1. rewrite run_atomic.
  unfold enter, executeRun, mbind, M_bind. cbn -[acquire execute_body execute_body_async].
  case_bool_decide; [done|]. cbn -[acquire execute_body execute_body_async].
  destruct (acquire _ _ _) as [locks|e|]; cbn -[execute_body execute_body_async]; [|done..].
  rewrite run_finally. unfold finally. by rewrite run_execute_body.
Qed.
End engine.
