(* ===== verification/ExecInv.v ===== *)
(** * The invariant of an execution

    What every step of [Engine.executeRun] keeps, whatever the state of the run
    it starts from: the stored workflow is audited, the run's status follows the
    workflow's state, other runs are untouched, and only
    [workflow.transitioned] events are published. *)

From S2P Require Import Prelude JsMap JsString JsNum DomainTypes JsValue Domain Retry Transitions Locks Stores Metrics Expressions Constraints Engine.
Open Scope Z_scope.

Section exec_inv.
Context {JS WS RS : Type} `{JobDefinitionStoreLaws JS} `{!WorkflowStore WS} `{!WorkflowStoreLaws WS}
  `{!RunStore RS} `{!RunStoreLaws RS} `{Environment}.

Notation world := (world JS WS RS).
Notation rules := DEFAULT_TRANSITION_RULES.
Notation workflow_of rid w := (workflow_getByRunId rid (w_workflows w)).
Notation run_of rid w := (run_get rid (w_runs w)).

Definition transition_event (rid : string) (e : DomainEvent) : Prop :=
  ∃ from to event at_, e = WorkflowTransitioned rid from to event at_.

(** The parts of the world an execution leaves alone. *)
Record frame (w0 w : world) : Prop := {
  fr_jobs : w_jobs w = w_jobs w0;
  fr_local : w_localLocks w = w_localLocks w0;
  fr_locks : w_locks w = w_locks w0;
}.

(** [exec_inv rid w0 wf w]: in the world [w], reached from [w0], the run [rid]
    is stored with workflow [wf]. *)
Record exec_inv (rid : string) (w0 : world) (wf : WorkflowInstance) (w : world) : Prop := {
  ei_store_ok : workflow_store_ok (w_workflows w);
  ei_get : workflow_of rid w = Some wf;
  ei_id : wf_id wf ≠ "";
  ei_rid : wf_runId wf = rid;
  ei_other : ∀ r, r ≠ rid → workflow_of r w = workflow_of r w0;
  ei_distinct : ∀ r w', r ≠ rid → workflow_of r w = Some w' → wf_id w' ≠ wf_id wf;
  ei_run : ∃ r, run_of rid w = Some r ∧ run_id r = rid ∧ run_status r = state wf;
  ei_runs_other : ∀ r, r ≠ rid → run_of r w = run_of r w0;
  ei_audited : audited rules wf;
  ei_events : ∃ evs, w_events w = w_events w0 ++ evs ∧ Forall (transition_event rid) evs;
  ei_counters : counters (w_metrics w) = counters (w_metrics w0);
  ei_frame : frame w0 w;
}.

(** Steps that touch neither stores nor events keep the invariant. *)
Lemma exec_inv_irrelevant rid w0 wf w w' :
  exec_inv rid w0 wf w →
  w_workflows w' = w_workflows w → w_runs w' = w_runs w → w_events w' = w_events w →
  w_jobs w' = w_jobs w → w_localLocks w' = w_localLocks w → w_locks w' = w_locks w →
  counters (w_metrics w') = counters (w_metrics w) →
  exec_inv rid w0 wf w'.
Proof.
  intros [] Hw Hr He Hj Hl Hk Hc. split; rewrite ?Hw, ?Hr, ?He, ?Hc; try done.
  destruct ei_frame0. split; congruence.
Qed.

Lemma exec_inv_save rid w0 wf wf' w :
  exec_inv rid w0 wf w → wf_id wf' = wf_id wf → wf_runId wf' = wf_runId wf →
  state wf' = state wf → audited rules wf' →
  exec_inv rid w0 wf' (with_workflows (workflow_save wf' (w_workflows w)) w).
Proof.
  intros [Hok Hget Hid Hrid Hoth Hdis Hrun Hro Hau Hev Hct Hfr] Hi Hr Hs Ha.
  assert (∀ r, r ≠ rid → workflow_getByRunId r (workflow_save wf' (w_workflows w)) = workflow_of r w) as Hne.
  { intros r Hrne. apply workflow_getByRunId_save_ne; [done|congruence|].
    rewrite Hi. intros w'. by apply Hdis. }
  split; simpl; try done.
  - by apply workflow_save_ok.
  - rewrite <-Hrid, <-Hr. apply workflow_getByRunId_save. congruence.
  - congruence.
  - congruence.
  - intros r Hrne. rewrite Hne by done. by apply Hoth.
  - intros r w' Hrne. rewrite Hne, Hi by done. by apply Hdis.
  - destruct Hrun as (r & ? & ? & ?). exists r. split; [done|]. split; [done|congruence].
  - by destruct Hfr.
Qed.

Lemma updateTask_inv rid w0 wf (w : world) t :
  exec_inv rid w0 wf w →
  ∃ at_ w', updateTask wf t w = (Ok (set_tasks wf (replace_task t (wf_tasks wf)) at_), w')
    ∧ exec_inv rid w0 (set_tasks wf (replace_task t (wf_tasks wf)) at_) w'
    ∧ w_dead w' = w_dead w ∧ w_calls w' = w_calls w.
Proof.
  intros Hinv. unfold updateTask. cbn. eexists _, _. split; [done|]. split; [|done].
  apply (exec_inv_save rid w0 wf _ (with_ticks (S (w_ticks w)) w)); try done.
  - by apply (exec_inv_irrelevant rid w0 wf w).
  - apply set_tasks_audited, Hinv.
Qed.

(** ** Transitions *)

Definition enabled (wf : WorkflowInstance) (event : string) (target : WorkflowState) : Prop :=
  evaluate_guard wf event target = Ok tt ∧ canTransition rules (state wf) target event = true.

Lemma update_run_spec rid target (w : world) r :
  run_of rid w = Some r → run_id r = rid →
  ∃ r' k, update_run rid target w = (Ok tt, with_runs (run_save r' (w_runs w)) (with_ticks k w))
    ∧ run_id r' = rid ∧ run_status r' = target
    ∧ (isTerminal target = true → run_finishedAt r' = Some (nowIso (w_ticks w))).
Proof.
  intros Hget Hid. unfold update_run, gets, mbind, M_bind. rewrite Hget.
  destruct (isTerminal target); cbn.
  - by eexists _, (S (w_ticks w)).
  - exists (set_run_status r target), (w_ticks w). by destruct w.
Qed.

Lemma applyTransition_Ok rid w0 wf event target actor (w : world) :
  exec_inv rid w0 wf w → enabled wf event target →
  ∃ wf' w', applyTransition wf event target actor w = (Ok wf', w')
    ∧ exec_inv rid w0 wf' w' ∧ state wf' = target ∧ wf_tasks wf' = wf_tasks wf
    ∧ context wf' = context wf ∧ wf_id wf' = wf_id wf
    ∧ w_dead w' = w_dead w ∧ w_calls w' = w_calls w.
Proof.
  intros Hinv [Hg Hc]. unfold applyTransition.
  unfold mbind, M_bind, lift_outcome. rewrite Hg. unfold machine_transition.
  destruct (transition rules wf event target actor None (nowIso (w_ticks w)) (nowIso (S (w_ticks w))))
    as [next| |] eqn:Ht.
  2,3: by (unfold transition, assertTransition in Ht; rewrite Hc in Ht).
  pose proof (transition_audited _ _ _ _ _ _ _ _ _ (ei_audited _ _ _ _ Hinv) Ht) as Hau.
  destruct (transition_Ok _ _ _ _ _ _ _ _ _ Ht) as (_ & Hst & Hid & Hrid & _ & Hctx & Hts & _ & _).
  destruct Hinv as [Hok Hget Hne Hr Hoth Hdis (r & Hrun & Hri & Hrs) Hro Ha (evs & Hev & Hall) Hct Hfr].
  cbn -[update_run emit now isTerminal with_workflows with_ticks].
  change (w_workflows (with_ticks (S (S (w_ticks w))) w)) with (w_workflows w).
  destruct (update_run_spec (wf_runId next) target
    (with_workflows (workflow_save next (w_workflows w)) (with_ticks (S (S (w_ticks w))) w)) r)
    as (r' & k & -> & Hri' & Hrs' & _); [by rewrite Hrid, Hr|congruence|].
  cbn. eexists _, _. split; [done|].
  assert (∀ r, r ≠ rid → workflow_getByRunId r (workflow_save next (w_workflows w)) = workflow_of r w) as Hsame.
  { intros r0 Hr0. apply workflow_getByRunId_save_ne; [done|congruence|].
    rewrite Hid. intros w'. by apply Hdis. }
  assert (wf_runId next = rid) as Hnr by congruence.
  repeat split; simpl; try done; try congruence.
  - by apply workflow_save_ok.
  - rewrite <-Hnr. apply workflow_getByRunId_save. congruence.
  - intros r0 Hr0. rewrite Hsame by done. by apply Hoth.
  - intros r0 w' Hr0. rewrite Hsame, Hid by done. by apply Hdis.
  - exists r'. rewrite run_get_save. rewrite decide_True by congruence. split; [done|]. split; congruence.
  - intros r0 Hr0. rewrite run_get_save, decide_False by congruence. by apply Hro.
  - apply Hau.
  - apply Hau.
  - exists (evs ++ [WorkflowTransitioned rid (state wf) target event (nowIso k)]).
    rewrite Hev, Hnr, app_assoc. split; [done|]. apply Forall_app. split; [done|].
    apply Forall_singleton. by eexists _, _, _, _.
  - apply Hfr.
  - apply Hfr.
  - apply Hfr.
Qed.

(** A refused transition throws before anything is written. *)
Lemma applyTransition_denied wf event target actor (w : world) :
  ¬ enabled wf event target →
  ∃ m, applyTransition wf event target actor w = (Throw (TransitionError m), w).
Proof.
  intros Hn. unfold applyTransition, mbind, M_bind, lift_outcome.
  destruct (evaluate_guard_cases wf event target) as [Hg|[m Hg]]; rewrite Hg; [|by exists m].
  unfold machine_transition.
  destruct (canTransition rules (state wf) target event) eqn:Hc; [by destruct Hn|].
  destruct (transition_denied rules wf event target actor None (nowIso (w_ticks w)) (nowIso (S (w_ticks w))) Hc)
    as [m ->]. by exists m.
Qed.

Lemma applyTransition_inv rid w0 wf event target actor (w : world) :
  exec_inv rid w0 wf w →
  ∃ wf', exec_inv rid w0 wf' (applyTransition wf event target actor w).2
    ∧ w_dead (applyTransition wf event target actor w).2 = w_dead w
    ∧ (applyTransition wf event target actor w).1 ≠ OutOfFuel
    ∧ ∀ x, (applyTransition wf event target actor w).1 = Ok x → x = wf'.
Proof.
  intros Hinv. destruct (decide (enabled wf event target)) as [He|He].
  - destruct (applyTransition_Ok rid w0 wf event target actor w Hinv He)
      as (wf' & w' & -> & ? & _ & _ & _ & _ & ? & _). exists wf'. simpl. naive_solver.
  - destruct (applyTransition_denied wf event target actor w He) as [m ->].
    exists wf. simpl. naive_solver.
Qed.

(** ** One task *)

(** The simulator's answer to the next call is a success. *)
Definition call_succeeds (w : world) (t : TaskRun) (d : TaskDefinition) (input : jsrecord)
    (r : SimulatedResult) : Prop :=
  simulate (w_calls w) (handler d) input
    (mkHandlerContext (tr_runId t) (definitionTaskId t) input []) = inl r
  ∧ sim_success r = true.

(** What one attempt makes of a task run. *)
Inductive attempted (p : RetryPolicy) (t : TaskRun) : TaskStatus → option num → Prop :=
| attempted_ok : attempted p t TaskSucceeded None
| attempted_retry : attempt t + 2 < maxAttempts p →
    attempted p t TaskRetrying (Some (computeBackoffDelay p (attempt t + 2)))
| attempted_failed : maxAttempts p ≤ attempt t + 2 → attempted p t TaskFailed None.

Record untouched (w w' : world) : Prop := {
  un_workflows : w_workflows w' = w_workflows w;
  un_runs : w_runs w' = w_runs w;
  un_events : w_events w' = w_events w;
  un_jobs : w_jobs w' = w_jobs w;
  un_local : w_localLocks w' = w_localLocks w;
  un_locks : w_locks w' = w_locks w;
  un_dead : w_dead w' = w_dead w;
  un_uuids : w_uuids w' = w_uuids w;
  un_counters : counters (w_metrics w') = counters (w_metrics w);
}.

Lemma exec_inv_untouched rid w0 wf w w' : exec_inv rid w0 wf w → untouched w w' → exec_inv rid w0 wf w'.
Proof. intros Hinv []. by eapply exec_inv_irrelevant. Qed.

Lemma handleFailure_spec t p m (w : world) :
  ∃ res w', handleFailure t p m w = (Ok res, w') ∧ untouched w w' ∧ w_calls w' = w_calls w
    ∧ tr_id (er_task res) = tr_id t ∧ definitionTaskId (er_task res) = definitionTaskId t
    ∧ attempt (er_task res) = attempt t
    ∧ ((attempt t + 1 < maxAttempts p ∧ status (er_task res) = TaskRetrying
        ∧ retryAfterMs res = Some (computeBackoffDelay p (attempt t + 1)))
       ∨ (maxAttempts p ≤ attempt t + 1 ∧ status (er_task res) = TaskFailed
          ∧ retryAfterMs res = None)).
Proof.
  unfold handleFailure, decide_retry, shouldRetry. cbn.
  destruct (Z.ltb_spec (attempt t + 1) (maxAttempts p)); cbn;
    (eexists _, _; split; [done|]; split; [done|]; naive_solver).
Qed.

Lemma run_task_spec t d p input (w : world) :
  ∃ res w', run_task t d p input w = (Ok res, w') ∧ untouched w w' ∧ w_calls w' = S (w_calls w)
    ∧ tr_id (er_task res) = tr_id t ∧ definitionTaskId (er_task res) = definitionTaskId t
    ∧ attempt (er_task res) = attempt t + 1
    ∧ attempted p t (status (er_task res)) (retryAfterMs res)
    ∧ (status (er_task res) = TaskSucceeded ↔ ∃ r, call_succeeds w t d input r)
    ∧ (∀ r, call_succeeds w t d input r → output (er_task res) = Some (sim_output r)).
Proof.
  unfold run_task, call_succeeds, mbind, M_bind, now, gets, modify. cbn -[handleFailure].
  assert (∀ t' m w', attempt t' = attempt t + 1 → tr_id t' = tr_id t →
    definitionTaskId t' = definitionTaskId t → untouched w w' → w_calls w' = S (w_calls w) →
    ∃ res w'', handleFailure t' p m w' = (Ok res, w'') ∧ untouched w w'' ∧ w_calls w'' = S (w_calls w)
    ∧ tr_id (er_task res) = tr_id t ∧ definitionTaskId (er_task res) = definitionTaskId t
    ∧ attempt (er_task res) = attempt t + 1 ∧ status (er_task res) ≠ TaskSucceeded
    ∧ attempted p t (status (er_task res)) (retryAfterMs res)) as Hfail.
  { intros t' m w' Ha Hi Hd Hun Hc.
    destruct (handleFailure_spec t' p m w') as (res & w'' & -> & [] & Hc' & Hi' & Hd' & Ha' & Hcase).
    exists res, w''. split; [done|]. destruct Hun. split; [split; congruence|].
    split; [congruence|]. split; [congruence|]. split; [congruence|]. split; [congruence|].
    rewrite Ha in Hcase. replace (attempt t + 1 + 1) with (attempt t + 2) in Hcase by lia.
    destruct Hcase as [(? & Hs & Hr)|(? & Hs & Hr)]; rewrite Hs, Hr; split; (done || by constructor). }
  destruct (simulate _ _ _ _) as [r|err] eqn:Hsim.
  - destruct (sim_success r) eqn:Hs; cbn -[handleFailure].
    + eexists _, _. split; [done|]. split; [done|]. repeat (split; [done|]).
      split; [constructor|]. split; [split; [by exists r|done]|]. intros r' [[= <-] _]. done.
    + edestruct Hfail as (res & w'' & -> & ? & ? & ? & ? & ? & ? & ?); [..|exists res, w''];
        [done|done|done|done|done|]. repeat (split; [done|]).
      split; [split; [done|intros (r' & [= <-] & Hs'); congruence]|intros r' [[= <-] Hs']; congruence].
  - edestruct Hfail as (res & w'' & -> & ? & ? & ? & ? & ? & ? & ?); [..|exists res, w''];
      [done|done|done|done|done|]. repeat (split; [done|]).
    split; [split; [done|by intros (r' & [=] & _)]|by intros r' [[=] _]].
Qed.

(** The task run after one attempt: its id and task are kept, its attempt
    counted, and it has succeeded, failed for good or is queued again. *)
Record next_task (p : RetryPolicy) (t t' : TaskRun) (st : TaskStatus) : Prop := {
  nt_id : tr_id t' = tr_id t;
  nt_def : definitionTaskId t' = definitionTaskId t;
  nt_attempt : attempt t' = attempt t + 1;
  nt_status :
    (st = TaskSucceeded ∧ status t' = TaskSucceeded)
    ∨ (st = TaskRetrying ∧ status t' = TaskQueued ∧ attempt t + 2 < maxAttempts p)
    ∨ (st = TaskFailed ∧ status t' = TaskFailed ∧ maxAttempts p ≤ attempt t + 2);
}.

Definition find_run (ts : list TaskRun) (d : TaskDefinition) : option TaskRun :=
  List.find (λ t, bool_decide (definitionTaskId t = td_id d)) ts.

Lemma replace_task_twice t t' ts :
  tr_id t = tr_id t' → replace_task t (replace_task t' ts) = replace_task t ts.
Proof.
  intros Hid. unfold replace_task. rewrite <-list_fmap_compose. apply list_fmap_ext.
  intros i x _. simpl. rewrite Hid. destruct (decide (tr_id x = tr_id t')) as [Hx|Hx].
  - by rewrite !(bool_decide_eq_true_2 _ Hx), bool_decide_eq_true_2.
  - by rewrite !(bool_decide_eq_false_2 _ Hx).
Qed.

(** [run_next] stores the workflow with the task run replaced. *)
Lemma run_next_Ok rid w0 def wf d t (w : world) :
  exec_inv rid w0 wf w → find_run (wf_tasks wf) d = Some t →
  ∃ wf' st t' w', run_next def wf d w = (Ok (wf', st), w')
    ∧ exec_inv rid w0 wf' w' ∧ state wf' = state wf ∧ context wf' = context wf
    ∧ wf_id wf' = wf_id wf
    ∧ wf_tasks wf' = replace_task t' (wf_tasks wf) ∧ next_task (retryPolicy def) t t' st
    ∧ w_dead w' = w_dead w ∧ w_calls w' = S (w_calls w)
    ∧ (st = TaskSucceeded ↔ ∃ r, call_succeeds w t d (context wf) r)
    ∧ (∀ r, call_succeeds w t d (context wf) r → output t' = Some (sim_output r)).
Proof.
  intros Hinv Hfind. unfold run_next. unfold find_run in Hfind. rewrite Hfind.
  destruct (run_task_spec t d (retryPolicy def) (context wf) w)
    as (res & w1 & Hrun & Hun & Hcalls & Hid & Hdef & Hatt & Hcase & Hiff & Hout).
  rewrite (M_bind_eq_Ok (lift_outcome (Ok t)) _ w t w) by done.
  rewrite (M_bind_eq_Ok _ _ _ _ _ Hrun).
  set (w2 := with_metrics (recordTaskDuration (handler d) (elapsedMs (w_calls w1)) (w_metrics w1)) w1).
  assert (exec_inv rid w0 wf w2) as Hinv2.
  { eapply exec_inv_irrelevant; [by eapply exec_inv_untouched|done..]. }
  rewrite (M_bind_eq_Ok (gets w_calls) _ w1 (w_calls w1) w1) by done.
  rewrite (M_bind_eq_Ok _ _ w1 tt w2) by done.
  destruct (updateTask_inv rid w0 wf w2 (er_task res) Hinv2) as (at1 & w3 & Hup & Hinv3 & Hd3 & Hc3).
  rewrite (M_bind_eq_Ok _ _ _ _ _ Hup).
  destruct (retryAfterMs res) as [delay|] eqn:Hretry.
  - destruct (updateTask_inv rid w0 _ w3 (set_status (er_task res) TaskQueued) Hinv3)
      as (at2 & w4 & Hup' & Hinv4 & Hd4 & Hc4).
    rewrite (M_bind_eq_Ok _ _ _ _ _ Hup').
    destruct (status (er_task res)) eqn:Hst; inversion Hcase; subst.
    eexists _, _, (set_status (er_task res) TaskQueued), w4. split; [done|].
    split; [done|]. repeat (split; [done|]). simpl in *. split; [by apply replace_task_twice|].
    split; [split; simpl; auto; right; left; auto|]. destruct Hun.
    split; [subst w2; simpl in *; congruence|]. split; [subst w2; simpl in *; congruence|].
    split; [exact Hiff|exact Hout].
  - unfold mbind, M_bind, mret, M_ret.
    eexists _, _, (er_task res), w3. split; [done|]. split; [done|]. repeat (split; [done|]).
    split; [split; auto; destruct (status (er_task res)); inversion Hcase; auto 10|]. destruct Hun.
    split; [subst w2; simpl in *; congruence|]. split; [subst w2; simpl in *; congruence|].
    split; [exact Hiff|exact Hout].
Qed.

Lemma run_next_missing def wf d (w : world) :
  find_run (wf_tasks wf) d = None → ∃ e, run_next def wf d w = (Throw e, w).
Proof. intros Hf. unfold run_next. unfold find_run in Hf. rewrite Hf. by eexists. Qed.

(** ** The whole execution, from any state of the run *)

(** A computation that keeps the invariant and the dead letters, whatever its
    outcome; a workflow it returns is the stored one. *)
Definition keeps_inv {A} (rid : string) (w0 : world) (proj : A → WorkflowInstance → Prop)
    (m : eff world A) (w : world) : Prop :=
  ∃ wf', exec_inv rid w0 wf' (m w).2 ∧ ∀ x, (m w).1 = Ok x → proj x wf'.

Lemma execute_loop_inv rid w0 fuel def wf (w : world) :
  exec_inv rid w0 wf w →
  ∃ wf', exec_inv rid w0 wf' (execute_loop fuel def wf w).2
    ∧ w_dead (execute_loop fuel def wf w).2 = w_dead w
    ∧ ∀ x, (execute_loop fuel def wf w).1 = Ok x → x = wf'.
Proof.
  revert wf w. induction fuel as [|fuel IH]; intros wf w Hinv; cbn [execute_loop].
  { exists wf. done. }
  case_bool_decide as Hst; cbn [negb]; [|exists wf; simpl; naive_solver].
  destruct (nextRunnable _ _) as [d|].
  - destruct (find_run (wf_tasks wf) d) as [t|] eqn:Hf.
    + destruct (run_next_Ok rid w0 def wf d t w Hinv Hf)
        as (wf' & st & t' & w' & Hrun & Hinv' & _ & _ & _ & _ & _ & Hd & _).
      rewrite (M_bind_eq_Ok _ _ _ _ _ Hrun). rewrite <-Hd. case_bool_decide.
      * destruct (applyTransition_inv rid w0 wf' "fail" Failed execution_owner w' Hinv')
          as (wf'' & ? & ? & _ & ?). eauto.
      * by apply IH.
    + destruct (run_next_missing def wf d w Hf) as [e He].
      rewrite (M_bind_eq_Throw _ _ _ _ _ He). by exists wf.
  - unfold finish_run. destruct (allDone _ _).
    + destruct (apply_rules def _).2 as [[]|e|].
      * destruct (applyTransition_inv rid w0 wf "complete" Completed execution_owner w Hinv)
          as (wf'' & ? & ? & _ & ?). rewrite (M_bind_eq_Ok _ _ w tt w) by done. eauto.
      * rewrite (M_bind_eq_Throw _ _ w e w) by done. by exists wf.
      * by exists wf.
    + destruct (applyTransition_inv rid w0 wf "await" Waiting execution_owner w Hinv)
        as (wf'' & ? & ? & _ & ?). eauto.
Qed.
End exec_inv.
