(* ===== verification/Execution.v ===== *)
(** * Executions of a run

    Termination and outcome of [Engine.executeRun]: a measure on the attempts
    left bounds the loop, an acyclic definition is never stuck, and the final
    state is read off the simulator's answers. *)

From S2P Require Import Prelude JsMap JsString Graph JsNum DomainTypes JsValue Domain Retry Transitions Locks Stores Metrics Validator Expressions Constraints Engine ExecInv.
Open Scope Z_scope.

(** ** Task runs and their definitions *)

(** The task runs of a workflow are those of its definition, in order. *)
Record matched (def : JobDefinition) (ts : list TaskRun) : Prop := {
  ma_ids : definitionTaskId <$> ts = td_id <$> tasks def;
  ma_unique : NoDup (td_id <$> tasks def);
  ma_runs : NoDup (tr_id <$> ts);
}.

Lemma status_map_get ts t :
  NoDup (definitionTaskId <$> ts) → t ∈ ts →
  map_get (status_map ts) (definitionTaskId t) = Some (status t).
Proof.
  unfold status_map, map_of_entries. induction ts as [|t' ts IH] using rev_ind; [set_solver|].
  rewrite !fmap_app, foldl_app. simpl. rewrite NoDup_app, map_get_set.
  intros (Hnd & Hdisj & _) [Ht|Ht]%elem_of_app.
  - rewrite decide_False; [auto|]. intros Heq. apply (Hdisj (definitionTaskId t)).
    + by apply list_elem_of_fmap_2.
    + rewrite Heq. set_solver.
  - apply list_elem_of_singleton in Ht as ->. by rewrite decide_True.
Qed.

Lemma status_map_in ts c st :
  map_get (status_map ts) c = Some st → ∃ t, t ∈ ts ∧ definitionTaskId t = c ∧ status t = st.
Proof.
  unfold status_map, map_of_entries. induction ts as [|t ts IH] using rev_ind; [done|].
  rewrite fmap_app, foldl_app. simpl. rewrite map_get_set. case_decide as Hd.
  - intros [= <-]. exists t. set_solver.
  - intros (t' & ? & ? & ?)%IH. exists t'. set_solver.
Qed.

Lemma matched_run def ts d :
  matched def ts → d ∈ tasks def → ∃ t, t ∈ ts ∧ definitionTaskId t = td_id d.
Proof.
  intros [Hids _ _] Hd. apply (list_elem_of_fmap_2 td_id) in Hd. rewrite <-Hids in Hd.
  apply list_elem_of_fmap in Hd as (t & ? & ?). eauto.
Qed.

Lemma matched_find def ts d :
  matched def ts → d ∈ tasks def →
  ∃ t, find_run ts d = Some t ∧ t ∈ ts ∧ definitionTaskId t = td_id d.
Proof.
  intros Hm Hd. destruct (matched_run _ _ _ Hm Hd) as (t & Ht & Heq). unfold find_run.
  destruct (List.find _ ts) as [t'|] eqn:E.
  - apply List.find_some in E as [Hin E]. apply bool_decide_eq_true in E.
    exists t'. split; [done|]. split; [by apply list_elem_of_In|done].
  - apply list_elem_of_In, (List.find_none _ _ E) in Ht. by apply bool_decide_eq_false in Ht.
Qed.

(** Statuses seen by the scheduler. *)
Lemma matched_status def ts d t :
  matched def ts → t ∈ ts → definitionTaskId t = td_id d →
  map_get (status_map ts) (td_id d) = Some (status t).
Proof.
  intros [Hids Hu _] Ht <-. apply status_map_get; [by rewrite Hids|done].
Qed.

(** ** Replacing a task run *)

Lemma replace_task_in t' ts x :
  x ∈ replace_task t' ts → x = t' ∨ (x ∈ ts ∧ tr_id x ≠ tr_id t').
Proof.
  unfold replace_task. intros (y & -> & Hy)%list_elem_of_fmap.
  case_bool_decide; [by left|by right].
Qed.

Lemma replace_task_new t t' ts : t ∈ ts → tr_id t' = tr_id t → t' ∈ replace_task t' ts.
Proof.
  intros Ht Hid. apply list_elem_of_fmap. exists t. by rewrite bool_decide_eq_true_2.
Qed.

Lemma replace_task_keep t' ts x : x ∈ ts → tr_id x ≠ tr_id t' → x ∈ replace_task t' ts.
Proof.
  intros Hx Hid. apply list_elem_of_fmap. exists x. by rewrite bool_decide_eq_false_2.
Qed.

Lemma unique_run ts t x : NoDup (tr_id <$> ts) → t ∈ ts → x ∈ ts → tr_id x = tr_id t → x = t.
Proof.
  induction ts as [|y ts IH]; [set_solver|]. rewrite fmap_cons, NoDup_cons.
  intros [Hn Hnd] Ht Hx Hid. apply elem_of_cons in Ht as [->|Ht], Hx as [->|Hx]; auto.
  - destruct Hn. rewrite <-Hid. by apply list_elem_of_fmap_2.
  - destruct Hn. rewrite Hid. by apply list_elem_of_fmap_2.
Qed.

Lemma replace_task_matched def ts t t' :
  matched def ts → t ∈ ts → tr_id t' = tr_id t → definitionTaskId t' = definitionTaskId t →
  matched def (replace_task t' ts).
Proof.
  intros [Hids Hu Hr] Ht Hid Hdef. split; [|done|].
  - rewrite <-Hids. unfold replace_task. rewrite <-list_fmap_compose.
    apply list_fmap_ext. intros i x Hx%list_elem_of_lookup_2. simpl.
    case_bool_decide as Hc; [|done]. rewrite Hdef. f_equal. symmetry.
    apply (unique_run ts); auto; congruence.
  - replace (tr_id <$> replace_task t' ts) with (tr_id <$> ts); [done|].
    unfold replace_task. rewrite <-list_fmap_compose. apply list_fmap_ext.
    intros i x _. unfold compose. case_bool_decide; congruence.
Qed.

Lemma replace_task_sum (f : TaskRun → nat) t t' ts :
  NoDup (tr_id <$> ts) → t ∈ ts → tr_id t' = tr_id t →
  (sum_list_with f (replace_task t' ts) + f t = sum_list_with f ts + f t')%nat.
Proof.
  intros Hnd Ht Hid. induction ts as [|y ts IH]; [set_solver|].
  rewrite fmap_cons, NoDup_cons in Hnd. destruct Hnd as [Hn Hnd]. cbn.
  apply elem_of_cons in Ht as [->|Ht].
  - rewrite bool_decide_eq_true_2 by done.
    replace (_ <$> ts) with ts; [lia|].
    symmetry. rewrite <-(list_fmap_id ts) at 2. apply list_fmap_ext.
    intros i x Hx%list_elem_of_lookup_2. simpl. rewrite bool_decide_eq_false_2; [done|].
    intros Hc. apply Hn. rewrite <-Hid, <-Hc. by apply list_elem_of_fmap_2.
  - rewrite bool_decide_eq_false_2; [|intros Hc; apply Hn; rewrite Hc, Hid; by apply list_elem_of_fmap_2].
    specialize (IH Hnd Ht). unfold replace_task in IH. lia.
Qed.

(** ** Attempts *)

(** The number of attempts a task gets: [decide] counts the attempt that has
    just been made twice, so it is one less than [maxAttempts], and at least one. *)
Definition attempt_bound (p : RetryPolicy) : Z := Z.max 1 (maxAttempts p - 1).

Definition succeeded (p : RetryPolicy) (t : TaskRun) : Prop :=
  status t = TaskSucceeded ∧ 1 ≤ attempt t ≤ attempt_bound p.

(** The task runs of an execution in progress. *)
Definition in_progress (p : RetryPolicy) (t : TaskRun) : Prop :=
  (status t = TaskQueued ∧ 0 ≤ attempt t < attempt_bound p) ∨ succeeded p t.

Definition attempts_left (p : RetryPolicy) (t : TaskRun) : nat :=
  if decide (status t = TaskQueued) then Z.to_nat (attempt_bound p - attempt t) else 0.

Definition work_left (p : RetryPolicy) (ts : list TaskRun) : nat := sum_list_with (attempts_left p) ts.

(** A task that has used up its attempts. *)
Definition exhausted (p : RetryPolicy) (t : TaskRun) : Prop :=
  status t = TaskFailed ∧ attempt t = attempt_bound p.

Lemma next_task_progress p t t' st :
  status t = TaskQueued → 0 ≤ attempt t < attempt_bound p → next_task p t t' st →
  (attempts_left p t' < attempts_left p t)%nat
  ∧ ((st = TaskFailed ∧ exhausted p t') ∨ (st ≠ TaskFailed ∧ in_progress p t')).
Proof.
  intros Hq Ha [Hid Hdef Hatt Hst]. unfold attempts_left, exhausted, in_progress, succeeded, attempt_bound in *.
  rewrite (decide_True _ _ Hq).
  destruct Hst as [[-> Hs]|[(-> & Hs & Hlt)|(-> & Hs & Hle)]]; rewrite Hs.
  - rewrite decide_False by done. split; [lia|]. right. split; [done|]. right. split; [done|lia].
  - rewrite decide_True by done. split; [lia|]. right. split; [done|]. left. split; [done|lia].
  - rewrite decide_False by done. split; [lia|]. left. split; [done|]. split; [done|lia].
Qed.

Lemma total_attempts_le (b : Z) ts :
  Forall (λ t, attempt t ≤ b) ts → total_attempts ts ≤ b * Z.of_nat (length ts).
Proof.
  unfold total_attempts. assert (∀ acc, Forall (λ t, attempt t ≤ b) ts →
    foldl (λ s t, s + attempt t) acc ts ≤ acc + b * Z.of_nat (length ts)) as H.
  { induction ts as [|t ts IH]; intros acc Hf; cbn [length foldl]; [lia|].
    apply Forall_cons in Hf as [? Hf]. specialize (IH (acc + attempt t) Hf).
    rewrite Nat2Z.inj_succ, Z.mul_succ_r. lia. }
  intros Hf. specialize (H 0 Hf). lia.
Qed.

Lemma work_left_bound p ts :
  Forall (in_progress p) ts → (work_left p ts ≤ Z.to_nat (attempt_bound p) * length ts)%nat.
Proof.
  intros Hf. induction Hf as [|t ts Ht Hts IH]; [cbn; lia|].
  change (work_left p (t :: ts)) with (attempts_left p t + work_left p ts)%nat.
  cbn [length]. rewrite Nat.mul_succ_r. unfold attempts_left.
  case_decide; destruct Ht as [[? ?]|[? ?]]; (lia || congruence).
Qed.

(** ** No task is stuck *)

Definition deps_closed (ts : list TaskDefinition) : Prop :=
  ∀ t d, t ∈ ts → d ∈ deps t → d ∈ td_id <$> ts.

Lemma deps_done def ts d :
  matched def ts → Forall (in_progress (retryPolicy def)) ts → deps_closed (tasks def) →
  d ∈ tasks def →
  (∀ c, c ∈ deps d → ∀ t, t ∈ ts → definitionTaskId t = c → status t ≠ TaskQueued) →
  dependenciesMet d (status_map ts) = true.
Proof.
  intros Hm Hip Hcl Hd Hdone. unfold dependenciesMet. apply forallb_forall.
  intros c Hc%list_elem_of_In. pose proof (Hcl d c Hd Hc) as Hin.
  apply list_elem_of_fmap in Hin as (dc & -> & Hdc).
  destruct (matched_run _ _ _ Hm Hdc) as (t & Ht & Heq).
  rewrite (matched_status _ _ _ _ Hm Ht Heq). specialize (Hdone _ Hc t Ht Heq).
  rewrite Forall_forall in Hip. destruct (Hip t Ht) as [[Hs _]|[Hs _]]; [done|]. by rewrite Hs.
Qed.

Lemma not_stuck def ts :
  matched def ts → Forall (in_progress (retryPolicy def)) ts → deps_closed (tasks def) →
  acyclic (tasks def) → nextRunnable ts (tasks def) = None →
  Forall (succeeded (retryPolicy def)) ts.
Proof.
  intros Hm Hip Hcl Hac Hnone. apply Forall_forall. intros t Ht.
  pose proof Hip as Hip'. rewrite Forall_forall in Hip'.
  destruct (Hip' t Ht) as [[Hq _]|Hs]; [|done]. exfalso.
  destruct (acyclic_topo _ Hac) as (l & Htopo & Hall).
  set (P id := ∃ t, t ∈ ts ∧ definitionTaskId t = id ∧ status t = TaskQueued).
  assert (∀ id, Decision (P id)) as Hdec.
  { intros id. destruct (decide (Exists (λ t, definitionTaskId t = id ∧ status t = TaskQueued) ts))
      as [H|H]; rewrite Exists_exists in H; [left|right]; unfold P; naive_solver. }
  assert (∀ t, t ∈ ts → ∃ d, d ∈ tasks def ∧ td_id d = definitionTaskId t) as Hdef.
  { intros t0 Ht0. apply (list_elem_of_fmap_2 definitionTaskId) in Ht0. rewrite (ma_ids _ _ Hm) in Ht0.
    apply list_elem_of_fmap in Ht0 as (d & ? & ?). eauto. }
  destruct (topo_minimal _ P l (definitionTaskId t) Htopo) as (y & Hy & (t1 & Ht1 & <- & Hq1) & Hmin).
  - destruct (Hdef t Ht) as (d & Hd & <-). by apply Hall.
  - by exists t.
  - destruct (Hdef t1 Ht1) as (d & Hd & Hdid). rewrite <-Hdid in *.
    rewrite (dep_children_task _ d (ma_unique _ _ Hm) Hd) in Hmin.
    pose proof (List.find_none _ _ Hnone d (proj1 (list_elem_of_In _ _) Hd)) as Hr.
    unfold runnable in Hr. rewrite (matched_status _ _ _ _ Hm Ht1 (eq_sym Hdid)), Hq1 in Hr.
    cbn in Hr. rewrite (deps_done def) in Hr; [done|done|done|done|done|].
    intros c Hc t2 Ht2 Heq Hq2. apply (Hmin c Hc). by exists t2.
Qed.

(** The task the scheduler picks is queued, and its dependencies have succeeded. *)
Lemma nextRunnable_queued def ts d :
  matched def ts → Forall (in_progress (retryPolicy def)) ts → nextRunnable ts (tasks def) = Some d →
  d ∈ tasks def ∧ ∃ t, find_run ts d = Some t ∧ t ∈ ts ∧ definitionTaskId t = td_id d
    ∧ status t = TaskQueued ∧ 0 ≤ attempt t < attempt_bound (retryPolicy def)
    ∧ ∀ c, c ∈ deps d → ∃ t', t' ∈ ts ∧ definitionTaskId t' = c ∧ status t' = TaskSucceeded.
Proof.
  intros Hm Hip Hd. apply List.find_some in Hd as [Hd%list_elem_of_In Hr]. split; [done|].
  destruct (matched_find _ _ _ Hm Hd) as (t & Hf & Ht & Heq). exists t.
  repeat (split; [done|]). unfold runnable in Hr.
  rewrite (matched_status _ _ _ _ Hm Ht Heq) in Hr. rewrite Forall_forall in Hip.
  destruct (Hip t Ht) as [[Hs Ha]|[Hs _]]; rewrite Hs in Hr; [|done]. split; [done|]. split; [done|].
  change (dependenciesMet d (status_map ts) = true) in Hr. intros c Hc.
  unfold dependenciesMet in Hr. rewrite forallb_forall in Hr.
  specialize (Hr c (proj1 (list_elem_of_In _ _) Hc)).
  unfold done_status in Hr. apply orb_true_iff in Hr. rewrite !bool_decide_eq_true in Hr.
  destruct Hr as [Hr|Hr]; destruct (status_map_in _ _ _ Hr) as (t' & Ht' & Hc' & Hst'); [by exists t'|].
  destruct (Hip t' Ht') as [[? _]|[? _]]; congruence.
Qed.

(** ** The loop on a run in progress *)

Section execution.
Context {JS WS RS : Type} `{JobDefinitionStoreLaws JS} `{!WorkflowStore WS} `{!WorkflowStoreLaws WS}
  `{!RunStore RS} `{!RunStoreLaws RS} `{Environment}.

Notation world := (world JS WS RS).
Notation rules := DEFAULT_TRANSITION_RULES.
Notation workflow_of rid w := (workflow_getByRunId rid (w_workflows w)).
Notation run_of rid w := (run_get rid (w_runs w)).

Definition constraint_context (wf : WorkflowInstance) : ConstraintContext :=
  mkConstraintContext (context wf) (task_outputs wf).

Definition constraints_pass (def : JobDefinition) (wf : WorkflowInstance) : Prop :=
  ∀ c, c ∈ constraints def → violated (constraint_context wf) c → severity c = SeverityWarn.

Definition constraint_error (def : JobDefinition) (wf : WorkflowInstance) : JsError :=
  ExecutionError ReasonConstraintViolation
    ("constraints blocked: "
       +:+ join ", " (violated_ids SeverityBlock (constraint_context wf) (constraints def))).

(** How the loop ends, with the workflow it leaves in the store. *)
Inductive loop_end (def : JobDefinition) : outcome JsError WorkflowInstance → WorkflowInstance → Prop :=
| end_completed wf : state wf = Completed → Forall (succeeded (retryPolicy def)) (wf_tasks wf) → constraints_pass def wf →
    loop_end def (Ok wf) wf
| end_failed wf t : state wf = Failed → t ∈ wf_tasks wf → exhausted (retryPolicy def) t →
    (∀ t', t' ∈ wf_tasks wf → t' ≠ t → in_progress (retryPolicy def) t') →
    loop_end def (Ok wf) wf
| end_blocked wf : state wf = Running → Forall (succeeded (retryPolicy def)) (wf_tasks wf) → ¬ constraints_pass def wf →
    loop_end def (Throw (constraint_error def wf)) wf.

(** A definition as registration leaves it. *)
Record executable (def : JobDefinition) : Prop := {
  ex_closed : deps_closed (tasks def);
  ex_acyclic : acyclic (tasks def);
}.

Record progress_inv (def : JobDefinition) (wf : WorkflowInstance) : Prop := {
  pi_state : state wf = Running;
  pi_matched : matched def (wf_tasks wf);
  pi_tasks : Forall (in_progress (retryPolicy def)) (wf_tasks wf);
}.

Lemma all_succeeded_done def wf :
  matched def (wf_tasks wf) → Forall (succeeded (retryPolicy def)) (wf_tasks wf) →
  allDone (wf_tasks wf) (tasks def) = true.
Proof.
  intros Hm Hs. unfold allDone. apply forallb_forall. intros d [Hd _]%List.filter_In.
  apply list_elem_of_In in Hd. destruct (matched_run _ _ _ Hm Hd) as (t & Ht & Heq).
  rewrite (matched_status _ _ _ _ Hm Ht Heq). rewrite Forall_forall in Hs. by rewrite (proj1 (Hs t Ht)).
Qed.

Lemma complete_enabled p wf :
  state wf = Running → Forall (succeeded p) (wf_tasks wf) → enabled wf "complete" Completed.
Proof.
  intros Hst Hs. split; [|by rewrite Hst]. unfold evaluate_guard. rewrite Hst.
  rewrite (bool_decide_eq_true_2 ("complete" = "complete")) by done.
  rewrite (bool_decide_eq_true_2 (Completed = Completed)) by done. cbn [andb].
  rewrite (proj2 (assertAll_Ok (wf_tasks wf))); [done|].
  eapply Forall_impl; [exact Hs|]. intros t [Ht _]. apply task_done_true. by left.
Qed.

Lemma fail_enabled wf : state wf = Running → enabled wf "fail" Failed.
Proof. intros Hst. split; [by unfold evaluate_guard|by rewrite Hst]. Qed.

(** Completing or being blocked, once every task has succeeded. *)
Lemma finish_run_end rid w0 def wf (w : world) :
  exec_inv rid w0 wf w → matched def (wf_tasks wf) → state wf = Running →
  Forall (succeeded (retryPolicy def)) (wf_tasks wf) →
  ∃ o wf' w', finish_run def wf w = (o, w') ∧ exec_inv rid w0 wf' w' ∧ loop_end def o wf'
    ∧ wf_tasks wf' = wf_tasks wf ∧ context wf' = context wf
    ∧ w_dead w' = w_dead w ∧ w_calls w' = w_calls w.
Proof.
  intros Hinv Hm Hst Hs. unfold finish_run. rewrite (all_succeeded_done def) by done.
  unfold apply_rules. cbn [snd]. fold (constraint_context wf).
  destruct (assertPassing_cases (constraints def) (constraint_context wf)) as [Hp|Hp]; rewrite Hp.
  - rewrite (M_bind_eq_Ok _ _ w tt w) by done.
    destruct (applyTransition_Ok rid w0 wf "complete" Completed execution_owner w Hinv)
      as (wf' & w' & -> & Hinv' & Hst' & Hts & Hctx & _ & Hd & Hc); [by eapply complete_enabled|].
    exists (Ok wf'), wf', w'. split; [done|]. split; [done|]. split; [|done].
    apply end_completed; [done|by rewrite Hts|]. unfold constraints_pass, constraint_context, task_outputs.
    rewrite Hts, Hctx. by apply assertPassing_Ok.
  - rewrite (M_bind_eq_Throw _ _ w (constraint_error def wf) w) by done. eexists _, wf, w. split; [done|]. split; [done|].
    split; [|done]. apply end_blocked; [done|done|]. intros Hok. apply assertPassing_Ok in Hok. congruence.
Qed.

(** What one attempt at a queued task makes of a run in progress. *)
Lemma task_step def ts ts' t t' st :
  matched def ts → Forall (in_progress (retryPolicy def)) ts → t ∈ ts → status t = TaskQueued →
  0 ≤ attempt t < attempt_bound (retryPolicy def) →
  ts' = replace_task t' ts → next_task (retryPolicy def) t t' st →
  matched def ts' ∧ (work_left (retryPolicy def) ts' < work_left (retryPolicy def) ts)%nat
  ∧ (∀ x, x ∈ ts' → x = t' ∨ (x ∈ ts ∧ x ≠ t))
  ∧ ((st = TaskFailed ∧ t' ∈ ts' ∧ exhausted (retryPolicy def) t'
      ∧ ∀ x, x ∈ ts' → x ≠ t' → in_progress (retryPolicy def) x)
     ∨ (st ≠ TaskFailed ∧ Forall (in_progress (retryPolicy def)) ts')).
Proof.
  intros Hm Hip Ht Hq Hatt -> Hnt.
  destruct (next_task_progress _ _ _ _ Hq Hatt Hnt) as [Hless Hcase].
  pose proof (replace_task_sum (attempts_left (retryPolicy def)) t t' _ (ma_runs _ _ Hm) Ht (nt_id _ _ _ _ Hnt)) as Hsum.
  assert (∀ x, x ∈ replace_task t' ts → x = t' ∨ (x ∈ ts ∧ x ≠ t)) as Hin.
  { intros x Hx. apply replace_task_in in Hx as [?|[? Hne]]; [by left|].
    right. split; [done|]. intros ->. apply Hne. symmetry. apply Hnt. }
  rewrite Forall_forall in Hip. split; [by apply (replace_task_matched def _ t); [..|apply Hnt|apply Hnt]|].
  split; [unfold work_left; lia|]. split; [done|]. destruct Hcase as [[-> Hexh]|[Hnf Hprog]].
  - left. split; [done|]. split; [apply (replace_task_new t); [done|apply Hnt]|]. split; [done|].
    intros x Hx Hne. apply Hin in Hx as [?|[Hx _]]; [done|by apply Hip].
  - right. split; [done|]. apply Forall_forall. intros x [->|[Hx _]]%Hin; [done|by apply Hip].
Qed.

(** Every call of the simulator from number [k] on succeeds. *)
Definition always_succeeds (k : nat) : Prop :=
  ∀ j h input c, (k ≤ j)%nat → ∃ r, simulate j h input c = inl r ∧ sim_success r = true.

(** Every such call for a task of the definition, on the run's input and, as the
    executor makes it, without earlier outputs. *)
Definition handler_call (j : nat) (d : TaskDefinition) (input : jsrecord) (rid tid : string) : SimulatedResult + JsError :=
  simulate j (handler d) input (mkHandlerContext rid tid input []).

Definition tasks_succeed (def : JobDefinition) (input : jsrecord) (k : nat) : Prop :=
  ∀ j d rid tid, (k ≤ j)%nat → d ∈ tasks def → ∃ r, handler_call j d input rid tid = inl r ∧ sim_success r = true.

Lemma always_tasks_succeed def input k : always_succeeds k → tasks_succeed def input k.
Proof. intros Ha j d rid tid Hj _. by apply Ha. Qed.

(** The output of a task that has succeeded is what its handler answered. *)
Definition explained (def : JobDefinition) (input : jsrecord) (t : TaskRun) : Prop :=
  status t = TaskSucceeded → ∃ j d rid r, d ∈ tasks def ∧ td_id d = definitionTaskId t
    ∧ handler_call j d input rid (definitionTaskId t) = inl r ∧ sim_success r = true ∧ output t = Some (sim_output r).

Definition first_try (t : TaskRun) : Prop := attempt t = if decide (status t = TaskSucceeded) then 1 else 0.

Lemma next_task_explained def p (w : world) d t t' st input :
  d ∈ tasks def → definitionTaskId t = td_id d → next_task p t t' st →
  (st = TaskSucceeded ↔ ∃ r, call_succeeds w t d input r) →
  (∀ r, call_succeeds w t d input r → output t' = Some (sim_output r)) → explained def input t'.
Proof.
  intros Hd Heq Hnt Hsucc Hout Hs.
  destruct (nt_status _ _ _ _ Hnt) as [[Hst _]|[(_ & ? & _)|(_ & ? & _)]]; [|congruence..].
  apply Hsucc in Hst as [r Hr]. exists (w_calls w), d, (tr_runId t), r.
  rewrite (nt_def _ _ _ _ Hnt). split; [done|]. split; [done|]. destruct Hr as [Hr Hrs].
  split; [exact Hr|]. split; [done|]. apply Hout. by split.
Qed.

(** The loop ends within the attempts left, in one of three ways; each iteration
    is one call of the simulator; when every call succeeds, it does not fail. *)
Lemma execute_loop_end rid w0 def fuel wf (w : world) :
  executable def → exec_inv rid w0 wf w → progress_inv def wf →
  (work_left (retryPolicy def) (wf_tasks wf) < fuel)%nat →
  ∃ o wf' w', execute_loop fuel def wf w = (o, w') ∧ exec_inv rid w0 wf' w'
    ∧ loop_end def o wf' ∧ matched def (wf_tasks wf') ∧ context wf' = context wf
    ∧ w_dead w' = w_dead w
    ∧ (w_calls w' ≤ w_calls w + work_left (retryPolicy def) (wf_tasks wf))%nat
    ∧ (tasks_succeed def (context wf) (w_calls w) → Forall first_try (wf_tasks wf) →
         state wf' ≠ Failed ∧ Forall first_try (wf_tasks wf'))
    ∧ (Forall (explained def (context wf)) (wf_tasks wf) → Forall (explained def (context wf)) (wf_tasks wf')).
Proof.
  intros Hex. revert wf w. induction fuel as [|fuel IH]; intros wf w Hinv Hpi Hf; [lia|].
  cbn [execute_loop]. destruct Hpi as [Hst Hm Hip].
  rewrite bool_decide_eq_true_2 by done. cbn [negb].
  destruct (nextRunnable (wf_tasks wf) (tasks def)) as [d|] eqn:Hnext.
  - destruct (nextRunnable_queued def _ d Hm Hip Hnext) as (Hd & t & Hfind & Ht & Heq & Hq & Hatt & _).
    destruct (run_next_Ok rid w0 def wf d t w Hinv Hfind)
      as (wf' & st & t' & w' & Hrun & Hinv' & Hst' & Hctx & _ & Hts & Hnt & Hdead & Hcalls & Hsucc & Hout).
    rewrite (M_bind_eq_Ok _ _ _ _ _ Hrun).
    destruct (task_step def _ _ _ _ _ Hm Hip Ht Hq Hatt Hts Hnt) as (Hm' & Hless & Hin & Hcase).
    assert (Forall (explained def (context wf)) (wf_tasks wf) → Forall (explained def (context wf)) (wf_tasks wf')) as Hexp.
    { intros He. rewrite Forall_forall in He. apply Forall_forall. intros x [->|[Hx _]]%Hin; [|by apply He].
      eapply next_task_explained; [done|exact Heq|exact Hnt|exact Hsucc|exact Hout]. }
    assert (tasks_succeed def (context wf) (w_calls w) → Forall first_try (wf_tasks wf) →
      st = TaskSucceeded ∧ Forall first_try (wf_tasks wf')) as Hfirst.
    { intros Ha Hft. destruct (Ha (w_calls w) d (tr_runId t) (definitionTaskId t)) as (r & Hr); [lia|done|].
      assert (st = TaskSucceeded) as Hs by (apply Hsucc; by exists r). split; [done|].
      rewrite Forall_forall in Hft. apply Forall_forall. intros x [->|[Hx _]]%Hin; [|by apply Hft].
      specialize (Hft t Ht). unfold first_try in *. rewrite Hq, decide_False in Hft by done.
      rewrite (nt_attempt _ _ _ _ Hnt), Hft.
      destruct (nt_status _ _ _ _ Hnt) as [[_ Hs']|[[? _]|[? _]]]; [|congruence..].
      by rewrite Hs', decide_True. }
    destruct Hcase as [(-> & Ht' & Hexh & Hoth)|[Hnf Hprog]].
    + rewrite bool_decide_eq_true_2 by done.
      destruct (applyTransition_Ok rid w0 wf' "fail" Failed execution_owner w' Hinv')
        as (wf'' & w'' & -> & Hinv'' & Hst'' & Hts' & Hctx' & _ & Hd' & Hc');
        [apply fail_enabled; congruence|].
      exists (Ok wf''), wf'', w''. split; [done|]. split; [done|]. split; [|split; [|split; [|split; [|split; [|split]]]]].
      * by apply (end_failed _ _ t'); rewrite ?Hts'.
      * by rewrite Hts'.
      * congruence.
      * congruence.
      * rewrite Hc', Hcalls. lia.
      * intros Ha Hft. by destruct (Hfirst Ha Hft).
      * by rewrite Hts'.
    + rewrite bool_decide_eq_false_2 by done.
      destruct (IH wf' w' Hinv') as (o & wf'' & w'' & Hloop & Hinv'' & Hend & Hm'' & Hctx' & Hd' & Hc' & Hall & Hexp').
      * split; [congruence|done|done].
      * lia.
      * exists o, wf'', w''. split; [done|]. split; [done|]. split; [done|]. split; [done|].
        split; [congruence|]. split; [congruence|]. split; [lia|]. rewrite Hctx in Hall. rewrite Hctx in Hexp'.
        split; [|by intros He; apply Hexp', Hexp]. intros Ha Hft.
        apply Hall; [|by apply Hfirst]. intros j d' r' i' Hj. apply Ha. lia.
  - pose proof (not_stuck def _ Hm Hip (ex_closed _ Hex) (ex_acyclic _ Hex) Hnext) as Hall.
    destruct (finish_run_end rid w0 def wf w Hinv Hm Hst Hall)
      as (o & wf' & w' & Hfin & Hinv' & Hend & Hts & Hctx & Hd & Hc).
    exists o, wf', w'. split; [done|]. split; [done|]. split; [done|]. rewrite Hts, Hctx, Hd, Hc.
    split; [done|]. split; [done|]. split; [done|]. split; [lia|]. split; [|done]. intros _ Hft. split; [|done].
    inversion Hend as [? Hs|? ? ? Hin [Hs _]|? Hs]; subst; try congruence.
    rewrite Hts, Forall_forall in *. exfalso. destruct (Hall _ Hin). congruence.
Qed.

(** ** Entering and leaving *)

Definition entered (rid : string) (w : world) : world :=
  with_locks (map_set (w_locks w) rid execution_owner)
    (with_localLocks (w_localLocks w ++ [rid]) w).

(** Nothing else executes the run. *)
Definition unlocked (rid : string) (w : world) : Prop :=
  rid ∉ w_localLocks w ∧ map_get (w_locks w) rid = None ∧ map_ok (w_locks w).

Lemma executeRun_enter fuel rid (w : world) :
  unlocked rid w →
  executeRun fuel rid w =
    (let '(r, w') := execute_body fuel rid (entered rid w) in (r, unlock rid w')).
Proof.
  intros (Hl & Hk & _). unfold executeRun.
  rewrite (M_bind_eq_Ok _ _ w false w) by (unfold gets; by rewrite bool_decide_eq_false_2).
  rewrite (M_bind_eq_Ok _ _ w tt (with_localLocks (w_localLocks w ++ [rid]) w)) by done.
  rewrite (M_bind_eq_Ok _ _ _ (w_locks w) (with_localLocks (w_localLocks w ++ [rid]) w)) by done.
  rewrite (M_bind_eq_Ok _ _ _ (map_set (w_locks w) rid execution_owner)
    (with_localLocks (w_localLocks w ++ [rid]) w)).
  2: { unfold lift_outcome. by rewrite (acquire_free _ _ _ (or_introl Hk)). }
  by rewrite (M_bind_eq_Ok _ _ _ tt (entered rid w)).
Qed.

Lemma exec_inv_entered rid wf w : exec_inv rid w wf w → exec_inv rid (entered rid w) wf (entered rid w).
Proof.
  intros [Hok Hget Hid Hrid Hoth Hdis Hrun Hro Hau Hev Hct Hfr]. split; simpl; try done.
Qed.

(** Leaving restores both lock tables. *)
Lemma unlock_restores rid (w w' : world) :
  unlocked rid w → w_localLocks w' = w_localLocks (entered rid w) →
  w_locks w' = w_locks (entered rid w) →
  w_localLocks (unlock rid w') = w_localLocks w ∧ ∀ r, map_get (w_locks (unlock rid w')) r = map_get (w_locks w) r.
Proof.
  intros (Hl & Hk & Hok) Hl' Hk'. unfold unlock. simpl. rewrite Hl', Hk'. simpl. split.
  - rewrite List.filter_app. cbn. rewrite bool_decide_eq_true_2 by done. cbn. rewrite app_nil_r.
    clear -Hl. induction (w_localLocks w) as [|x l IH]; [done|]. cbn.
    rewrite bool_decide_eq_false_2 by set_solver. cbn. f_equal. apply IH. set_solver.
  - intros r. unfold release. rewrite bool_decide_eq_true_2 by apply map_get_set_eq.
    destruct (decide (rid = r)) as [<-|Hne].
    + rewrite Hk. apply map_get_delete_eq. by apply map_set_ok.
    + by rewrite map_get_delete_ne, map_get_set_ne.
Qed.

(** ** The body, from any state of the run *)

Lemma startRun_inv rid w0 wf (w : world) :
  exec_inv rid w0 wf w →
  ∃ wf', exec_inv rid w0 wf' (startRun wf w).2 ∧ w_dead (startRun wf w).2 = w_dead w
    ∧ (startRun wf w).1 ≠ OutOfFuel ∧ ∀ x, (startRun wf w).1 = Ok x → x = wf'.
Proof.
  intros Hinv. unfold startRun. case_bool_decide; [by apply applyTransition_inv|].
  exists wf. simpl. naive_solver.
Qed.

Lemma dead_letter_inv rid w0 def wf (w : world) :
  exec_inv rid w0 wf w →
  ∃ wf', exec_inv rid w0 wf' (dead_letter rid def wf w).2.
Proof.
  intros Hinv. unfold dead_letter. destruct (_ && _); [|by exists wf].
  destruct (applyTransition_inv rid w0 wf "dead_letter" DeadLettered execution_owner w Hinv)
    as (wf' & Hinv' & _ & _ & Hx).
  destruct (applyTransition wf "dead_letter" DeadLettered execution_owner w) as [[x|e|] w'] eqn:E; simpl in *.
  - rewrite (M_bind_eq_Ok _ _ _ _ _ E). exists wf'. by eapply exec_inv_irrelevant.
  - rewrite (M_bind_eq_Throw _ _ _ _ _ E). by exists wf'.
  - unfold mbind, M_bind. rewrite E. by exists wf'.
Qed.

Lemma require_cases {A} e (f : world → option A) (w : world) :
  (∃ a, f w = Some a ∧ require e f w = (Ok a, w)) ∨ (f w = None ∧ require e f w = (Throw e, w)).
Proof. unfold require. destruct (f w); eauto. Qed.

Lemma execute_body_inv rid w0 fuel wf (w : world) :
  exec_inv rid w0 wf w → ∃ wf', exec_inv rid w0 wf' (execute_body fuel rid w).2.
Proof.
  intros Hinv. unfold execute_body.
  destruct (require_cases (NotFoundError "JobRun" rid) (λ w, run_get rid (w_runs w)) w)
    as [(r & _ & Hr)|[_ Hr]]; [rewrite (M_bind_eq_Ok _ _ _ _ _ Hr)|rewrite (M_bind_eq_Throw _ _ _ _ _ Hr); eauto].
  destruct (require_cases (NotFoundError "JobDefinition" (run_jobId r)) (λ w, job_get (run_jobId r) (w_jobs w)) w)
    as [(def & _ & Hd)|[_ Hd]]; [rewrite (M_bind_eq_Ok _ _ _ _ _ Hd)|rewrite (M_bind_eq_Throw _ _ _ _ _ Hd); eauto].
  destruct (require_cases (NotFoundError "WorkflowInstance" rid) (λ w, workflow_of rid w) w)
    as [(wf1 & Hwf & Hw)|[_ Hw]]; [rewrite (M_bind_eq_Ok _ _ _ _ _ Hw)|rewrite (M_bind_eq_Throw _ _ _ _ _ Hw); eauto].
  rewrite (ei_get _ _ _ _ Hinv) in Hwf. injection Hwf as <-.
  destruct (startRun_inv rid w0 wf w Hinv) as (wf2 & Hinv2 & _ & Hnf & Hx).
  destruct (startRun wf w) as [[x|e|] w2] eqn:E; simpl in *; [|rewrite (M_bind_eq_Throw _ _ _ _ _ E); eauto|done].
  rewrite (M_bind_eq_Ok _ _ _ _ _ E). rewrite (Hx x eq_refl).
  destruct (execute_loop_inv rid w0 fuel def wf2 w2 Hinv2) as (wf3 & Hinv3 & _ & Hx3).
  destruct (execute_loop fuel def wf2 w2) as [[y|e|] w3] eqn:E3; simpl in *.
  - rewrite (M_bind_eq_Ok _ _ _ _ _ E3). rewrite (Hx3 y eq_refl). by apply dead_letter_inv.
  - rewrite (M_bind_eq_Throw _ _ _ _ _ E3). eauto.
  - unfold mbind, M_bind. rewrite E3. eauto.
Qed.

(** ** A new run *)

(** The run [rid] as [createRun] leaves it: pending, every task queued. *)
Record pending_run (rid : string) (def : JobDefinition) (wf : WorkflowInstance) (w : world) : Prop := {
  pr_inv : exec_inv rid w wf w;
  pr_job : ∃ r, run_of rid w = Some r ∧ job_get (run_jobId r) (w_jobs w) = Some def;
  pr_state : state wf = Pending;
  pr_matched : matched def (wf_tasks wf);
  pr_fresh : Forall (λ t, status t = TaskQueued ∧ attempt t = 0) (wf_tasks wf);
}.

(** How an execution of a new run ends. *)
Inductive run_end (def : JobDefinition) : outcome JsError unit → WorkflowInstance → Prop :=
| run_completed wf : state wf = Completed → Forall (succeeded (retryPolicy def)) (wf_tasks wf) → constraints_pass def wf →
    run_end def (Ok tt) wf
| run_failed wf t : state wf = Failed ∨ (state wf = DeadLettered ∧ maxAttempts (retryPolicy def) ≤ 1) →
    t ∈ wf_tasks wf → exhausted (retryPolicy def) t →
    (∀ t', t' ∈ wf_tasks wf → t' ≠ t → in_progress (retryPolicy def) t') →
    run_end def (Ok tt) wf
| run_blocked wf : state wf = Running → Forall (succeeded (retryPolicy def)) (wf_tasks wf) → ¬ constraints_pass def wf →
    run_end def (Throw (constraint_error def wf)) wf.

(** The attempts of every task at the end. *)
Lemma run_end_attempts def o wf :
  run_end def o wf → ∀ t, t ∈ wf_tasks wf →
  attempt t ≤ attempt_bound (retryPolicy def)
  ∧ (status t = TaskFailed → attempt t = attempt_bound (retryPolicy def)).
Proof.
  intros Hend t Ht.
  inversion Hend as [? ? Hs|? t0 ? Hin [Hs0 Ha0] Hoth|? ? Hs]; subst.
  - rewrite Forall_forall in Hs. destruct (Hs t Ht) as [? [? ?]]. split; [done|congruence].
  - destruct (decide (status t = TaskFailed ∧ attempt t = attempt_bound (retryPolicy def))) as [[? ->]|Hne].
    + done.
    + assert (t ≠ t0) as Hd by (intros ->; tauto).
      destruct (Hoth t Ht Hd) as [[? [? ?]]|[? [? ?]]]; (split; [lia|congruence]).
  - rewrite Forall_forall in Hs. destruct (Hs t Ht) as [? [? ?]]. split; [done|congruence].
Qed.

Lemma fresh_in_progress p ts :
  Forall (λ t, status t = TaskQueued ∧ attempt t = 0) ts → Forall (in_progress p) ts.
Proof.
  intros Hf. eapply Forall_impl; [exact Hf|]. intros t [Hs Ha]. left. split; [done|].
  unfold attempt_bound. lia.
Qed.

Lemma exhausted_attempts def ts t :
  matched def ts → t ∈ ts → exhausted (retryPolicy def) t →
  (∀ t', t' ∈ ts → t' ≠ t → in_progress (retryPolicy def) t') →
  2 ≤ maxAttempts (retryPolicy def) →
  total_attempts ts < maxAttempts (retryPolicy def) * Z.of_nat (length (tasks def)).
Proof.
  intros Hm Ht Hex Hoth Hma.
  assert (length ts = length (tasks def)) as Hlen.
  { rewrite <-(length_fmap definitionTaskId), (ma_ids _ _ Hm). apply length_fmap. }
  assert (total_attempts ts ≤ attempt_bound (retryPolicy def) * Z.of_nat (length ts)) as Hle.
  { apply total_attempts_le, Forall_forall. intros x Hx. destruct (decide (x.(tr_id) = t.(tr_id))) as [Hid|Hid].
    - rewrite (unique_run _ _ _ (ma_runs _ _ Hm) Ht Hx Hid). destruct Hex. lia.
    - destruct (Hoth x Hx) as [[_ ?]|[_ ?]]; [congruence|lia..]. }
  unfold attempt_bound in Hle. rewrite Hlen in Hle.
  assert (0 < Z.of_nat (length (tasks def))) by (rewrite <-Hlen; destruct ts; [set_solver|simpl; lia]). nia.
Qed.

Lemma dead_letter_enabled wf : state wf = Failed → enabled wf "dead_letter" DeadLettered.
Proof. intros Hst. split; [by unfold evaluate_guard|by rewrite Hst]. Qed.

Lemma execute_body_end rid w0 def fuel wf (w : world) :
  executable def → exec_inv rid w0 wf w → state wf = Pending → matched def (wf_tasks wf) →
  Forall (λ t, status t = TaskQueued ∧ attempt t = 0) (wf_tasks wf) →
  (∃ r, run_of rid w = Some r ∧ job_get (run_jobId r) (w_jobs w) = Some def) →
  (Z.to_nat (attempt_bound (retryPolicy def)) * length (tasks def) < fuel)%nat →
  ∃ o wf' w', execute_body fuel rid w = (o, w') ∧ exec_inv rid w0 wf' w' ∧ run_end def o wf'
    ∧ matched def (wf_tasks wf') ∧ context wf' = context wf
    ∧ (state wf' = DeadLettered ∨ w_dead w' = w_dead w)
    ∧ (w_calls w' ≤ w_calls w + Z.to_nat (attempt_bound (retryPolicy def)) * length (tasks def))%nat
    ∧ (tasks_succeed def (context wf) (w_calls w) →
         state wf' ≠ Failed ∧ state wf' ≠ DeadLettered ∧ Forall first_try (wf_tasks wf'))
    ∧ Forall (explained def (context wf)) (wf_tasks wf').
Proof.
  intros Hex Hinv Hst Hm Hfresh (r & Hr & Hd) Hfuel. unfold execute_body.
  rewrite (M_bind_eq_Ok _ _ w r w) by (unfold require; by rewrite Hr).
  rewrite (M_bind_eq_Ok _ _ w def w) by (unfold require; by rewrite Hd).
  rewrite (M_bind_eq_Ok _ _ w wf w) by (unfold require; by rewrite (ei_get _ _ _ _ Hinv)).
  unfold startRun. rewrite bool_decide_eq_true_2 by done.
  destruct (applyTransition_Ok rid w0 wf "start" Running "orchestrator" w Hinv)
    as (wf1 & w1 & Happ & Hinv1 & Hst1 & Hts1 & Hctx1 & _ & Hd1 & Hc1).
  { split; [|by rewrite Hst]. unfold evaluate_guard. by rewrite Hst. }
  rewrite (M_bind_eq_Ok _ _ _ _ _ Happ).
  assert (length (wf_tasks wf) = length (tasks def)) as Hlen.
  { rewrite <-(length_fmap definitionTaskId), (ma_ids _ _ Hm). apply length_fmap. }
  assert (work_left (retryPolicy def) (wf_tasks wf1)
    ≤ Z.to_nat (attempt_bound (retryPolicy def)) * length (tasks def))%nat as Hwork.
  { rewrite Hts1, <-Hlen. by apply work_left_bound, fresh_in_progress. }
  destruct (execute_loop_end rid w0 def fuel wf1 w1 Hex Hinv1)
    as (o & wf2 & w2 & Hloop & Hinv2 & Hend & Hm2 & Hctx2 & Hd2 & Hc2 & Hall & Hexp).
  { split; [done|by rewrite Hts1|]. rewrite Hts1. by apply fresh_in_progress. }
  { lia. }
  assert (Forall (explained def (context wf)) (wf_tasks wf2)) as Hexp'.
  { rewrite <-Hctx1. apply Hexp. rewrite Hts1. eapply Forall_impl; [exact Hfresh|]. intros t [Hs _] ?. congruence. }
  assert (tasks_succeed def (context wf) (w_calls w) → state wf2 ≠ Failed ∧ Forall first_try (wf_tasks wf2)) as Hall'.
  { intros Ha. apply Hall; [by rewrite Hc1, Hctx1|]. rewrite Hts1. eapply Forall_impl; [exact Hfresh|].
    intros t [Hs Hat]. unfold first_try. by rewrite Hs, decide_False. }
  inversion Hend as [wf3 Hs3 Hok3 Hcp|wf3 t Hs3 Hin3 Hex3 Hoth3|wf3 Hs3 Hok3 Hcp]; subst.
  - rewrite (M_bind_eq_Ok _ _ _ _ _ Hloop). unfold dead_letter.
    rewrite Hs3. exists (Ok tt), wf2, w2. split; [done|]. split; [done|]. split; [by apply run_completed|].
    split; [done|]. split; [congruence|]. split; [right; congruence|]. split; [lia|].
    split; [|done]. intros Ha. destruct (Hall' Ha). split; [done|]. split; [congruence|done].
  - rewrite (M_bind_eq_Ok _ _ _ _ _ Hloop). unfold dead_letter. rewrite Hs3.
    rewrite bool_decide_eq_true_2 by done. cbn [andb].
    destruct (Z.leb_spec (maxAttempts (retryPolicy def) * Z.of_nat (length (tasks def)))
      (total_attempts (wf_tasks wf2))) as [Hle|Hlt].
    + destruct (applyTransition_Ok rid w0 wf2 "dead_letter" DeadLettered execution_owner w2 Hinv2)
        as (wf4 & w4 & Happ4 & Hinv4 & Hst4 & Hts4 & Hctx4 & _ & Hd4 & Hc4); [by apply dead_letter_enabled|].
      rewrite (M_bind_eq_Ok _ _ _ _ _ Happ4). eexists (Ok tt), wf4, _. split; [reflexivity|].
      split; [by eapply exec_inv_irrelevant|].
      split. { apply (run_failed _ _ t).
        - right. split; [done|]. apply Z.le_ngt. intros Hgt.
          pose proof (exhausted_attempts def _ t Hm2 Hin3 Hex3 Hoth3). lia.
        - by rewrite Hts4.
        - done.
        - by rewrite Hts4. }
      split; [by rewrite Hts4|]. split; [congruence|]. split; [by left|]. split; [simpl; lia|].
      split; [|by rewrite Hts4]. intros Ha. by destruct (Hall' Ha).
    + exists (Ok tt), wf2, w2. split; [done|]. split; [done|].
      split; [by apply (run_failed _ _ t); auto|]. split; [done|]. split; [congruence|].
      split; [right; congruence|]. split; [lia|]. split; [|done]. intros Ha. by destruct (Hall' Ha).
  - rewrite (M_bind_eq_Throw _ _ _ _ _ Hloop). eexists _, wf2, w2. split; [done|]. split; [done|].
    split; [by apply run_blocked|]. split; [done|]. split; [congruence|]. split; [right; congruence|].
    split; [lia|]. split; [|done]. intros Ha. destruct (Hall' Ha). split; [done|]. split; [congruence|done].
Qed.
End execution.
