(* ===== verification/Registration.v ===== *)
(** * Job registration and run creation

    services/job-service.ts over the schema of config/schema.ts, and what
    [Engine.createRun] (services/workflow-service.ts) leaves behind. *)

From S2P Require Import Prelude JsMap JsString Graph JsNum DomainTypes JsValue Domain Retry Transitions Locks Stores Metrics Handlers Validator Expressions Constraints Threads Engine EngineThreads ExecInv Execution.
From Stdlib Require Import QArith.
Open Scope Z_scope.

(** ** The input schema (config/schema.ts)

    An input whose fields have the right types; [z.number().int()] makes the
    numbers integers.  The text of a schema error is the library's. *)

Record JobDefinitionInput : Type := mkInput {
  in_id : string;
  in_name : string;
  in_version : Z;
  in_description : option string;
  in_tasks : list TaskDefinition;
  in_constraints : option (list JobConstraint);
  in_retryPolicy : option RetryPolicy;
  in_allowedTransitions : option (list string);
  in_metadata : option (jsmap string string);
}.

Definition task_schema_ok (t : TaskDefinition) : bool :=
  truthy_string (td_id t) && truthy_string (td_name t) && truthy_string (handler t) && (0 <? timeoutMs t).

Definition retryPolicySchema_ok (p : RetryPolicy) : bool :=
  (1 <=? maxAttempts p) && (maxAttempts p <=? 20) && (0 <=? initialDelayMs p)
  && Qle_bool 1 (backoffMultiplier p) && (0 <=? maxDelayMs p).

Definition jobDefinitionInputSchema_ok (i : JobDefinitionInput) : bool :=
  truthy_string (in_id i) && truthy_string (in_name i) && (0 <? in_version i)
  && negb (bool_decide (in_tasks i = [])) && forallb task_schema_ok (in_tasks i)
  && match in_retryPolicy i with Some p => retryPolicySchema_ok p | None => true end.

Lemma retryPolicySchema_valid p : retryPolicySchema_ok p = true ↔ policy_valid p.
Proof.
  unfold retryPolicySchema_ok, policy_valid. rewrite !andb_true_iff, !Z.leb_le, Qle_bool_iff. tauto.
Qed.

Lemma default_policy_valid : policy_valid DEFAULT_RETRY_POLICY.
Proof. by apply retryPolicySchema_valid. Qed.

Section registration.
Context {JS WS RS : Type} `{JobDefinitionStoreLaws JS} `{!WorkflowStore WS} `{!WorkflowStoreLaws WS}
  `{!RunStore RS} `{!RunStoreLaws RS} `{Environment}.
Notation world := (world JS WS RS).
Notation workflow_of rid w := (workflow_getByRunId rid (w_workflows w)).

(** The definition built from a parsed input, its tasks resolved. *)
Definition definition_of (reg : HandlerRegistry) (i : JobDefinitionInput) (id now_ : string)
    : JobDefinition :=
  mkJobDefinition id (in_name i) (in_version i) (in_description i) (resolveTasks reg (in_tasks i))
    (default [] (in_constraints i)) (default DEFAULT_RETRY_POLICY (in_retryPolicy i))
    (default [] (in_allowedTransitions i)) (default [] (in_metadata i)) now_ now_.

(** The checks between parsing and saving, in order. *)
Definition registration_checks (reg : HandlerRegistry) (i : JobDefinitionInput) (def : JobDefinition)
    : res unit :=
  _ ← ofold (λ t (_ : unit), assertKnown reg (handler t)) (in_tasks i) tt;
  _ ← validate def;
  validateDependencyOrder (tasks def).

Definition register (zod_message : JobDefinitionInput → string) (reg : HandlerRegistry) (i : JobDefinitionInput) : eff world JobDefinition :=
  _ ← lift_outcome (if jobDefinitionInputSchema_ok i then Ok tt else Throw (ZodError (zod_message i)));
  id ← (if truthy_string (in_id i) then mret (in_id i) else new_id "job_");
  now_ ← now;
  let def := definition_of reg i id now_ in
  _ ← lift_outcome (registration_checks reg i def);
  _ ← modify (λ w, with_jobs (job_save def (w_jobs w)) w);
  mret def.

Definition get_job (id : string) : eff world JobDefinition :=
  require (NotFoundError "JobDefinition" id) (λ w, job_get id (w_jobs w)).

Definition list_jobs : eff world (list JobDefinition) := gets (λ w, job_list (w_jobs w)).

(** What registration promises of a definition. *)
Record registered (reg : HandlerRegistry) (def : JobDefinition) : Prop := {
  rg_well_formed : well_formed def;
  rg_acyclic : acyclic (tasks def);
  rg_handlers : Forall (task_resolved reg) (tasks def);
  rg_policy : policy_valid (retryPolicy def);
}.

Lemma checks_known reg ts :
  ofold (λ t (_ : unit), assertKnown reg (handler t)) ts tt = Ok tt
  ↔ ∀ t, t ∈ ts → is_Some (get_handler reg (handler t)).
Proof.
  induction ts as [|t ts IH]; cbn [ofold]; [split; [set_solver|done]|].
  destruct (assertKnown reg (handler t)) as [[]| |] eqn:E; cbn.
  - rewrite IH. apply assertKnown_Ok in E. setoid_rewrite elem_of_cons. naive_solver.
  - split; [done|]. intros Hall. assert (assertKnown reg (handler t) = Ok tt) by
      (apply assertKnown_Ok, Hall; set_solver). congruence.
  - split; [done|]. intros Hall. assert (assertKnown reg (handler t) = Ok tt) by
      (apply assertKnown_Ok, Hall; set_solver). congruence.
Qed.

Lemma assertKnown_total reg h : assertKnown reg h ≠ OutOfFuel.
Proof. unfold assertKnown. by destruct (map_has reg h). Qed.

Lemma validateDependencyOrder_Ok ts : validateDependencyOrder ts = Ok tt ↔ acyclic ts.
Proof.
  rewrite <-dep_search_iff. unfold validateDependencyOrder.
  destruct (search _ _ _); naive_solver.
Qed.

Lemma registration_checks_Ok reg i def :
  registration_checks reg i def = Ok tt ↔
  (∀ t, t ∈ in_tasks i → is_Some (get_handler reg (handler t))) ∧ well_formed def ∧ acyclic (tasks def).
Proof.
  unfold registration_checks. rewrite <-checks_known, <-validate_iff, <-validateDependencyOrder_Ok.
  destruct (ofold _ _ _) as [[]| |]; cbn; [|naive_solver..].
  destruct (validate def) as [[]| |]; cbn; naive_solver.
Qed.

Lemma registration_checks_total reg i def : registration_checks reg i def ≠ OutOfFuel.
Proof.
  unfold registration_checks.
  assert (∀ ts, ofold (λ t (_ : unit), assertKnown reg (handler t)) ts tt ≠ OutOfFuel) as Hk.
  { intros ts. induction ts as [|t ts IH]; cbn [ofold]; [done|].
    pose proof (assertKnown_total reg (handler t)). destruct (assertKnown reg (handler t)) as [[]| |]; done. }
  specialize (Hk (in_tasks i)). destruct (ofold _ _ _) as [[]| |]; cbn; [|done..].
  unfold validate. destruct (validation_errors def); cbn; [|done].
  unfold validateDependencyOrder. pose proof (dep_search_total (tasks def)).
  by destruct (search _ _ _).
Qed.

(** [register] in closed form. *)
Lemma register_eq zod_message reg i (w : world) :
  register zod_message reg i w =
    if jobDefinitionInputSchema_ok i then
      let w1 := with_ticks (S (w_ticks w)) w in
      let def := definition_of reg i (in_id i) (nowIso (w_ticks w)) in
      match registration_checks reg i def with
      | Ok _ => (Ok def, with_jobs (job_save def (w_jobs w1)) w1)
      | Throw e => (Throw e, w1)
      | OutOfFuel => (OutOfFuel, w1)
      end
    else (Throw (ZodError (zod_message i)), w).
Proof.
  unfold register. destruct (jobDefinitionInputSchema_ok i) eqn:Hok; [|done].
  assert (truthy_string (in_id i) = true) as Hid.
  { unfold jobDefinitionInputSchema_ok in Hok. rewrite !andb_true_iff in Hok. tauto. }
  rewrite Hid. unfold mbind, M_bind, lift_outcome, mret, M_ret, now, modify.
  by destruct (registration_checks _ _ _) as [[]| |].
Qed.

(** A registration ends, and stores under the id it is given. *)
Lemma register_id zod_message reg i (w : world) :
  match (register zod_message reg i w).1 with
  | Ok def => jd_id def = in_id i
  | Throw _ => True
  | OutOfFuel => False
  end.
Proof.
  rewrite register_eq. destruct (jobDefinitionInputSchema_ok i); [|done]. cbv zeta.
  pose proof (registration_checks_total reg i (definition_of reg i (in_id i) (nowIso (w_ticks w)))) as Ht.
  by destruct (registration_checks _ _ _).
Qed.

(** The checks pass exactly when the resulting definition is [registered]. *)
Lemma checks_registered reg i id now_ :
  jobDefinitionInputSchema_ok i = true →
  registration_checks reg i (definition_of reg i id now_) = Ok tt
  ↔ registered reg (definition_of reg i id now_).
Proof.
  intros Hok. rewrite registration_checks_Ok. split.
  - intros (Hk & Hwf & Hac). split; [done|done| |].
    + simpl. unfold resolveTasks. apply Forall_fmap, Forall_forall. intros t Ht.
      by apply resolve_task_resolved, Hk.
    + simpl. destruct (in_retryPolicy i) as [p|] eqn:Hp; [|apply default_policy_valid].
      apply retryPolicySchema_valid. unfold jobDefinitionInputSchema_ok in Hok.
      rewrite Hp, !andb_true_iff in Hok. tauto.
  - intros [Hwf Hac Hh _]. split; [|done]. intros t Ht. simpl in Hh. unfold resolveTasks in Hh.
    rewrite Forall_fmap, Forall_forall in Hh. destruct (Hh t Ht) as (m & Hm & _).
    rewrite resolve_task_handler in Hm. by exists m.
Qed.

Lemma registered_executable reg def : registered reg def → executable def.
Proof.
  intros [[_ _ Hok _] Hac _ _]. split; [|done]. intros t d Ht Hd.
  rewrite Forall_forall in Hok. by apply (Hok t Ht).
Qed.

(** ** Creating a run *)

(** The assumption on [randomUUID]: the 12 characters kept of different calls
    among the [n] from number [k] on differ. *)
Definition uuids_distinct (k n : nat) : Prop :=
  NoDup ((λ i, slice_to (randomUUID i) 12) <$> seq k n).

Definition id_at (prefix : string) (k : nat) : string := prefix +:+ slice_to (randomUUID k) 12.

Lemma id_at_NoDup prefix k n : uuids_distinct k n → NoDup (id_at prefix <$> seq k n).
Proof.
  unfold uuids_distinct, id_at. intros Hu.
  change (NoDup ((String.append prefix ∘ (λ i, slice_to (randomUUID i) 12)) <$> seq k n)).
  rewrite list_fmap_compose.
  apply NoDup_fmap_2; [apply _|done].
Qed.

Lemma id_at_inj prefix k n i j :
  uuids_distinct k n → (k ≤ i < k + n)%nat → (k ≤ j < k + n)%nat → id_at prefix i = id_at prefix j → i = j.
Proof.
  intros Hu Hi Hj Heq.
  assert (∀ x, (k ≤ x < k + n)%nat → (id_at prefix <$> seq k n) !! (x - k)%nat = Some (id_at prefix x)) as Hl.
  { intros x Hx. rewrite list_lookup_fmap, lookup_seq_lt by lia. simpl. do 2 f_equal. lia. }
  pose proof (NoDup_lookup _ (i - k) (j - k) (id_at prefix i) (id_at_NoDup prefix k n Hu) (Hl i Hi)) as Hij.
  rewrite Heq in Hij. specialize (Hij (Hl j Hj)). lia.
Qed.

Lemma uuids_distinct_sub k n k' n' :
  uuids_distinct k n → (k ≤ k')%nat → (k' + n' ≤ k + n)%nat → uuids_distinct k' n'.
Proof.
  unfold uuids_distinct. intros Hu Hk Hn. replace n with ((k' - k) + (n' + (k + n - (k' + n'))))%nat in Hu by lia.
  rewrite !seq_app, !fmap_app, !NoDup_app in Hu. replace (k + (k' - k))%nat with k' in Hu by lia. tauto.
Qed.

(** The ids of the next run and workflow are not in use. *)
Definition ids_unused (w : world) : Prop :=
  ∀ r wf, workflow_of r w = Some wf → wf_id wf ≠ id_at "wf_" (S (w_uuids w)).

Lemma create_task_runs_spec rid ts (w : world) :
  ∃ runs, create_task_runs rid ts w = (Ok runs, with_uuids (w_uuids w + length ts)%nat w)
    ∧ definitionTaskId <$> runs = td_id <$> ts
    ∧ tr_id <$> runs = id_at "task_" <$> seq (w_uuids w) (length ts)
    ∧ Forall (λ t, status t = TaskQueued ∧ attempt t = 0) runs.
Proof.
  revert w. induction ts as [|t ts IH]; intros w; cbn [create_task_runs].
  - exists []. split; [|done]. cbn. rewrite Nat.add_0_r. by destruct w.
  - rewrite (M_bind_eq_Ok _ _ w (id_at "task_" (w_uuids w)) (with_uuids (S (w_uuids w)) w)) by done.
    destruct (IH (with_uuids (S (w_uuids w)) w)) as (runs & Hr & Hd & Hi & Hf).
    rewrite (M_bind_eq_Ok _ _ _ _ _ Hr). eexists. split; [|split; [|split]].
    + unfold mret, M_ret. f_equal. unfold with_uuids. simpl. f_equal. lia.
    + by rewrite !fmap_cons, Hd.
    + cbn [length seq]. by rewrite !fmap_cons, Hi.
    + by constructor.
Qed.

(** What is drawn for a new run. *)
Record drawn (jobId trig : string) (input : jsrecord) (def : JobDefinition) (k : nat)
    (run : JobRun) (wf : WorkflowInstance) : Prop := {
  dr_run : run_id run = id_at "run_" k ∧ run_jobId run = jobId ∧ run_status run = Pending;
  dr_wf : wf_id wf = id_at "wf_" (S k) ∧ wf_runId wf = run_id run ∧ state wf = Pending ∧ context wf = input;
  dr_matched : matched def (wf_tasks wf);
  dr_fresh : Forall (λ t, status t = TaskQueued ∧ attempt t = 0) (wf_tasks wf);
  dr_audited : audited DEFAULT_TRANSITION_RULES wf;
}.

Lemma new_run_spec jobId trig input def (w : world) :
  uuids_distinct (S (S (w_uuids w))) (length (tasks def)) → NoDup (td_id <$> tasks def) →
  ∃ run wf, new_run jobId trig input def w
      = (Ok (run, wf), with_uuids (S (S (w_uuids w)) + length (tasks def)) (with_ticks (S (w_ticks w)) w))
    ∧ drawn jobId trig input def (w_uuids w) run wf.
Proof.
  intros Hu Hnd. unfold new_run.
  rewrite (M_bind_eq_Ok _ _ w (id_at "run_" (w_uuids w)) (with_uuids (S (w_uuids w)) w)) by done.
  set (w1 := with_uuids (S (w_uuids w)) w).
  rewrite (M_bind_eq_Ok _ _ w1 (id_at "wf_" (S (w_uuids w))) (with_uuids (S (S (w_uuids w))) w1)) by done.
  set (w2 := with_uuids (S (S (w_uuids w))) w1).
  rewrite (M_bind_eq_Ok _ _ w2 (nowIso (w_ticks w)) (with_ticks (S (w_ticks w)) w2)) by done.
  set (w3 := with_ticks (S (w_ticks w)) w2).
  destruct (create_task_runs_spec (id_at "run_" (w_uuids w)) (tasks def) w3) as (runs & Hruns & Hd & Hi & Hf).
  rewrite (M_bind_eq_Ok _ _ _ _ _ Hruns). eexists _, _. split; [reflexivity|]. split; simpl; try done.
  - split; [done|done|]. rewrite Hi. by apply id_at_NoDup.
  - by split; [constructor|].
Qed.

(** [createRun] stores what is drawn. *)
Lemma createRun_stores jobId trig input def run wf (w w' : world) :
  job_get jobId (w_jobs w) = Some def → new_run jobId trig input def w = (Ok (run, wf), w') →
  createRun jobId trig input w = (Ok (run, wf, def),
    with_runs (run_save run (w_runs w')) (with_workflows (workflow_save wf (w_workflows w')) w')).
Proof.
  intros Hget Hnew. rewrite <-run_createRun. unfold createRun_async.
  rewrite run_bind. unfold mbind at 1, M_bind at 1. rewrite run_awaiting_atomic. cbn -[new_run]. rewrite Hget. cbn -[new_run].
  rewrite Hnew. cbn. done.
Qed.

Lemma createRun_spec jobId trig input def (w : world) :
  uuids_distinct (S (S (w_uuids w))) (length (tasks def)) →
  workflow_store_ok (w_workflows w) → ids_unused w →
  job_get jobId (w_jobs w) = Some def → NoDup (td_id <$> tasks def) →
  ∃ run wf w', createRun jobId trig input w = (Ok (run, wf, def), w')
    ∧ run_id run = id_at "run_" (w_uuids w) ∧ context wf = input
    ∧ pending_run (run_id run) def wf w'
    ∧ w_localLocks w' = w_localLocks w ∧ w_locks w' = w_locks w ∧ w_jobs w' = w_jobs w
    ∧ w_events w' = w_events w ∧ w_calls w' = w_calls w ∧ w_dead w' = w_dead w
    ∧ ∀ r, r ≠ run_id run →
        workflow_of r w' = workflow_of r w ∧ run_get r (w_runs w') = run_get r (w_runs w).
Proof.
  intros Hu Hok Hids Hget Hnd.
  destruct (new_run_spec jobId trig input def w Hu Hnd) as (run & wf & Hnew & [(Hrid & Hj & Hrs) (Hwid & Hwr & Hst & Hctx) Hm Hf Ha]).
  assert (wf_id wf ≠ "") as Hne by (by rewrite Hwid; unfold id_at; simpl).
  assert (∀ r, r ≠ wf_runId wf →
    workflow_getByRunId r (workflow_save wf (w_workflows w)) = workflow_of r w) as Hoth.
  { intros r Hr. apply workflow_getByRunId_save_ne; [done|done|]. intros w'. rewrite Hwid. apply Hids. }
  exists run, wf. eexists. split; [by apply createRun_stores|]. split; [done|]. split; [done|]. simpl. split; [|repeat split].
  - rewrite <-Hwr. split; simpl; [|exists run; rewrite run_get_save, decide_True by done; by rewrite Hj|done..].
    split; simpl; try done.
    + by apply workflow_save_ok.
    + by apply workflow_getByRunId_save.
    + intros r w' Hr. rewrite Hoth, Hwid by done. apply Hids.
    + exists run. rewrite run_get_save. rewrite decide_True by done. by rewrite Hst.
    + exists []. by rewrite app_nil_r.
  - apply Hoth. by rewrite Hwr.
  - rewrite run_get_save, decide_False; [done|]. congruence.
Qed.
End registration.
