(* ===== verification/Concurrency.v ===== *)
(** * Concurrent executions

    Any number of calls of [ExecutionService.executeRun] whose blocks interleave
    at every [await].  Each execution relies on the others leaving its run alone
    and guarantees as much to them; the lock tables make calls for one run
    exclusive. *)

From S2P Require Import Prelude Threads JsMap JsString Graph JsNum DomainTypes JsValue Domain Retry Transitions Locks Stores Metrics Validator Expressions Constraints Engine EngineThreads ExecInv Execution.
From stdpp Require Import relations.
Open Scope Z_scope.

(** The jobs whose definitions stay as they are. *)
Class FixedJobs : Type := fixed_job : string → Prop.
Definition every_job : FixedJobs := λ _, True.

Section concurrency.
Context {JS WS RS : Type} `{JobDefinitionStoreLaws JS} `{!WorkflowStore WS} `{!WorkflowStoreLaws WS}
  `{!RunStore RS} `{!RunStoreLaws RS} `{Environment} `{!FixedJobs}.
Notation world := (world JS WS RS).
Notation async := (thread JsError world).
Notation rules := DEFAULT_TRANSITION_RULES.
Notation workflow_of rid w := (workflow_getByRunId rid (w_workflows w)).
Notation run_of rid w := (run_get rid (w_runs w)).

(** ** What executions rely on *)

(** No other run's workflow has the id of this run's. *)
Definition ids_apart (rid : string) (w : world) : Prop :=
  ∀ wf r wf', workflow_of rid w = Some wf → r ≠ rid → workflow_of r w = Some wf' → wf_id wf' ≠ wf_id wf.

(** What the others do to the run [rid], and to the definitions it may have:
    nothing. *)
Record rely (rid : string) (w w' : world) : Prop := {
  re_workflow : workflow_of rid w' = workflow_of rid w;
  re_run : run_of rid w' = run_of rid w;
  re_ok : workflow_store_ok (w_workflows w) → workflow_store_ok (w_workflows w');
  re_apart : ids_apart rid w → ids_apart rid w';
  re_jobs : ∀ id, fixed_job id → job_get id (w_jobs w') = job_get id (w_jobs w);
  re_local : rid ∈ w_localLocks w' ↔ rid ∈ w_localLocks w;
  re_lock : map_get (w_locks w') rid = map_get (w_locks w) rid;
  re_locks : map_ok (w_locks w) → map_ok (w_locks w');
}.

(** What an execution of [rid] does: nothing to the others, and its own workflow
    keeps its id. *)
Record guar (rid : string) (w w' : world) : Prop := {
  gu_others : ∀ r, r ≠ rid → rely r w w';
  gu_id : wf_id <$> workflow_of rid w' = wf_id <$> workflow_of rid w;
  gu_uuids : w_uuids w' = w_uuids w;
}.

#[export] Instance rely_preorder rid : PreOrder (rely rid).
Proof.
  split; [by split|]. intros w1 w2 w3 [] []. split; try congruence; try tauto.
  intros id Hf. rewrite re_jobs1 by done. by apply re_jobs0.
Qed.

#[export] Instance guar_preorder rid : PreOrder (guar rid).
Proof.
  split; [by split|]. intros w1 w2 w3 [Hs1 ? ?] [Hs2 ? ?]. split; [|congruence..].
  intros r Hr. etrans; [by apply Hs1|by apply Hs2].
Qed.

(** Steps that touch neither stores nor locks. *)
Record quiet (w w' : world) : Prop := {
  qu_workflows : w_workflows w' = w_workflows w;
  qu_runs : w_runs w' = w_runs w;
  qu_jobs : w_jobs w' = w_jobs w;
  qu_local : w_localLocks w' = w_localLocks w;
  qu_locks : w_locks w' = w_locks w;
  qu_uuids : w_uuids w' = w_uuids w;
}.

Lemma quiet_rely rid w w' : quiet w w' → rely rid w w'.
Proof. intros [Hw Hr Hj Hl Hk _]. split; unfold ids_apart; rewrite ?Hw, ?Hr, ?Hj, ?Hl, ?Hk; done. Qed.

Lemma quiet_guar rid w w' : quiet w w' → guar rid w w'.
Proof. intros Hq. split; [intros r _; by apply quiet_rely|by rewrite (qu_workflows _ _ Hq)|apply Hq]. Qed.

(** ** What an execution owns *)

(** The execution of [rid] holds its locks; the store has its workflow [wf] and
    its run, with status [st]. *)
Record owned (rid : string) (wf : WorkflowInstance) (st : WorkflowState) (w : world) : Prop := {
  ow_ok : workflow_store_ok (w_workflows w);
  ow_get : workflow_of rid w = Some wf;
  ow_id : wf_id wf ≠ "";
  ow_rid : wf_runId wf = rid;
  ow_apart : ids_apart rid w;
  ow_run : ∃ r, run_of rid w = Some r ∧ run_id r = rid ∧ run_status r = st;
  ow_audited : audited rules wf;
  ow_local : rid ∈ w_localLocks w;
  ow_lock : map_get (w_locks w) rid = Some execution_owner;
  ow_locks : map_ok (w_locks w);
}.

Lemma owned_stable rid wf st w w' : owned rid wf st w → rely rid w w' → owned rid wf st w'.
Proof.
  intros [] []. split; rewrite ?re_workflow0, ?re_run0, ?re_lock0; auto. by apply re_local0.
Qed.

Lemma owned_quiet rid wf st w w' : owned rid wf st w → quiet w w' → owned rid wf st w'.
Proof. intros Ho Hq. by eapply owned_stable, quiet_rely. Qed.

Lemma save_workflow_other rid wf st wf' (w : world) r :
  owned rid wf st w → wf_id wf' = wf_id wf → wf_runId wf' = rid → r ≠ rid →
  workflow_getByRunId r (workflow_save wf' (w_workflows w)) = workflow_of r w.
Proof.
  intros Ho Hid Hr Hne. apply workflow_getByRunId_save_ne; [apply Ho|congruence|].
  intros w' Hw'. rewrite Hid. by apply (ow_apart _ _ _ _ Ho wf r); [apply Ho| |].
Qed.

Lemma save_workflow_get rid wf st wf' (w : world) :
  owned rid wf st w → wf_id wf' = wf_id wf → wf_runId wf' = rid →
  workflow_getByRunId rid (workflow_save wf' (w_workflows w)) = Some wf'.
Proof.
  intros Ho Hid Hr. rewrite <-Hr. apply workflow_getByRunId_save. rewrite Hid. apply Ho.
Qed.

(** Saving the workflow of the run one owns. *)
Lemma owned_save_workflow rid wf st wf' (w : world) :
  owned rid wf st w → wf_id wf' = wf_id wf → wf_runId wf' = rid → audited rules wf' →
  let w' := with_workflows (workflow_save wf' (w_workflows w)) w in
  guar rid w w' ∧ owned rid wf' st w'.
Proof.
  intros Ho Hid Hr Ha w'.
  pose proof (save_workflow_get rid wf st wf' w Ho Hid Hr) as Hget.
  assert (∀ r, r ≠ rid → workflow_of r w' = workflow_of r w) as Hoth
    by (intros r; by apply (save_workflow_other rid wf st)).
  split.
  - split; [|by simpl; rewrite Hget, (ow_get _ _ _ _ Ho); simpl; rewrite Hid|done].
    intros r Hne. split; try done.
    + by apply Hoth.
    + simpl. apply workflow_save_ok.
    + intros Hap x r' x' Hx Hr' Hx'. rewrite Hoth in Hx by done.
      destruct (decide (r' = rid)) as [->|Hr'n].
      * simpl in Hx'. rewrite Hget in Hx'. injection Hx' as <-. rewrite Hid.
        by apply (Hap x rid wf); [|done|apply Ho].
      * rewrite Hoth in Hx' by done. by eapply Hap.
  - destruct Ho. split; try done.
    + simpl. by apply workflow_save_ok.
    + congruence.
    + intros x r x' Hx Hne Hx'. simpl in Hx. rewrite Hget in Hx. injection Hx as <-.
      rewrite Hoth in Hx' by done. rewrite Hid. by eapply ow_apart0.
Qed.

(** Saving the record of the run one owns. *)
Lemma owned_save_run rid wf st r' (w : world) :
  owned rid wf st w → run_id r' = rid →
  let w' := with_runs (run_save r' (w_runs w)) w in
  guar rid w w' ∧ owned rid wf (run_status r') w'.
Proof.
  intros Ho Hid w'. split.
  - split; [|done..]. intros r Hne. split; try done. simpl. by rewrite run_get_save, decide_False by congruence.
  - destruct Ho. split; try done. exists r'. simpl. by rewrite run_get_save, decide_True.
Qed.

(** ** Transitions *)

(** What holds whenever the execution is suspended. *)
Definition holding (rid : string) (w : world) : Prop := ∃ wf st, owned rid wf st w.

Lemma owned_holding rid wf st w : owned rid wf st w → holding rid w.
Proof. unfold holding. eauto. Qed.
#[local] Hint Resolve owned_holding : core.

Notation wp rid := (wp (rely rid) (guar rid) (holding rid)).

(** A transition done, or refused with nothing changed. *)
Definition transitioned (rid : string) (wf : WorkflowInstance) (event : string) (target : WorkflowState)
    (o : res WorkflowInstance) (w : world) : Prop :=
  (enabled wf event target ∧ ∃ wf', o = Ok wf' ∧ owned rid wf' target w ∧ state wf' = target
     ∧ wf_tasks wf' = wf_tasks wf ∧ context wf' = context wf)
  ∨ (¬ enabled wf event target ∧ (∃ e, o = Throw e) ∧ owned rid wf (state wf) w).

Lemma transitioned_stable rid wf event target o w w' :
  transitioned rid wf event target o w → rely rid w w' → transitioned rid wf event target o w'.
Proof.
  intros [(He & wf' & -> & Ho & ?)|(He & Hth & Ho)] Hr; [left|right].
  - split; [done|]. exists wf'. split; [done|]. split; [by eapply owned_stable|done].
  - split; [done|]. split; [done|by eapply owned_stable].
Qed.

Lemma wp_applyTransition rid wf event target actor w :
  owned rid wf (state wf) w →
  wp rid (transitioned rid wf event target) 3 (applyTransition_async wf event target actor) w.
Proof.
  intros Ho. unfold applyTransition_async.
  destruct (evaluate_guard_cases wf event target) as [Hg|[msg Hg]].
  2: { eapply wp_throw; [unfold lift_outcome; by rewrite Hg|done|].
       right. split; [by intros [Hg' _]; rewrite Hg in Hg'|]. eauto. }
  eapply wp_step; [unfold lift_outcome; by rewrite Hg|done|].
  destruct (canTransition rules (state wf) target event) eqn:Hc.
  2: { destruct (transition_denied rules wf event target actor None (nowIso (w_ticks w)) (nowIso (S (w_ticks w))) Hc)
         as [msg Hm]. eapply wp_throw; [unfold machine_transition; by rewrite Hm|done|].
       right. split; [by intros [_ Hc']; rewrite Hc in Hc'|]. eauto. }
  assert (enabled wf event target) as Hen by done.
  destruct (transition rules wf event target actor None (nowIso (w_ticks w)) (nowIso (S (w_ticks w))))
    as [next| |] eqn:Ht.
  2,3: by (unfold transition, assertTransition in Ht; rewrite Hc in Ht).
  pose proof (transition_audited _ _ _ _ _ _ _ _ _ (ow_audited _ _ _ _ Ho) Ht) as Hau.
  destruct (transition_Ok _ _ _ _ _ _ _ _ _ Ht) as (_ & Hst & Hid & Hrid & _ & Hctx & Hts & _ & _).
  rewrite (ow_rid _ _ _ _ Ho) in Hrid.
  eapply wp_step; [unfold machine_transition; by rewrite Ht|by apply quiet_guar|].
  set (w1 := with_ticks _ w). assert (owned rid wf (state wf) w1) as Ho1 by by eapply owned_quiet.
  destruct (owned_save_workflow rid wf (state wf) next w1 Ho1 Hid Hrid Hau) as [HG2 Ho2].
  eapply wp_await_step; [done|exact HG2|by eauto|]. intros w3 HR3. clear HG2.
  pose proof (owned_stable _ _ _ _ _ Ho2 HR3) as Ho3.
  eapply wp_await_step; [done|done|by eauto|]. intros w4 HR4. rewrite Hrid.
  pose proof (owned_stable _ _ _ _ _ Ho3 HR4) as Ho4.
  destruct (ow_run _ _ _ _ Ho3) as (r & Hr & Hrr & _). rewrite Hr.
  assert (∀ r' w5, owned rid next (state wf) w5 → run_id r' = rid → run_status r' = target →
    wp rid (transitioned rid wf event target) 1
      (awaiting (atomic (modify (λ w : world, with_runs (run_save r' (w_runs w)) w))) ≫= λ _,
       at_ ← atomic now; _ ← atomic (emit (WorkflowTransitioned rid (state wf) target event at_)); mret next) w5) as Hend.
  { intros r' w5 Ho5 Hid' Hst'. destruct (owned_save_run rid next _ r' w5 Ho5 Hid') as [HG6 Ho6].
    rewrite Hst' in Ho6. eapply wp_await_step; [done|exact HG6|by eauto|]. intros w7 HR7.
    pose proof (owned_stable _ _ _ _ _ Ho6 HR7) as Ho7.
    eapply wp_step; [done|by apply quiet_guar|]. eapply wp_step; [done|by apply quiet_guar|].
    left. split; [done|]. exists next. split; [done|]. split; [by eapply owned_quiet|done]. }
  destruct (isTerminal target).
  - change (wp rid (transitioned rid wf event target) 1
      (atomic now ≫= λ at_, awaiting (atomic (modify (λ w : world, with_runs (run_save
         (set_run_finishedAt (set_run_status r target) at_) (w_runs w)) w))) ≫= λ _,
       at_ ← atomic now; _ ← atomic (emit (WorkflowTransitioned rid (state wf) target event at_)); mret next) w4).
    eapply wp_step; [done|by apply quiet_guar|]. apply Hend; [by eapply owned_quiet|done|done].
  - by apply Hend.
Qed.

(** ** One task *)

Lemma untouched_quiet (w w' : world) : untouched w w' → quiet w w'.
Proof. by intros []. Qed.

(** The result of an attempt at the task run [t]. *)
Definition attempt_made (rid : string) (wf : WorkflowInstance) (st : WorkflowState) (p : RetryPolicy)
    (t : TaskRun) (o : res ExecuteResult) (w : world) : Prop :=
  owned rid wf st w ∧ ∃ res, o = Ok res ∧ tr_id (er_task res) = tr_id t
    ∧ definitionTaskId (er_task res) = definitionTaskId t ∧ attempt (er_task res) = attempt t + 1
    ∧ attempted p t (status (er_task res)) (retryAfterMs res).

Lemma wp_handleFailure rid wf st p t t' msg n w :
  owned rid wf st w → tr_id t' = tr_id t → definitionTaskId t' = definitionTaskId t →
  attempt t' = attempt t + 1 →
  wp rid (attempt_made rid wf st p t) n (atomic (handleFailure t' p msg)) w.
Proof.
  intros Ho Hid Hdef Hatt.
  destruct (handleFailure_spec t' p msg w) as (res & w' & Hf & Hun & _ & Hi & Hd & Ha & Hcase).
  apply untouched_quiet in Hun. apply wp_atomic; rewrite Hf; [by apply quiet_guar|].
  split; [by eapply owned_quiet|]. exists res. split; [done|]. split; [congruence|]. split; [congruence|].
  split; [simpl; congruence|]. rewrite Hatt in Hcase. replace (attempt t + 1 + 1) with (attempt t + 2) in Hcase by lia.
  destruct Hcase as [(? & -> & ->)|(? & -> & ->)]; by constructor.
Qed.

Lemma wp_run_task rid wf st t d p input w :
  owned rid wf st w → wp rid (attempt_made rid wf st p t) 1 (run_task_async t d p input) w.
Proof.
  intros Ho. unfold run_task_async. eapply wp_step; [done|by apply quiet_guar|].
  eapply wp_await_step; [done|by apply quiet_guar|by eapply owned_holding, owned_quiet|]. intros w2 HR.
  eapply owned_quiet in Ho; [|shelve]. eapply owned_stable in Ho; [|exact HR]. Unshelve. 2: done.
  destruct (simulate _ _ _ _) as [r|err]; [|by apply wp_handleFailure].
  destruct (negb (sim_success r)); [by apply wp_handleFailure|].
  eapply wp_step; [done|by apply quiet_guar|]. split; [by eapply owned_quiet|].
  eexists. split; [done|]. split; [done|]. split; [done|]. split; [done|constructor].
Qed.

Lemma wp_updateTask rid wf st t w :
  owned rid wf st w →
  wp rid (λ o w', ∃ at_, let wf' := set_tasks wf (replace_task t (wf_tasks wf)) at_ in
            o = Ok wf' ∧ owned rid wf' st w') 1 (updateTask_async wf t) w.
Proof.
  intros Ho. unfold updateTask_async. eapply wp_step; [done|by apply quiet_guar|].
  set (w1 := with_ticks _ w). assert (owned rid wf st w1) as Ho1 by by eapply owned_quiet.
  edestruct (owned_save_workflow rid wf st (set_tasks wf (replace_task t (wf_tasks wf)) (nowIso (w_ticks w))) w1 Ho1)
    as [HG Ho2]; [done|apply Ho|apply set_tasks_audited, Ho|].
  eapply wp_await_step; [done|exact HG|by eauto|]. intros w3 HR. eexists. split; [done|]. by eapply owned_stable.
Qed.

(** The workflow after one task of the scheduler's choice. *)
Definition task_done_in (rid : string) (wf : WorkflowInstance) (p : RetryPolicy) (t : TaskRun)
    (o : res (WorkflowInstance * TaskStatus)) (w : world) : Prop :=
  ∃ wf' st t', o = Ok (wf', st) ∧ owned rid wf' (state wf') w ∧ state wf' = state wf
    ∧ context wf' = context wf ∧ wf_tasks wf' = replace_task t' (wf_tasks wf) ∧ next_task p t t' st.

Lemma wp_run_next rid wf def d t w :
  owned rid wf (state wf) w → find_run (wf_tasks wf) d = Some t →
  wp rid (task_done_in rid wf (retryPolicy def) t) 7 (run_next_async def wf d) w.
Proof.
  intros Ho Hf. unfold run_next_async. unfold find_run in Hf. rewrite Hf.
  eapply wp_step; [done|by apply quiet_guar|].
  eapply (wp_await_bind _ _ _ _ _ 1 5); [done|]. eapply wp_mono; [|done|by apply wp_run_task].
  intros o w1 (Ho1 & res & -> & Hid & Hdef & Hatt & Hcase). split; [by eauto|]. intros w2 HR2. cbn [then_wp].
  pose proof (owned_stable _ _ _ _ _ Ho1 HR2) as Ho2.
  eapply wp_step; [done|by apply quiet_guar|]. eapply wp_step; [done|by apply quiet_guar|].
  set (w3 := with_metrics _ w2). assert (owned rid wf (state wf) w3) as Ho3 by by eapply owned_quiet.
  eapply (wp_await_bind _ _ _ _ _ 1 3); [done|]. eapply wp_mono; [|done|by apply wp_updateTask].
  intros o w4 (at1 & -> & Ho4). split; [by eauto|]. intros w5 HR5. pose proof (owned_stable _ _ _ _ _ Ho4 HR5) as Ho5. cbn [then_wp].
  destruct (retryAfterMs res) as [delay|] eqn:Hretry.
  - apply (wp_bind _ _ _ _ 3 0). apply wp_yield; [by eauto|]. intros w6 HR6. pose proof (owned_stable _ _ _ _ _ Ho5 HR6) as Ho6.
    eapply (wp_awaiting _ _ _ _ 1). eapply wp_mono; [|done|by apply wp_updateTask].
    intros o w7 (at2 & -> & Ho7). split; [by eauto|]. intros w8 HR8. pose proof (owned_stable _ _ _ _ _ Ho7 HR8) as Ho8. cbn [then_wp].
    destruct (status (er_task res)) eqn:Hst; inversion Hcase; subst.
    eexists _, _, (set_status (er_task res) TaskQueued). split; [done|]. split; [done|].
    split; [done|]. split; [done|]. split; [simpl; by apply replace_task_twice|].
    split; simpl; auto; right; left; auto.
  - eexists _, _, (er_task res). split; [done|]. split; [done|]. split; [done|]. split; [done|]. split; [done|].
    split; auto. destruct (status (er_task res)); inversion Hcase; auto 10.
Qed.

Lemma wp_run_next_missing rid wf def d w n :
  owned rid wf (state wf) w → find_run (wf_tasks wf) d = None →
  wp rid (λ o w', (∃ e, o = Throw e) ∧ owned rid wf (state wf) w') n (run_next_async def wf d) w.
Proof.
  intros Ho Hf. unfold run_next_async. unfold find_run in Hf. rewrite Hf.
  eapply wp_throw; [done|by apply quiet_guar|]. eauto.
Qed.

(** ** The loop and the body, from any state of the run *)

(** The workflow is stored and the run has its state; a workflow returned is
    the stored one. *)
Definition settled (rid : string) (o : res WorkflowInstance) (w : world) : Prop :=
  ∃ wf, owned rid wf (state wf) w ∧ ∀ x, o = Ok x → x = wf.

Lemma settled_stable rid o w w' : settled rid o w → rely rid w w' → settled rid o w'.
Proof. intros (wf & Ho & Hx) Hr. exists wf. split; [by eapply owned_stable|done]. Qed.

Lemma settled_holding rid o w : settled rid o w → holding rid w.
Proof. intros (wf & Ho & _). eauto. Qed.

Lemma transitioned_settled rid wf event target o w :
  transitioned rid wf event target o w → settled rid o w.
Proof.
  intros [(_ & wf' & -> & Ho & <- & _)|(_ & [e ->] & Ho)]; [exists wf'|exists wf]; naive_solver.
Qed.

Lemma transitioned_holding rid wf event target o w :
  transitioned rid wf event target o w → holding rid w.
Proof. intros Ht. by eapply settled_holding, transitioned_settled. Qed.

(** A transition somebody waits for. *)
Lemma wp_await_transition rid wf event target actor (Q : res WorkflowInstance → world → Prop) w :
  owned rid wf (state wf) w →
  (∀ o w', transitioned rid wf event target o w' → Q o w') →
  wp rid Q 4 (awaiting (applyTransition_async wf event target actor)) w.
Proof.
  intros Ho HQ. apply wp_awaiting. eapply wp_mono; [|done|by apply wp_applyTransition].
  intros o w' Ht. split; [by eapply transitioned_holding|]. intros w'' Hr. eapply HQ, transitioned_stable; eauto.
Qed.

Lemma wp_finish_run_settled rid def wf w :
  owned rid wf (state wf) w → wp rid (settled rid) 4 (finish_run_async def wf) w.
Proof.
  intros Ho. unfold finish_run_async.
  destruct (allDone _ _); [|apply wp_await_transition; [done|apply transitioned_settled]].
  destruct (apply_rules def (mkConstraintContext (context wf) (task_outputs wf))).2 as [[]|e|].
  - eapply wp_step; [done|done|].
    apply wp_await_transition; [done|apply transitioned_settled].
  - eapply wp_throw; [done|done|]. exists wf. naive_solver.
  - split; [done|]. exists wf. naive_solver.
Qed.

Lemma wp_execute_loop_settled rid fuel def wf w :
  owned rid wf (state wf) w → wp rid (settled rid) (7 * fuel + 4) (execute_loop_async fuel def wf) w.
Proof.
  revert wf w. induction fuel as [|fuel IH]; intros wf w Ho; cbn [execute_loop_async].
  { exists wf. naive_solver. }
  destruct (negb _); [exists wf; naive_solver|].
  destruct (nextRunnable _ _) as [d|].
  2: { eapply wp_mono; [done| |by apply wp_finish_run_settled]. lia. }
  replace (7 * S fuel + 4)%nat with (7 + (7 * fuel + 4))%nat by lia. apply wp_bind.
  destruct (find_run (wf_tasks wf) d) as [t|] eqn:Hf.
  - eapply wp_mono; [|done|by apply wp_run_next].
    intros o w' (wf' & st & t' & -> & Ho' & _). cbn [then_wp]. case_bool_decide; [|by apply IH].
    eapply wp_mono; [done| |apply wp_await_transition; [done|apply transitioned_settled]]. lia.
  - eapply wp_mono; [|done|by apply wp_run_next_missing].
    intros o w' [[e ->] Ho']. cbn [then_wp]. exists wf. naive_solver.
Qed.

(** The end of the [try] block: the run is stored and in step with its workflow. *)
Definition finished (rid : string) (o : res unit) (w : world) : Prop := ∃ wf, owned rid wf (state wf) w.

Lemma wp_dead_letter_settled rid def wf w :
  owned rid wf (state wf) w → wp rid (finished rid) 5 (dead_letter_async rid def wf) w.
Proof.
  intros Ho. unfold dead_letter_async. destruct (_ && _); [|by exists wf].
  apply (wp_bind _ _ _ _ 4 1). apply wp_await_transition; [done|].
  intros o w' Ht%transitioned_settled. destruct Ht as (wf' & Ho' & Hx).
  destruct o as [x|e|]; cbn [then_wp]; [|by exists wf'|by exists wf']. rewrite (Hx x eq_refl). clear x Hx.
  apply (wp_awaiting _ _ _ _ 0). apply wp_atomic; [by apply quiet_guar|].
  assert (owned rid wf' (state wf') ((at_ ← now; modify (λ w : world, with_dead (dead_letter_push rid
    [("reason", JStr (FailureReason_string ReasonMaxRetriesExceeded)); ("workflowId", JStr (wf_id wf'))]
    at_ (w_dead w)) w)) w').2) as Ho'' by by eapply owned_quiet.
  split; [by eauto|]. intros w'' Hr. exists wf'. by eapply owned_stable.
Qed.

(** A computation of the body that finds what it looks for in the store. *)
Lemma wp_lookup {A B} rid wf st (Q : res B → world → Prop) n e (f : world → option A) (g : A → async B) w :
  owned rid wf st w →
  (∀ w', owned rid wf st w' → rely rid w w' → match f w with
     | Some a => wp rid Q n (g a) w'
     | None => Q (Throw e) w' end) →
  wp rid Q (S n) (awaiting (atomic (gets f)) ≫= λ o, atomic (lift_outcome (from_option Ok (Throw e) o)) ≫= g) w.
Proof.
  intros Ho Hk. eapply wp_await_step; [done|done|by eauto|]. intros w' Hr.
  specialize (Hk w' (owned_stable _ _ _ _ _ Ho Hr) Hr). destruct (f w) as [a|].
  - by eapply wp_step.
  - by eapply wp_throw.
Qed.

Lemma wp_startRun rid wf w :
  owned rid wf (state wf) w → wp rid (settled rid) 4 (startRun_async wf) w.
Proof.
  intros Ho. unfold startRun_async. case_bool_decide; [|exists wf; naive_solver].
  apply wp_await_transition; [done|apply transitioned_settled].
Qed.

Definition body_blocks (fuel : nat) : nat := 3 + (5 + ((7 * fuel + 4) + 5)).

Lemma wp_execute_body_settled rid fuel wf w :
  owned rid wf (state wf) w → wp rid (finished rid) (body_blocks fuel) (execute_body_async fuel rid) w.
Proof.
  intros Ho. unfold execute_body_async, body_blocks. cbn [Nat.add].
  eapply wp_lookup; [done|]. intros w1 Ho1 _. destruct (run_of rid w) as [r|]; [|by exists wf].
  eapply wp_lookup; [done|]. intros w2 Ho2 _. destruct (job_get (run_jobId r) (w_jobs w1)) as [def|]; [|by exists wf].
  eapply wp_lookup; [done|]. intros w3 Ho3 _. rewrite (ow_get _ _ _ _ Ho2).
  apply (wp_await_bind _ _ _ _ _ 4 (7 * fuel + 4 + 5)); [lia|].
  eapply wp_mono; [|done|by apply wp_startRun]. intros o w4 Hs4.
  split; [by eapply settled_holding|]. intros w5 Hr. destruct (settled_stable _ _ _ _ Hs4 Hr) as (wf5 & Ho5 & Hx5).
  destruct o as [x|e|]; cbn [then_wp]; [|by exists wf5|by exists wf5]. rewrite (Hx5 x eq_refl).
  apply wp_bind. eapply wp_mono; [|done|by apply wp_execute_loop_settled]. intros o w6 (wf6 & Ho6 & Hx6).
  destruct o as [y|e|]; cbn [then_wp]; [|by exists wf6|by exists wf6]. rewrite (Hx6 y eq_refl).
  by apply wp_dead_letter_settled.
Qed.

(** ** Entering and leaving *)

(** A run nobody executes, in step with its workflow. *)
Record resting (rid : string) (wf : WorkflowInstance) (w : world) : Prop := {
  rs_ok : workflow_store_ok (w_workflows w);
  rs_get : workflow_of rid w = Some wf;
  rs_id : wf_id wf ≠ "";
  rs_rid : wf_runId wf = rid;
  rs_apart : ids_apart rid w;
  rs_run : ∃ r, run_of rid w = Some r ∧ run_id r = rid ∧ run_status r = state wf;
  rs_audited : audited rules wf;
  rs_local : rid ∉ w_localLocks w;
  rs_lock : map_get (w_locks w) rid = None;
  rs_locks : map_ok (w_locks w);
}.

Lemma resting_stable rid wf w w' : resting rid wf w → rely rid w w' → resting rid wf w'.
Proof.
  intros [] []. split; rewrite ?re_workflow0, ?re_run0, ?re_lock0; auto. by rewrite re_local0.
Qed.

Lemma enter_resting rid wf w :
  resting rid wf w →
  enter rid w = (Ok true, entered rid w) ∧ guar rid w (entered rid w) ∧ owned rid wf (state wf) (entered rid w).
Proof.
  intros []. split; [|split].
  - unfold enter. rewrite (M_bind_eq_Ok _ _ w false w) by (unfold gets; by rewrite bool_decide_eq_false_2).
    rewrite (M_bind_eq_Ok _ _ w tt (with_localLocks (w_localLocks w ++ [rid]) w)) by done.
    rewrite (M_bind_eq_Ok _ _ _ (w_locks w) (with_localLocks (w_localLocks w ++ [rid]) w)) by done.
    rewrite (M_bind_eq_Ok _ _ _ (map_set (w_locks w) rid execution_owner)
      (with_localLocks (w_localLocks w ++ [rid]) w)); [done|].
    unfold lift_outcome. by rewrite (acquire_free _ _ _ (or_introl rs_lock0)).
  - split; [|done..]. intros r Hr. split; simpl; try done.
    + set_solver.
    + by rewrite map_get_set_ne by done.
    + apply map_set_ok.
  - split; simpl; try done; [set_solver|apply map_get_set_eq|by apply map_set_ok].
Qed.

Lemma enter_busy rid (w : world) : rid ∈ w_localLocks w → enter rid w = (Ok false, w).
Proof. intros Hin. unfold enter, mbind, M_bind, gets. by rewrite bool_decide_eq_true_2. Qed.

Lemma unlock_owned rid wf w :
  owned rid wf (state wf) w → guar rid w (unlock rid w) ∧ resting rid wf (unlock rid w).
Proof.
  intros []. unfold unlock, release. rewrite ow_lock0, bool_decide_eq_true_2 by done. split.
  - split; [|done..]. intros r Hr. split; simpl; try done.
    + rewrite !list_elem_of_In, List.filter_In, negb_true_iff, bool_decide_eq_false. naive_solver.
    + by rewrite map_get_delete_ne.
    + apply map_delete_ok.
  - split; simpl; try done.
    + rewrite list_elem_of_In, List.filter_In, negb_true_iff, bool_decide_eq_false. naive_solver.
    + by apply map_get_delete_eq.
    + by apply map_delete_ok.
Qed.

(** ** The outcome of a new run *)

Definition loop_ended (rid : string) (def : JobDefinition) (o : res WorkflowInstance) (w : world) : Prop :=
  ∃ wf, owned rid wf (state wf) w ∧ loop_end def o wf ∧ matched def (wf_tasks wf).

Lemma loop_ended_stable rid def o w w' : loop_ended rid def o w → rely rid w w' → loop_ended rid def o w'.
Proof. intros (wf & Ho & Hx) Hr. exists wf. split; [by eapply owned_stable|done]. Qed.

(** A transition that is enabled, somebody waiting for it. *)
Lemma wp_await_enabled rid wf event target actor (Q : res WorkflowInstance → world → Prop) w :
  owned rid wf (state wf) w → enabled wf event target →
  (∀ wf' w', owned rid wf' (state wf') w' → state wf' = target → wf_tasks wf' = wf_tasks wf →
     context wf' = context wf → Q (Ok wf') w') →
  wp rid Q 4 (awaiting (applyTransition_async wf event target actor)) w.
Proof.
  intros Ho He HQ. apply wp_await_transition; [done|].
  intros o w' [(_ & wf' & -> & Ho' & <- & Hts & Hctx)|[Hn _]]; [by apply HQ|done].
Qed.

Lemma wp_finish_run_end rid def wf w :
  owned rid wf (state wf) w → matched def (wf_tasks wf) → state wf = Running →
  Forall (succeeded (retryPolicy def)) (wf_tasks wf) →
  wp rid (loop_ended rid def) 4 (finish_run_async def wf) w.
Proof.
  intros Ho Hm Hst Hs. unfold finish_run_async. rewrite (all_succeeded_done def) by done.
  unfold apply_rules. cbn [snd]. fold (constraint_context wf).
  destruct (assertPassing_cases (constraints def) (constraint_context wf)) as [Hp|Hp]; rewrite Hp.
  - eapply wp_step; [done|done|]. apply wp_await_enabled; [done|by eapply complete_enabled|].
    intros wf' w' Ho' Hst' Hts Hctx. exists wf'. split; [done|]. split; [|by rewrite Hts].
    apply end_completed; [done|by rewrite Hts|]. unfold constraints_pass, constraint_context, task_outputs.
    rewrite Hts, Hctx. by apply assertPassing_Ok.
  - eapply wp_throw; [done|done|]. exists wf. split; [done|]. split; [|done].
    apply end_blocked; [done|done|]. intros Hok. apply assertPassing_Ok in Hok. congruence.
Qed.

Lemma wp_execute_loop_end rid fuel def wf w :
  executable def → owned rid wf (state wf) w → progress_inv def wf →
  (work_left (retryPolicy def) (wf_tasks wf) < fuel)%nat →
  wp rid (loop_ended rid def) (7 * work_left (retryPolicy def) (wf_tasks wf) + 4) (execute_loop_async fuel def wf) w.
Proof.
  intros Hex. revert wf w. induction fuel as [|fuel IH]; intros wf w Ho Hpi Hf; [lia|].
  cbn [execute_loop_async]. destruct Hpi as [Hst Hm Hip]. rewrite bool_decide_eq_true_2 by done. cbn [negb].
  destruct (nextRunnable (wf_tasks wf) (tasks def)) as [d|] eqn:Hnext.
  - destruct (nextRunnable_queued def _ d Hm Hip Hnext) as (Hd & t & Hfind & Ht & Heq & Hq & Hatt & _).
    assert (∀ t' st ts', ts' = replace_task t' (wf_tasks wf) → next_task (retryPolicy def) t t' st →
      (S (work_left (retryPolicy def) ts') ≤ work_left (retryPolicy def) (wf_tasks wf))%nat) as Hwork.
    { intros t' st ts' Hts Hnt. by destruct (task_step def _ _ _ _ _ Hm Hip Ht Hq Hatt Hts Hnt) as (_ & ? & _). }
    eapply (wp_mono _ _ _ _ _ (7 + (7 * (work_left (retryPolicy def) (wf_tasks wf) - 1) + 4))); [done| |].
    { assert (0 < work_left (retryPolicy def) (wf_tasks wf))%nat; [|lia].
      pose proof (Hwork (mkTaskRun (tr_id t) (tr_runId t) (definitionTaskId t) (tr_handler t) TaskSucceeded
        (attempt t + 1) None None None None) TaskSucceeded _ eq_refl) as Hw.
      assert (next_task (retryPolicy def) t (mkTaskRun (tr_id t) (tr_runId t) (definitionTaskId t) (tr_handler t)
        TaskSucceeded (attempt t + 1) None None None None) TaskSucceeded) as Hnt by (split; auto).
      specialize (Hw Hnt). lia. }
    apply wp_bind. eapply wp_mono; [|done|by apply wp_run_next].
    intros o w' (wf' & st & t' & -> & Ho' & Hst' & Hctx & Hts & Hnt). cbn [then_wp].
    specialize (Hwork _ _ _ Hts Hnt).
    destruct (task_step def _ _ _ _ _ Hm Hip Ht Hq Hatt Hts Hnt) as (Hm' & _ & Hin & Hcase).
    destruct Hcase as [(-> & Ht' & Hexh & Hoth)|[Hnf Hprog]].
    + rewrite bool_decide_eq_true_2 by done.
      eapply wp_mono; [done| |apply wp_await_enabled; [done|apply fail_enabled; congruence|]]; [lia|].
      intros wf'' w'' Ho'' Hst'' Hts'' _. exists wf''. split; [done|]. rewrite Hts''. split; [|done].
      by apply (end_failed _ _ t'); rewrite ?Hts''.
    + rewrite bool_decide_eq_false_2 by done.
      eapply wp_mono; [done| |apply IH; [done|split; [congruence|done|done]|lia]]. lia.
  - eapply wp_mono; [done| |apply wp_finish_run_end; [done..|]]; [lia|].
    by eapply not_stuck; [..|apply Hex|apply Hex|].
Qed.

Definition run_ended (rid : string) (def : JobDefinition) (o : res unit) (w : world) : Prop :=
  ∃ wf, owned rid wf (state wf) w ∧ run_end def o wf.

Lemma wp_dead_letter_end rid def wf w :
  owned rid wf (state wf) w → loop_end def (Ok wf) wf → matched def (wf_tasks wf) →
  wp rid (run_ended rid def) 5 (dead_letter_async rid def wf) w.
Proof.
  intros Ho Hend Hm. unfold dead_letter_async.
  inversion Hend as [wf3 Hs3 Hok3 Hcp|wf3 t Hs3 Hin3 Hex3 Hoth3|]; subst.
  { rewrite Hs3. cbn. exists wf. split; [done|by apply run_completed]. }
  rewrite Hs3, bool_decide_eq_true_2 by done. cbn [andb].
  destruct (Z.leb_spec (maxAttempts (retryPolicy def) * Z.of_nat (length (tasks def)))
    (total_attempts (wf_tasks wf))) as [Hle|Hlt].
  2: { exists wf. split; [done|]. apply (run_failed _ _ t); auto. }
  apply (wp_bind _ _ _ _ 4 1). apply wp_await_enabled; [done|by apply dead_letter_enabled|].
  intros wf4 w4 Ho4 Hst4 Hts4 _. cbn [then_wp].
  apply (wp_awaiting _ _ _ _ 0). apply wp_atomic; [by apply quiet_guar|].
  assert (∀ w', quiet w4 w' → owned rid wf4 (state wf4) w') as Hq by (intros w'; by apply owned_quiet).
  split; [by eapply owned_holding, Hq|]. intros w5 Hr. exists wf4.
  split; [eapply owned_stable; [|exact Hr]; by apply Hq|]. apply (run_failed _ _ t); rewrite ?Hts4; [|done..].
  right. split; [done|]. apply Z.le_ngt. intros Hgt. pose proof (exhausted_attempts def _ t Hm Hin3 Hex3 Hoth3). lia.
Qed.

(** A pending run nobody executes, matching its definition. *)
Record ready (rid : string) (def : JobDefinition) (wf : WorkflowInstance) (w : world) : Prop := {
  rd_resting : resting rid wf w;
  rd_job : ∃ r, run_of rid w = Some r ∧ fixed_job (run_jobId r) ∧ job_get (run_jobId r) (w_jobs w) = Some def;
  rd_state : state wf = Pending;
  rd_matched : matched def (wf_tasks wf);
  rd_fresh : Forall (λ t, status t = TaskQueued ∧ attempt t = 0) (wf_tasks wf);
}.

Lemma ready_stable rid def wf w w' : ready rid def wf w → rely rid w w' → ready rid def wf w'.
Proof.
  intros [Hr (r & Hg & Hf & Hj) ? ? ?] Hrel. split; try done; [by eapply resting_stable|].
  destruct Hrel. exists r. by rewrite re_run0, re_jobs0.
Qed.

(** The blocks of the execution of a new run. *)
Definition attempts_of (def : JobDefinition) : nat :=
  Z.to_nat (attempt_bound (retryPolicy def)) * length (tasks def).
Definition run_blocks (def : JobDefinition) : nat := 3 + (5 + ((7 * attempts_of def + 4) + 5)).

Lemma wp_execute_body_end rid fuel def wf w :
  executable def → owned rid wf (state wf) w → state wf = Pending → matched def (wf_tasks wf) →
  Forall (λ t, status t = TaskQueued ∧ attempt t = 0) (wf_tasks wf) →
  (∃ r, run_of rid w = Some r ∧ fixed_job (run_jobId r) ∧ job_get (run_jobId r) (w_jobs w) = Some def) →
  (attempts_of def < fuel)%nat →
  wp rid (run_ended rid def) (run_blocks def) (execute_body_async fuel rid) w.
Proof.
  intros Hex Ho Hst Hm Hfresh (r & Hr & Hfix & Hd) Hfuel. unfold execute_body_async, run_blocks. cbn [Nat.add].
  eapply wp_lookup; [done|]. intros w1 Ho1 Hr1. rewrite Hr.
  eapply wp_lookup; [done|]. intros w2 Ho2 Hr2. rewrite (re_jobs _ _ _ Hr1) by done. rewrite Hd.
  eapply wp_lookup; [done|]. intros w3 Ho3 _. rewrite (ow_get _ _ _ _ Ho2).
  apply (wp_await_bind _ _ _ _ _ 4 (7 * attempts_of def + 4 + 5)); [lia|].
  unfold startRun_async. rewrite bool_decide_eq_true_2 by done.
  assert (enabled wf "start" Running) as Hen by (split; [unfold evaluate_guard; by rewrite Hst|by rewrite Hst]).
  apply wp_await_enabled; [done|done|]. intros wf4 w4 Ho4 Hst4 Hts4 _. split; [by eauto|].
  intros w5 Hr5. pose proof (owned_stable _ _ _ _ _ Ho4 Hr5) as Ho5. cbn [then_wp]. apply wp_bind.
  assert (Forall (in_progress (retryPolicy def)) (wf_tasks wf4)) as Hip
    by (rewrite Hts4; by apply fresh_in_progress).
  assert (work_left (retryPolicy def) (wf_tasks wf4) ≤ attempts_of def)%nat as Hwork.
  { unfold attempts_of. rewrite <-(length_fmap td_id (tasks def)), <-(ma_ids _ _ Hm), length_fmap, <-Hts4.
    by apply work_left_bound. }
  eapply wp_mono; [| |apply (wp_execute_loop_end rid fuel def wf4 w5 Hex Ho5); [split; [done|by rewrite Hts4|done]|lia]];
    [|lia].
  intros o w6 (wf6 & Ho6 & Hend & Hm6). inversion Hend; subst; cbn [then_wp].
  - apply wp_dead_letter_end; [done|done|done].
  - apply wp_dead_letter_end; [done|done|done].
  - exists wf6. split; [done|]. by apply run_blocked.
Qed.

(** The result of an execution of a new run, once it is over. *)
Definition run_over (rid : string) (def : JobDefinition) (o : res unit) (w : world) : Prop :=
  ∃ wf, resting rid wf w ∧ run_end def o wf.

Lemma wp_executeRun_end rid fuel def wf w :
  executable def → ready rid def wf w → (attempts_of def < fuel)%nat →
  wp rid (run_over rid def) (run_blocks def) (executeRun_async fuel rid) w.
Proof.
  intros Hex [Hrest (r & Hr & Hfix & Hd) Hst Hm Hfr] Hf. unfold executeRun_async.
  destruct (enter_resting rid wf w Hrest) as (He & HG & Ho).
  eapply wp_step; [exact He|exact HG|]. apply wp_finally.
  eapply wp_mono; [|done|apply (wp_execute_body_end rid fuel def wf); [done|done|done|done|done|by exists r|done]].
  intros o w' (wf' & Ho' & Hend). destruct (unlock_owned rid wf' w' Ho') as [HG' Hrest'].
  split; [done|]. by exists wf'.
Qed.

(** ** Exclusion *)

Definition run_resting (rid : string) (o : res unit) (w : world) : Prop := ∃ wf, resting rid wf w.

Lemma run_resting_stable rid o w w' : run_resting rid o w → rely rid w w' → run_resting rid o w'.
Proof. intros [wf Hw] Hr. exists wf. by eapply resting_stable. Qed.

Lemma holding_stable rid w w' : holding rid w → rely rid w w' → holding rid w'.
Proof. intros (wf & st & Ho) Hr. exists wf, st. by eapply owned_stable. Qed.

Lemma wp_executeRun_resting rid fuel wf w :
  resting rid wf w → wp rid (run_resting rid) (body_blocks fuel) (executeRun_async fuel rid) w.
Proof.
  intros Hrest. unfold executeRun_async. destruct (enter_resting rid wf w Hrest) as (He & HG & Ho).
  eapply wp_step; [exact He|exact HG|]. apply wp_finally.
  eapply wp_mono; [|done|by eapply wp_execute_body_settled].
  intros o w' (wf' & Ho'). destruct (unlock_owned rid wf' w' Ho') as [HG' Hrest'].
  split; [done|]. by exists wf'.
Qed.

(** How far a call has come: not begun, between its locks, or over. *)
Inductive phase : Type := Idle | Inside | Over.

Definition phase_ok (fuel : nat) (rid : string) (ph : phase) (t : async unit) (w : world) : Prop :=
  match ph with
  | Idle => t = executeRun_async fuel rid
  | Inside => is_done t = false ∧ holding rid w
      ∧ ∃ n, parked (rely rid) (guar rid) (holding rid) (run_resting rid) n t w
  | Over => is_done t = true
  end.

(** At most one call for each run is between its locks; the others' runs rest. *)
Record exclusive (fuel : nat) (rids : list string) (phs : list phase) (c : pool JsError world unit) : Prop := {
  ex_rids : length rids = length c.1;
  ex_phs : length phs = length c.1;
  ex_phase : ∀ k rid ph t, rids !! k = Some rid → phs !! k = Some ph → c.1 !! k = Some t →
    phase_ok fuel rid ph t c.2;
  ex_once : ∀ k k' rid, rids !! k = Some rid → rids !! k' = Some rid →
    phs !! k = Some Inside → phs !! k' = Some Inside → k = k';
  ex_held : ∀ rid, rid ∈ rids →
    (∃ k, rids !! k = Some rid ∧ phs !! k = Some Inside) ∨ ∃ wf, resting rid wf c.2;
}.

Lemma holding_not_resting rid wf w : holding rid w → ¬ resting rid wf w.
Proof. intros (wf' & st & []) []. done. Qed.

Lemma exclusive_inside fuel rids phs c k rid :
  exclusive fuel rids phs c → rids !! k = Some rid → phs !! k = Some Inside → holding rid c.2.
Proof.
  intros Hex Hr Hp. destruct (lookup_lt_is_Some_2 c.1 k) as [t Ht].
  { rewrite <-(ex_rids _ _ _ _ Hex). by eapply lookup_lt_Some. }
  by destruct (ex_phase _ _ _ _ Hex k rid Inside t Hr Hp Ht) as (_ & ? & _).
Qed.

(** One block of a call that has or gets the locks of its run. *)
Lemma exclusive_run fuel rids phs ts w k rid t n :
  exclusive fuel rids phs (ts, w) → rids !! k = Some rid → ts !! k = Some t → is_done t = false →
  (∀ k', rids !! k' = Some rid → phs !! k' = Some Inside → k' = k) →
  wp rid (run_resting rid) n t w →
  ∃ phs', exclusive fuel rids phs' (<[k := (run_block t w).1]> ts, (run_block t w).2).
Proof.
  intros Hex Hr Ht Hd Hother Hw.
  destruct (wp_run_block _ _ _ (run_resting rid) n t w (run_resting_stable rid) Hw Hd) as (n' & HG & Hp & _ & HJ).
  destruct (run_block t w) as [t' w']. simpl in *.
  set (ph := if is_done t' then Over else Inside).
  assert (k < length ts)%nat as Hk by by eapply lookup_lt_Some.
  destruct Hex as [Hl1 Hl2 Hph Honce Hheld]. simpl in *.
  assert (∀ k', k' ≠ k → (<[k:=ph]> phs) !! k' = phs !! k') as Hne by (intros; by apply list_lookup_insert_ne).
  assert ((<[k:=ph]> phs) !! k = Some ph) as Heq by (apply list_lookup_insert_eq; lia).
  exists (<[k := ph]> phs). split; simpl; rewrite ?length_insert; [done|done|..].
  - intros k' rid' ph' u Hr' Hp' Hu. destruct (decide (k' = k)) as [->|Hkk].
    + rewrite Heq in Hp'. rewrite list_lookup_insert_eq in Hu by done.
      injection Hp' as <-. injection Hu as <-. assert (rid' = rid) as -> by congruence. unfold ph, phase_ok.
      destruct (is_done t') eqn:Hdu; [done|]. split; [done|]. split; [by apply HJ|]. by exists n'.
    + rewrite Hne in Hp' by done. rewrite list_lookup_insert_ne in Hu by done.
      specialize (Hph k' rid' ph' u Hr' Hp' Hu). destruct ph'; try done.
      assert (rid' ≠ rid) as Hrr by (intros ->; by destruct Hkk; apply Hother).
      destruct Hph as (Hdu & Hh & m & Hm). split; [done|]. pose proof (gu_others _ _ _ HG rid' Hrr) as HG'.
      split; [by eapply holding_stable|]. exists m. eapply parked_stable; [apply _|done|done].
  - intros k1 k2 rid' Hk1 Hk2. destruct (decide (k1 = k)) as [->|], (decide (k2 = k)) as [->|]; try done.
    + rewrite (Hne k2) by done. intros _ Hi. assert (rid' = rid) as -> by congruence. symmetry. by apply Hother.
    + rewrite (Hne k1) by done. intros Hi _. assert (rid' = rid) as -> by congruence. by apply Hother.
    + rewrite !Hne by done. by eapply Honce.
  - intros rid' Hin. destruct (decide (rid' = rid)) as [->|Hrr].
    + unfold ph in Heq. destruct (is_done t') eqn:Hdt; [right|left; by exists k].
      destruct t' as [o| |]; [|done..]. apply (Hp w'). reflexivity.
    + destruct (Hheld rid' Hin) as [(k' & Hk' & Hi)|[wf Hrest]].
      * left. exists k'. split; [done|]. rewrite Hne; [done|]. intros ->. congruence.
      * right. exists wf. eapply resting_stable; [done|by apply (gu_others _ _ _ HG)].
Qed.

Lemma exclusive_step fuel rids phs c c' :
  exclusive fuel rids phs c → pool_step c c' → ∃ phs', exclusive fuel rids phs' c'.
Proof.
  intros Hex Hs. inversion Hs as [ts k t w Ht Hd]; subst.
  assert (k < length ts)%nat as Hk by by eapply lookup_lt_Some.
  destruct (lookup_lt_is_Some_2 rids k) as [rid Hr]; [pose proof (ex_rids _ _ _ _ Hex); simpl in *; lia|].
  destruct (lookup_lt_is_Some_2 phs k) as [ph Hph]; [pose proof (ex_phs _ _ _ _ Hex); simpl in *; lia|].
  pose proof (ex_phase _ _ _ _ Hex k rid ph t Hr Hph Ht) as Hok. destruct ph; simpl in Hok; [| |congruence].
  - subst t. destruct (ex_held _ _ _ _ Hex rid) as [(k' & Hk' & Hi)|[wf Hrest]]; [by eapply list_elem_of_lookup_2|..].
    + (* another call has the run: this one returns at once *)
      pose proof (exclusive_inside _ _ _ _ _ _ Hex Hk' Hi) as (wf & st & Ho). simpl in Ho.
      assert (run_block (executeRun_async fuel rid) w = (Done (Ok tt), w)) as ->.
      { unfold executeRun_async, atomic. cbn -[enter]. by rewrite (enter_busy rid w (ow_local _ _ _ _ Ho)). }
      destruct Hex as [Hl1 Hl2 Hp Honce Hheld]. simpl in *. exists (<[k := Over]> phs).
      assert (∀ k', (<[k:=Over]> phs) !! k' = Some Inside → k' ≠ k ∧ phs !! k' = Some Inside) as Hins.
      { intros j Hj. destruct (decide (j = k)) as [->|]; [|by rewrite list_lookup_insert_ne in Hj].
        rewrite list_lookup_insert_eq in Hj by lia. congruence. }
      split; simpl; rewrite ?length_insert; [done|done|..].
      * intros j rid' ph' u Hr' Hp' Hu. destruct (decide (j = k)) as [->|Hjk].
        -- rewrite list_lookup_insert_eq in Hp' by lia. rewrite list_lookup_insert_eq in Hu by done. by simplify_eq.
        -- rewrite list_lookup_insert_ne in Hp' by done. rewrite list_lookup_insert_ne in Hu by done. by eapply Hp.
      * intros j1 j2 rid' Hj1 Hj2 [_ Hi1]%Hins [_ Hi2]%Hins. by eapply Honce.
      * intros rid' Hin. destruct (Hheld rid' Hin) as [(j & Hj & Hij)|Hrest]; [left|by right].
        exists j. split; [done|]. rewrite list_lookup_insert_ne; [done|]. intros ->. congruence.
    + apply (exclusive_run fuel rids phs ts w k rid _ (body_blocks fuel) Hex Hr Ht Hd); [|exact (wp_executeRun_resting rid fuel wf w Hrest)].
      intros k' Hk' Hi. by destruct (holding_not_resting rid wf w); [apply (exclusive_inside _ _ _ _ _ _ Hex Hk' Hi)|].
  - destruct Hok as (_ & _ & n & Hp). apply (exclusive_run fuel rids phs ts w k rid t n Hex Hr Ht Hd); [|apply Hp; reflexivity].
    intros k' Hk' Hi. by eapply (ex_once _ _ _ _ Hex).
Qed.

Lemma exclusive_steps fuel rids phs c c' :
  exclusive fuel rids phs c → rtc pool_step c c' → ∃ phs', exclusive fuel rids phs' c'.
Proof.
  intros Hex Hs. revert phs Hex. induction Hs as [c|c c1 c' Hs _ IH]; intros phs Hex; [by exists phs|].
  destruct (exclusive_step _ _ _ _ _ Hex Hs) as [phs1 Hex1]. by eapply IH.
Qed.

Lemma exclusive_start fuel rids w :
  (∀ rid, rid ∈ rids → ∃ wf, resting rid wf w) →
  exclusive fuel rids (replicate (length rids) Idle) (executeRun_async fuel <$> rids, w).
Proof.
  intros Hrest. split; simpl; rewrite ?length_fmap, ?length_replicate; [done|done|..].
  - intros k rid ph t Hr [-> _]%lookup_replicate_1 Ht. rewrite list_lookup_fmap, Hr in Ht. by injection Ht.
  - by intros k k' rid _ _ [? _]%lookup_replicate_1.
  - auto.
Qed.
End concurrency.
