(* ===== verification/EngineProps.v ===== *)
(** * Properties of registration and execution

    The theorems about services/job-service.ts, services/workflow-service.ts and
    services/execution-service.ts, each with an instance at a concrete engine:
    the in-memory stores and a scripted environment. *)

From S2P Require Import Prelude JsMap JsString Graph JsNum DomainTypes JsValue Domain Retry Transitions Locks Stores Metrics Handlers Validator Dag Expressions Constraints Engine ExecInv Execution Registration.
From Stdlib Require Import QArith.
Open Scope Z_scope.

(** ** A concrete engine *)

Definition scripted (script : nat → bool) : Environment := {|
  nowIso k := "2026-01-01T00:00:00." +:+ pretty k;
  randomUUID k := pretty k;
  elapsedMs _ := 5;
  simulate k _ _ _ :=
    inl (if script k then mkSimResult true [("ok", JBool true)] 5 None
         else mkSimResult false [] 5 (Some "handler failed"));
|}.

Notation demo_world := (world InMemoryJobStore InMemoryWorkflowStore InMemoryRunStore).

Definition demo_empty : demo_world :=
  mkWorld [] empty_workflow_store [] [] [] [] [] empty_registry 0 0 0.

Definition demo_input : JobDefinitionInput :=
  mkInput "job_demo" "Demo" 1 None example_tasks None None None None.

Definition demo_definition : JobDefinition :=
  definition_of new_handler_registry demo_input "job_demo" "2026-01-01T00:00:00.0".

(** The same definition with one attempt limit and one blocking constraint. *)
Definition demo_blocked : JobDefinition :=
  mkJobDefinition "job_demo" "Demo" 1 None (tasks demo_definition)
    [mkConstraint "c1" "always" SeverityBlock] DEFAULT_RETRY_POLICY [] [] "" "".

Definition demo_registered (def : JobDefinition) : demo_world :=
  with_jobs (job_save def (w_jobs demo_empty)) demo_empty.

Lemma demo_acyclic : acyclic (tasks demo_definition).
Proof. apply acyclic_computed. by vm_compute. Qed.

Lemma demo_executable def : tasks def = tasks demo_definition → executable def.
Proof.
  intros Ht. split; rewrite Ht; [|apply demo_acyclic].
  assert (Forall (λ t, Forall (λ d, d ∈ td_id <$> tasks demo_definition) (deps t)) (tasks demo_definition)) as H
    by (apply (bool_decide_unpack _); by vm_compute).
  rewrite Forall_forall in H. intros t d Hin Hd. specialize (H t Hin). rewrite Forall_forall in H. auto.
Qed.

(** The state of the world after [createRun] on a registered definition. *)
Lemma demo_pending script def :
  tasks def = tasks demo_definition → jd_id def = "job_demo" →
  ∃ run wf w', @createRun _ _ _ _ _ _ (scripted script) "job_demo" "manual" [] (demo_registered def)
      = (Ok (run, wf, def), w')
    ∧ run_id run = "run_0" ∧ pending_run "run_0" def wf w' ∧ unlocked "run_0" w' ∧ w_calls w' = 0%nat.
Proof.
  intros Ht Hid.
  destruct (@createRun_spec InMemoryJobStore InMemoryWorkflowStore InMemoryRunStore _ _ _ _ _
    (scripted script) "job_demo" "manual" [] def (demo_registered def))
    as (run & wf & w' & Hc & Hrid & _ & Hp & Hl & Hk & _ & _ & Hcalls & _).
  - rewrite Ht. apply (bool_decide_unpack _). by vm_compute.
  - apply empty_workflow_store_ok.
  - intros r w. done.
  - simpl. rewrite Hid. by rewrite decide_True.
  - rewrite Ht. apply (bool_decide_unpack _). by vm_compute.
  - exists run, wf, w'. change (id_at "run_" (w_uuids (demo_registered def))) with "run_0" in Hrid.
    rewrite Hrid in Hp. split; [done|]. split; [done|]. split; [done|]. split; [|done].
    unfold unlocked. rewrite Hl, Hk. split; [set_solver|]. split; [done|]. by apply (bool_decide_unpack _).
Qed.

Section properties.
Context {JS WS RS : Type} `{JobDefinitionStoreLaws JS} `{!WorkflowStore WS} `{!WorkflowStoreLaws WS}
  `{!RunStore RS} `{!RunStoreLaws RS} `{Environment}.

Notation world := (world JS WS RS).
Notation workflow_of rid w := (workflow_getByRunId rid (w_workflows w)).
Notation run_of rid w := (run_get rid (w_runs w)).

(** The fuel that is enough for a new run of a definition. *)
Definition enough_fuel (def : JobDefinition) (fuel : nat) : Prop :=
  (Z.to_nat (attempt_bound (retryPolicy def)) * length (tasks def) < fuel)%nat.

(** Everything the execution of a new run guarantees, which the properties below
    project. *)
Lemma executeRun_new rid def wf (w : world) fuel :
  executable def → pending_run rid def wf w → unlocked rid w → enough_fuel def fuel →
  ∃ o wf' w', executeRun fuel rid w = (o, w') ∧ run_end def o wf'
    ∧ workflow_of rid w' = Some wf' ∧ (∃ r, run_of rid w' = Some r ∧ run_status r = state wf')
    ∧ matched def (wf_tasks wf') ∧ context wf' = context wf
    ∧ (state wf' = DeadLettered ∨ w_dead w' = w_dead w)
    ∧ (w_calls w' ≤ w_calls w + Z.to_nat (attempt_bound (retryPolicy def)) * length (tasks def))%nat
    ∧ (tasks_succeed def (context wf) (w_calls w) →
         state wf' ≠ Failed ∧ state wf' ≠ DeadLettered ∧ Forall first_try (wf_tasks wf'))
    ∧ Forall (explained def (context wf)) (wf_tasks wf').
Proof.
  intros Hex [Hinv Hjob Hst Hm Hfr] Hl Hf. rewrite executeRun_enter by done.
  destruct (execute_body_end rid (entered rid w) def fuel wf (entered rid w) Hex)
    as (o & wf' & w' & -> & Hinv' & Hend & Hm' & Hctx & Hd & Hc & Hall); [|done..|].
  { by apply exec_inv_entered. }
  exists o, wf', (unlock rid w'). split; [done|]. split; [done|]. simpl.
  split; [apply Hinv'|]. split; [destruct (ei_run _ _ _ _ Hinv') as (r & ? & _ & ?); eauto|].
  done.
Qed.

(** ** Registration *)

(** C12: [register] accepts an input exactly when it matches the schema and the
    definition built from it, its timeouts capped by the handlers' manifests, is
    well formed, acyclic and uses only known handlers; the definition is then
    stored under its id and the other definitions are kept.  Otherwise it throws
    and stores nothing.  It always ends. *)
Theorem register_correct (zod_message : JobDefinitionInput → string) (reg : HandlerRegistry)
    (i : JobDefinitionInput) (w : world) :
  let def := definition_of reg i (in_id i) (nowIso (w_ticks w)) in
  ((jobDefinitionInputSchema_ok i = true ∧ registered reg def) ↔
     ∃ w', register zod_message reg i w = (Ok def, w'))
  ∧ (∀ d w', register zod_message reg i w = (Ok d, w') →
       d = def ∧ job_get (in_id i) (w_jobs w') = Some def
       ∧ (∀ id, id ≠ in_id i → job_get id (w_jobs w') = job_get id (w_jobs w))
       ∧ w_workflows w' = w_workflows w ∧ w_runs w' = w_runs w)
  ∧ (∀ o w', register zod_message reg i w = (o, w') → (∀ d, o ≠ Ok d) →
       w_jobs w' = w_jobs w ∧ ∃ e, o = Throw e).
Proof.
  intros def. rewrite register_eq. cbv zeta. fold def.
  pose proof (registration_checks_total reg i def) as Htot.
  destruct (jobDefinitionInputSchema_ok i) eqn:Hok; [|naive_solver].
  pose proof (checks_registered reg i (in_id i) (nowIso (w_ticks w)) Hok) as Hiff. fold def in Hiff.
  destruct (registration_checks reg i def) as [[]|e|] eqn:Hc; [| |done].
  - split; [split; [intros _; by eexists|intros _; split; [done|by apply (proj1 Hiff)]]|]. split; [|naive_solver].
    intros d w' [= <- <-]. split; [done|]. simpl.
    split; [by rewrite job_get_save, decide_True|]. split; [|done].
    intros id Hne. rewrite job_get_save, decide_False; [done|]. simpl. congruence.
  - split; [|split; [done|naive_solver]]. split; [|by intros (w' & [=])].
    intros [_ Hr]. apply (proj2 Hiff) in Hr. congruence.
Qed.

(** ** Runs *)

(** [createRun] on a stored definition with distinct task ids stores a
    pending run and workflow that match the definition task by task, every task
    queued and never attempted, and changes no other run, provided the new ids
    are fresh. *)
Theorem createRun_pending (jobId trig : string) (input : jsrecord) (def : JobDefinition) (w : world)
    (Hu : uuids_distinct (S (S (w_uuids w))) (length (tasks def)))
    (Hok : workflow_store_ok (w_workflows w)) (Hids : ids_unused w)
    (Hget : job_get jobId (w_jobs w) = Some def) (Hnd : NoDup (td_id <$> tasks def)) :
  ∃ run wf w', createRun jobId trig input w = (Ok (run, wf, def), w')
    ∧ pending_run (run_id run) def wf w' ∧ context wf = input ∧ w_jobs w' = w_jobs w
    ∧ ∀ r, r ≠ run_id run →
        workflow_of r w' = workflow_of r w ∧ run_of r w' = run_of r w.
Proof.
  destruct (createRun_spec jobId trig input def w Hu Hok Hids Hget Hnd)
    as (run & wf & w' & ? & _ & ? & ? & _ & _ & ? & _ & _ & _ & ?). eauto 10.
Qed.

(** C1: The execution of a new run of a registered definition ends, whatever the
    simulator answers: every task has succeeded and the run is completed; or one
    task has used up its attempts and the run is failed (dead-lettered only when
    a single attempt is allowed); or every task has succeeded, a blocking
    constraint is violated and the call throws.  The run's status is the state
    of the stored workflow. *)
Theorem executeRun_outcome (rid : string) (def : JobDefinition) (wf : WorkflowInstance) (w : world)
    (fuel : nat) (Hex : executable def) (Hp : pending_run rid def wf w) (Hl : unlocked rid w)
    (Hf : enough_fuel def fuel) :
  ∃ o wf' w', executeRun fuel rid w = (o, w') ∧ run_end def o wf'
    ∧ workflow_of rid w' = Some wf' ∧ (∃ r, run_of rid w' = Some r ∧ run_status r = state wf').
Proof.
  destruct (executeRun_new rid def wf w fuel Hex Hp Hl Hf)
    as (o & wf' & w' & ? & ? & ? & ? & _). eauto 10.
Qed.

(** C2: When every call of a handler of the definition on the run's input
    succeeds and no constraint blocks, the run completes: [executeRun] returns,
    every task has succeeded at its first attempt, and its output is what its
    handler answered on the run's input, the executor showing it no output of an
    earlier task. *)
Theorem executeRun_completes (rid : string) (def : JobDefinition) (wf : WorkflowInstance) (w : world)
    (fuel : nat) (Hex : executable def) (Hp : pending_run rid def wf w) (Hl : unlocked rid w)
    (Hf : enough_fuel def fuel) (Ha : tasks_succeed def (context wf) (w_calls w))
    (Hc : ∀ wf', context wf' = context wf → constraints_pass def wf') :
  ∃ wf' w', executeRun fuel rid w = (Ok tt, w') ∧ workflow_of rid w' = Some wf'
    ∧ state wf' = Completed ∧ Forall (λ t, status t = TaskSucceeded ∧ attempt t = 1) (wf_tasks wf')
    ∧ ∀ t, t ∈ wf_tasks wf' → ∃ j d rid' r, d ∈ tasks def ∧ td_id d = definitionTaskId t
        ∧ simulate j (handler d) (context wf) (mkHandlerContext rid' (definitionTaskId t) (context wf) []) = inl r
        ∧ output t = Some (sim_output r).
Proof.
  destruct (executeRun_new rid def wf w fuel Hex Hp Hl Hf)
    as (o & wf' & w' & Hrun & Hend & Hget & _ & _ & Hctx & _ & _ & Hall & Hexp).
  destruct (Hall Ha) as (Hnf & Hnd & Hft). exists wf', w'.
  inversion Hend as [? Hst Hs|? t [Hst|[Hst _]]|? ? ? Hcp]; subst; try congruence.
  - split; [done|]. split; [done|]. split; [done|].
    rewrite Forall_forall in Hs, Hft, Hexp. split.
    + apply Forall_forall. intros t Ht. destruct (Hs t Ht) as [Hs' _]. specialize (Hft t Ht).
      unfold first_try in Hft. by rewrite decide_True in Hft.
    + intros t Ht. destruct (Hexp t Ht) as (j & d & rid' & r & Hd & Hid & Hcall & _ & Hout); [by apply Hs|].
      by exists j, d, rid', r.
  - by destruct Hcp; apply Hc.
Qed.

(** No task of a new run is attempted more than [max 1 (maxAttempts - 1)]
    times: with a limit of two or more the last attempt is never made, and the
    simulator is called at most that often per task. *)
Theorem executeRun_attempts (rid : string) (def : JobDefinition) (wf : WorkflowInstance) (w : world)
    (fuel : nat) (Hex : executable def) (Hp : pending_run rid def wf w) (Hl : unlocked rid w)
    (Hf : enough_fuel def fuel) :
  let bound := Z.max 1 (maxAttempts (retryPolicy def) - 1) in
  ∃ wf', workflow_of rid (executeRun fuel rid w).2 = Some wf'
    ∧ Forall (λ t, attempt t ≤ bound) (wf_tasks wf')
    ∧ (∀ t, t ∈ wf_tasks wf' → status t = TaskFailed → attempt t = bound)
    ∧ (w_calls (executeRun fuel rid w).2 ≤ w_calls w + Z.to_nat bound * length (tasks def))%nat.
Proof.
  intros bound. destruct (executeRun_new rid def wf w fuel Hex Hp Hl Hf)
    as (o & wf' & w' & Hrun & Hend & Hget & _ & Hm & _ & _ & Hcalls & _).
  rewrite Hrun. exists wf'. split; [done|]. split; [|split; [|done]].
  - apply Forall_forall. intros t Ht. apply (run_end_attempts _ _ _ Hend _ Ht).
  - intros t Ht. apply (run_end_attempts _ _ _ Hend _ Ht).
Qed.

(** A new run with an attempt limit of two or more is never dead-lettered:
    the threshold of [executeRun] counts more attempts than the retry handler
    allows. *)
Theorem executeRun_never_dead_letters (rid : string) (def : JobDefinition) (wf : WorkflowInstance)
    (w : world) (fuel : nat) (Hex : executable def) (Hp : pending_run rid def wf w)
    (Hl : unlocked rid w) (Hf : enough_fuel def fuel) (Hm : 2 ≤ maxAttempts (retryPolicy def)) :
  w_dead (executeRun fuel rid w).2 = w_dead w
  ∧ ∃ wf', workflow_of rid (executeRun fuel rid w).2 = Some wf' ∧ state wf' ≠ DeadLettered.
Proof.
  destruct (executeRun_new rid def wf w fuel Hex Hp Hl Hf)
    as (o & wf' & w' & Hrun & Hend & Hget & _ & _ & _ & Hd & _). rewrite Hrun.
  assert (state wf' ≠ DeadLettered) as Hnd.
  { inversion Hend as [? Hst|? t [Hst|[_ Hle]]|? Hst]; subst; (congruence || lia). }
  split; [by destruct Hd|eauto].
Qed.

(** The call of [executeRun] in terms of its body, for an unlocked run. *)
Lemma executeRun_invariant rid wf (w : world) fuel :
  exec_inv rid w wf w → unlocked rid w →
  ∃ wf' w1, (executeRun fuel rid w).2 = unlock rid w1 ∧ exec_inv rid (entered rid w) wf' w1.
Proof.
  intros Hinv Hl. rewrite executeRun_enter by done.
  destruct (execute_body_inv rid (entered rid w) fuel wf (entered rid w)) as [wf' Hinv'];
    [by apply exec_inv_entered|].
  destruct (execute_body fuel rid (entered rid w)) as [o w1]. eauto.
Qed.

(** C3: Whatever the state of a stored run and however the call ends, after
    [executeRun] the run's workflow has a history that is a legal path from
    [pending] to its state, with one version per entry; the run's status is that
    state; the workflows and records of other runs, the job definitions and both
    lock tables are as before. *)
Theorem executeRun_safe (rid : string) (wf : WorkflowInstance) (w : world) (fuel : nat)
    (Hinv : exec_inv rid w wf w) (Hl : unlocked rid w) :
  let w' := (executeRun fuel rid w).2 in
  (∃ wf', workflow_of rid w' = Some wf' ∧ audited DEFAULT_TRANSITION_RULES wf'
     ∧ ∃ r, run_of rid w' = Some r ∧ run_status r = state wf')
  ∧ (∀ r, r ≠ rid → workflow_of r w' = workflow_of r w ∧ run_of r w' = run_of r w)
  ∧ w_jobs w' = w_jobs w ∧ w_localLocks w' = w_localLocks w
  ∧ ∀ r, map_get (w_locks w') r = map_get (w_locks w) r.
Proof.
  destruct (executeRun_invariant rid wf w fuel Hinv Hl) as (wf' & w1 & Heq & Hinv1).
  rewrite Heq. destruct (ei_frame _ _ _ _ Hinv1) as [Hj Hll Hk].
  destruct (unlock_restores rid w w1 Hl Hll Hk) as [Hl' Hk'].
  split; [|split; [|split; [done|split; [done|done]]]].
  - exists wf'. split; [apply Hinv1|]. split; [apply Hinv1|].
    destruct (ei_run _ _ _ _ Hinv1) as (r & ? & _ & ?). by exists r.
  - intros r Hr. split; [by apply (ei_other _ _ _ _ Hinv1)|by apply (ei_runs_other _ _ _ _ Hinv1)].
Qed.

(** An execution publishes [workflow.transitioned] events of its own run and
    nothing else, so it changes no counter of the metrics: runs are never counted
    as started, completed or failed, and the webhook and notification
    subscribers, which react to [run.failed] and [run.completed], never fire. *)
Theorem executeRun_events (rid : string) (wf : WorkflowInstance) (w : world) (fuel : nat)
    (Hinv : exec_inv rid w wf w) (Hl : unlocked rid w) :
  let w' := (executeRun fuel rid w).2 in
  (∃ evs, w_events w' = w_events w ++ evs
     ∧ Forall (λ e, ∃ from to event at_, e = WorkflowTransitioned rid from to event at_) evs)
  ∧ counters (w_metrics w') = counters (w_metrics w).
Proof.
  destruct (executeRun_invariant rid wf w fuel Hinv Hl) as (wf' & w1 & Heq & Hinv1).
  rewrite Heq. split; [apply (ei_events _ _ _ _ Hinv1)|apply (ei_counters _ _ _ _ Hinv1)].
Qed.

(** While a run executes, a second call returns without doing anything.  A
    call refused by the lock registry, held by another owner, throws a
    concurrency error and leaves the run marked as executing, so that from then
    on every call returns without doing anything. *)
Theorem executeRun_reentry (rid owner : string) (w : world) (fuel : nat) :
  (rid ∈ w_localLocks w → executeRun fuel rid w = (Ok tt, w))
  ∧ (rid ∉ w_localLocks w → map_get (w_locks w) rid = Some owner → owner ≠ "" →
     owner ≠ execution_owner →
     ∃ w', executeRun fuel rid w
       = (Throw (ConcurrencyError ("run " +:+ rid +:+ " locked by " +:+ owner)), w')
     ∧ rid ∈ w_localLocks w' ∧ executeRun fuel rid w' = (Ok tt, w')).
Proof.
  assert (∀ w : world, rid ∈ w_localLocks w → executeRun fuel rid w = (Ok tt, w)) as Hbusy.
  { intros w0 Hin. unfold executeRun.
    rewrite (M_bind_eq_Ok _ _ w0 true w0); [done|]. unfold gets. by rewrite bool_decide_eq_true_2. }
  split; [apply Hbusy|]. intros Hn Hk Hne Ho.
  exists (with_localLocks (w_localLocks w ++ [rid]) w). split; [|split].
  - unfold executeRun.
    rewrite (M_bind_eq_Ok _ _ w false w) by (unfold gets; by rewrite bool_decide_eq_false_2).
    rewrite (M_bind_eq_Ok _ _ w tt (with_localLocks (w_localLocks w ++ [rid]) w)) by done.
    rewrite (M_bind_eq_Ok _ _ _ (w_locks w) (with_localLocks (w_localLocks w ++ [rid]) w)) by done.
    apply M_bind_eq_Throw. unfold lift_outcome. by rewrite (acquire_held _ _ owner).
  - simpl. set_solver.
  - apply Hbusy. simpl. set_solver.
Qed.

(** A violated blocking constraint never fails the run: when every call of
    the simulator succeeds, [executeRun] throws and leaves the run [running]. *)
Theorem executeRun_blocked_stays_running (rid : string) (def : JobDefinition) (wf : WorkflowInstance)
    (w : world) (fuel : nat) (Hex : executable def) (Hp : pending_run rid def wf w)
    (Hl : unlocked rid w) (Hf : enough_fuel def fuel) (Ha : always_succeeds (w_calls w))
    (Hc : ∃ c, c ∈ constraints def ∧ expression c = "always" ∧ severity c = SeverityBlock) :
  ∃ wf' w' m, executeRun fuel rid w = (Throw (ExecutionError ReasonConstraintViolation m), w')
    ∧ workflow_of rid w' = Some wf' ∧ state wf' = Running
    ∧ ∃ r, run_of rid w' = Some r ∧ run_status r = Running.
Proof.
  destruct (executeRun_new rid def wf w fuel Hex Hp Hl Hf)
    as (o & wf' & w' & Hrun & Hend & Hget & (r & Hr & Hrs) & _ & _ & _ & _ & Hall & _).
  destruct (Hall (always_tasks_succeed _ _ _ Ha)) as (Hnf & Hnd & _).
  inversion Hend as [? Hst ? Hcp|? t [Hst|[Hst _]]|? Hst]; subst; try congruence.
  - destruct Hc as (c & Hin & He & Hs).
    assert (violated (constraint_context wf') c) as Hv
      by (unfold violated, evaluateExpression; rewrite He; by rewrite decide_True).
    specialize (Hcp c Hin Hv). congruence.
  - exists wf', w', ("constraints blocked: " +:+ join ", " (violated_ids SeverityBlock
      (constraint_context wf') (constraints def))).
    split; [done|]. split; [done|]. split; [done|]. exists r. split; [done|congruence].
Qed.

(** *** A definition that changed after the run was created *)

(** The stored definition of a pending or running run has a task that could be
    the next, and the run has no such task. *)
Record orphaned (rid : string) (def : JobDefinition) (wf : WorkflowInstance) (w : world) : Prop := {
  or_inv : exec_inv rid w wf w;
  or_unlocked : unlocked rid w;
  or_state : state wf = Pending ∨ state wf = Running;
  or_job : ∃ r, run_of rid w = Some r ∧ job_get (run_jobId r) (w_jobs w) = Some def;
  or_task : ∃ d, nextRunnable (wf_tasks wf) (tasks def) = Some d ∧ find_run (wf_tasks wf) d = None;
}.

Definition no_attempt : JsError := TypeError "Cannot read properties of undefined (reading 'attempt')".

Lemma exec_inv_here rid (w0 : world) wf (w : world) : exec_inv rid w0 wf w → exec_inv rid (unlock rid w) wf (unlock rid w).
Proof. intros []. split; simpl; try done. exists []. by rewrite app_nil_r. Qed.

Lemma unlock_unlocked rid (w w' : world) :
  unlocked rid w → w_localLocks w' = w_localLocks (entered rid w) → w_locks w' = w_locks (entered rid w) →
  unlocked rid (unlock rid w').
Proof.
  intros Hl Hl' Hk'. destruct (unlock_restores rid w w' Hl Hl' Hk') as [Hll Hkk]. destruct Hl as (Hn & Hk & Hok).
  split; [by rewrite Hll|]. split; [by rewrite Hkk|]. unfold unlock. simpl. rewrite Hk'. simpl.
  unfold release. rewrite bool_decide_eq_true_2 by apply map_get_set_eq. apply map_delete_ok. by apply map_set_ok.
Qed.

Lemma applyTransition_jobId rid (w0 : world) wf event target actor (w : world) r :
  exec_inv rid w0 wf w → run_of rid w = Some r →
  ∃ r', run_of rid (applyTransition wf event target actor w).2 = Some r' ∧ run_jobId r' = run_jobId r.
Proof.
  intros Hinv Hr. destruct (ei_run _ _ _ _ Hinv) as (r0 & Hr0 & Hid & _).
  assert (r0 = r) as -> by congruence.
  unfold applyTransition, mbind, M_bind, lift_outcome, machine_transition.
  destruct (evaluate_guard wf event target); try by exists r.
  destruct (transition _ wf _ _ _ _ _ _) as [next| |] eqn:Ht; try by exists r.
  unfold update_run, gets, mbind, M_bind. cbn -[isTerminal run_get run_save emit].
  destruct (run_get (wf_runId next) (w_runs w)) as [r1|] eqn:Hrun1; [|by exists r].
  assert (wf_runId next = run_id r) as Hn by (apply transition_Ok in Ht; destruct_and?; destruct Hinv; congruence).
  assert (r1 = r) as -> by congruence.
  destruct (isTerminal target); cbn -[run_get run_save]; rewrite run_get_save; cbn; rewrite decide_True by done;
    by eexists.
Qed.

Lemma startRun_running rid (w0 : world) wf (w : world) :
  exec_inv rid w0 wf w → state wf = Pending ∨ state wf = Running →
  ∃ wf' w', startRun wf w = (Ok wf', w') ∧ exec_inv rid w0 wf' w' ∧ state wf' = Running
    ∧ wf_tasks wf' = wf_tasks wf ∧ w_calls w' = w_calls w
    ∧ ∀ r, run_of rid w = Some r → ∃ r', run_of rid w' = Some r' ∧ run_jobId r' = run_jobId r.
Proof.
  intros Hinv Hst. unfold startRun. case_bool_decide as Hp; [|exists wf, w; naive_solver].
  destruct (applyTransition_Ok rid w0 wf "start" Running "orchestrator" w Hinv)
    as (wf1 & w1 & Happ & Hinv1 & Hst1 & Hts1 & _ & _ & _ & Hc1).
  { split; [unfold evaluate_guard|]; by rewrite Hp. }
  exists wf1, w1. repeat (split; [done|]). intros r Hr.
  destruct (applyTransition_jobId rid w0 wf "start" Running "orchestrator" w r Hinv Hr) as (r' & Hr' & Hj).
  rewrite Happ in Hr'. by exists r'.
Qed.

Lemma execute_orphaned rid def wf (w : world) fuel :
  orphaned rid def wf w → (0 < fuel)%nat →
  ∃ wf' w', executeRun fuel rid w = (Throw no_attempt, w') ∧ orphaned rid def wf' w'
    ∧ state wf' = Running ∧ wf_tasks wf' = wf_tasks wf ∧ w_calls w' = w_calls w.
Proof.
  intros [Hinv Hl Hst (r & Hr & Hd) (d & Hnext & Hnone)] Hf. rewrite executeRun_enter by done. unfold execute_body.
  pose proof (exec_inv_entered rid wf w Hinv) as Hinv0.
  rewrite (M_bind_eq_Ok _ _ (entered rid w) r (entered rid w)) by (unfold require; simpl; by rewrite Hr).
  rewrite (M_bind_eq_Ok _ _ (entered rid w) def (entered rid w)) by (unfold require; simpl; by rewrite Hd).
  rewrite (M_bind_eq_Ok _ _ (entered rid w) wf (entered rid w)) by (unfold require; by rewrite (ei_get _ _ _ _ Hinv0)).
  destruct (startRun_running _ _ _ _ Hinv0 Hst) as (wf1 & w1 & Hs & Hinv1 & Hst1 & Hts1 & Hc1 & Hjob).
  rewrite (M_bind_eq_Ok _ _ _ _ _ Hs). destruct fuel as [|fuel]; [lia|].
  assert (execute_loop (S fuel) def wf1 w1 = (Throw no_attempt, w1)) as Hloop.
  { cbn [execute_loop]. rewrite bool_decide_eq_true_2 by done. cbn [negb]. rewrite Hts1, Hnext.
    apply M_bind_eq_Throw. unfold run_next. unfold find_run in Hnone. by rewrite Hts1, Hnone. }
  rewrite (M_bind_eq_Throw _ _ _ _ _ Hloop). destruct (ei_frame _ _ _ _ Hinv1) as [Hj Hll Hk].
  exists wf1, (unlock rid w1). split; [done|]. split; [|done]. split.
  - by eapply exec_inv_here.
  - by apply (unlock_unlocked rid w).
  - by right.
  - destruct (Hjob r Hr) as (r1 & Hr1 & Hj1). exists r1. split; [done|]. simpl. by rewrite Hj1, Hj.
  - exists d. by rewrite Hts1.
Qed.

Lemma redefined_orphaned zod_message reg i rid old def wf (w w1 : world) r d :
  pending_run rid old wf w → unlocked rid w → register zod_message reg i w = (Ok def, w1) →
  run_of rid w = Some r → run_jobId r = in_id i →
  nextRunnable (wf_tasks wf) (tasks def) = Some d → find_run (wf_tasks wf) d = None →
  orphaned rid def wf w1 ∧ w_calls w1 = w_calls w.
Proof.
  intros [Hinv _ Hst _ _] Hl Hreg Hr Hid Hd Hn. rewrite register_eq in Hreg.
  destruct (jobDefinitionInputSchema_ok i); [|done].
  cbv zeta in Hreg. destruct (registration_checks reg i _) as [[]| |]; simplify_eq. split; [split|done].
  - by destruct Hinv.
  - done.
  - by left.
  - exists r. split; [done|]. simpl. rewrite job_get_save. by rewrite decide_True.
  - by exists d.
Qed.

(** C8: A job that is registered again between [createRun] and [executeRun]: the
    execution reads the new definition and the workflow of the old one.  When the
    next task of the new definition is none of the run's, every execution throws
    a [TypeError] from the task executor, no handler is called, the run is left
    [running] and no later execution gets further. *)
Theorem executeRun_redefined (zod_message : JobDefinitionInput → string) (reg : HandlerRegistry)
    (i : JobDefinitionInput) (rid : string) (old def : JobDefinition) (wf : WorkflowInstance) (w w1 : world)
    (r : JobRun) (d : TaskDefinition) (fuel : nat) (Hp : pending_run rid old wf w) (Hl : unlocked rid w)
    (Hreg : register zod_message reg i w = (Ok def, w1)) (Hr : run_of rid w = Some r) (Hid : run_jobId r = in_id i)
    (Hd : nextRunnable (wf_tasks wf) (tasks def) = Some d) (Hn : find_run (wf_tasks wf) d = None)
    (Hf : (0 < fuel)%nat) (n : nat) :
  let w' := Nat.iter n (λ w, (executeRun fuel rid w).2) w1 in
  (executeRun fuel rid w').1 = Throw no_attempt
  ∧ w_calls w' = w_calls w
  ∧ unlocked rid w'
  ∧ ∃ wf', workflow_of rid w' = Some wf' ∧ wf_tasks wf' = wf_tasks wf
      ∧ state wf' = (if decide (n = 0%nat) then Pending else Running).
Proof.
  destruct (redefined_orphaned _ _ _ _ _ _ _ _ _ _ _ Hp Hl Hreg Hr Hid Hd Hn) as [Ho Hc].
  pose proof (pr_state _ _ _ _ Hp) as Hst. cbv zeta.
  assert (∃ wf', orphaned rid def wf' (Nat.iter n (λ w, (executeRun fuel rid w).2) w1)
    ∧ wf_tasks wf' = wf_tasks wf ∧ state wf' = (if decide (n = 0%nat) then Pending else Running)
    ∧ w_calls (Nat.iter n (λ w, (executeRun fuel rid w).2) w1) = w_calls w) as (wf' & Ho' & Hts & Hs & Hc').
  { induction n as [|n (wf1 & Ho1 & Ht1 & _ & Hc1)]; [by exists wf|].
    destruct (execute_orphaned rid def wf1 _ fuel Ho1 Hf) as (wf2 & w2 & Hex & Ho2 & Hs2 & Ht2 & Hc2).
    exists wf2. simpl. rewrite Hex. simpl. rewrite Ht2, Hc2. done. }
  destruct (execute_orphaned rid def wf' _ fuel Ho' Hf) as (? & w2 & Hex & _). rewrite Hex.
  split; [done|]. split; [done|]. split; [apply Ho'|]. exists wf'. split; [|done].
  apply (ei_get _ _ _ _ (or_inv _ _ _ _ Ho')).
Qed.

(** End to end: registering an input, creating a run of it and executing
    that run ends in one of the ways of [run_end], for every environment whose
    identifiers do not repeat and every engine without stored workflows. *)
Theorem register_create_execute (zod_message : JobDefinitionInput → string) (reg : HandlerRegistry)
    (i : JobDefinitionInput) (trig : string) (input : jsrecord) (def : JobDefinition) (w w1 : world)
    (fuel : nat)
    (Hreg : register zod_message reg i w = (Ok def, w1))
    (Hu : uuids_distinct (S (S (w_uuids w1))) (length (tasks def)))
    (Hok : workflow_store_ok (w_workflows w)) (Hids : ids_unused w1)
    (Hfree : w_localLocks w = [] ∧ w_locks w = []) (Hf : enough_fuel def fuel) :
  ∃ rid o wf' w', (('(run, _, _) ← createRun (jd_id def) trig input;
                    _ ← executeRun fuel (run_id run); mret (run_id run)) w1)
      = (match o with Ok _ => Ok rid | Throw e => Throw e | OutOfFuel => OutOfFuel end, w')
    ∧ o ≠ OutOfFuel ∧ run_end def o wf' ∧ workflow_of rid w' = Some wf'.
Proof.
  rewrite register_eq in Hreg. destruct (jobDefinitionInputSchema_ok i) eqn:Hs; [|done].
  cbv zeta in Hreg.
  pose proof (checks_registered reg i (in_id i) (nowIso (w_ticks w)) Hs) as Hiff.
  destruct (registration_checks reg i _) as [[]| |] eqn:Hc; [|done|done].
  injection Hreg as Hdef Hw1. rewrite Hdef in Hiff.
  pose proof (proj1 Hiff eq_refl) as Hrg.
  assert (job_get (jd_id def) (w_jobs w1) = Some def) as Hget.
  { rewrite <-Hw1. simpl. by rewrite Hdef, job_get_save, decide_True. }
  destruct (createRun_spec (jd_id def) trig input def w1 Hu) as
    (run & wf & w2 & Hcr & _ & _ & Hp & Hl & Hk & _);
    [by rewrite <-Hw1|done|done|apply (rg_well_formed _ _ Hrg)|].
  assert (unlocked (run_id run) w2) as Hun.
  { destruct Hfree as [Hl0 Hk0]. unfold unlocked. rewrite Hl, Hk, <-Hw1. simpl. rewrite Hl0, Hk0.
    split; [set_solver|]. split; [done|apply NoDup_nil_2]. }
  destruct (executeRun_new (run_id run) def wf w2 fuel (registered_executable _ _ Hrg) Hp Hun Hf)
    as (o & wf' & w' & Hrun & Hend & Hwf & _).
  exists (run_id run), o, wf', w'. rewrite (M_bind_eq_Ok _ _ _ _ _ Hcr).
  split; [|split; [by inversion Hend|done]].
  unfold mbind, M_bind. rewrite Hrun. by destruct o as [[]| |].
Qed.
End properties.

(** ** Instances on the concrete engine *)

Section witnesses.
#[local] Instance all_succeed : Environment := scripted (λ _, true).

Lemma all_succeed_always k : always_succeeds k.
Proof. intros j h input c _. by eexists. Qed.

Lemma demo_fuel def : tasks def = tasks demo_definition → retryPolicy def = DEFAULT_RETRY_POLICY →
  enough_fuel def 20.
Proof. intros Ht Hp. unfold enough_fuel. rewrite Ht, Hp. vm_compute. lia. Qed.

Lemma register_correct_witness :
  ∃ d w', register (JS := InMemoryJobStore) (WS := InMemoryWorkflowStore) (RS := InMemoryRunStore)
            (λ _, "invalid") new_handler_registry demo_input demo_empty = (Ok d, w')
    ∧ d = definition_of new_handler_registry demo_input "job_demo" (nowIso 0)
    ∧ job_get "job_demo" (w_jobs w') = Some d.
Proof.
  destruct (register_correct (λ _, "invalid") new_handler_registry demo_input demo_empty)
    as (_ & Hok & _).
  eexists _, _. split; [vm_compute; reflexivity|].
  destruct (Hok _ _ ltac:(vm_compute; reflexivity)) as (Hd & Hget & _).
  split; [exact Hd|]. rewrite Hd. exact Hget.
Defined.

Lemma createRun_pending_witness :
  ∃ run wf w', createRun "job_demo" "manual" [] (demo_registered demo_definition)
      = (Ok (run, wf, demo_definition), w') ∧ pending_run (run_id run) demo_definition wf w'.
Proof.
  destruct (createRun_pending "job_demo" "manual" [] demo_definition (demo_registered demo_definition))
    as (run & wf & w' & Hc & Hp & _).
  - apply (bool_decide_unpack _). vm_compute. exact I.
  - apply empty_workflow_store_ok.
  - intros r w Hw. discriminate Hw.
  - vm_compute. reflexivity.
  - apply (bool_decide_unpack _). vm_compute. exact I.
  - exists run, wf, w'. split; [exact Hc|exact Hp].
Defined.

Lemma executeRun_outcome_witness :
  ∃ wf (w : demo_world) o wf' w', pending_run "run_0" demo_definition wf w
    ∧ executeRun 20 "run_0" w = (o, w') ∧ run_end demo_definition o wf'.
Proof.
  destruct (demo_pending (λ _, true) demo_definition eq_refl eq_refl)
    as (_ & wf & w & _ & _ & Hp & Hl & _).
  destruct (executeRun_outcome "run_0" demo_definition wf w 20 (demo_executable _ eq_refl) Hp Hl
    (demo_fuel _ eq_refl eq_refl)) as (o & wf' & w' & Hrun & Hend & _).
  exists wf, w, o, wf', w'. split; [exact Hp|]. split; [exact Hrun|exact Hend].
Defined.

Lemma executeRun_completes_witness :
  ∃ wf (w : demo_world) wf' w', pending_run "run_0" demo_definition wf w
    ∧ executeRun 20 "run_0" w = (Ok tt, w') ∧ state wf' = Completed.
Proof.
  destruct (demo_pending (λ _, true) demo_definition eq_refl eq_refl)
    as (_ & wf & w & _ & _ & Hp & Hl & Hc).
  destruct (executeRun_completes "run_0" demo_definition wf w 20 (demo_executable _ eq_refl) Hp Hl
    (demo_fuel _ eq_refl eq_refl)) as (wf' & w' & Hrun & _ & Hst & _).
  - apply always_tasks_succeed, all_succeed_always.
  - intros wf' _ c Hin. apply elem_of_nil in Hin as [].
  - exists wf, w, wf', w'. split; [exact Hp|]. split; [exact Hrun|exact Hst].
Defined.

Lemma executeRun_blocked_stays_running_witness :
  ∃ (w : demo_world) wf' w' m, executeRun 20 "run_0" w
      = (Throw (ExecutionError ReasonConstraintViolation m), w') ∧ state wf' = Running.
Proof.
  destruct (demo_pending (λ _, true) demo_blocked eq_refl eq_refl)
    as (_ & wf & w & _ & _ & Hp & Hl & Hc).
  destruct (executeRun_blocked_stays_running "run_0" demo_blocked wf w 20
    (demo_executable demo_blocked eq_refl) Hp Hl (demo_fuel demo_blocked eq_refl eq_refl))
    as (wf' & w' & m & Hrun & _ & Hst & _).
  - apply all_succeed_always.
  - exists (mkConstraint "c1" "always" SeverityBlock). split; [left|]. split; reflexivity.
  - exists w, wf', w', m. split; [exact Hrun|exact Hst].
Defined.

(** The demo job, registered again with one task of another id. *)
Definition demo_changed : JobDefinitionInput :=
  mkInput "job_demo" "Demo" 2 None [mkTaskDefinition "other" "Other" "invoice.fetch" 1000 None None] None None None None.

Lemma executeRun_redefined_witness :
  ∃ (w : demo_world) wf, (executeRun 20 "run_0" w).1 = Throw no_attempt
    ∧ workflow_getByRunId "run_0" (w_workflows w) = Some wf ∧ state wf = Running.
Proof.
  destruct (createRun_pending "job_demo" "manual" [] demo_definition (demo_registered demo_definition))
    as (run & wf & w & Hc & Hp & _).
  - apply (bool_decide_unpack _). vm_compute. exact I.
  - apply empty_workflow_store_ok.
  - intros r w Hw. discriminate Hw.
  - vm_compute. reflexivity.
  - apply (bool_decide_unpack _). vm_compute. exact I.
  - vm_compute in Hc. injection Hc as <- <- <-.
    edestruct (executeRun_redefined (λ _, "invalid") new_handler_registry demo_changed "run_0") with (n := 1%nat)
      (fuel := 20%nat) as (Hex & _ & _ & wf' & Hget & _ & Hst); [exact Hp|..].
    + split; [vm_compute; set_solver|]. split; [reflexivity|]. by apply (bool_decide_unpack _).
    + vm_compute. reflexivity.
    + vm_compute. reflexivity.
    + vm_compute. reflexivity.
    + vm_compute. reflexivity.
    + vm_compute. reflexivity.
    + lia.
    + eexists _, wf'. split; [exact Hex|]. split; [exact Hget|exact Hst].
Defined.

Lemma executeRun_safe_witness :
  ∃ wf (w : demo_world), exec_inv "run_0" w wf w
    ∧ ∃ wf', workflow_getByRunId "run_0" (w_workflows (executeRun 20 "run_0" w).2) = Some wf'
        ∧ audited DEFAULT_TRANSITION_RULES wf'.
Proof.
  destruct (demo_pending (λ _, true) demo_definition eq_refl eq_refl)
    as (_ & wf & w & _ & _ & Hp & Hl & _).
  destruct (executeRun_safe "run_0" wf w 20 (pr_inv _ _ _ _ Hp) Hl) as ((wf' & Hget & Hau & _) & _).
  exists wf, w. split; [exact (pr_inv _ _ _ _ Hp)|]. exists wf'. split; [exact Hget|exact Hau].
Defined.

Lemma executeRun_events_witness :
  ∃ wf (w : demo_world), exec_inv "run_0" w wf w
    ∧ counters (w_metrics (executeRun 20 "run_0" w).2) = counters (w_metrics w).
Proof.
  destruct (demo_pending (λ _, true) demo_definition eq_refl eq_refl)
    as (_ & wf & w & _ & _ & Hp & Hl & _).
  exists wf, w. split; [exact (pr_inv _ _ _ _ Hp)|].
  exact (proj2 (executeRun_events "run_0" wf w 20 (pr_inv _ _ _ _ Hp) Hl)).
Defined.

Lemma executeRun_reentry_witness :
  executeRun 20 "r" (with_localLocks ["r"] demo_empty) = (Ok tt, with_localLocks ["r"] demo_empty)
  ∧ ∃ e w', executeRun 20 "r" (with_locks [("r", "recovery")] demo_empty) = (Throw e, w')
      ∧ executeRun 20 "r" w' = (Ok tt, w').
Proof.
  split.
  - apply (executeRun_reentry "r" "recovery" (with_localLocks ["r"] demo_empty) 20). left.
  - destruct (proj2 (executeRun_reentry "r" "recovery" (with_locks [("r", "recovery")] demo_empty) 20))
      as (w' & Hrun & _ & Hagain).
    + intros Hin. apply elem_of_nil in Hin as [].
    + reflexivity.
    + discriminate.
    + discriminate.
    + eexists _, w'. split; [exact Hrun|exact Hagain].
Defined.

Lemma register_create_execute_witness :
  ∃ rid (o : res unit) wf' (w' : demo_world), run_end demo_definition o wf'
    ∧ workflow_getByRunId rid (w_workflows w') = Some wf'.
Proof.
  destruct (register_create_execute (λ _, "invalid") new_handler_registry demo_input "manual" []
    demo_definition demo_empty (with_ticks 1 (demo_registered demo_definition)) 20)
    as (rid & o & wf' & w' & _ & _ & Hend & Hget).
  - vm_compute. reflexivity.
  - apply (bool_decide_unpack _). vm_compute. exact I.
  - apply empty_workflow_store_ok.
  - intros r w Hw. discriminate Hw.
  - split; reflexivity.
  - apply demo_fuel; reflexivity.
  - exists rid, o, wf', w'. split; [exact Hend|exact Hget].
Defined.
End witnesses.

Section failing_witnesses.
#[local] Instance all_fail : Environment := scripted (λ _, false).

Lemma executeRun_attempts_witness :
  ∃ wf (w : demo_world), pending_run "run_0" demo_definition wf w
    ∧ ∃ wf', workflow_getByRunId "run_0" (w_workflows (executeRun 20 "run_0" w).2) = Some wf'
        ∧ Forall (λ t, attempt t ≤ 2) (wf_tasks wf').
Proof.
  destruct (demo_pending (λ _, false) demo_definition eq_refl eq_refl)
    as (_ & wf & w & _ & _ & Hp & Hl & _).
  destruct (executeRun_attempts "run_0" demo_definition wf w 20 (demo_executable _ eq_refl) Hp Hl
    (demo_fuel _ eq_refl eq_refl)) as (wf' & Hget & Hall & _).
  exists wf, w. split; [exact Hp|]. exists wf'. split; [exact Hget|exact Hall].
Defined.

Lemma executeRun_never_dead_letters_witness :
  ∃ wf (w : demo_world), pending_run "run_0" demo_definition wf w
    ∧ w_dead (executeRun 20 "run_0" w).2 = w_dead w.
Proof.
  destruct (demo_pending (λ _, false) demo_definition eq_refl eq_refl)
    as (_ & wf & w & _ & _ & Hp & Hl & _).
  exists wf, w. split; [exact Hp|].
  refine (proj1 (executeRun_never_dead_letters "run_0" demo_definition wf w 20
    (demo_executable _ eq_refl) Hp Hl (demo_fuel _ eq_refl eq_refl) _)).
  vm_compute. discriminate.
Defined.
End failing_witnesses.
