(* ===== verification/ConcurrencyProps.v ===== *)
(** * Properties of concurrent executions

    The theorems about calls of [ExecutionService.executeRun] that interleave at
    their [await]s, with an instance at two runs whose blocks alternate. *)

From S2P Require Import Prelude Threads JsMap JsString Graph JsNum DomainTypes JsValue Domain Retry Transitions Locks Stores Metrics Handlers Validator Expressions Constraints Engine EngineThreads ExecInv Execution Registration Concurrency EngineProps.
From stdpp Require Import relations.
Open Scope Z_scope.

(** Executions change no definition. *)
#[local] Existing Instance every_job.

Section properties.
Context {JS WS RS : Type} `{JobDefinitionStoreLaws JS} `{!WorkflowStore WS} `{!WorkflowStoreLaws WS}
  `{!RunStore RS} `{!RunStoreLaws RS} `{Environment}.
Notation world := (world JS WS RS).
Notation workflow_of rid w := (workflow_getByRunId rid (w_workflows w)).
Notation run_of rid w := (run_get rid (w_runs w)).

Lemma pending_resting rid wf (w : world) : exec_inv rid w wf w → unlocked rid w → resting rid wf w.
Proof.
  intros [Hok Hget Hid Hrid _ Hdis Hrun _ Hau _ _ _] (Hl & Hk & Hm). split; try done.
  intros wf' r x Hw Hr Hx. rewrite Hget in Hw. injection Hw as <-. by eapply Hdis.
Qed.

Lemma pending_ready rid def wf (w : world) : pending_run rid def wf w → unlocked rid w → ready rid def wf w.
Proof. intros [? (r & Hr & Hj) ? ? ?] Hl. split; try done; [by apply pending_resting|by exists r]. Qed.

Lemma resting_pending rid wf (w : world) : resting rid wf w → exec_inv rid w wf w ∧ unlocked rid w.
Proof.
  intros [Hok Hget Hid Hrid Hap Hrun Hau Hl Hk Hm]. split; [|done]. split; try done.
  - intros r x Hr Hx. by eapply Hap.
  - exists []. by rewrite app_nil_r.
Qed.

Lemma pending_stable rid def wf (w w' : world) :
  pending_run rid def wf w → unlocked rid w → rely rid w w' → pending_run rid def wf w' ∧ unlocked rid w'.
Proof.
  intros Hp Hl Hr. destruct (ready_stable _ _ _ _ _ (pending_ready _ _ _ _ Hp Hl) Hr) as [Hrest (r & Hg & _ & Hj) ? ? ?].
  destruct (resting_pending _ _ _ Hrest). split; [|done]. split; try done. by exists r.
Qed.

(** Creating a run disturbs no other run. *)
Lemma createRun_rely jobId trig input def (w : world) :
  uuids_distinct (S (S (w_uuids w))) (length (tasks def)) →
  workflow_store_ok (w_workflows w) → ids_unused w →
  job_get jobId (w_jobs w) = Some def → NoDup (td_id <$> tasks def) →
  ∃ run wf w', createRun jobId trig input w = (Ok (run, wf, def), w')
    ∧ run_id run = id_at "run_" (w_uuids w) ∧ pending_run (run_id run) def wf w'
    ∧ ∀ r, r ≠ run_id run → rely r w w'.
Proof.
  intros Hu Hok Hids Hget Hnd. destruct (createRun_spec jobId trig input def w Hu Hok Hids Hget Hnd)
    as (run & wf & w' & Hc & Hid & _ & Hp & Hl & Hk & Hj & _ & _ & _ & Hoth).
  exists run, wf, w'. split; [done|]. split; [done|]. split; [done|]. intros r Hr.
  destruct (Hoth r Hr) as [Hwr Hrr]. destruct (pr_inv _ _ _ _ Hp) as [Hok' Hget' _ _ _ Hdis _ _ _ _ _ _].
  split; rewrite ?Hl, ?Hk, ?Hj; try done.
  intros Hap x r' x' Hx Hne Hx'. rewrite Hwr in Hx. destruct (decide (r' = run_id run)) as [->|Hr'].
  - rewrite Hget' in Hx'. injection Hx' as <-. apply not_eq_sym. apply (Hdis r); [done|]. by rewrite Hwr.
  - destruct (Hoth r' Hr') as [Hwr' _]. rewrite Hwr' in Hx'. by eapply Hap.
Qed.

(** C4: executions of different new runs do not disturb each other: however
    their blocks interleave at the awaits, and whatever the simulator answers,
    there are at most [run_blocks] blocks and one more per run; a call that is
    over has ended in one of the ways of [run_end], with its run's record in step
    with the stored workflow and its locks released; and when no call can go on,
    all are over. *)
Theorem concurrent_executions (rids : list string) (def : string → JobDefinition)
    (wf : string → WorkflowInstance) (w : world) (fuel : nat) (Hnd : NoDup rids)
    (Hex : ∀ rid, rid ∈ rids → executable (def rid) ∧ enough_fuel (def rid) fuel)
    (Hnew : ∀ rid, rid ∈ rids → pending_run rid (def rid) (wf rid) w ∧ unlocked rid w)
    (k : nat) (ts : list (thread JsError world unit)) (w' : world)
    (Hsteps : nsteps pool_step k (executeRun_async fuel <$> rids, w) (ts, w')) :
  (k ≤ sum_list_with (λ rid, S (run_blocks (def rid))) rids)%nat
  ∧ (∀ i rid o, rids !! i = Some rid → ts !! i = Some (Done o) →
       ∃ wf', run_end (def rid) o wf' ∧ resting rid wf' w')
  ∧ (nf pool_step (ts, w') → ∀ i rid, rids !! i = Some rid → ∃ o, ts !! i = Some (Done o)).
Proof.
  assert (pool_ok rely guar holding (λ rid, run_over rid (def rid)) rids ((λ rid, run_blocks (def rid)) <$> rids)
    (executeRun_async fuel <$> rids, w)) as Hok.
  { split; simpl; rewrite ?length_fmap; [done|done|]. intros j rid n t Hr Hn Ht.
    rewrite list_lookup_fmap, Hr in Hn. rewrite list_lookup_fmap, Hr in Ht. injection Hn as <-. injection Ht as <-. intros w1 Hw1.
    assert (rid ∈ rids) as Hin by by eapply list_elem_of_lookup_2.
    destruct (Hex rid Hin) as [He Hf]. destruct (Hnew rid Hin) as [Hp Hl].
    apply (wp_executeRun_end rid fuel (def rid) (wf rid)); [done| |done].
    eapply ready_stable; [by apply pending_ready|done]. }
  destruct (pool_ok_steps rely guar holding (λ i j s s' Hne HG, gu_others _ _ _ HG j (not_eq_sym Hne))
    (λ rid, run_over rid (def rid)) (λ i o s s' '(ex_intro _ wf' (conj Hr He)) HR,
      ex_intro _ wf' (conj (resting_stable _ _ _ _ Hr HR) He)) k _ _ _ _ Hnd Hok Hsteps) as (ns' & Hok' & Hle).
  split; [|split].
  - assert (blocks_left ((λ rid, run_blocks (def rid)) <$> rids) (executeRun_async fuel <$> rids)
      = sum_list_with (λ rid, S (run_blocks (def rid))) rids) as Hsum.
    { unfold blocks_left. clear. induction rids as [|rid rids IH]; [done|]. cbn -[run_blocks executeRun_async].
      by rewrite <-IH. }
    rewrite <-Hsum. simpl in Hle. lia.
  - intros i rid o Hr Ht. destruct (pool_ok_done rely guar holding _ _ _ _ _ _ _ _ Hok' Hr Ht) as (wf' & Hrest & Hend).
    by exists wf'.
  - intros Hnf i rid Hr. destruct (lookup_lt_is_Some_2 ts i) as [t Ht].
    { pose proof (po_ids _ _ _ _ _ _ _ Hok') as Hl. simpl in Hl. rewrite <-Hl. by eapply lookup_lt_Some. }
    destruct (pool_stuck ts w' Hnf i t Ht) as [o ->]. by exists o.
Qed.

(** C5: any number of calls of [executeRun], several for one run included, on
    runs in any state: while a call for a run is suspended between its locks,
    every other call for this run has not begun or is over, and the run's
    workflow is stored with a legal history; a run between calls has a record in
    step with its workflow and no locks. *)
Theorem concurrent_exclusion (rids : list string) (w : world) (fuel : nat)
    (Hrest : ∀ rid, rid ∈ rids → ∃ wf, exec_inv rid w wf w ∧ unlocked rid w)
    (ts : list (thread JsError world unit)) (w' : world)
    (Hsteps : rtc pool_step (executeRun_async fuel <$> rids, w) (ts, w')) :
  (∀ i j rid ti tj, i ≠ j → rids !! i = Some rid → rids !! j = Some rid →
     ts !! i = Some ti → ts !! j = Some tj → is_done ti = false → is_done tj = false →
     ti = executeRun_async fuel rid ∨ tj = executeRun_async fuel rid)
  ∧ (∀ rid, rid ∈ rids →
       (∃ wf, resting rid wf w')
       ∨ (∃ i t, rids !! i = Some rid ∧ ts !! i = Some t ∧ is_done t = false ∧ holding rid w')).
Proof.
  destruct (exclusive_steps fuel rids _ _ _ (exclusive_start fuel rids w (λ rid Hin,
    let '(ex_intro _ wf (conj Hi Hl)) := Hrest rid Hin in ex_intro _ wf (pending_resting rid wf w Hi Hl))) Hsteps)
    as [phs [Hl1 Hl2 Hph Honce Hheld]]. simpl in *.
  assert (∀ i rid t, rids !! i = Some rid → ts !! i = Some t → is_done t = false →
    t = executeRun_async fuel rid ∨ phs !! i = Some Inside) as Hcase.
  { intros i rid t Hr Ht Hd. destruct (lookup_lt_is_Some_2 phs i) as [ph Hp].
    { rewrite Hl2. by eapply lookup_lt_Some. }
    specialize (Hph i rid ph t Hr Hp Ht). destruct ph; simpl in Hph; [by left|by right|congruence]. }
  split.
  - intros i j rid ti tj Hne Hi Hj Hti Htj Hdi Hdj.
    destruct (Hcase i rid ti Hi Hti Hdi) as [|Hpi]; [by left|].
    destruct (Hcase j rid tj Hj Htj Hdj) as [|Hpj]; [by right|]. destruct Hne. by eapply Honce.
  - intros rid Hin. destruct (Hheld rid Hin) as [(i & Hi & Hp)|?]; [right|by left].
    destruct (lookup_lt_is_Some_2 ts i) as [t Ht]; [rewrite <-Hl1; by eapply lookup_lt_Some|].
    destruct (Hph i rid Inside t Hi Hp Ht) as (Hd & Hh & _). by exists i, t.
Qed.

(** Without interleaving the asynchronous execution is the sequential one:
    the blocks of a single call, run one after the other, have the outcome and
    the effect of [executeRun]. *)
Theorem uninterrupted_is_sequential (fuel : nat) (rid : string) (w : world) :
  run (executeRun_async fuel rid) w = executeRun fuel rid w
  ∧ ∀ k t w', nsteps pool_step k ([executeRun_async fuel rid], w) ([t], w') → run t w' = executeRun fuel rid w.
Proof.
  split; [apply run_executeRun|]. intros k t w' Hk. rewrite <-run_executeRun.
  remember ([executeRun_async fuel rid], w) as c eqn:Hc. remember ([t], w') as c' eqn:Hc'.
  assert (∀ c c' : pool JsError world unit, nsteps pool_step k c c' → ∀ t0 w0, c = ([t0], w0) →
    ∃ t1 w1, c' = ([t1], w1) ∧ run t1 w1 = run t0 w0) as Hrun.
  { clear. intros c c' Hk. induction Hk as [c|k c c1 c' Hs Hk IH]; intros t0 w0 ->; [by exists t0, w0|].
    inversion Hs as [ts i u s Hu Hd]; subst. destruct i as [|i]; [|done]. simpl in Hu. injection Hu as ->.
    destruct (IH (run_block u w0).1 (run_block u w0).2) as (t1 & w1 & -> & Hr); [done|].
    exists t1, w1. split; [done|]. by rewrite Hr, run_run_block. }
  destruct (Hrun c c' Hk _ _ Hc) as (t1 & w1 & Heq & Hr). rewrite Hc' in Heq. by simplify_eq.
Qed.
End properties.

(** ** Two runs whose blocks alternate *)

Section witnesses.
(** The second call of the simulator fails. *)
#[local] Instance second_fails : Environment := scripted (λ k, negb (bool_decide (k = 1%nat))).

Definition one_created : demo_world := (createRun "job_demo" "manual" [] (demo_registered demo_definition)).2.
Definition two_created : demo_world := (createRun "job_demo" "manual" [] one_created).2.

Definition first_run : string := "run_0".
Definition second_run : string := id_at "run_" (w_uuids one_created).
Definition two_runs : list string := [first_run; second_run].

Lemma stored_workflow r wf (w : demo_world) :
  workflow_getByRunId r (w_workflows w) = Some wf → wf ∈ map_values (byId (w_workflows w)).
Proof.
  simpl. destruct (map_get (byRunId (w_workflows w)) r) as [i|]; [|done]. destruct (truthy_string i); [|done].
  intros Hg%map_get_Some_in. apply (list_elem_of_fmap_2 snd) in Hg. done.
Qed.

Lemma two_pending :
  ∃ wf1 wf2, (pending_run first_run demo_definition wf1 two_created ∧ unlocked first_run two_created)
    ∧ (pending_run second_run demo_definition wf2 two_created ∧ unlocked second_run two_created).
Proof.
  destruct (demo_pending (λ k, negb (bool_decide (k = 1%nat))) demo_definition eq_refl eq_refl)
    as (run1 & wf1 & w1 & Hc1 & Hid1 & Hp1 & Hl1 & _).
  assert (w1 = one_created) as -> by (unfold one_created, second_fails; by rewrite Hc1).
  destruct (createRun_rely "job_demo" "manual" [] demo_definition one_created)
    as (run2 & wf2 & w2 & Hc2 & Hid2 & Hp2 & Hrely).
  - apply (bool_decide_unpack _). by vm_compute.
  - apply (pr_inv _ _ _ _ Hp1).
  - intros r wf Hw%stored_workflow.
    assert (Forall (λ x, wf_id x ≠ id_at "wf_" (S (w_uuids one_created))) (map_values (byId (w_workflows one_created))))
      as Hall by (apply (bool_decide_unpack _); by vm_compute).
    rewrite Forall_forall in Hall. by apply Hall.
  - by vm_compute.
  - apply (bool_decide_unpack _). by vm_compute.
  - assert (w2 = two_created) as -> by (unfold two_created; by rewrite Hc2).
    fold second_run in Hid2. rewrite Hid2 in *. exists wf1, wf2. split.
    + apply (pending_stable _ _ _ one_created); [done|done|]. apply Hrely. by vm_compute.
    + split; [done|]. split; [|split]; apply (bool_decide_unpack _); vm_compute; exact I.
Qed.

(** Both calls to the end, block by block in turn. *)
Definition alternation : nat * pool JsError demo_world unit :=
  run_schedule (mjoin (replicate 60 [0%nat; 1%nat])) (executeRun_async 20 <$> two_runs, two_created).

Lemma two_runs_NoDup : NoDup two_runs.
Proof. apply (bool_decide_unpack _). by vm_compute. Qed.

Lemma second_not_first : second_run ≠ first_run.
Proof. vm_compute. discriminate. Qed.

Lemma concurrent_executions_witness :
  (alternation.1 ≤ sum_list_with (λ _, S (run_blocks demo_definition)) two_runs)%nat
  ∧ ∃ o1 o2 wf1 wf2, alternation.2.1 = [Done o1; Done o2]
    ∧ run_end demo_definition o1 wf1 ∧ resting first_run wf1 alternation.2.2
    ∧ run_end demo_definition o2 wf2 ∧ resting second_run wf2 alternation.2.2.
Proof.
  destruct two_pending as (wf1 & wf2 & Hp1 & Hp2).
  assert (∃ o1 o2, alternation.2.1 = [Done o1; Done o2]) as (o1 & o2 & Hts)
    by (eexists _, _; vm_compute; reflexivity).
  destruct (concurrent_executions two_runs (λ _, demo_definition)
    (λ rid, if decide (rid = first_run) then wf1 else wf2) two_created 20 two_runs_NoDup) with
    (k := alternation.1) (ts := alternation.2.1) (w' := alternation.2.2) as (Hk & Hdone & _).
  - intros rid _. split; [by apply demo_executable|by apply demo_fuel].
  - intros rid [->|Hin]%elem_of_cons; [rewrite decide_True by reflexivity; exact Hp1|].
    apply list_elem_of_singleton in Hin as ->. rewrite decide_False by exact second_not_first. exact Hp2.
  - unfold alternation. pose proof (run_schedule_steps (mjoin (replicate 60 [0%nat; 1%nat]))
      (executeRun_async 20 <$> two_runs, two_created)) as Hs.
    by destruct (run_schedule _ _) as [k [ts w]].
  - split; [exact Hk|]. rewrite Hts in Hdone.
    destruct (Hdone 0%nat first_run o1 eq_refl eq_refl) as (wf1' & He1 & Hr1).
    destruct (Hdone 1%nat second_run o2 eq_refl eq_refl) as (wf2' & He2 & Hr2).
    exists o1, o2, wf1', wf2'. split; [exact Hts|]. split; [exact He1|]. split; [exact Hr1|]. split; [exact He2|exact Hr2].
Defined.

(** The same run twice: the second call finds the locks taken and is over at
    once, while the first is suspended. *)
Definition same_twice : nat * pool JsError demo_world unit :=
  run_schedule [0%nat; 0%nat; 1%nat] (executeRun_async 20 <$> [first_run; first_run], two_created).

Lemma concurrent_exclusion_witness :
  (is_done <$> same_twice.2.1 = [false; true] ∧ same_twice.2.1 !! 1%nat = Some (Done (Ok tt)))
  ∧ ((∃ wf, resting first_run wf same_twice.2.2) ∨ holding first_run same_twice.2.2).
Proof.
  destruct two_pending as (wf1 & wf2 & [Hp1 Hl1] & _).
  split; [split; vm_compute; reflexivity|].
  destruct (concurrent_exclusion [first_run; first_run] two_created 20) with
    (ts := same_twice.2.1) (w' := same_twice.2.2) as (_ & Hheld).
  - intros rid Hin. assert (rid = first_run) as -> by set_solver. exists wf1. split; [apply Hp1|exact Hl1].
  - unfold same_twice. pose proof (run_schedule_steps [0%nat; 0%nat; 1%nat]
      (executeRun_async 20 <$> [first_run; first_run], two_created)) as Hs%rtc_nsteps_2.
    by destruct (run_schedule _ _) as [k [ts w]].
  - destruct (Hheld first_run ltac:(by left)) as [?|(_ & _ & _ & _ & _ & Hh)]; [by left|by right].
Defined.
End witnesses.
