(* ===== verification/ParallelExecutor.v ===== *)
(** * Execution by levels (engine/parallel-executor.ts)

    The tasks of one level are shared by concurrent workers, which claim them by
    index; the next level begins when all workers have returned.  A worker is a
    thread over the world and the two variables the workers share. *)

From S2P Require Import Prelude Threads JsMap JsString Graph JsNum DomainTypes JsValue Domain Retry Transitions Locks Stores Metrics Validator Dag Expressions Constraints Engine EngineThreads ExecInv Execution EngineProps.
From stdpp Require Import relations.
Open Scope Z_scope.

(** Lift a thread over a part of the state. *)
Fixpoint on_fst {E S T A} (t : thread E S A) : thread E (S * T) A :=
  match t with
  | Done o => Done o
  | Await t => Await (on_fst t)
  | Atomic m => Atomic (λ s, let '(t, s') := m s.1 in (on_fst t, (s', s.2)))
  end.

Record ParallelExecuteOptions : Type := mkParallelOptions {
  maxConcurrency : Z;
  po_policy : RetryPolicy;
  po_input : jsrecord;
}.

(** [index] and [updated]. *)
Record shared : Type := mkShared { index : nat; updated : jsmap string TaskRun }.

Notation batch_item := (TaskDefinition * TaskRun)%type.

Section executor.
Context {JS WS RS : Type} `{JobDefinitionStore JS} `{WorkflowStore WS} `{RunStore RS}.
Context `{Environment}.
Notation world := (world JS WS RS).
Notation state := (world * shared)%type.
Notation async := (thread JsError state).

(** [if (index < batch.length) batch[index++]]. *)
Definition claim (batch : list batch_item) : eff state (option batch_item) := λ s,
  match batch !! index s.2 with
  | Some current => (Ok (Some current), (s.1, mkShared (S (index s.2)) (updated s.2)))
  | None => (Ok None, s)
  end.

Definition set_updated (id : string) (t : TaskRun) : eff state unit :=
  modify (λ s, (s.1, mkShared (index s.2) (map_set (updated s.2) id t))).

(** The worker's [while] loop; a worker claims no more than the whole batch. *)
Fixpoint worker (fuel : nat) (batch : list batch_item) (options : ParallelExecuteOptions) : async unit :=
  match fuel with
  | O => Done OutOfFuel
  | S fuel =>
      current ← atomic (claim batch);
      match current with
      | None => mret tt
      | Some (def, run) =>
          result ← awaiting (on_fst (run_task_async run def (po_policy options) (po_input options)));
          _ ← atomic (set_updated (td_id def) (er_task result));
          worker fuel batch options
      end
  end.

(** [Array.from] calls the workers one after the other, each up to its first
    [await]. *)
Fixpoint start_workers (ts : list (async unit)) (s : state) : pool JsError state unit :=
  match ts with
  | [] => ([], s)
  | t :: ts =>
      let '(t', s') := run_block t s in
      let '(ts', s'') := start_workers ts s' in
      (t' :: ts', s'')
  end.

Definition worker_count (batch : list batch_item) (options : ParallelExecuteOptions) : nat :=
  Z.to_nat (Z.min (maxConcurrency options) (Z.of_nat (length batch))).

Definition start_batch (batch : list batch_item) (options : ParallelExecuteOptions)
    (m : jsmap string TaskRun) (w : world) : pool JsError state unit :=
  start_workers (replicate (worker_count batch options) (worker (S (length batch)) batch options)) (w, mkShared 0 m).

(** The tasks of a level with their runs so far. *)
Definition level_batch (ts : list TaskDefinition) (m : jsmap string TaskRun) (level : list string) : list batch_item :=
  omap (λ id,
    def ← List.find (λ t, bool_decide (td_id t = id)) ts;
    run ← map_get m id;
    Some (def, run)) level.

(** Where a call of [executeLevel] is: at the [await] of [Promise.all] on the
    workers of one level, with the levels that follow; or settled. *)
Inductive level_config : Type :=
| InLevel (rest : list (list string)) (workers : list (async unit)) (s : state)
| Resolved (updated : jsmap string TaskRun) (w : world)
| Rejected (e : JsError) (w : world).

Definition returned (t : async unit) : Prop := t = Done (Ok tt).

(** [runBatch]: the workers of a level, each up to its first [await]. *)
Definition runBatch (batch : list batch_item) (options : ParallelExecuteOptions)
    (rest : list (list string)) (m : jsmap string TaskRun) (w : world) : level_config :=
  let '(us, s) := start_batch batch options m w in InLevel rest us s.

(** Some worker runs its next block; [Promise.all] rejects with the error of a
    worker; or all workers have returned, and the loop goes on to the next level
    or the call returns. *)
Inductive level_step (ts : list TaskDefinition) (options : ParallelExecuteOptions) : level_config → level_config → Prop :=
| worker_block rest us s us' s' :
    pool_step (us, s) (us', s') → level_step ts options (InLevel rest us s) (InLevel rest us' s')
| worker_throws rest us s e :
    Done (Throw e) ∈ us → level_step ts options (InLevel rest us s) (Rejected e s.1)
| next_level level rest us w sh :
    Forall returned us →
    level_step ts options (InLevel (level :: rest) us (w, sh))
      (runBatch (level_batch ts (updated sh) level) options rest (updated sh) w)
| last_level us w sh :
    Forall returned us → level_step ts options (InLevel [] us (w, sh)) (Resolved (updated sh) w).

(** [executeLevel] up to its first step; [None] is where the planner's search
    runs out of fuel. *)
Definition executeLevel (ts : list TaskDefinition) (runs : jsmap string TaskRun) (w : world) : option level_config :=
  match plan ts with
  | Ok p => Some (InLevel (levels p) [] (w, mkShared 0 (map_of_entries runs)))
  | Throw e => Some (Rejected e w)
  | OutOfFuel => None
  end.

(** ** Workers as data *)

(** Between two blocks a worker waits for the handler of the task it claimed,
    waits for [TaskExecutor.run] to return, has not begun, or has returned. *)
Inductive wphase : Type :=
| Called (fuel j : nat) (item : batch_item) (startedAt : string) (call : nat)
| Returned (fuel j : nat) (item : batch_item) (result : ExecuteResult)
| Top (fuel : nat)
| Finished.

Section batch.
Context (batch : list batch_item) (options : ParallelExecuteOptions).
Notation policy := (po_policy options).

Definition running_task (item : batch_item) (startedAt : string) : TaskRun :=
  mkTaskRun (tr_id item.2) (tr_runId item.2) (definitionTaskId item.2) (tr_handler item.2) TaskRunning
    (attempt item.2 + 1) (Some startedAt) (tr_finishedAt item.2) (output item.2) (errorMessage item.2).

(** What remains of [TaskExecutor.run] when the handler has answered. *)
Definition after_call (item : batch_item) (startedAt : string) (call : nat) : eff world ExecuteResult :=
  let running := running_task item startedAt in
  match simulate call (handler item.1) (po_input options)
          (mkHandlerContext (tr_runId item.2) (definitionTaskId item.2) (po_input options) []) with
  | inr err => handleFailure running policy (error_message err)
  | inl result =>
      if negb (sim_success result)
      then handleFailure running policy (default "unknown error" (sim_errorMessage result))
      else
        at_ ← now;
        mret (mkExecuteResult
          (mkTaskRun (tr_id running) (tr_runId running) (definitionTaskId running)
             (tr_handler running) TaskSucceeded (attempt running) (tr_startedAt running)
             (Some at_) (Some (sim_output result)) (errorMessage running)) None)
  end.

Definition after_task (fuel : nat) (item : batch_item) (result : ExecuteResult) : async unit :=
  _ ← atomic (set_updated (td_id item.1) (er_task result));
  worker fuel batch options.

(** The thread of a phase, up to the equality of the blocks it runs. *)
Definition thread_of (ph : wphase) (t : async unit) : Prop :=
  match ph with
  | Called fuel j item startedAt call =>
      is_done t = false ∧ ∀ s, ∃ res w', after_call item startedAt call s.1 = (Ok res, w')
        ∧ run_block t s = (after_task fuel item res, (w', s.2))
  | Returned fuel j item res => t = after_task fuel item res
  | Top fuel => t = worker fuel batch options
  | Finished => t = Done (Ok tt)
  end.

Lemma after_call_spec item startedAt call (w : world) :
  ∃ res w', after_call item startedAt call w = (Ok res, w') ∧ untouched w w' ∧ w_calls w' = w_calls w
    ∧ tr_id (er_task res) = tr_id item.2 ∧ definitionTaskId (er_task res) = definitionTaskId item.2
    ∧ attempt (er_task res) = attempt item.2 + 1
    ∧ attempted policy item.2 (status (er_task res)) (retryAfterMs res).
Proof.
  assert (∀ msg, ∃ res w', handleFailure (running_task item startedAt) policy msg w = (Ok res, w')
    ∧ untouched w w' ∧ w_calls w' = w_calls w
    ∧ tr_id (er_task res) = tr_id item.2 ∧ definitionTaskId (er_task res) = definitionTaskId item.2
    ∧ attempt (er_task res) = attempt item.2 + 1
    ∧ attempted policy item.2 (status (er_task res)) (retryAfterMs res)) as Hfail.
  { intros msg. destruct (handleFailure_spec (running_task item startedAt) policy msg w)
      as (res & w' & Hf & Hun & Hc & Hi & Hd & Ha & Hcase).
    exists res, w'. simpl in *. repeat (split; [done|]).
    replace (attempt item.2 + 1 + 1) with (attempt item.2 + 2) in Hcase by lia.
    destruct Hcase as [(? & -> & ->)|(? & -> & ->)]; by constructor. }
  unfold after_call. cbv zeta. destruct (simulate _ _ _ _) as [r|err]; [|apply Hfail].
  destruct (negb (sim_success r)); [apply Hfail|].
  eexists _, _. split; [reflexivity|]. repeat (split; [done|]). constructor.
Qed.

Lemma handleFailure_block t msg (k : ExecuteResult → async unit) (s : state) :
  ∃ res w', handleFailure t policy msg s.1 = (Ok res, w')
    ∧ run_block (awaiting (on_fst (atomic (handleFailure t policy msg))) ≫= k) s = (k res, (w', s.2)).
Proof.
  destruct (handleFailure_spec t policy msg s.1) as (res & w' & Hf & _). exists res, w'. split; [done|].
  unfold atomic. cbn -[handleFailure]. by rewrite Hf.
Qed.

(** The blocks of a worker. *)
Lemma worker_claims fuel s item :
  batch !! index s.2 = Some item →
  thread_of (Called fuel (index s.2) item (nowIso (w_ticks s.1)) (w_calls s.1)) (run_block (worker (S fuel) batch options) s).1
  ∧ (run_block (worker (S fuel) batch options) s).2
    = (with_calls (S (w_calls s.1)) (with_ticks (S (w_ticks s.1)) s.1), mkShared (S (index s.2)) (updated s.2)).
Proof.
  destruct s as [w sh], item as [def r]. intros Hj. cbn [worker].
  unfold mbind, thread_bind, atomic, claim. simpl in *. rewrite Hj. cbn.
  split; [|done]. unfold after_call. simpl.
  destruct (simulate _ _ _ _) as [x|err]; [destruct (negb (sim_success x))|].
  - split; [done|]. intros [w1 sh1]. eapply handleFailure_block.
  - split; [done|]. intros [w1 sh1]. eexists _, _. by split.
  - split; [done|]. intros [w1 sh1]. eapply handleFailure_block.
Qed.

Lemma worker_returns fuel s :
  batch !! index s.2 = None → run_block (worker (S fuel) batch options) s = (Done (Ok tt), s).
Proof.
  destruct s as [w sh]. intros Hj. cbn [worker].
  unfold mbind, thread_bind, atomic, claim. simpl in *. by rewrite Hj.
Qed.

(** ** The invariant of a level *)

Context (unique : NoDup ((λ item, td_id item.1) <$> batch)) (m0 : jsmap string TaskRun) (w0 : world).

(** One attempt at a task run. *)
Definition attempt_of (r t : TaskRun) : Prop :=
  tr_id t = tr_id r ∧ definitionTaskId t = definitionTaskId r ∧ attempt t = attempt r + 1
  ∧ ∃ retryAfter, attempted policy r (status t) retryAfter.

Definition flight (ph : wphase) : option nat :=
  match ph with Called _ j _ _ _ | Returned _ j _ _ => Some j | _ => None end.

Definition in_flight (phs : list wphase) (j : nat) : Prop := ∃ i ph, phs !! i = Some ph ∧ flight ph = Some j.

Definition claimed (i fuel j : nat) (item : batch_item) : Prop :=
  batch !! j = Some item ∧ (j < i)%nat ∧ (length batch < fuel + i)%nat.

Definition phase_inv (i : nat) (ph : wphase) : Prop :=
  match ph with
  | Called fuel j item _ _ => claimed i fuel j item
  | Returned fuel j item res => claimed i fuel j item ∧ attempt_of item.2 (er_task res)
  | Top fuel => (length batch < fuel + i)%nat
  | Finished => i = length batch
  end.

(** Whose result is stored. *)
Definition completed (phs : list wphase) (i j : nat) : Prop := (j < i)%nat ∧ ¬ in_flight phs j.

Record batch_inv (phs : list wphase) (s : state) : Prop := {
  bi_index : (index s.2 ≤ length batch)%nat;
  bi_phases : ∀ k ph, phs !! k = Some ph → phase_inv (index s.2) ph;
  bi_once : ∀ k k' ph ph' j, phs !! k = Some ph → phs !! k' = Some ph' →
    flight ph = Some j → flight ph' = Some j → k = k';
  bi_done : ∀ j item, batch !! j = Some item → completed phs (index s.2) j →
    ∃ t, map_get (updated s.2) (td_id item.1) = Some t ∧ attempt_of item.2 t;
  bi_rest : ∀ id, (∀ j item, batch !! j = Some item → td_id item.1 = id → ¬ completed phs (index s.2) j) →
    map_get (updated s.2) id = map_get m0 id;
  bi_world : untouched w0 s.1;
  bi_calls : w_calls s.1 = (w_calls w0 + index s.2)%nat;
}.

Lemma item_unique j j' item item' :
  batch !! j = Some item → batch !! j' = Some item' → td_id item.1 = td_id item'.1 → j = j'.
Proof.
  intros Hj Hj' Heq. apply (NoDup_lookup _ _ _ (td_id item.1) unique); rewrite list_lookup_fmap.
  - by rewrite Hj.
  - by rewrite Hj', Heq.
Qed.

Lemma untouched_trans (w1 w2 w3 : world) : untouched w1 w2 → untouched w2 w3 → untouched w1 w3.
Proof. intros [] []. split; congruence. Qed.

Lemma phase_inv_mono i i' ph : (i ≤ i' ≤ length batch)%nat → phase_inv i ph → phase_inv i' ph.
Proof. unfold phase_inv, claimed. destruct ph; intros ?; intuition lia. Qed.

(** Replacing one phase. *)
Lemma in_flight_insert phs k ph ph' j :
  phs !! k = Some ph → in_flight (<[k := ph']> phs) j ↔
  flight ph' = Some j ∨ ∃ i x, i ≠ k ∧ phs !! i = Some x ∧ flight x = Some j.
Proof.
  intros Hk. assert (k < length phs)%nat as Hlt by by eapply lookup_lt_Some. split.
  - intros (i & x & Hx & Hf). destruct (decide (i = k)) as [->|Hne].
    + rewrite list_lookup_insert_eq in Hx by done. injection Hx as ->. by left.
    + rewrite list_lookup_insert_ne in Hx by done. right. by exists i, x.
  - intros [Hf|(i & x & Hne & Hx & Hf)].
    + exists k, ph'. by rewrite list_lookup_insert_eq.
    + exists i, x. by rewrite list_lookup_insert_ne.
Qed.

Lemma in_flight_same phs k ph ph' j :
  phs !! k = Some ph → flight ph' = flight ph → in_flight (<[k := ph']> phs) j ↔ in_flight phs j.
Proof.
  intros Hk Hf. rewrite (in_flight_insert _ _ _ _ _ Hk), <-(list_insert_id phs k ph Hk) at 1.
  rewrite (list_insert_id phs k ph Hk), Hf. split.
  - intros [?|(i & x & _ & ? & ?)]; [by exists k, ph|by exists i, x].
  - intros (i & x & Hx & Hj). destruct (decide (i = k)) as [->|]; [left; congruence|right; eauto].
Qed.

(** Phase changes that keep what is in flight. *)
Lemma batch_inv_phase phs s k ph ph' w' :
  batch_inv phs s → phs !! k = Some ph → flight ph' = flight ph → phase_inv (index s.2) ph' →
  untouched s.1 w' → w_calls w' = w_calls s.1 →
  batch_inv (<[k := ph']> phs) (w', s.2).
Proof.
  destruct s as [w sh]. simpl. intros [Hi Hp Ho Hd Hr Hw Hc] Hk Hf Hph Hun Hcalls. simpl in *.
  assert (k < length phs)%nat as Hlt by by eapply lookup_lt_Some.
  assert (∀ j, completed (<[k:=ph']> phs) (index sh) j ↔ completed phs (index sh) j) as Hcomp.
  { intros j. unfold completed. by rewrite (in_flight_same _ _ _ _ _ Hk Hf). }
  assert (∀ i x, (<[k:=ph']> phs) !! i = Some x → ∃ y, phs !! i = Some y ∧ flight x = flight y
    ∧ phase_inv (index sh) x) as Hx.
  { intros i x Hx. destruct (decide (i = k)) as [->|Hne].
    - rewrite list_lookup_insert_eq in Hx by done. injection Hx as <-. by exists ph.
    - rewrite list_lookup_insert_ne in Hx by done. exists x. split; [done|]. split; [done|by apply (Hp i)]. }
  split; simpl; [done| | | | | |congruence].
  - intros i x Hix. by destruct (Hx i x Hix) as (_ & _ & _ & ?).
  - intros i i' x x' j Hix Hix'. destruct (Hx i x Hix) as (y & Hy & -> & _), (Hx i' x' Hix') as (y' & Hy' & -> & _). eauto.
  - intros j item Hj. rewrite Hcomp. by apply Hd.
  - intros id Hid. apply Hr. intros j item Hj Heq. rewrite <-Hcomp. eauto.
  - by eapply untouched_trans.
Qed.

(** Claiming the next item. *)
Lemma batch_inv_claim phs s k fuel item at_ call w' :
  batch_inv phs s → phs !! k = Some (Top (S fuel)) → batch !! index s.2 = Some item →
  untouched s.1 w' → w_calls w' = S (w_calls s.1) →
  batch_inv (<[k := Called fuel (index s.2) item at_ call]> phs) (w', mkShared (S (index s.2)) (updated s.2)).
Proof.
  intros [Hi Hp Ho Hd Hr Hw Hc] Hk Hj Hun Hcalls.
  assert (k < length phs)%nat as Hlt by by eapply lookup_lt_Some.
  assert (index s.2 < length batch)%nat as Hib by by eapply lookup_lt_Some.
  assert (∀ i x j, phs !! i = Some x → flight x = Some j → (j < index s.2)%nat) as Hfl.
  { intros i x j Hx Hf. specialize (Hp i x Hx). destruct x; simplify_eq/=; unfold claimed in *; naive_solver. }
  assert (∀ j, completed (<[k:=Called fuel (index s.2) item at_ call]> phs) (S (index s.2)) j
    ↔ completed phs (index s.2) j) as Hcomp.
  { intros j. unfold completed. rewrite (in_flight_insert _ _ _ _ _ Hk). simpl. split.
    - intros [Hlt' Hn]. assert (j ≠ index s.2) by naive_solver. split; [lia|].
      intros (i & x & Hx & Hf). apply Hn. right. exists i, x. split; [|done]. intros ->. by simplify_eq.
    - intros [Hlt' Hn]. split; [lia|]. intros [Heq|(i & x & _ & Hx & Hf)]; [injection Heq; lia|]. apply Hn. by exists i, x. }
  split; simpl; [lia| | | | | |lia].
  - intros i x Hx. destruct (decide (i = k)) as [->|Hne].
    + rewrite list_lookup_insert_eq in Hx by done. injection Hx as <-. specialize (Hp k _ Hk). simpl in *.
      split; [done|]. lia.
    + rewrite list_lookup_insert_ne in Hx by done. eapply phase_inv_mono; [|by apply (Hp i)]. lia.
  - intros i i' x x' j Hx Hx' Hf Hf'.
    destruct (decide (i = k)) as [->|Hne], (decide (i' = k)) as [->|Hne']; try done.
    + rewrite list_lookup_insert_eq in Hx by done. injection Hx as <-. injection Hf as <-.
      rewrite list_lookup_insert_ne in Hx' by done. specialize (Hfl _ _ _ Hx' Hf'). lia.
    + rewrite list_lookup_insert_eq in Hx' by done. injection Hx' as <-. injection Hf' as <-.
      rewrite list_lookup_insert_ne in Hx by done. specialize (Hfl _ _ _ Hx Hf). lia.
    + rewrite list_lookup_insert_ne in Hx by done. rewrite list_lookup_insert_ne in Hx' by done. eauto.
  - intros j it Hjt. rewrite Hcomp. by apply Hd.
  - intros id Hid. apply Hr. intros j it Hjt Heq. rewrite <-Hcomp. eauto.
  - by eapply untouched_trans.
Qed.

(** Storing a result. *)
Lemma batch_inv_store phs s k fuel j item res :
  batch_inv phs s → phs !! k = Some (Returned fuel j item res) →
  batch_inv (<[k := Top fuel]> phs) (s.1, mkShared (index s.2) (map_set (updated s.2) (td_id item.1) (er_task res))).
Proof.
  intros [Hi Hp Ho Hd Hr Hw Hc] Hk. destruct (Hp k _ Hk) as [(Hj & Hji & Hfuel) Hat].
  assert (k < length phs)%nat as Hlt by by eapply lookup_lt_Some.
  assert (∀ j', completed (<[k:=Top fuel]> phs) (index s.2) j' ↔ j' = j ∨ completed phs (index s.2) j') as Hcomp.
  { intros j'. unfold completed. rewrite (in_flight_insert _ _ _ _ _ Hk). simpl. split.
    - intros [Hlt' Hn]. destruct (decide (j' = j)) as [->|Hne]; [by left|right]. split; [done|].
      intros (i & x & Hx & Hf). apply Hn. right. exists i, x. split; [|done]. intros ->. simplify_eq/=.
    - intros [->|[Hlt' Hn]].
      + split; [done|]. intros [?|(i & x & Hne & Hx & Hf)]; [done|]. apply Hne. by eapply Ho.
      + split; [done|]. intros [?|(i & x & _ & Hx & Hf)]; [done|]. apply Hn. by exists i, x. }
  split; simpl; [done| | | | |done|done].
  - intros i x Hx. destruct (decide (i = k)) as [->|Hne].
    + rewrite list_lookup_insert_eq in Hx by done. by injection Hx as <-.
    + rewrite list_lookup_insert_ne in Hx by done. by apply (Hp i).
  - intros i i' x x' j' Hx Hx' Hf Hf'.
    assert (∀ i x, (<[k:=Top fuel]> phs) !! i = Some x → flight x ≠ None → phs !! i = Some x) as Hold.
    { intros i0 x0 Hx0 Hn. destruct (decide (i0 = k)) as [->|Hne]; [|by rewrite list_lookup_insert_ne in Hx0].
      rewrite list_lookup_insert_eq in Hx0 by done. by injection Hx0 as <-. }
    apply Hold in Hx, Hx'; [|congruence..]. eauto.
  - intros j' item' Hj' [->|Hco]%Hcomp.
    + rewrite Hj in Hj'. injection Hj' as <-. rewrite map_get_set_eq. eauto.
    + rewrite map_get_set_ne; [by apply (Hd j')|]. intros Heq. pose proof (item_unique _ _ _ _ Hj Hj' Heq) as ->.
      destruct Hco as [_ Hn]. apply Hn. by exists k, (Returned fuel j' item res).
  - intros id Hid. rewrite map_get_set_ne; [|intros <-; eapply Hid; [exact Hj|done|apply Hcomp; by left]].
    apply Hr. intros j' item' Hj' Heq Hco. eapply Hid; [exact Hj'|done|]. apply Hcomp. by right.
Qed.

(** ** Blocks *)

Definition weight_of_phase (ph : wphase) : nat :=
  match ph with Called _ _ _ _ _ => 2 | Returned _ _ _ _ => 1 | Top _ => 1 | Finished => 0 end.

(** A bound on the blocks left. *)
Definition level_measure (phs : list wphase) (i : nat) : nat :=
  (3 * (length batch - i) + sum_list (weight_of_phase <$> phs))%nat.

Lemma weight_insert phs k ph ph' :
  phs !! k = Some ph →
  (sum_list (weight_of_phase <$> <[k := ph']> phs) + weight_of_phase ph
   = sum_list (weight_of_phase <$> phs) + weight_of_phase ph')%nat.
Proof.
  revert k. induction phs as [|x phs IH]; intros [|k] Hk; simplify_eq/=; [lia|]. specialize (IH k Hk). lia.
Qed.

Lemma untouched_ticks_calls (w : world) t c : untouched w (with_calls c (with_ticks t w)).
Proof. by split. Qed.

Lemma top_block phs s k fuel :
  batch_inv phs s → phs !! k = Some (Top fuel) →
  ∃ ph', thread_of ph' (run_block (worker fuel batch options) s).1
    ∧ batch_inv (<[k := ph']> phs) (run_block (worker fuel batch options) s).2
    ∧ (level_measure (<[k := ph']> phs) (index (run_block (worker fuel batch options) s).2.2)
       < level_measure phs (index s.2))%nat.
Proof.
  intros Hinv Hk. pose proof (bi_phases _ _ Hinv k _ Hk) as Hfuel. simpl in Hfuel.
  pose proof (bi_index _ _ Hinv) as Hle. destruct fuel as [|fuel]; [lia|].
  destruct (batch !! index s.2) as [item|] eqn:Hj.
  - destruct (worker_claims fuel s item Hj) as [Ht Hs].
    assert (index s.2 < length batch)%nat as Hib by by eapply lookup_lt_Some.
    eexists. split; [exact Ht|]. rewrite Hs. split.
    + apply batch_inv_claim; [done..|apply untouched_ticks_calls|done].
    + unfold level_measure. simpl.
      pose proof (weight_insert phs k _ (Called fuel (index s.2) item (nowIso (w_ticks s.1)) (w_calls s.1)) Hk).
      simpl in *. lia.
  - pose proof Hj as Hge%lookup_ge_None. rewrite (worker_returns fuel s Hj). exists Finished. split; [done|]. split.
    + destruct s as [w sh]. simpl in *.
      apply (batch_inv_phase phs (w, sh) k (Top (S fuel)) Finished w); [done..| |by split|done]. simpl. lia.
    + unfold level_measure. pose proof (weight_insert phs k _ Finished Hk). simpl in *. lia.
Qed.

Lemma phase_block phs s k ph t :
  batch_inv phs s → phs !! k = Some ph → thread_of ph t → is_done t = false →
  ∃ ph', thread_of ph' (run_block t s).1
    ∧ batch_inv (<[k := ph']> phs) (run_block t s).2
    ∧ (level_measure (<[k := ph']> phs) (index (run_block t s).2.2) < level_measure phs (index s.2))%nat.
Proof.
  intros Hinv Hk Ht Hd. destruct ph as [fuel j item at_ call|fuel j item res|fuel|]; simpl in Ht.
  - destruct Ht as [_ Ht]. destruct (Ht s) as (res & w' & Ha & ->).
    destruct (after_call_spec item at_ call s.1) as (res' & w'' & Ha' & Hun & Hc & Hi & Hdf & Hat & Hcase).
    rewrite Ha in Ha'. injection Ha' as <- <-.
    exists (Returned fuel j item res). split; [done|]. split.
    + eapply batch_inv_phase; [done|exact Hk|done| |done|done]. split; [exact (bi_phases _ _ Hinv k _ Hk)|].
      split; [done|]. split; [done|]. split; [done|]. by eexists.
    + unfold level_measure. pose proof (weight_insert phs k _ (Returned fuel j item res) Hk). simpl in *. lia.
  - subst t. pose proof (batch_inv_store _ _ _ _ _ _ _ Hinv Hk) as Hinv'.
    assert (k < length phs)%nat as Hlt by by eapply lookup_lt_Some.
    set (s' := (s.1, mkShared (index s.2) (map_set (updated s.2) (td_id item.1) (er_task res)))) in *.
    assert (run_block (after_task fuel item res) s = run_block (worker fuel batch options) s') as -> by done.
    destruct (top_block _ s' k fuel Hinv') as (ph' & Ht' & Hi' & Hm); [by apply list_lookup_insert_eq|].
    exists ph'. rewrite list_insert_insert_eq in Hi', Hm. split; [done|]. split; [done|].
    eapply Nat.lt_le_trans; [exact Hm|]. unfold level_measure.
    pose proof (weight_insert phs k _ (Top fuel) Hk). simpl in *. lia.
  - subst t. by apply top_block.
  - by subst t.
Qed.

(** Phases of the whole pool. *)
Record level_inv (phs : list wphase) (c : pool JsError state unit) : Prop := {
  li_inv : batch_inv phs c.2;
  li_threads : Forall2 thread_of phs c.1;
}.

Lemma level_inv_step phs c c' :
  level_inv phs c → pool_step c c' →
  ∃ phs', level_inv phs' c' ∧ length phs' = length phs
    ∧ (level_measure phs' (index c'.2.2) < level_measure phs (index c.2.2))%nat.
Proof.
  intros [Hinv Hth] Hs. inversion Hs as [ts k t s Ht Hd]; subst. simpl in *.
  destruct (Forall2_lookup_r _ _ _ _ _ Hth Ht) as (ph & Hph & Hpt).
  destruct (phase_block phs s k ph t Hinv Hph Hpt Hd) as (ph' & Ht' & Hi' & Hm).
  exists (<[k := ph']> phs). split; [|split; [apply length_insert|done]].
  split; simpl; [done|]. by apply Forall2_insert.
Qed.

Lemma level_inv_steps n phs c c' :
  level_inv phs c → nsteps pool_step n c c' →
  ∃ phs', level_inv phs' c' ∧ length phs' = length phs
    ∧ (n + level_measure phs' (index c'.2.2) ≤ level_measure phs (index c.2.2))%nat.
Proof.
  intros Hinv Hn. revert phs Hinv. induction Hn as [c|n c c1 c' Hs Hn IH]; intros phs Hinv.
  { exists phs. split; [done|]. split; [done|lia]. }
  destruct (level_inv_step _ _ _ Hinv Hs) as (phs1 & Hinv1 & Hl1 & Hm1).
  destruct (IH _ Hinv1) as (phs' & Hinv' & Hl' & Hm'). exists phs'. split; [done|]. split; [congruence|lia].
Qed.

(** When all the workers have returned, all the items are done. *)
Lemma level_inv_done phs c :
  level_inv phs c → Forall (λ t, is_done t = true) c.1 → c.1 ≠ [] →
  (∀ j item, batch !! j = Some item →
    ∃ t, map_get (updated c.2.2) (td_id item.1) = Some t ∧ attempt_of item.2 t)
  ∧ (∀ id, id ∉ (λ item, td_id item.1) <$> batch → map_get (updated c.2.2) id = map_get m0 id)
  ∧ untouched w0 c.2.1 ∧ w_calls c.2.1 = (w_calls w0 + length batch)%nat.
Proof.
  intros [Hinv Hth] Hd Hne.
  assert (∀ k ph, phs !! k = Some ph → ph = Finished) as Hfin.
  { intros k ph Hk. destruct (Forall2_lookup_l _ _ _ _ _ Hth Hk) as (t & Ht & Hpt).
    rewrite Forall_lookup in Hd. specialize (Hd k t Ht). pose proof (bi_phases _ _ Hinv k ph Hk) as Hph.
    pose proof (bi_index _ _ Hinv). destruct ph as [| |fuel|]; simpl in Hpt, Hph; [destruct Hpt; congruence| |..|done].
    - subst t. done.
    - subst t. destruct fuel; [lia|done]. }
  assert (index c.2.2 = length batch) as Hidx.
  { destruct phs as [|ph phs]; [apply Forall2_nil_inv_l in Hth; done|].
    pose proof (Hfin O ph eq_refl) as ->. exact (bi_phases _ _ Hinv O _ eq_refl). }
  assert (∀ j item, batch !! j = Some item → completed phs (index c.2.2) j) as Hco.
  { intros j item Hj. split; [rewrite Hidx; by eapply lookup_lt_Some|].
    intros (i & x & Hx & Hf). by rewrite (Hfin i x Hx) in Hf. }
  split; [|split; [|split]].
  - intros j item Hj. apply (bi_done _ _ Hinv j item Hj). by eapply Hco.
  - intros id Hid. apply (bi_rest _ _ Hinv). intros j item Hj Heq. destruct Hid. rewrite <-Heq.
    apply list_elem_of_fmap. exists item. split; [done|]. by eapply list_elem_of_lookup_2.
  - apply Hinv.
  - rewrite (bi_calls _ _ Hinv). by rewrite Hidx.
Qed.
End batch.

(** ** One level *)

Lemma start_workers_steps (ts ts0 : list (async unit)) (s : state) :
  Forall (λ t, is_done t = false) ts →
  rtc pool_step (ts0 ++ ts, s) (ts0 ++ (start_workers ts s).1, (start_workers ts s).2).
Proof.
  intros Hts. revert ts0 s. induction Hts as [|t ts Ht Hts IH]; intros ts0 s; [constructor|].
  cbn [start_workers]. destruct (run_block t s) as [t' s'] eqn:Hb.
  specialize (IH (ts0 ++ [t']) s'). destruct (start_workers ts s') as [ts' s'']. simpl in *.
  eapply rtc_l; [apply (pool_block _ (length ts0) t); [by apply list_lookup_middle|done]|].
  rewrite Hb. simpl. rewrite <-!(assoc_L (++)) in IH. by rewrite insert_app_r_alt, Nat.sub_diag by lia.
Qed.

Lemma start_batch_steps batch options m (w : world) :
  rtc pool_step
    (replicate (worker_count batch options) (worker (S (length batch)) batch options), (w, mkShared 0 m))
    (start_batch batch options m w).
Proof.
  unfold start_batch. pose proof (start_workers_steps
    (replicate (worker_count batch options) (worker (S (length batch)) batch options)) [] (w, mkShared 0 m)) as Hs.
  destruct (start_workers _ _) as [ts s]. apply Hs. apply Forall_replicate. done.
Qed.

Notation ids_of batch := ((λ item : batch_item, td_id item.1) <$> batch).

Lemma level_inv_start batch options m (w : world) n :
  level_inv batch options m w (replicate n (Top (S (length batch))))
    (replicate n (worker (S (length batch)) batch options), (w, mkShared 0 m)).
Proof.
  assert (∀ k ph, replicate n (Top (S (length batch))) !! k = Some ph → ph = Top (S (length batch))) as Htop.
  { intros k ph [-> _]%lookup_replicate. done. }
  split; [split; simpl|].
  - lia.
  - intros k ph ->%Htop. simpl. lia.
  - intros k k' ph ph' j ->%Htop _ Hf. done.
  - intros j item _ [Hlt _]. lia.
  - done.
  - by split.
  - lia.
  - simpl. apply Forall2_replicate. done.
Qed.

Lemma level_measure_start batch n :
  level_measure batch (replicate n (Top (S (length batch)))) 0 = (3 * length batch + n)%nat.
Proof.
  unfold level_measure. rewrite Nat.sub_0_r. f_equal. induction n as [|n IH]; [done|].
  change (S (sum_list (weight_of_phase <$> replicate n (Top (S (length batch))))) = S n). by rewrite IH.
Qed.

(** What a level does to the task runs [m]. *)
Record level_result (batch : list batch_item) (options : ParallelExecuteOptions)
    (m : jsmap string TaskRun) (w : world) (m' : jsmap string TaskRun) (w' : world) : Prop := {
  lr_attempted : ∀ item, item ∈ batch →
    ∃ t, map_get m' (td_id item.1) = Some t ∧ attempt_of options item.2 t;
  lr_others : ∀ id, id ∉ ids_of batch → map_get m' id = map_get m id;
  lr_untouched : untouched w w';
  lr_calls : w_calls w' = (w_calls w + length batch)%nat;
}.

(** Workers that are done have returned. *)
Lemma level_inv_returned batch options m0 (w0 : world) phs c t :
  level_inv batch options m0 w0 phs c → t ∈ c.1 → is_done t = true → returned t.
Proof.
  intros [Hinv Hth] [k Ht]%list_elem_of_lookup Hd. destruct (Forall2_lookup_r _ _ _ _ _ Hth Ht) as (ph & Hk & Hpt).
  pose proof (bi_phases _ _ _ _ _ _ Hinv k ph Hk) as Hph. pose proof (bi_index _ _ _ _ _ _ Hinv).
  destruct ph as [| |fuel|]; simpl in Hpt, Hph; [destruct Hpt; congruence| |..|done].
  - by subst t.
  - subst t. destruct fuel; [lia|done].
Qed.

Lemma level_inv_result batch options m (w : world) phs c :
  NoDup (ids_of batch) → 0 < maxConcurrency options → length phs = worker_count batch options →
  level_inv batch options m w phs c → Forall returned c.1 → level_result batch options m w (updated c.2.2) c.2.1.
Proof.
  intros Hnd Hmax Hlen Hphs Hret.
  assert (Forall (λ t, is_done t = true) c.1) as Hd by (eapply Forall_impl; [exact Hret|by intros t ->]).
  pose proof (Forall2_length _ _ _ (li_threads _ _ _ _ _ _ Hphs)) as Hl.
  destruct (decide (batch = [])) as [->|Hne].
  - destruct Hphs as [[Hi _ _ _ Hrest Hun Hc] _]. simpl in Hi, Hc. split; [by intros item ?%elem_of_nil| |done|simpl; lia].
    intros id _. by apply Hrest.
  - destruct (level_inv_done batch options m w phs _ Hphs Hd) as (Hat & Hot & Hun & Hc).
    + intros Hc0. rewrite Hc0, Hlen in Hl. unfold worker_count in Hl. destruct batch; [done|]. simpl in Hl. lia.
    + split; [|done..]. intros item [j Hj]%list_elem_of_lookup_1. by apply (Hat j).
Qed.

(** ** All levels *)

Lemma find_task ts id :
  id ∈ td_id <$> ts → ∃ def, List.find (λ t, bool_decide (td_id t = id)) ts = Some def ∧ def ∈ ts ∧ td_id def = id.
Proof.
  intros (t & -> & Ht)%list_elem_of_fmap. destruct (List.find _ ts) as [def|] eqn:E.
  - apply List.find_some in E as [Hin Hd%bool_decide_eq_true]. exists def. by rewrite list_elem_of_In.
  - apply list_elem_of_In, (List.find_none _ _ E) in Ht. by apply bool_decide_eq_false in Ht.
Qed.

Lemma level_batch_ids ts m level :
  (∀ id, id ∈ level → id ∈ td_id <$> ts ∧ is_Some (map_get m id)) →
  ids_of (level_batch ts m level) = level.
Proof.
  induction level as [|id level IH]; intros Hl; [done|].
  destruct (Hl id ltac:(by left)) as [(def & Hf & _ & Hd)%find_task [r Hr]].
  unfold level_batch in *. cbn [omap list_omap]. unfold mbind at 1, option_bind at 1. rewrite Hf.
  unfold mbind at 1, option_bind at 1. rewrite Hr. cbn [fmap list_fmap fst]. rewrite Hd. f_equal. apply IH. intros id' Hid'.
  apply Hl. by right.
Qed.

Lemma level_batch_elem ts m level item :
  item ∈ level_batch ts m level → item.1 ∈ ts ∧ map_get m (td_id item.1) = Some item.2.
Proof.
  intros (id & _ & Heq)%list_elem_of_omap. apply bind_Some in Heq as (def & Hf & (r & Hr & [= <-])%bind_Some).
  apply List.find_some in Hf as [Hin Hd%bool_decide_eq_true]. simpl. by rewrite list_elem_of_In, Hd.
Qed.

Record levels_result (ids : list string) (options : ParallelExecuteOptions)
    (m : jsmap string TaskRun) (w : world) (m' : jsmap string TaskRun) (w' : world) : Prop := {
  vr_attempted : ∀ id, id ∈ ids → ∃ r r', map_get m id = Some r ∧ map_get m' id = Some r' ∧ attempt_of options r r';
  vr_others : ∀ id, id ∉ ids → map_get m' id = map_get m id;
  vr_untouched : untouched w w';
  vr_calls : w_calls w' = (w_calls w + length ids)%nat;
}.

Lemma levels_result_nil options m (w : world) : levels_result [] options m w m w.
Proof. split; [by intros id ?%elem_of_nil|done|by split|simpl; lia]. Qed.

(** One level after others. *)
Lemma levels_result_level past batch options m0 (w0 : world) m w m' w' :
  (∀ id, id ∈ past → id ∉ ids_of batch) → (∀ item, item ∈ batch → map_get m (td_id item.1) = Some item.2) →
  levels_result past options m0 w0 m w → level_result batch options m w m' w' →
  levels_result (past ++ ids_of batch) options m0 w0 m' w'.
Proof.
  intros Hdisj Hruns [Hat Hot Hun Hc] [Hat' Hot' Hun' Hc']. split.
  - intros id [Hid|Hid]%elem_of_app.
    + rewrite Hot' by by apply Hdisj. by apply Hat.
    + apply list_elem_of_fmap in Hid as (item & -> & Hitem). destruct (Hat' item Hitem) as (t & Ht & Ha).
      exists item.2, t. split; [|done]. rewrite <-(Hruns item Hitem). symmetry. apply Hot. intros Hp.
      apply (Hdisj _ Hp). by apply (list_elem_of_fmap_2 (λ it : batch_item, td_id it.1)).
  - intros id Hid. rewrite not_elem_of_app in Hid. rewrite Hot' by apply Hid. apply Hot, Hid.
  - by eapply untouched_trans.
  - rewrite Hc', Hc, length_app, length_fmap. lia.
Qed.

(** ** The whole call *)

Section whole.
Context (ts : list TaskDefinition) (options : ParallelExecuteOptions) (runs : jsmap string TaskRun) (w0 : world).
Context (all : list (list string)) (Hmax : 0 < maxConcurrency options) (Hnd : NoDup (concat all)).
Context (Hall : ∀ id, id ∈ concat all → id ∈ td_id <$> ts ∧ is_Some (map_get runs id)).

(** The blocks of the levels to come. *)
Definition rest_bound (rest : list (list string)) : nat := sum_list ((λ level, S (4 * length level)) <$> rest).

(** The levels before are done, the workers of one level [batch] share it, and at
    most [left] steps are left. *)
Inductive config_inv : level_config → nat → Prop :=
| in_level past batch rest phs m w us s :
    concat all = past ++ ids_of batch ++ concat rest →
    levels_result past options runs w0 m w →
    (∀ item, item ∈ batch → map_get m (td_id item.1) = Some item.2) →
    level_inv batch options m w phs (us, s) → length phs = worker_count batch options →
    config_inv (InLevel rest us s) (S (level_measure batch phs (index s.2) + rest_bound rest))
| settled m w : levels_result (concat all) options runs w0 m w → config_inv (Resolved m w) 0.

Lemma worker_count_le batch : (worker_count batch options ≤ length batch)%nat.
Proof. unfold worker_count. lia. Qed.

(** A new level. *)
Lemma level_starts past level rest m w :
  concat all = past ++ level ++ concat rest → levels_result past options runs w0 m w →
  ∃ n, config_inv (runBatch (level_batch ts m level) options rest m w) n ∧ (n ≤ rest_bound (level :: rest))%nat.
Proof.
  intros Heq Hres. pose proof Hnd as Hnd'. rewrite Heq in Hnd'. apply NoDup_app in Hnd' as (_ & Hdisj & Hnd').
  apply NoDup_app in Hnd' as (Hndl & _ & _).
  assert (ids_of (level_batch ts m level) = level) as Hids.
  { apply level_batch_ids. intros id Hid. destruct (Hall id) as [Ht Hr]; [rewrite Heq, !elem_of_app; auto|].
    split; [done|]. rewrite (vr_others _ _ _ _ _ _ Hres); [done|]. intros Hp. apply (Hdisj id Hp). apply elem_of_app. by left. }
  set (batch := level_batch ts m level) in *. unfold runBatch. destruct (start_batch batch options m w) as [us s] eqn:Es.
  pose proof (start_batch_steps batch options m w) as [n0 Hn0]%rtc_nsteps_1. rewrite Es in Hn0.
  destruct (level_inv_steps batch options ltac:(by rewrite Hids) m w _ _ _ _ (level_inv_start batch options m w _) Hn0)
    as (phs & Hphs & Hlen & Hle). rewrite length_replicate in Hlen.
  eexists. split; [apply (in_level past batch rest phs m w us s); rewrite ?Hids; try done|].
  { intros item Hitem. by destruct (level_batch_elem _ _ _ _ Hitem). }
  assert (length batch = length level) as Hb by (rewrite <-Hids; by rewrite length_fmap).
  cbn [fst snd index] in Hle. rewrite level_measure_start in Hle. pose proof (worker_count_le batch).
  change (rest_bound (level :: rest)) with (S (4 * length level) + rest_bound rest)%nat. lia.
Qed.

Lemma config_inv_start : config_inv (InLevel all [] (w0, mkShared 0 runs)) (S (rest_bound all)).
Proof.
  apply (in_level [] [] all [] runs w0); [done|apply levels_result_nil|by intros item ?%elem_of_nil| |unfold worker_count; simpl; lia].
  apply (level_inv_start [] options runs w0 0).
Qed.

Lemma rest_bound_length rest : rest_bound rest = (length rest + 4 * length (concat rest))%nat.
Proof.
  induction rest as [|level rest IH]; [done|]. unfold rest_bound in *. cbn [fmap list_fmap sum_list concat length].
  rewrite length_app. simpl in *. lia.
Qed.

Lemma config_inv_step c c' n :
  config_inv c n → level_step ts options c c' → ∃ n', config_inv c' n' ∧ (n' < n)%nat.
Proof.
  intros Hc Hs. destruct Hc as [past batch rest phs m w us s Heq Hres Hruns Hinv Hlen|m w Hres]; [|by inversion Hs].
  assert (∀ id, id ∈ past → id ∉ ids_of batch) as Hdisj.
  { pose proof Hnd as Hnd'. rewrite Heq in Hnd'. apply NoDup_app in Hnd' as (_ & Hdisj & _). set_solver. }
  assert (NoDup (ids_of batch)) as Hndb.
  { pose proof Hnd as Hnd'. rewrite Heq in Hnd'. apply NoDup_app in Hnd' as (_ & _ & Hnd'). by apply NoDup_app in Hnd' as (? & _ & _). }
  assert (Forall returned us → levels_result (past ++ ids_of batch) options runs w0 (updated s.2) s.1) as Hdone.
  { intros Hret. eapply levels_result_level; [done..|]. by apply (level_inv_result batch options m w phs (us, s)). }
  inversion Hs as [? ? ? us' s' Hp|? ? ? e He|level rest' ? w1 sh Hret|? w1 sh Hret]; subst.
  - destruct (level_inv_step batch options Hndb m w _ _ _ Hinv Hp) as (phs' & Hinv' & Hl' & Hlt).
    eexists. split; [apply (in_level past batch rest phs' m w us' s'); try done; congruence|]. simpl in Hlt. lia.
  - pose proof (level_inv_returned _ _ _ _ _ _ _ Hinv He eq_refl) as Hr. done.
  - specialize (Hdone Hret). destruct (level_starts (past ++ ids_of batch) level rest' _ _
      ltac:(rewrite Heq, <-app_assoc; done) Hdone) as (n & Hn & Hle). exists n. split; [done|]. lia.
  - specialize (Hdone Hret). exists 0%nat. split; [|lia]. apply settled. rewrite Heq. cbn [concat]. by rewrite app_nil_r.
Qed.

Lemma config_inv_steps k c c' n :
  config_inv c n → nsteps (level_step ts options) k c c' → ∃ n', config_inv c' n' ∧ (k + n' ≤ n)%nat.
Proof.
  intros Hc Hk. revert n Hc. induction Hk as [c|k c c1 c' Hs _ IH]; intros n Hc; [exists n; split; [done|lia]|].
  destruct (config_inv_step _ _ _ Hc Hs) as (n1 & Hc1 & Hlt). destruct (IH _ Hc1) as (n' & Hc' & Hle).
  exists n'. split; [done|lia].
Qed.

(** A call that has not returned can go on. *)
Lemma config_inv_progress c n :
  config_inv c n → (∃ c', level_step ts options c c') ∨ ∃ m w, c = Resolved m w.
Proof.
  intros Hc. destruct Hc as [past batch rest phs m w us [w1 sh] Heq Hres Hruns Hinv Hlen|m w Hres]; [left|right; by exists m, w].
  destruct (decide (Forall (λ t, is_done t = true) us)) as [Hd|Hd%not_Forall_Exists]; [|apply Exists_exists in Hd|apply _].
  - assert (Forall returned us) as Hret.
    { rewrite !Forall_forall in *. intros t Ht. eapply level_inv_returned; [done|exact Ht|by apply Hd]. }
    destruct rest as [|level rest]; eexists; [by apply last_level|by apply next_level].
  - destruct Hd as (t & [i Hi]%list_elem_of_lookup & Ht). eexists. apply worker_block. apply (pool_block _ i t); [done|].
    by apply not_true_is_false.
Qed.
End whole.

(** ** Properties *)


(** Without a worker nothing runs, and the result says nothing of it. *)
Lemma executeLevel_no_workers ts runs options (w : world) start m' w' :
  maxConcurrency options ≤ 0 → map_ok runs → executeLevel ts runs w = Some start →
  rtc (level_step ts options) start (Resolved m' w') → m' = runs ∧ w' = w.
Proof.
  intros Hmax Hruns Hs Hrtc. unfold executeLevel in Hs. destruct (plan ts) as [p|e|]; [|by simplify_eq; inversion Hrtc as [|? ? ? Hst]; inversion Hst|done].
  injection Hs as <-. rewrite (map_of_entries_id _ Hruns) in Hrtc. revert Hrtc. generalize (levels p). intros ls Hrtc.
  remember (InLevel ls [] (w, mkShared 0 runs)) as c eqn:Hc. remember (Resolved m' w') as c' eqn:Hc'.
  revert ls Hc. induction Hrtc as [c|c c1 c' Hst Hrest IH]; intros ls ->; [done|].
  inversion Hst as [? ? ? us' s' Hp|? ? ? e He|level rest ? ? sh Hret|? ? sh Hret]; subst.
  - inversion Hp as [? i t ? Ht]. done.
  - by apply elem_of_nil in He.
  - apply (IH eq_refl rest). unfold runBatch, start_batch, worker_count. by replace (Z.to_nat _) with O by lia.
  - inversion Hrest as [|? ? ? Hst']; subst; [done|]. inversion Hst'.
Qed.
End executor.

(** Steps that are bounded, and possible until the end is reached, reach it. *)
Lemma bounded_end {C} (R : relation C) (P : C → Prop) (c0 : C) (bound : nat) :
  (∀ k c, nsteps R k c0 c → (k ≤ bound)%nat ∧ ((∃ c', R c c') ∨ P c)) → ∃ k c, nsteps R k c0 c ∧ P c.
Proof.
  intros H. assert (∀ left k c, nsteps R k c0 c → (bound - k ≤ left)%nat → ∃ k c, nsteps R k c0 c ∧ P c) as Hend.
  { induction left as [|left IH]; intros k c Hk Hle; destruct (H k c Hk) as (_ & [[c' Hs]|Hp]); eauto.
    - destruct (H _ _ (nsteps_r _ _ _ _ Hk Hs)) as [Hb _]. lia.
    - apply (IH _ _ (nsteps_r _ _ _ _ Hk Hs)). lia. }
  apply (Hend bound 0%nat c0); [constructor|lia].
Qed.

Section witnesses.
(** The first task fails: its dependents run all the same. *)
#[local] Instance first_fails : Environment := scripted (λ k, negb (bool_decide (k = 0%nat))).

Definition demo_runs : jsmap string TaskRun :=
  (λ t, (td_id t, createTaskRun ("task_" +:+ td_id t) "run_0" (td_id t) (handler t))) <$> example_tasks.

Definition two_workers : ParallelExecuteOptions := mkParallelOptions 2 DEFAULT_RETRY_POLICY [].

End witnesses.
