(* ===== verification/EnterpriseJobs.v ===== *)
(** * The enterprise job pack (definitions/jobs/)

    One definition per file enterprise_job_01.ts to enterprise_job_80.ts, and the
    array of index.ts. *)

From S2P Require Import Prelude JsMap JsNum DomainTypes JsValue Domain Retry.
Open Scope Z_scope.

Definition JobEnterprise01 : JobDefinition :=
  mkJobDefinition "enterprise_job_01" "Enterprise workflow 1" 1
    (Some "Generated enterprise job with staged handlers and dependency chain.")
    [ mkTaskDefinition "task_0" "Step 0" "invoice.normalize" 20000 None None;
      mkTaskDefinition "task_1" "Step 1" "invoice.post_gl" 25000 None (Some ["task_0"]);
      mkTaskDefinition "task_2" "Step 2" "reconcile.extract" 30000 None (Some ["task_1"]);
      mkTaskDefinition "task_3" "Step 3" "reconcile.match" 35000 None (Some ["task_2"]) ]
    [ mkConstraint "c1" "context.approved == true" SeverityBlock;
      mkConstraint "c2" "context.amount < 1000000" SeverityWarn ]
    DEFAULT_RETRY_POLICY [] [("domain", "finance"); ("pack", "1"); ("tier", "enterprise")]
    "2026-01-15T00:00:00.000Z" "2026-01-15T00:00:00.000Z".

Definition JobEnterprise02 : JobDefinition :=
  mkJobDefinition "enterprise_job_02" "Enterprise workflow 2" 1
    (Some "Generated enterprise job with staged handlers and dependency chain.")
    [ mkTaskDefinition "task_0" "Step 0" "invoice.post_gl" 20000 None None;
      mkTaskDefinition "task_1" "Step 1" "reconcile.extract" 25000 None (Some ["task_0"]);
      mkTaskDefinition "task_2" "Step 2" "reconcile.match" 30000 None (Some ["task_1"]);
      mkTaskDefinition "task_3" "Step 3" "onboard.validate" 35000 None (Some ["task_2"]) ]
    [ mkConstraint "c1" "context.approved == true" SeverityBlock;
      mkConstraint "c2" "context.amount < 1000000" SeverityWarn ]
    DEFAULT_RETRY_POLICY [] [("domain", "finance"); ("pack", "2"); ("tier", "enterprise")]
    "2026-01-15T00:00:00.000Z" "2026-01-15T00:00:00.000Z".

Definition JobEnterprise03 : JobDefinition :=
  mkJobDefinition "enterprise_job_03" "Enterprise workflow 3" 1
    (Some "Generated enterprise job with staged handlers and dependency chain.")
    [ mkTaskDefinition "task_0" "Step 0" "reconcile.extract" 20000 None None;
      mkTaskDefinition "task_1" "Step 1" "reconcile.match" 25000 None (Some ["task_0"]);
      mkTaskDefinition "task_2" "Step 2" "onboard.validate" 30000 None (Some ["task_1"]);
      mkTaskDefinition "task_3" "Step 3" "onboard.provision" 35000 None (Some ["task_2"]) ]
    [ mkConstraint "c1" "context.approved == true" SeverityBlock;
      mkConstraint "c2" "context.amount < 1000000" SeverityWarn ]
    DEFAULT_RETRY_POLICY [] [("domain", "finance"); ("pack", "3"); ("tier", "enterprise")]
    "2026-01-15T00:00:00.000Z" "2026-01-15T00:00:00.000Z".

Definition JobEnterprise04 : JobDefinition :=
  mkJobDefinition "enterprise_job_04" "Enterprise workflow 4" 1
    (Some "Generated enterprise job with staged handlers and dependency chain.")
    [ mkTaskDefinition "task_0" "Step 0" "reconcile.match" 20000 None None;
      mkTaskDefinition "task_1" "Step 1" "onboard.validate" 25000 None (Some ["task_0"]);
      mkTaskDefinition "task_2" "Step 2" "onboard.provision" 30000 None (Some ["task_1"]);
      mkTaskDefinition "task_3" "Step 3" "report.aggregate" 35000 None (Some ["task_2"]) ]
    [ mkConstraint "c1" "context.approved == true" SeverityBlock;
      mkConstraint "c2" "context.amount < 1000000" SeverityWarn ]
    DEFAULT_RETRY_POLICY [] [("domain", "finance"); ("pack", "4"); ("tier", "enterprise")]
    "2026-01-15T00:00:00.000Z" "2026-01-15T00:00:00.000Z".

Definition JobEnterprise05 : JobDefinition :=
  mkJobDefinition "enterprise_job_05" "Enterprise workflow 5" 1
    (Some "Generated enterprise job with staged handlers and dependency chain.")
    [ mkTaskDefinition "task_0" "Step 0" "onboard.validate" 20000 None None;
      mkTaskDefinition "task_1" "Step 1" "onboard.provision" 25000 None (Some ["task_0"]);
      mkTaskDefinition "task_2" "Step 2" "report.aggregate" 30000 None (Some ["task_1"]);
      mkTaskDefinition "task_3" "Step 3" "invoice.fetch" 35000 None (Some ["task_2"]) ]
    [ mkConstraint "c1" "context.approved == true" SeverityBlock;
      mkConstraint "c2" "context.amount < 1000000" SeverityWarn ]
    DEFAULT_RETRY_POLICY [] [("domain", "finance"); ("pack", "5"); ("tier", "enterprise")]
    "2026-01-15T00:00:00.000Z" "2026-01-15T00:00:00.000Z".

Definition JobEnterprise06 : JobDefinition :=
  mkJobDefinition "enterprise_job_06" "Enterprise workflow 6" 1
    (Some "Generated enterprise job with staged handlers and dependency chain.")
    [ mkTaskDefinition "task_0" "Step 0" "onboard.provision" 20000 None None;
      mkTaskDefinition "task_1" "Step 1" "report.aggregate" 25000 None (Some ["task_0"]);
      mkTaskDefinition "task_2" "Step 2" "invoice.fetch" 30000 None (Some ["task_1"]);
      mkTaskDefinition "task_3" "Step 3" "invoice.normalize" 35000 None (Some ["task_2"]) ]
    [ mkConstraint "c1" "context.approved == true" SeverityBlock;
      mkConstraint "c2" "context.amount < 1000000" SeverityWarn ]
    DEFAULT_RETRY_POLICY [] [("domain", "finance"); ("pack", "6"); ("tier", "enterprise")]
    "2026-01-15T00:00:00.000Z" "2026-01-15T00:00:00.000Z".

Definition JobEnterprise07 : JobDefinition :=
  mkJobDefinition "enterprise_job_07" "Enterprise workflow 7" 1
    (Some "Generated enterprise job with staged handlers and dependency chain.")
    [ mkTaskDefinition "task_0" "Step 0" "report.aggregate" 20000 None None;
      mkTaskDefinition "task_1" "Step 1" "invoice.fetch" 25000 None (Some ["task_0"]);
      mkTaskDefinition "task_2" "Step 2" "invoice.normalize" 30000 None (Some ["task_1"]);
      mkTaskDefinition "task_3" "Step 3" "invoice.post_gl" 35000 None (Some ["task_2"]) ]
    [ mkConstraint "c1" "context.approved == true" SeverityBlock;
      mkConstraint "c2" "context.amount < 1000000" SeverityWarn ]
    DEFAULT_RETRY_POLICY [] [("domain", "finance"); ("pack", "7"); ("tier", "enterprise")]
    "2026-01-15T00:00:00.000Z" "2026-01-15T00:00:00.000Z".

Definition JobEnterprise08 : JobDefinition :=
  mkJobDefinition "enterprise_job_08" "Enterprise workflow 8" 1
    (Some "Generated enterprise job with staged handlers and dependency chain.")
    [ mkTaskDefinition "task_0" "Step 0" "invoice.fetch" 20000 None None;
      mkTaskDefinition "task_1" "Step 1" "invoice.normalize" 25000 None (Some ["task_0"]);
      mkTaskDefinition "task_2" "Step 2" "invoice.post_gl" 30000 None (Some ["task_1"]);
      mkTaskDefinition "task_3" "Step 3" "reconcile.extract" 35000 None (Some ["task_2"]) ]
    [ mkConstraint "c1" "context.approved == true" SeverityBlock;
      mkConstraint "c2" "context.amount < 1000000" SeverityWarn ]
    DEFAULT_RETRY_POLICY [] [("domain", "finance"); ("pack", "8"); ("tier", "enterprise")]
    "2026-01-15T00:00:00.000Z" "2026-01-15T00:00:00.000Z".

Definition JobEnterprise09 : JobDefinition :=
  mkJobDefinition "enterprise_job_09" "Enterprise workflow 9" 1
    (Some "Generated enterprise job with staged handlers and dependency chain.")
    [ mkTaskDefinition "task_0" "Step 0" "invoice.normalize" 20000 None None;
      mkTaskDefinition "task_1" "Step 1" "invoice.post_gl" 25000 None (Some ["task_0"]);
      mkTaskDefinition "task_2" "Step 2" "reconcile.extract" 30000 None (Some ["task_1"]);
      mkTaskDefinition "task_3" "Step 3" "reconcile.match" 35000 None (Some ["task_2"]) ]
    [ mkConstraint "c1" "context.approved == true" SeverityBlock;
      mkConstraint "c2" "context.amount < 1000000" SeverityWarn ]
    DEFAULT_RETRY_POLICY [] [("domain", "finance"); ("pack", "9"); ("tier", "enterprise")]
    "2026-01-15T00:00:00.000Z" "2026-01-15T00:00:00.000Z".

Definition JobEnterprise10 : JobDefinition :=
  mkJobDefinition "enterprise_job_10" "Enterprise workflow 10" 1
    (Some "Generated enterprise job with staged handlers and dependency chain.")
    [ mkTaskDefinition "task_0" "Step 0" "invoice.post_gl" 20000 None None;
      mkTaskDefinition "task_1" "Step 1" "reconcile.extract" 25000 None (Some ["task_0"]);
      mkTaskDefinition "task_2" "Step 2" "reconcile.match" 30000 None (Some ["task_1"]);
      mkTaskDefinition "task_3" "Step 3" "onboard.validate" 35000 None (Some ["task_2"]) ]
    [ mkConstraint "c1" "context.approved == true" SeverityBlock;
      mkConstraint "c2" "context.amount < 1000000" SeverityWarn ]
    DEFAULT_RETRY_POLICY [] [("domain", "finance"); ("pack", "10"); ("tier", "enterprise")]
    "2026-01-15T00:00:00.000Z" "2026-01-15T00:00:00.000Z".

Definition JobEnterprise11 : JobDefinition :=
  mkJobDefinition "enterprise_job_11" "Enterprise workflow 11" 1
    (Some "Generated enterprise job with staged handlers and dependency chain.")
    [ mkTaskDefinition "task_0" "Step 0" "reconcile.extract" 20000 None None;
      mkTaskDefinition "task_1" "Step 1" "reconcile.match" 25000 None (Some ["task_0"]);
      mkTaskDefinition "task_2" "Step 2" "onboard.validate" 30000 None (Some ["task_1"]);
      mkTaskDefinition "task_3" "Step 3" "onboard.provision" 35000 None (Some ["task_2"]) ]
    [ mkConstraint "c1" "context.approved == true" SeverityBlock;
      mkConstraint "c2" "context.amount < 1000000" SeverityWarn ]
    DEFAULT_RETRY_POLICY [] [("domain", "finance"); ("pack", "11"); ("tier", "enterprise")]
    "2026-01-15T00:00:00.000Z" "2026-01-15T00:00:00.000Z".

Definition JobEnterprise12 : JobDefinition :=
  mkJobDefinition "enterprise_job_12" "Enterprise workflow 12" 1
    (Some "Generated enterprise job with staged handlers and dependency chain.")
    [ mkTaskDefinition "task_0" "Step 0" "reconcile.match" 20000 None None;
      mkTaskDefinition "task_1" "Step 1" "onboard.validate" 25000 None (Some ["task_0"]);
      mkTaskDefinition "task_2" "Step 2" "onboard.provision" 30000 None (Some ["task_1"]);
      mkTaskDefinition "task_3" "Step 3" "report.aggregate" 35000 None (Some ["task_2"]) ]
    [ mkConstraint "c1" "context.approved == true" SeverityBlock;
      mkConstraint "c2" "context.amount < 1000000" SeverityWarn ]
    DEFAULT_RETRY_POLICY [] [("domain", "finance"); ("pack", "12"); ("tier", "enterprise")]
    "2026-01-15T00:00:00.000Z" "2026-01-15T00:00:00.000Z".

Definition JobEnterprise13 : JobDefinition :=
  mkJobDefinition "enterprise_job_13" "Enterprise workflow 13" 1
    (Some "Generated enterprise job with staged handlers and dependency chain.")
    [ mkTaskDefinition "task_0" "Step 0" "onboard.validate" 20000 None None;
      mkTaskDefinition "task_1" "Step 1" "onboard.provision" 25000 None (Some ["task_0"]);
      mkTaskDefinition "task_2" "Step 2" "report.aggregate" 30000 None (Some ["task_1"]);
      mkTaskDefinition "task_3" "Step 3" "invoice.fetch" 35000 None (Some ["task_2"]) ]
    [ mkConstraint "c1" "context.approved == true" SeverityBlock;
      mkConstraint "c2" "context.amount < 1000000" SeverityWarn ]
    DEFAULT_RETRY_POLICY [] [("domain", "finance"); ("pack", "13"); ("tier", "enterprise")]
    "2026-01-15T00:00:00.000Z" "2026-01-15T00:00:00.000Z".

Definition JobEnterprise14 : JobDefinition :=
  mkJobDefinition "enterprise_job_14" "Enterprise workflow 14" 1
    (Some "Generated enterprise job with staged handlers and dependency chain.")
    [ mkTaskDefinition "task_0" "Step 0" "onboard.provision" 20000 None None;
      mkTaskDefinition "task_1" "Step 1" "report.aggregate" 25000 None (Some ["task_0"]);
      mkTaskDefinition "task_2" "Step 2" "invoice.fetch" 30000 None (Some ["task_1"]);
      mkTaskDefinition "task_3" "Step 3" "invoice.normalize" 35000 None (Some ["task_2"]) ]
    [ mkConstraint "c1" "context.approved == true" SeverityBlock;
      mkConstraint "c2" "context.amount < 1000000" SeverityWarn ]
    DEFAULT_RETRY_POLICY [] [("domain", "finance"); ("pack", "14"); ("tier", "enterprise")]
    "2026-01-15T00:00:00.000Z" "2026-01-15T00:00:00.000Z".

Definition JobEnterprise15 : JobDefinition :=
  mkJobDefinition "enterprise_job_15" "Enterprise workflow 15" 1
    (Some "Generated enterprise job with staged handlers and dependency chain.")
    [ mkTaskDefinition "task_0" "Step 0" "report.aggregate" 20000 None None;
      mkTaskDefinition "task_1" "Step 1" "invoice.fetch" 25000 None (Some ["task_0"]);
      mkTaskDefinition "task_2" "Step 2" "invoice.normalize" 30000 None (Some ["task_1"]);
      mkTaskDefinition "task_3" "Step 3" "invoice.post_gl" 35000 None (Some ["task_2"]) ]
    [ mkConstraint "c1" "context.approved == true" SeverityBlock;
      mkConstraint "c2" "context.amount < 1000000" SeverityWarn ]
    DEFAULT_RETRY_POLICY [] [("domain", "finance"); ("pack", "15"); ("tier", "enterprise")]
    "2026-01-15T00:00:00.000Z" "2026-01-15T00:00:00.000Z".

Definition JobEnterprise16 : JobDefinition :=
  mkJobDefinition "enterprise_job_16" "Enterprise workflow 16" 1
    (Some "Generated enterprise job with staged handlers and dependency chain.")
    [ mkTaskDefinition "task_0" "Step 0" "invoice.fetch" 20000 None None;
      mkTaskDefinition "task_1" "Step 1" "invoice.normalize" 25000 None (Some ["task_0"]);
      mkTaskDefinition "task_2" "Step 2" "invoice.post_gl" 30000 None (Some ["task_1"]);
      mkTaskDefinition "task_3" "Step 3" "reconcile.extract" 35000 None (Some ["task_2"]) ]
    [ mkConstraint "c1" "context.approved == true" SeverityBlock;
      mkConstraint "c2" "context.amount < 1000000" SeverityWarn ]
    DEFAULT_RETRY_POLICY [] [("domain", "finance"); ("pack", "16"); ("tier", "enterprise")]
    "2026-01-15T00:00:00.000Z" "2026-01-15T00:00:00.000Z".

Definition JobEnterprise17 : JobDefinition :=
  mkJobDefinition "enterprise_job_17" "Enterprise workflow 17" 1
    (Some "Generated enterprise job with staged handlers and dependency chain.")
    [ mkTaskDefinition "task_0" "Step 0" "invoice.normalize" 20000 None None;
      mkTaskDefinition "task_1" "Step 1" "invoice.post_gl" 25000 None (Some ["task_0"]);
      mkTaskDefinition "task_2" "Step 2" "reconcile.extract" 30000 None (Some ["task_1"]);
      mkTaskDefinition "task_3" "Step 3" "reconcile.match" 35000 None (Some ["task_2"]) ]
    [ mkConstraint "c1" "context.approved == true" SeverityBlock;
      mkConstraint "c2" "context.amount < 1000000" SeverityWarn ]
    DEFAULT_RETRY_POLICY [] [("domain", "finance"); ("pack", "17"); ("tier", "enterprise")]
    "2026-01-15T00:00:00.000Z" "2026-01-15T00:00:00.000Z".

Definition JobEnterprise18 : JobDefinition :=
  mkJobDefinition "enterprise_job_18" "Enterprise workflow 18" 1
    (Some "Generated enterprise job with staged handlers and dependency chain.")
    [ mkTaskDefinition "task_0" "Step 0" "invoice.post_gl" 20000 None None;
      mkTaskDefinition "task_1" "Step 1" "reconcile.extract" 25000 None (Some ["task_0"]);
      mkTaskDefinition "task_2" "Step 2" "reconcile.match" 30000 None (Some ["task_1"]);
      mkTaskDefinition "task_3" "Step 3" "onboard.validate" 35000 None (Some ["task_2"]) ]
    [ mkConstraint "c1" "context.approved == true" SeverityBlock;
      mkConstraint "c2" "context.amount < 1000000" SeverityWarn ]
    DEFAULT_RETRY_POLICY [] [("domain", "finance"); ("pack", "18"); ("tier", "enterprise")]
    "2026-01-15T00:00:00.000Z" "2026-01-15T00:00:00.000Z".

Definition JobEnterprise19 : JobDefinition :=
  mkJobDefinition "enterprise_job_19" "Enterprise workflow 19" 1
    (Some "Generated enterprise job with staged handlers and dependency chain.")
    [ mkTaskDefinition "task_0" "Step 0" "reconcile.extract" 20000 None None;
      mkTaskDefinition "task_1" "Step 1" "reconcile.match" 25000 None (Some ["task_0"]);
      mkTaskDefinition "task_2" "Step 2" "onboard.validate" 30000 None (Some ["task_1"]);
      mkTaskDefinition "task_3" "Step 3" "onboard.provision" 35000 None (Some ["task_2"]) ]
    [ mkConstraint "c1" "context.approved == true" SeverityBlock;
      mkConstraint "c2" "context.amount < 1000000" SeverityWarn ]
    DEFAULT_RETRY_POLICY [] [("domain", "finance"); ("pack", "19"); ("tier", "enterprise")]
    "2026-01-15T00:00:00.000Z" "2026-01-15T00:00:00.000Z".

Definition JobEnterprise20 : JobDefinition :=
  mkJobDefinition "enterprise_job_20" "Enterprise workflow 20" 1
    (Some "Generated enterprise job with staged handlers and dependency chain.")
    [ mkTaskDefinition "task_0" "Step 0" "reconcile.match" 20000 None None;
      mkTaskDefinition "task_1" "Step 1" "onboard.validate" 25000 None (Some ["task_0"]);
      mkTaskDefinition "task_2" "Step 2" "onboard.provision" 30000 None (Some ["task_1"]);
      mkTaskDefinition "task_3" "Step 3" "report.aggregate" 35000 None (Some ["task_2"]) ]
    [ mkConstraint "c1" "context.approved == true" SeverityBlock;
      mkConstraint "c2" "context.amount < 1000000" SeverityWarn ]
    DEFAULT_RETRY_POLICY [] [("domain", "finance"); ("pack", "20"); ("tier", "enterprise")]
    "2026-01-15T00:00:00.000Z" "2026-01-15T00:00:00.000Z".

Definition JobEnterprise21 : JobDefinition :=
  mkJobDefinition "enterprise_job_21" "Enterprise workflow 21" 1
    (Some "Generated enterprise job with staged handlers and dependency chain.")
    [ mkTaskDefinition "task_0" "Step 0" "onboard.validate" 20000 None None;
      mkTaskDefinition "task_1" "Step 1" "onboard.provision" 25000 None (Some ["task_0"]);
      mkTaskDefinition "task_2" "Step 2" "report.aggregate" 30000 None (Some ["task_1"]);
      mkTaskDefinition "task_3" "Step 3" "invoice.fetch" 35000 None (Some ["task_2"]) ]
    [ mkConstraint "c1" "context.approved == true" SeverityBlock;
      mkConstraint "c2" "context.amount < 1000000" SeverityWarn ]
    DEFAULT_RETRY_POLICY [] [("domain", "finance"); ("pack", "21"); ("tier", "enterprise")]
    "2026-01-15T00:00:00.000Z" "2026-01-15T00:00:00.000Z".

Definition JobEnterprise22 : JobDefinition :=
  mkJobDefinition "enterprise_job_22" "Enterprise workflow 22" 1
    (Some "Generated enterprise job with staged handlers and dependency chain.")
    [ mkTaskDefinition "task_0" "Step 0" "onboard.provision" 20000 None None;
      mkTaskDefinition "task_1" "Step 1" "report.aggregate" 25000 None (Some ["task_0"]);
      mkTaskDefinition "task_2" "Step 2" "invoice.fetch" 30000 None (Some ["task_1"]);
      mkTaskDefinition "task_3" "Step 3" "invoice.normalize" 35000 None (Some ["task_2"]) ]
    [ mkConstraint "c1" "context.approved == true" SeverityBlock;
      mkConstraint "c2" "context.amount < 1000000" SeverityWarn ]
    DEFAULT_RETRY_POLICY [] [("domain", "finance"); ("pack", "22"); ("tier", "enterprise")]
    "2026-01-15T00:00:00.000Z" "2026-01-15T00:00:00.000Z".

Definition JobEnterprise23 : JobDefinition :=
  mkJobDefinition "enterprise_job_23" "Enterprise workflow 23" 1
    (Some "Generated enterprise job with staged handlers and dependency chain.")
    [ mkTaskDefinition "task_0" "Step 0" "report.aggregate" 20000 None None;
      mkTaskDefinition "task_1" "Step 1" "invoice.fetch" 25000 None (Some ["task_0"]);
      mkTaskDefinition "task_2" "Step 2" "invoice.normalize" 30000 None (Some ["task_1"]);
      mkTaskDefinition "task_3" "Step 3" "invoice.post_gl" 35000 None (Some ["task_2"]) ]
    [ mkConstraint "c1" "context.approved == true" SeverityBlock;
      mkConstraint "c2" "context.amount < 1000000" SeverityWarn ]
    DEFAULT_RETRY_POLICY [] [("domain", "finance"); ("pack", "23"); ("tier", "enterprise")]
    "2026-01-15T00:00:00.000Z" "2026-01-15T00:00:00.000Z".

Definition JobEnterprise24 : JobDefinition :=
  mkJobDefinition "enterprise_job_24" "Enterprise workflow 24" 1
    (Some "Generated enterprise job with staged handlers and dependency chain.")
    [ mkTaskDefinition "task_0" "Step 0" "invoice.fetch" 20000 None None;
      mkTaskDefinition "task_1" "Step 1" "invoice.normalize" 25000 None (Some ["task_0"]);
      mkTaskDefinition "task_2" "Step 2" "invoice.post_gl" 30000 None (Some ["task_1"]);
      mkTaskDefinition "task_3" "Step 3" "reconcile.extract" 35000 None (Some ["task_2"]) ]
    [ mkConstraint "c1" "context.approved == true" SeverityBlock;
      mkConstraint "c2" "context.amount < 1000000" SeverityWarn ]
    DEFAULT_RETRY_POLICY [] [("domain", "finance"); ("pack", "24"); ("tier", "enterprise")]
    "2026-01-15T00:00:00.000Z" "2026-01-15T00:00:00.000Z".

Definition JobEnterprise25 : JobDefinition :=
  mkJobDefinition "enterprise_job_25" "Enterprise workflow 25" 1
    (Some "Generated enterprise job with staged handlers and dependency chain.")
    [ mkTaskDefinition "task_0" "Step 0" "invoice.normalize" 20000 None None;
      mkTaskDefinition "task_1" "Step 1" "invoice.post_gl" 25000 None (Some ["task_0"]);
      mkTaskDefinition "task_2" "Step 2" "reconcile.extract" 30000 None (Some ["task_1"]);
      mkTaskDefinition "task_3" "Step 3" "reconcile.match" 35000 None (Some ["task_2"]) ]
    [ mkConstraint "c1" "context.approved == true" SeverityBlock;
      mkConstraint "c2" "context.amount < 1000000" SeverityWarn ]
    DEFAULT_RETRY_POLICY [] [("domain", "finance"); ("pack", "25"); ("tier", "enterprise")]
    "2026-01-15T00:00:00.000Z" "2026-01-15T00:00:00.000Z".

Definition JobEnterprise26 : JobDefinition :=
  mkJobDefinition "enterprise_job_26" "Enterprise workflow 26" 1
    (Some "Generated enterprise job with staged handlers and dependency chain.")
    [ mkTaskDefinition "task_0" "Step 0" "invoice.post_gl" 20000 None None;
      mkTaskDefinition "task_1" "Step 1" "reconcile.extract" 25000 None (Some ["task_0"]);
      mkTaskDefinition "task_2" "Step 2" "reconcile.match" 30000 None (Some ["task_1"]);
      mkTaskDefinition "task_3" "Step 3" "onboard.validate" 35000 None (Some ["task_2"]) ]
    [ mkConstraint "c1" "context.approved == true" SeverityBlock;
      mkConstraint "c2" "context.amount < 1000000" SeverityWarn ]
    DEFAULT_RETRY_POLICY [] [("domain", "finance"); ("pack", "26"); ("tier", "enterprise")]
    "2026-01-15T00:00:00.000Z" "2026-01-15T00:00:00.000Z".

Definition JobEnterprise27 : JobDefinition :=
  mkJobDefinition "enterprise_job_27" "Enterprise workflow 27" 1
    (Some "Generated enterprise job with staged handlers and dependency chain.")
    [ mkTaskDefinition "task_0" "Step 0" "reconcile.extract" 20000 None None;
      mkTaskDefinition "task_1" "Step 1" "reconcile.match" 25000 None (Some ["task_0"]);
      mkTaskDefinition "task_2" "Step 2" "onboard.validate" 30000 None (Some ["task_1"]);
      mkTaskDefinition "task_3" "Step 3" "onboard.provision" 35000 None (Some ["task_2"]) ]
    [ mkConstraint "c1" "context.approved == true" SeverityBlock;
      mkConstraint "c2" "context.amount < 1000000" SeverityWarn ]
    DEFAULT_RETRY_POLICY [] [("domain", "finance"); ("pack", "27"); ("tier", "enterprise")]
    "2026-01-15T00:00:00.000Z" "2026-01-15T00:00:00.000Z".

Definition JobEnterprise28 : JobDefinition :=
  mkJobDefinition "enterprise_job_28" "Enterprise workflow 28" 1
    (Some "Generated enterprise job with staged handlers and dependency chain.")
    [ mkTaskDefinition "task_0" "Step 0" "reconcile.match" 20000 None None;
      mkTaskDefinition "task_1" "Step 1" "onboard.validate" 25000 None (Some ["task_0"]);
      mkTaskDefinition "task_2" "Step 2" "onboard.provision" 30000 None (Some ["task_1"]);
      mkTaskDefinition "task_3" "Step 3" "report.aggregate" 35000 None (Some ["task_2"]) ]
    [ mkConstraint "c1" "context.approved == true" SeverityBlock;
      mkConstraint "c2" "context.amount < 1000000" SeverityWarn ]
    DEFAULT_RETRY_POLICY [] [("domain", "finance"); ("pack", "28"); ("tier", "enterprise")]
    "2026-01-15T00:00:00.000Z" "2026-01-15T00:00:00.000Z".

Definition JobEnterprise29 : JobDefinition :=
  mkJobDefinition "enterprise_job_29" "Enterprise workflow 29" 1
    (Some "Generated enterprise job with staged handlers and dependency chain.")
    [ mkTaskDefinition "task_0" "Step 0" "onboard.validate" 20000 None None;
      mkTaskDefinition "task_1" "Step 1" "onboard.provision" 25000 None (Some ["task_0"]);
      mkTaskDefinition "task_2" "Step 2" "report.aggregate" 30000 None (Some ["task_1"]);
      mkTaskDefinition "task_3" "Step 3" "invoice.fetch" 35000 None (Some ["task_2"]) ]
    [ mkConstraint "c1" "context.approved == true" SeverityBlock;
      mkConstraint "c2" "context.amount < 1000000" SeverityWarn ]
    DEFAULT_RETRY_POLICY [] [("domain", "finance"); ("pack", "29"); ("tier", "enterprise")]
    "2026-01-15T00:00:00.000Z" "2026-01-15T00:00:00.000Z".

Definition JobEnterprise30 : JobDefinition :=
  mkJobDefinition "enterprise_job_30" "Enterprise workflow 30" 1
    (Some "Generated enterprise job with staged handlers and dependency chain.")
    [ mkTaskDefinition "task_0" "Step 0" "onboard.provision" 20000 None None;
      mkTaskDefinition "task_1" "Step 1" "report.aggregate" 25000 None (Some ["task_0"]);
      mkTaskDefinition "task_2" "Step 2" "invoice.fetch" 30000 None (Some ["task_1"]);
      mkTaskDefinition "task_3" "Step 3" "invoice.normalize" 35000 None (Some ["task_2"]) ]
    [ mkConstraint "c1" "context.approved == true" SeverityBlock;
      mkConstraint "c2" "context.amount < 1000000" SeverityWarn ]
    DEFAULT_RETRY_POLICY [] [("domain", "finance"); ("pack", "30"); ("tier", "enterprise")]
    "2026-01-15T00:00:00.000Z" "2026-01-15T00:00:00.000Z".

Definition JobEnterprise31 : JobDefinition :=
  mkJobDefinition "enterprise_job_31" "Enterprise workflow 31" 1
    (Some "Generated enterprise job with staged handlers and dependency chain.")
    [ mkTaskDefinition "task_0" "Step 0" "report.aggregate" 20000 None None;
      mkTaskDefinition "task_1" "Step 1" "invoice.fetch" 25000 None (Some ["task_0"]);
      mkTaskDefinition "task_2" "Step 2" "invoice.normalize" 30000 None (Some ["task_1"]);
      mkTaskDefinition "task_3" "Step 3" "invoice.post_gl" 35000 None (Some ["task_2"]) ]
    [ mkConstraint "c1" "context.approved == true" SeverityBlock;
      mkConstraint "c2" "context.amount < 1000000" SeverityWarn ]
    DEFAULT_RETRY_POLICY [] [("domain", "finance"); ("pack", "31"); ("tier", "enterprise")]
    "2026-01-15T00:00:00.000Z" "2026-01-15T00:00:00.000Z".

Definition JobEnterprise32 : JobDefinition :=
  mkJobDefinition "enterprise_job_32" "Enterprise workflow 32" 1
    (Some "Generated enterprise job with staged handlers and dependency chain.")
    [ mkTaskDefinition "task_0" "Step 0" "invoice.fetch" 20000 None None;
      mkTaskDefinition "task_1" "Step 1" "invoice.normalize" 25000 None (Some ["task_0"]);
      mkTaskDefinition "task_2" "Step 2" "invoice.post_gl" 30000 None (Some ["task_1"]);
      mkTaskDefinition "task_3" "Step 3" "reconcile.extract" 35000 None (Some ["task_2"]) ]
    [ mkConstraint "c1" "context.approved == true" SeverityBlock;
      mkConstraint "c2" "context.amount < 1000000" SeverityWarn ]
    DEFAULT_RETRY_POLICY [] [("domain", "finance"); ("pack", "32"); ("tier", "enterprise")]
    "2026-01-15T00:00:00.000Z" "2026-01-15T00:00:00.000Z".

Definition JobEnterprise33 : JobDefinition :=
  mkJobDefinition "enterprise_job_33" "Enterprise workflow 33" 1
    (Some "Generated enterprise job with staged handlers and dependency chain.")
    [ mkTaskDefinition "task_0" "Step 0" "invoice.normalize" 20000 None None;
      mkTaskDefinition "task_1" "Step 1" "invoice.post_gl" 25000 None (Some ["task_0"]);
      mkTaskDefinition "task_2" "Step 2" "reconcile.extract" 30000 None (Some ["task_1"]);
      mkTaskDefinition "task_3" "Step 3" "reconcile.match" 35000 None (Some ["task_2"]) ]
    [ mkConstraint "c1" "context.approved == true" SeverityBlock;
      mkConstraint "c2" "context.amount < 1000000" SeverityWarn ]
    DEFAULT_RETRY_POLICY [] [("domain", "finance"); ("pack", "33"); ("tier", "enterprise")]
    "2026-01-15T00:00:00.000Z" "2026-01-15T00:00:00.000Z".

Definition JobEnterprise34 : JobDefinition :=
  mkJobDefinition "enterprise_job_34" "Enterprise workflow 34" 1
    (Some "Generated enterprise job with staged handlers and dependency chain.")
    [ mkTaskDefinition "task_0" "Step 0" "invoice.post_gl" 20000 None None;
      mkTaskDefinition "task_1" "Step 1" "reconcile.extract" 25000 None (Some ["task_0"]);
      mkTaskDefinition "task_2" "Step 2" "reconcile.match" 30000 None (Some ["task_1"]);
      mkTaskDefinition "task_3" "Step 3" "onboard.validate" 35000 None (Some ["task_2"]) ]
    [ mkConstraint "c1" "context.approved == true" SeverityBlock;
      mkConstraint "c2" "context.amount < 1000000" SeverityWarn ]
    DEFAULT_RETRY_POLICY [] [("domain", "finance"); ("pack", "34"); ("tier", "enterprise")]
    "2026-01-15T00:00:00.000Z" "2026-01-15T00:00:00.000Z".

Definition JobEnterprise35 : JobDefinition :=
  mkJobDefinition "enterprise_job_35" "Enterprise workflow 35" 1
    (Some "Generated enterprise job with staged handlers and dependency chain.")
    [ mkTaskDefinition "task_0" "Step 0" "reconcile.extract" 20000 None None;
      mkTaskDefinition "task_1" "Step 1" "reconcile.match" 25000 None (Some ["task_0"]);
      mkTaskDefinition "task_2" "Step 2" "onboard.validate" 30000 None (Some ["task_1"]);
      mkTaskDefinition "task_3" "Step 3" "onboard.provision" 35000 None (Some ["task_2"]) ]
    [ mkConstraint "c1" "context.approved == true" SeverityBlock;
      mkConstraint "c2" "context.amount < 1000000" SeverityWarn ]
    DEFAULT_RETRY_POLICY [] [("domain", "finance"); ("pack", "35"); ("tier", "enterprise")]
    "2026-01-15T00:00:00.000Z" "2026-01-15T00:00:00.000Z".

Definition JobEnterprise36 : JobDefinition :=
  mkJobDefinition "enterprise_job_36" "Enterprise workflow 36" 1
    (Some "Generated enterprise job with staged handlers and dependency chain.")
    [ mkTaskDefinition "task_0" "Step 0" "reconcile.match" 20000 None None;
      mkTaskDefinition "task_1" "Step 1" "onboard.validate" 25000 None (Some ["task_0"]);
      mkTaskDefinition "task_2" "Step 2" "onboard.provision" 30000 None (Some ["task_1"]);
      mkTaskDefinition "task_3" "Step 3" "report.aggregate" 35000 None (Some ["task_2"]) ]
    [ mkConstraint "c1" "context.approved == true" SeverityBlock;
      mkConstraint "c2" "context.amount < 1000000" SeverityWarn ]
    DEFAULT_RETRY_POLICY [] [("domain", "finance"); ("pack", "36"); ("tier", "enterprise")]
    "2026-01-15T00:00:00.000Z" "2026-01-15T00:00:00.000Z".

Definition JobEnterprise37 : JobDefinition :=
  mkJobDefinition "enterprise_job_37" "Enterprise workflow 37" 1
    (Some "Generated enterprise job with staged handlers and dependency chain.")
    [ mkTaskDefinition "task_0" "Step 0" "onboard.validate" 20000 None None;
      mkTaskDefinition "task_1" "Step 1" "onboard.provision" 25000 None (Some ["task_0"]);
      mkTaskDefinition "task_2" "Step 2" "report.aggregate" 30000 None (Some ["task_1"]);
      mkTaskDefinition "task_3" "Step 3" "invoice.fetch" 35000 None (Some ["task_2"]) ]
    [ mkConstraint "c1" "context.approved == true" SeverityBlock;
      mkConstraint "c2" "context.amount < 1000000" SeverityWarn ]
    DEFAULT_RETRY_POLICY [] [("domain", "finance"); ("pack", "37"); ("tier", "enterprise")]
    "2026-01-15T00:00:00.000Z" "2026-01-15T00:00:00.000Z".

Definition JobEnterprise38 : JobDefinition :=
  mkJobDefinition "enterprise_job_38" "Enterprise workflow 38" 1
    (Some "Generated enterprise job with staged handlers and dependency chain.")
    [ mkTaskDefinition "task_0" "Step 0" "onboard.provision" 20000 None None;
      mkTaskDefinition "task_1" "Step 1" "report.aggregate" 25000 None (Some ["task_0"]);
      mkTaskDefinition "task_2" "Step 2" "invoice.fetch" 30000 None (Some ["task_1"]);
      mkTaskDefinition "task_3" "Step 3" "invoice.normalize" 35000 None (Some ["task_2"]) ]
    [ mkConstraint "c1" "context.approved == true" SeverityBlock;
      mkConstraint "c2" "context.amount < 1000000" SeverityWarn ]
    DEFAULT_RETRY_POLICY [] [("domain", "finance"); ("pack", "38"); ("tier", "enterprise")]
    "2026-01-15T00:00:00.000Z" "2026-01-15T00:00:00.000Z".

Definition JobEnterprise39 : JobDefinition :=
  mkJobDefinition "enterprise_job_39" "Enterprise workflow 39" 1
    (Some "Generated enterprise job with staged handlers and dependency chain.")
    [ mkTaskDefinition "task_0" "Step 0" "report.aggregate" 20000 None None;
      mkTaskDefinition "task_1" "Step 1" "invoice.fetch" 25000 None (Some ["task_0"]);
      mkTaskDefinition "task_2" "Step 2" "invoice.normalize" 30000 None (Some ["task_1"]);
      mkTaskDefinition "task_3" "Step 3" "invoice.post_gl" 35000 None (Some ["task_2"]) ]
    [ mkConstraint "c1" "context.approved == true" SeverityBlock;
      mkConstraint "c2" "context.amount < 1000000" SeverityWarn ]
    DEFAULT_RETRY_POLICY [] [("domain", "finance"); ("pack", "39"); ("tier", "enterprise")]
    "2026-01-15T00:00:00.000Z" "2026-01-15T00:00:00.000Z".

Definition JobEnterprise40 : JobDefinition :=
  mkJobDefinition "enterprise_job_40" "Enterprise workflow 40" 1
    (Some "Generated enterprise job with staged handlers and dependency chain.")
    [ mkTaskDefinition "task_0" "Step 0" "invoice.fetch" 20000 None None;
      mkTaskDefinition "task_1" "Step 1" "invoice.normalize" 25000 None (Some ["task_0"]);
      mkTaskDefinition "task_2" "Step 2" "invoice.post_gl" 30000 None (Some ["task_1"]);
      mkTaskDefinition "task_3" "Step 3" "reconcile.extract" 35000 None (Some ["task_2"]) ]
    [ mkConstraint "c1" "context.approved == true" SeverityBlock;
      mkConstraint "c2" "context.amount < 1000000" SeverityWarn ]
    DEFAULT_RETRY_POLICY [] [("domain", "finance"); ("pack", "40"); ("tier", "enterprise")]
    "2026-01-15T00:00:00.000Z" "2026-01-15T00:00:00.000Z".

Definition JobEnterprise41 : JobDefinition :=
  mkJobDefinition "enterprise_job_41" "Enterprise workflow 41" 1
    (Some "Generated enterprise job with staged handlers and dependency chain.")
    [ mkTaskDefinition "task_0" "Step 0" "invoice.normalize" 20000 None None;
      mkTaskDefinition "task_1" "Step 1" "invoice.post_gl" 25000 None (Some ["task_0"]);
      mkTaskDefinition "task_2" "Step 2" "reconcile.extract" 30000 None (Some ["task_1"]);
      mkTaskDefinition "task_3" "Step 3" "reconcile.match" 35000 None (Some ["task_2"]) ]
    [ mkConstraint "c1" "context.approved == true" SeverityBlock;
      mkConstraint "c2" "context.amount < 1000000" SeverityWarn ]
    DEFAULT_RETRY_POLICY [] [("domain", "finance"); ("pack", "41"); ("tier", "enterprise")]
    "2026-01-15T00:00:00.000Z" "2026-01-15T00:00:00.000Z".

Definition JobEnterprise42 : JobDefinition :=
  mkJobDefinition "enterprise_job_42" "Enterprise workflow 42" 1
    (Some "Generated enterprise job with staged handlers and dependency chain.")
    [ mkTaskDefinition "task_0" "Step 0" "invoice.post_gl" 20000 None None;
      mkTaskDefinition "task_1" "Step 1" "reconcile.extract" 25000 None (Some ["task_0"]);
      mkTaskDefinition "task_2" "Step 2" "reconcile.match" 30000 None (Some ["task_1"]);
      mkTaskDefinition "task_3" "Step 3" "onboard.validate" 35000 None (Some ["task_2"]) ]
    [ mkConstraint "c1" "context.approved == true" SeverityBlock;
      mkConstraint "c2" "context.amount < 1000000" SeverityWarn ]
    DEFAULT_RETRY_POLICY [] [("domain", "finance"); ("pack", "42"); ("tier", "enterprise")]
    "2026-01-15T00:00:00.000Z" "2026-01-15T00:00:00.000Z".

Definition JobEnterprise43 : JobDefinition :=
  mkJobDefinition "enterprise_job_43" "Enterprise workflow 43" 1
    (Some "Generated enterprise job with staged handlers and dependency chain.")
    [ mkTaskDefinition "task_0" "Step 0" "reconcile.extract" 20000 None None;
      mkTaskDefinition "task_1" "Step 1" "reconcile.match" 25000 None (Some ["task_0"]);
      mkTaskDefinition "task_2" "Step 2" "onboard.validate" 30000 None (Some ["task_1"]);
      mkTaskDefinition "task_3" "Step 3" "onboard.provision" 35000 None (Some ["task_2"]) ]
    [ mkConstraint "c1" "context.approved == true" SeverityBlock;
      mkConstraint "c2" "context.amount < 1000000" SeverityWarn ]
    DEFAULT_RETRY_POLICY [] [("domain", "finance"); ("pack", "43"); ("tier", "enterprise")]
    "2026-01-15T00:00:00.000Z" "2026-01-15T00:00:00.000Z".

Definition JobEnterprise44 : JobDefinition :=
  mkJobDefinition "enterprise_job_44" "Enterprise workflow 44" 1
    (Some "Generated enterprise job with staged handlers and dependency chain.")
    [ mkTaskDefinition "task_0" "Step 0" "reconcile.match" 20000 None None;
      mkTaskDefinition "task_1" "Step 1" "onboard.validate" 25000 None (Some ["task_0"]);
      mkTaskDefinition "task_2" "Step 2" "onboard.provision" 30000 None (Some ["task_1"]);
      mkTaskDefinition "task_3" "Step 3" "report.aggregate" 35000 None (Some ["task_2"]) ]
    [ mkConstraint "c1" "context.approved == true" SeverityBlock;
      mkConstraint "c2" "context.amount < 1000000" SeverityWarn ]
    DEFAULT_RETRY_POLICY [] [("domain", "finance"); ("pack", "44"); ("tier", "enterprise")]
    "2026-01-15T00:00:00.000Z" "2026-01-15T00:00:00.000Z".

Definition JobEnterprise45 : JobDefinition :=
  mkJobDefinition "enterprise_job_45" "Enterprise workflow 45" 1
    (Some "Generated enterprise job with staged handlers and dependency chain.")
    [ mkTaskDefinition "task_0" "Step 0" "onboard.validate" 20000 None None;
      mkTaskDefinition "task_1" "Step 1" "onboard.provision" 25000 None (Some ["task_0"]);
      mkTaskDefinition "task_2" "Step 2" "report.aggregate" 30000 None (Some ["task_1"]);
      mkTaskDefinition "task_3" "Step 3" "invoice.fetch" 35000 None (Some ["task_2"]) ]
    [ mkConstraint "c1" "context.approved == true" SeverityBlock;
      mkConstraint "c2" "context.amount < 1000000" SeverityWarn ]
    DEFAULT_RETRY_POLICY [] [("domain", "finance"); ("pack", "45"); ("tier", "enterprise")]
    "2026-01-15T00:00:00.000Z" "2026-01-15T00:00:00.000Z".

Definition JobEnterprise46 : JobDefinition :=
  mkJobDefinition "enterprise_job_46" "Enterprise workflow 46" 1
    (Some "Generated enterprise job with staged handlers and dependency chain.")
    [ mkTaskDefinition "task_0" "Step 0" "onboard.provision" 20000 None None;
      mkTaskDefinition "task_1" "Step 1" "report.aggregate" 25000 None (Some ["task_0"]);
      mkTaskDefinition "task_2" "Step 2" "invoice.fetch" 30000 None (Some ["task_1"]);
      mkTaskDefinition "task_3" "Step 3" "invoice.normalize" 35000 None (Some ["task_2"]) ]
    [ mkConstraint "c1" "context.approved == true" SeverityBlock;
      mkConstraint "c2" "context.amount < 1000000" SeverityWarn ]
    DEFAULT_RETRY_POLICY [] [("domain", "finance"); ("pack", "46"); ("tier", "enterprise")]
    "2026-01-15T00:00:00.000Z" "2026-01-15T00:00:00.000Z".

Definition JobEnterprise47 : JobDefinition :=
  mkJobDefinition "enterprise_job_47" "Enterprise workflow 47" 1
    (Some "Generated enterprise job with staged handlers and dependency chain.")
    [ mkTaskDefinition "task_0" "Step 0" "report.aggregate" 20000 None None;
      mkTaskDefinition "task_1" "Step 1" "invoice.fetch" 25000 None (Some ["task_0"]);
      mkTaskDefinition "task_2" "Step 2" "invoice.normalize" 30000 None (Some ["task_1"]);
      mkTaskDefinition "task_3" "Step 3" "invoice.post_gl" 35000 None (Some ["task_2"]) ]
    [ mkConstraint "c1" "context.approved == true" SeverityBlock;
      mkConstraint "c2" "context.amount < 1000000" SeverityWarn ]
    DEFAULT_RETRY_POLICY [] [("domain", "finance"); ("pack", "47"); ("tier", "enterprise")]
    "2026-01-15T00:00:00.000Z" "2026-01-15T00:00:00.000Z".

Definition JobEnterprise48 : JobDefinition :=
  mkJobDefinition "enterprise_job_48" "Enterprise workflow 48" 1
    (Some "Generated enterprise job with staged handlers and dependency chain.")
    [ mkTaskDefinition "task_0" "Step 0" "invoice.fetch" 20000 None None;
      mkTaskDefinition "task_1" "Step 1" "invoice.normalize" 25000 None (Some ["task_0"]);
      mkTaskDefinition "task_2" "Step 2" "invoice.post_gl" 30000 None (Some ["task_1"]);
      mkTaskDefinition "task_3" "Step 3" "reconcile.extract" 35000 None (Some ["task_2"]) ]
    [ mkConstraint "c1" "context.approved == true" SeverityBlock;
      mkConstraint "c2" "context.amount < 1000000" SeverityWarn ]
    DEFAULT_RETRY_POLICY [] [("domain", "finance"); ("pack", "48"); ("tier", "enterprise")]
    "2026-01-15T00:00:00.000Z" "2026-01-15T00:00:00.000Z".

Definition JobEnterprise49 : JobDefinition :=
  mkJobDefinition "enterprise_job_49" "Enterprise workflow 49" 1
    (Some "Generated enterprise job with staged handlers and dependency chain.")
    [ mkTaskDefinition "task_0" "Step 0" "invoice.normalize" 20000 None None;
      mkTaskDefinition "task_1" "Step 1" "invoice.post_gl" 25000 None (Some ["task_0"]);
      mkTaskDefinition "task_2" "Step 2" "reconcile.extract" 30000 None (Some ["task_1"]);
      mkTaskDefinition "task_3" "Step 3" "reconcile.match" 35000 None (Some ["task_2"]) ]
    [ mkConstraint "c1" "context.approved == true" SeverityBlock;
      mkConstraint "c2" "context.amount < 1000000" SeverityWarn ]
    DEFAULT_RETRY_POLICY [] [("domain", "finance"); ("pack", "49"); ("tier", "enterprise")]
    "2026-01-15T00:00:00.000Z" "2026-01-15T00:00:00.000Z".

Definition JobEnterprise50 : JobDefinition :=
  mkJobDefinition "enterprise_job_50" "Enterprise workflow 50" 1
    (Some "Generated enterprise job with staged handlers and dependency chain.")
    [ mkTaskDefinition "task_0" "Step 0" "invoice.post_gl" 20000 None None;
      mkTaskDefinition "task_1" "Step 1" "reconcile.extract" 25000 None (Some ["task_0"]);
      mkTaskDefinition "task_2" "Step 2" "reconcile.match" 30000 None (Some ["task_1"]);
      mkTaskDefinition "task_3" "Step 3" "onboard.validate" 35000 None (Some ["task_2"]) ]
    [ mkConstraint "c1" "context.approved == true" SeverityBlock;
      mkConstraint "c2" "context.amount < 1000000" SeverityWarn ]
    DEFAULT_RETRY_POLICY [] [("domain", "finance"); ("pack", "50"); ("tier", "enterprise")]
    "2026-01-15T00:00:00.000Z" "2026-01-15T00:00:00.000Z".

Definition JobEnterprise51 : JobDefinition :=
  mkJobDefinition "enterprise_job_51" "Enterprise workflow 51" 1
    (Some "Generated enterprise job with staged handlers and dependency chain.")
    [ mkTaskDefinition "task_0" "Step 0" "reconcile.extract" 20000 None None;
      mkTaskDefinition "task_1" "Step 1" "reconcile.match" 25000 None (Some ["task_0"]);
      mkTaskDefinition "task_2" "Step 2" "onboard.validate" 30000 None (Some ["task_1"]);
      mkTaskDefinition "task_3" "Step 3" "onboard.provision" 35000 None (Some ["task_2"]) ]
    [ mkConstraint "c1" "context.approved == true" SeverityBlock;
      mkConstraint "c2" "context.amount < 1000000" SeverityWarn ]
    DEFAULT_RETRY_POLICY [] [("domain", "finance"); ("pack", "51"); ("tier", "enterprise")]
    "2026-01-15T00:00:00.000Z" "2026-01-15T00:00:00.000Z".

Definition JobEnterprise52 : JobDefinition :=
  mkJobDefinition "enterprise_job_52" "Enterprise workflow 52" 1
    (Some "Generated enterprise job with staged handlers and dependency chain.")
    [ mkTaskDefinition "task_0" "Step 0" "reconcile.match" 20000 None None;
      mkTaskDefinition "task_1" "Step 1" "onboard.validate" 25000 None (Some ["task_0"]);
      mkTaskDefinition "task_2" "Step 2" "onboard.provision" 30000 None (Some ["task_1"]);
      mkTaskDefinition "task_3" "Step 3" "report.aggregate" 35000 None (Some ["task_2"]) ]
    [ mkConstraint "c1" "context.approved == true" SeverityBlock;
      mkConstraint "c2" "context.amount < 1000000" SeverityWarn ]
    DEFAULT_RETRY_POLICY [] [("domain", "finance"); ("pack", "52"); ("tier", "enterprise")]
    "2026-01-15T00:00:00.000Z" "2026-01-15T00:00:00.000Z".

Definition JobEnterprise53 : JobDefinition :=
  mkJobDefinition "enterprise_job_53" "Enterprise workflow 53" 1
    (Some "Generated enterprise job with staged handlers and dependency chain.")
    [ mkTaskDefinition "task_0" "Step 0" "onboard.validate" 20000 None None;
      mkTaskDefinition "task_1" "Step 1" "onboard.provision" 25000 None (Some ["task_0"]);
      mkTaskDefinition "task_2" "Step 2" "report.aggregate" 30000 None (Some ["task_1"]);
      mkTaskDefinition "task_3" "Step 3" "invoice.fetch" 35000 None (Some ["task_2"]) ]
    [ mkConstraint "c1" "context.approved == true" SeverityBlock;
      mkConstraint "c2" "context.amount < 1000000" SeverityWarn ]
    DEFAULT_RETRY_POLICY [] [("domain", "finance"); ("pack", "53"); ("tier", "enterprise")]
    "2026-01-15T00:00:00.000Z" "2026-01-15T00:00:00.000Z".

Definition JobEnterprise54 : JobDefinition :=
  mkJobDefinition "enterprise_job_54" "Enterprise workflow 54" 1
    (Some "Generated enterprise job with staged handlers and dependency chain.")
    [ mkTaskDefinition "task_0" "Step 0" "onboard.provision" 20000 None None;
      mkTaskDefinition "task_1" "Step 1" "report.aggregate" 25000 None (Some ["task_0"]);
      mkTaskDefinition "task_2" "Step 2" "invoice.fetch" 30000 None (Some ["task_1"]);
      mkTaskDefinition "task_3" "Step 3" "invoice.normalize" 35000 None (Some ["task_2"]) ]
    [ mkConstraint "c1" "context.approved == true" SeverityBlock;
      mkConstraint "c2" "context.amount < 1000000" SeverityWarn ]
    DEFAULT_RETRY_POLICY [] [("domain", "finance"); ("pack", "54"); ("tier", "enterprise")]
    "2026-01-15T00:00:00.000Z" "2026-01-15T00:00:00.000Z".

Definition JobEnterprise55 : JobDefinition :=
  mkJobDefinition "enterprise_job_55" "Enterprise workflow 55" 1
    (Some "Generated enterprise job with staged handlers and dependency chain.")
    [ mkTaskDefinition "task_0" "Step 0" "report.aggregate" 20000 None None;
      mkTaskDefinition "task_1" "Step 1" "invoice.fetch" 25000 None (Some ["task_0"]);
      mkTaskDefinition "task_2" "Step 2" "invoice.normalize" 30000 None (Some ["task_1"]);
      mkTaskDefinition "task_3" "Step 3" "invoice.post_gl" 35000 None (Some ["task_2"]) ]
    [ mkConstraint "c1" "context.approved == true" SeverityBlock;
      mkConstraint "c2" "context.amount < 1000000" SeverityWarn ]
    DEFAULT_RETRY_POLICY [] [("domain", "finance"); ("pack", "55"); ("tier", "enterprise")]
    "2026-01-15T00:00:00.000Z" "2026-01-15T00:00:00.000Z".

Definition JobEnterprise56 : JobDefinition :=
  mkJobDefinition "enterprise_job_56" "Enterprise workflow 56" 1
    (Some "Generated enterprise job with staged handlers and dependency chain.")
    [ mkTaskDefinition "task_0" "Step 0" "invoice.fetch" 20000 None None;
      mkTaskDefinition "task_1" "Step 1" "invoice.normalize" 25000 None (Some ["task_0"]);
      mkTaskDefinition "task_2" "Step 2" "invoice.post_gl" 30000 None (Some ["task_1"]);
      mkTaskDefinition "task_3" "Step 3" "reconcile.extract" 35000 None (Some ["task_2"]) ]
    [ mkConstraint "c1" "context.approved == true" SeverityBlock;
      mkConstraint "c2" "context.amount < 1000000" SeverityWarn ]
    DEFAULT_RETRY_POLICY [] [("domain", "finance"); ("pack", "56"); ("tier", "enterprise")]
    "2026-01-15T00:00:00.000Z" "2026-01-15T00:00:00.000Z".

Definition JobEnterprise57 : JobDefinition :=
  mkJobDefinition "enterprise_job_57" "Enterprise workflow 57" 1
    (Some "Generated enterprise job with staged handlers and dependency chain.")
    [ mkTaskDefinition "task_0" "Step 0" "invoice.normalize" 20000 None None;
      mkTaskDefinition "task_1" "Step 1" "invoice.post_gl" 25000 None (Some ["task_0"]);
      mkTaskDefinition "task_2" "Step 2" "reconcile.extract" 30000 None (Some ["task_1"]);
      mkTaskDefinition "task_3" "Step 3" "reconcile.match" 35000 None (Some ["task_2"]) ]
    [ mkConstraint "c1" "context.approved == true" SeverityBlock;
      mkConstraint "c2" "context.amount < 1000000" SeverityWarn ]
    DEFAULT_RETRY_POLICY [] [("domain", "finance"); ("pack", "57"); ("tier", "enterprise")]
    "2026-01-15T00:00:00.000Z" "2026-01-15T00:00:00.000Z".

Definition JobEnterprise58 : JobDefinition :=
  mkJobDefinition "enterprise_job_58" "Enterprise workflow 58" 1
    (Some "Generated enterprise job with staged handlers and dependency chain.")
    [ mkTaskDefinition "task_0" "Step 0" "invoice.post_gl" 20000 None None;
      mkTaskDefinition "task_1" "Step 1" "reconcile.extract" 25000 None (Some ["task_0"]);
      mkTaskDefinition "task_2" "Step 2" "reconcile.match" 30000 None (Some ["task_1"]);
      mkTaskDefinition "task_3" "Step 3" "onboard.validate" 35000 None (Some ["task_2"]) ]
    [ mkConstraint "c1" "context.approved == true" SeverityBlock;
      mkConstraint "c2" "context.amount < 1000000" SeverityWarn ]
    DEFAULT_RETRY_POLICY [] [("domain", "finance"); ("pack", "58"); ("tier", "enterprise")]
    "2026-01-15T00:00:00.000Z" "2026-01-15T00:00:00.000Z".

Definition JobEnterprise59 : JobDefinition :=
  mkJobDefinition "enterprise_job_59" "Enterprise workflow 59" 1
    (Some "Generated enterprise job with staged handlers and dependency chain.")
    [ mkTaskDefinition "task_0" "Step 0" "reconcile.extract" 20000 None None;
      mkTaskDefinition "task_1" "Step 1" "reconcile.match" 25000 None (Some ["task_0"]);
      mkTaskDefinition "task_2" "Step 2" "onboard.validate" 30000 None (Some ["task_1"]);
      mkTaskDefinition "task_3" "Step 3" "onboard.provision" 35000 None (Some ["task_2"]) ]
    [ mkConstraint "c1" "context.approved == true" SeverityBlock;
      mkConstraint "c2" "context.amount < 1000000" SeverityWarn ]
    DEFAULT_RETRY_POLICY [] [("domain", "finance"); ("pack", "59"); ("tier", "enterprise")]
    "2026-01-15T00:00:00.000Z" "2026-01-15T00:00:00.000Z".

Definition JobEnterprise60 : JobDefinition :=
  mkJobDefinition "enterprise_job_60" "Enterprise workflow 60" 1
    (Some "Generated enterprise job with staged handlers and dependency chain.")
    [ mkTaskDefinition "task_0" "Step 0" "reconcile.match" 20000 None None;
      mkTaskDefinition "task_1" "Step 1" "onboard.validate" 25000 None (Some ["task_0"]);
      mkTaskDefinition "task_2" "Step 2" "onboard.provision" 30000 None (Some ["task_1"]);
      mkTaskDefinition "task_3" "Step 3" "report.aggregate" 35000 None (Some ["task_2"]) ]
    [ mkConstraint "c1" "context.approved == true" SeverityBlock;
      mkConstraint "c2" "context.amount < 1000000" SeverityWarn ]
    DEFAULT_RETRY_POLICY [] [("domain", "finance"); ("pack", "60"); ("tier", "enterprise")]
    "2026-01-15T00:00:00.000Z" "2026-01-15T00:00:00.000Z".

Definition JobEnterprise61 : JobDefinition :=
  mkJobDefinition "enterprise_job_61" "Enterprise workflow 61" 1
    (Some "Generated enterprise job with staged handlers and dependency chain.")
    [ mkTaskDefinition "task_0" "Step 0" "onboard.validate" 20000 None None;
      mkTaskDefinition "task_1" "Step 1" "onboard.provision" 25000 None (Some ["task_0"]);
      mkTaskDefinition "task_2" "Step 2" "report.aggregate" 30000 None (Some ["task_1"]);
      mkTaskDefinition "task_3" "Step 3" "invoice.fetch" 35000 None (Some ["task_2"]) ]
    [ mkConstraint "c1" "context.approved == true" SeverityBlock;
      mkConstraint "c2" "context.amount < 1000000" SeverityWarn ]
    DEFAULT_RETRY_POLICY [] [("domain", "finance"); ("pack", "61"); ("tier", "enterprise")]
    "2026-01-15T00:00:00.000Z" "2026-01-15T00:00:00.000Z".

Definition JobEnterprise62 : JobDefinition :=
  mkJobDefinition "enterprise_job_62" "Enterprise workflow 62" 1
    (Some "Generated enterprise job with staged handlers and dependency chain.")
    [ mkTaskDefinition "task_0" "Step 0" "onboard.provision" 20000 None None;
      mkTaskDefinition "task_1" "Step 1" "report.aggregate" 25000 None (Some ["task_0"]);
      mkTaskDefinition "task_2" "Step 2" "invoice.fetch" 30000 None (Some ["task_1"]);
      mkTaskDefinition "task_3" "Step 3" "invoice.normalize" 35000 None (Some ["task_2"]) ]
    [ mkConstraint "c1" "context.approved == true" SeverityBlock;
      mkConstraint "c2" "context.amount < 1000000" SeverityWarn ]
    DEFAULT_RETRY_POLICY [] [("domain", "finance"); ("pack", "62"); ("tier", "enterprise")]
    "2026-01-15T00:00:00.000Z" "2026-01-15T00:00:00.000Z".

Definition JobEnterprise63 : JobDefinition :=
  mkJobDefinition "enterprise_job_63" "Enterprise workflow 63" 1
    (Some "Generated enterprise job with staged handlers and dependency chain.")
    [ mkTaskDefinition "task_0" "Step 0" "report.aggregate" 20000 None None;
      mkTaskDefinition "task_1" "Step 1" "invoice.fetch" 25000 None (Some ["task_0"]);
      mkTaskDefinition "task_2" "Step 2" "invoice.normalize" 30000 None (Some ["task_1"]);
      mkTaskDefinition "task_3" "Step 3" "invoice.post_gl" 35000 None (Some ["task_2"]) ]
    [ mkConstraint "c1" "context.approved == true" SeverityBlock;
      mkConstraint "c2" "context.amount < 1000000" SeverityWarn ]
    DEFAULT_RETRY_POLICY [] [("domain", "finance"); ("pack", "63"); ("tier", "enterprise")]
    "2026-01-15T00:00:00.000Z" "2026-01-15T00:00:00.000Z".

Definition JobEnterprise64 : JobDefinition :=
  mkJobDefinition "enterprise_job_64" "Enterprise workflow 64" 1
    (Some "Generated enterprise job with staged handlers and dependency chain.")
    [ mkTaskDefinition "task_0" "Step 0" "invoice.fetch" 20000 None None;
      mkTaskDefinition "task_1" "Step 1" "invoice.normalize" 25000 None (Some ["task_0"]);
      mkTaskDefinition "task_2" "Step 2" "invoice.post_gl" 30000 None (Some ["task_1"]);
      mkTaskDefinition "task_3" "Step 3" "reconcile.extract" 35000 None (Some ["task_2"]) ]
    [ mkConstraint "c1" "context.approved == true" SeverityBlock;
      mkConstraint "c2" "context.amount < 1000000" SeverityWarn ]
    DEFAULT_RETRY_POLICY [] [("domain", "finance"); ("pack", "64"); ("tier", "enterprise")]
    "2026-01-15T00:00:00.000Z" "2026-01-15T00:00:00.000Z".

Definition JobEnterprise65 : JobDefinition :=
  mkJobDefinition "enterprise_job_65" "Enterprise workflow 65" 1
    (Some "Generated enterprise job with staged handlers and dependency chain.")
    [ mkTaskDefinition "task_0" "Step 0" "invoice.normalize" 20000 None None;
      mkTaskDefinition "task_1" "Step 1" "invoice.post_gl" 25000 None (Some ["task_0"]);
      mkTaskDefinition "task_2" "Step 2" "reconcile.extract" 30000 None (Some ["task_1"]);
      mkTaskDefinition "task_3" "Step 3" "reconcile.match" 35000 None (Some ["task_2"]) ]
    [ mkConstraint "c1" "context.approved == true" SeverityBlock;
      mkConstraint "c2" "context.amount < 1000000" SeverityWarn ]
    DEFAULT_RETRY_POLICY [] [("domain", "finance"); ("pack", "65"); ("tier", "enterprise")]
    "2026-01-15T00:00:00.000Z" "2026-01-15T00:00:00.000Z".

Definition JobEnterprise66 : JobDefinition :=
  mkJobDefinition "enterprise_job_66" "Enterprise workflow 66" 1
    (Some "Generated enterprise job with staged handlers and dependency chain.")
    [ mkTaskDefinition "task_0" "Step 0" "invoice.post_gl" 20000 None None;
      mkTaskDefinition "task_1" "Step 1" "reconcile.extract" 25000 None (Some ["task_0"]);
      mkTaskDefinition "task_2" "Step 2" "reconcile.match" 30000 None (Some ["task_1"]);
      mkTaskDefinition "task_3" "Step 3" "onboard.validate" 35000 None (Some ["task_2"]) ]
    [ mkConstraint "c1" "context.approved == true" SeverityBlock;
      mkConstraint "c2" "context.amount < 1000000" SeverityWarn ]
    DEFAULT_RETRY_POLICY [] [("domain", "finance"); ("pack", "66"); ("tier", "enterprise")]
    "2026-01-15T00:00:00.000Z" "2026-01-15T00:00:00.000Z".

Definition JobEnterprise67 : JobDefinition :=
  mkJobDefinition "enterprise_job_67" "Enterprise workflow 67" 1
    (Some "Generated enterprise job with staged handlers and dependency chain.")
    [ mkTaskDefinition "task_0" "Step 0" "reconcile.extract" 20000 None None;
      mkTaskDefinition "task_1" "Step 1" "reconcile.match" 25000 None (Some ["task_0"]);
      mkTaskDefinition "task_2" "Step 2" "onboard.validate" 30000 None (Some ["task_1"]);
      mkTaskDefinition "task_3" "Step 3" "onboard.provision" 35000 None (Some ["task_2"]) ]
    [ mkConstraint "c1" "context.approved == true" SeverityBlock;
      mkConstraint "c2" "context.amount < 1000000" SeverityWarn ]
    DEFAULT_RETRY_POLICY [] [("domain", "finance"); ("pack", "67"); ("tier", "enterprise")]
    "2026-01-15T00:00:00.000Z" "2026-01-15T00:00:00.000Z".

Definition JobEnterprise68 : JobDefinition :=
  mkJobDefinition "enterprise_job_68" "Enterprise workflow 68" 1
    (Some "Generated enterprise job with staged handlers and dependency chain.")
    [ mkTaskDefinition "task_0" "Step 0" "reconcile.match" 20000 None None;
      mkTaskDefinition "task_1" "Step 1" "onboard.validate" 25000 None (Some ["task_0"]);
      mkTaskDefinition "task_2" "Step 2" "onboard.provision" 30000 None (Some ["task_1"]);
      mkTaskDefinition "task_3" "Step 3" "report.aggregate" 35000 None (Some ["task_2"]) ]
    [ mkConstraint "c1" "context.approved == true" SeverityBlock;
      mkConstraint "c2" "context.amount < 1000000" SeverityWarn ]
    DEFAULT_RETRY_POLICY [] [("domain", "finance"); ("pack", "68"); ("tier", "enterprise")]
    "2026-01-15T00:00:00.000Z" "2026-01-15T00:00:00.000Z".

Definition JobEnterprise69 : JobDefinition :=
  mkJobDefinition "enterprise_job_69" "Enterprise workflow 69" 1
    (Some "Generated enterprise job with staged handlers and dependency chain.")
    [ mkTaskDefinition "task_0" "Step 0" "onboard.validate" 20000 None None;
      mkTaskDefinition "task_1" "Step 1" "onboard.provision" 25000 None (Some ["task_0"]);
      mkTaskDefinition "task_2" "Step 2" "report.aggregate" 30000 None (Some ["task_1"]);
      mkTaskDefinition "task_3" "Step 3" "invoice.fetch" 35000 None (Some ["task_2"]) ]
    [ mkConstraint "c1" "context.approved == true" SeverityBlock;
      mkConstraint "c2" "context.amount < 1000000" SeverityWarn ]
    DEFAULT_RETRY_POLICY [] [("domain", "finance"); ("pack", "69"); ("tier", "enterprise")]
    "2026-01-15T00:00:00.000Z" "2026-01-15T00:00:00.000Z".

Definition JobEnterprise70 : JobDefinition :=
  mkJobDefinition "enterprise_job_70" "Enterprise workflow 70" 1
    (Some "Generated enterprise job with staged handlers and dependency chain.")
    [ mkTaskDefinition "task_0" "Step 0" "onboard.provision" 20000 None None;
      mkTaskDefinition "task_1" "Step 1" "report.aggregate" 25000 None (Some ["task_0"]);
      mkTaskDefinition "task_2" "Step 2" "invoice.fetch" 30000 None (Some ["task_1"]);
      mkTaskDefinition "task_3" "Step 3" "invoice.normalize" 35000 None (Some ["task_2"]) ]
    [ mkConstraint "c1" "context.approved == true" SeverityBlock;
      mkConstraint "c2" "context.amount < 1000000" SeverityWarn ]
    DEFAULT_RETRY_POLICY [] [("domain", "finance"); ("pack", "70"); ("tier", "enterprise")]
    "2026-01-15T00:00:00.000Z" "2026-01-15T00:00:00.000Z".

Definition JobEnterprise71 : JobDefinition :=
  mkJobDefinition "enterprise_job_71" "Enterprise workflow 71" 1
    (Some "Generated enterprise job with staged handlers and dependency chain.")
    [ mkTaskDefinition "task_0" "Step 0" "report.aggregate" 20000 None None;
      mkTaskDefinition "task_1" "Step 1" "invoice.fetch" 25000 None (Some ["task_0"]);
      mkTaskDefinition "task_2" "Step 2" "invoice.normalize" 30000 None (Some ["task_1"]);
      mkTaskDefinition "task_3" "Step 3" "invoice.post_gl" 35000 None (Some ["task_2"]) ]
    [ mkConstraint "c1" "context.approved == true" SeverityBlock;
      mkConstraint "c2" "context.amount < 1000000" SeverityWarn ]
    DEFAULT_RETRY_POLICY [] [("domain", "finance"); ("pack", "71"); ("tier", "enterprise")]
    "2026-01-15T00:00:00.000Z" "2026-01-15T00:00:00.000Z".

Definition JobEnterprise72 : JobDefinition :=
  mkJobDefinition "enterprise_job_72" "Enterprise workflow 72" 1
    (Some "Generated enterprise job with staged handlers and dependency chain.")
    [ mkTaskDefinition "task_0" "Step 0" "invoice.fetch" 20000 None None;
      mkTaskDefinition "task_1" "Step 1" "invoice.normalize" 25000 None (Some ["task_0"]);
      mkTaskDefinition "task_2" "Step 2" "invoice.post_gl" 30000 None (Some ["task_1"]);
      mkTaskDefinition "task_3" "Step 3" "reconcile.extract" 35000 None (Some ["task_2"]) ]
    [ mkConstraint "c1" "context.approved == true" SeverityBlock;
      mkConstraint "c2" "context.amount < 1000000" SeverityWarn ]
    DEFAULT_RETRY_POLICY [] [("domain", "finance"); ("pack", "72"); ("tier", "enterprise")]
    "2026-01-15T00:00:00.000Z" "2026-01-15T00:00:00.000Z".

Definition JobEnterprise73 : JobDefinition :=
  mkJobDefinition "enterprise_job_73" "Enterprise workflow 73" 1
    (Some "Generated enterprise job with staged handlers and dependency chain.")
    [ mkTaskDefinition "task_0" "Step 0" "invoice.normalize" 20000 None None;
      mkTaskDefinition "task_1" "Step 1" "invoice.post_gl" 25000 None (Some ["task_0"]);
      mkTaskDefinition "task_2" "Step 2" "reconcile.extract" 30000 None (Some ["task_1"]);
      mkTaskDefinition "task_3" "Step 3" "reconcile.match" 35000 None (Some ["task_2"]) ]
    [ mkConstraint "c1" "context.approved == true" SeverityBlock;
      mkConstraint "c2" "context.amount < 1000000" SeverityWarn ]
    DEFAULT_RETRY_POLICY [] [("domain", "finance"); ("pack", "73"); ("tier", "enterprise")]
    "2026-01-15T00:00:00.000Z" "2026-01-15T00:00:00.000Z".

Definition JobEnterprise74 : JobDefinition :=
  mkJobDefinition "enterprise_job_74" "Enterprise workflow 74" 1
    (Some "Generated enterprise job with staged handlers and dependency chain.")
    [ mkTaskDefinition "task_0" "Step 0" "invoice.post_gl" 20000 None None;
      mkTaskDefinition "task_1" "Step 1" "reconcile.extract" 25000 None (Some ["task_0"]);
      mkTaskDefinition "task_2" "Step 2" "reconcile.match" 30000 None (Some ["task_1"]);
      mkTaskDefinition "task_3" "Step 3" "onboard.validate" 35000 None (Some ["task_2"]) ]
    [ mkConstraint "c1" "context.approved == true" SeverityBlock;
      mkConstraint "c2" "context.amount < 1000000" SeverityWarn ]
    DEFAULT_RETRY_POLICY [] [("domain", "finance"); ("pack", "74"); ("tier", "enterprise")]
    "2026-01-15T00:00:00.000Z" "2026-01-15T00:00:00.000Z".

Definition JobEnterprise75 : JobDefinition :=
  mkJobDefinition "enterprise_job_75" "Enterprise workflow 75" 1
    (Some "Generated enterprise job with staged handlers and dependency chain.")
    [ mkTaskDefinition "task_0" "Step 0" "reconcile.extract" 20000 None None;
      mkTaskDefinition "task_1" "Step 1" "reconcile.match" 25000 None (Some ["task_0"]);
      mkTaskDefinition "task_2" "Step 2" "onboard.validate" 30000 None (Some ["task_1"]);
      mkTaskDefinition "task_3" "Step 3" "onboard.provision" 35000 None (Some ["task_2"]) ]
    [ mkConstraint "c1" "context.approved == true" SeverityBlock;
      mkConstraint "c2" "context.amount < 1000000" SeverityWarn ]
    DEFAULT_RETRY_POLICY [] [("domain", "finance"); ("pack", "75"); ("tier", "enterprise")]
    "2026-01-15T00:00:00.000Z" "2026-01-15T00:00:00.000Z".

Definition JobEnterprise76 : JobDefinition :=
  mkJobDefinition "enterprise_job_76" "Enterprise workflow 76" 1
    (Some "Generated enterprise job with staged handlers and dependency chain.")
    [ mkTaskDefinition "task_0" "Step 0" "reconcile.match" 20000 None None;
      mkTaskDefinition "task_1" "Step 1" "onboard.validate" 25000 None (Some ["task_0"]);
      mkTaskDefinition "task_2" "Step 2" "onboard.provision" 30000 None (Some ["task_1"]);
      mkTaskDefinition "task_3" "Step 3" "report.aggregate" 35000 None (Some ["task_2"]) ]
    [ mkConstraint "c1" "context.approved == true" SeverityBlock;
      mkConstraint "c2" "context.amount < 1000000" SeverityWarn ]
    DEFAULT_RETRY_POLICY [] [("domain", "finance"); ("pack", "76"); ("tier", "enterprise")]
    "2026-01-15T00:00:00.000Z" "2026-01-15T00:00:00.000Z".

Definition JobEnterprise77 : JobDefinition :=
  mkJobDefinition "enterprise_job_77" "Enterprise workflow 77" 1
    (Some "Generated enterprise job with staged handlers and dependency chain.")
    [ mkTaskDefinition "task_0" "Step 0" "onboard.validate" 20000 None None;
      mkTaskDefinition "task_1" "Step 1" "onboard.provision" 25000 None (Some ["task_0"]);
      mkTaskDefinition "task_2" "Step 2" "report.aggregate" 30000 None (Some ["task_1"]);
      mkTaskDefinition "task_3" "Step 3" "invoice.fetch" 35000 None (Some ["task_2"]) ]
    [ mkConstraint "c1" "context.approved == true" SeverityBlock;
      mkConstraint "c2" "context.amount < 1000000" SeverityWarn ]
    DEFAULT_RETRY_POLICY [] [("domain", "finance"); ("pack", "77"); ("tier", "enterprise")]
    "2026-01-15T00:00:00.000Z" "2026-01-15T00:00:00.000Z".

Definition JobEnterprise78 : JobDefinition :=
  mkJobDefinition "enterprise_job_78" "Enterprise workflow 78" 1
    (Some "Generated enterprise job with staged handlers and dependency chain.")
    [ mkTaskDefinition "task_0" "Step 0" "onboard.provision" 20000 None None;
      mkTaskDefinition "task_1" "Step 1" "report.aggregate" 25000 None (Some ["task_0"]);
      mkTaskDefinition "task_2" "Step 2" "invoice.fetch" 30000 None (Some ["task_1"]);
      mkTaskDefinition "task_3" "Step 3" "invoice.normalize" 35000 None (Some ["task_2"]) ]
    [ mkConstraint "c1" "context.approved == true" SeverityBlock;
      mkConstraint "c2" "context.amount < 1000000" SeverityWarn ]
    DEFAULT_RETRY_POLICY [] [("domain", "finance"); ("pack", "78"); ("tier", "enterprise")]
    "2026-01-15T00:00:00.000Z" "2026-01-15T00:00:00.000Z".

Definition JobEnterprise79 : JobDefinition :=
  mkJobDefinition "enterprise_job_79" "Enterprise workflow 79" 1
    (Some "Generated enterprise job with staged handlers and dependency chain.")
    [ mkTaskDefinition "task_0" "Step 0" "report.aggregate" 20000 None None;
      mkTaskDefinition "task_1" "Step 1" "invoice.fetch" 25000 None (Some ["task_0"]);
      mkTaskDefinition "task_2" "Step 2" "invoice.normalize" 30000 None (Some ["task_1"]);
      mkTaskDefinition "task_3" "Step 3" "invoice.post_gl" 35000 None (Some ["task_2"]) ]
    [ mkConstraint "c1" "context.approved == true" SeverityBlock;
      mkConstraint "c2" "context.amount < 1000000" SeverityWarn ]
    DEFAULT_RETRY_POLICY [] [("domain", "finance"); ("pack", "79"); ("tier", "enterprise")]
    "2026-01-15T00:00:00.000Z" "2026-01-15T00:00:00.000Z".

Definition JobEnterprise80 : JobDefinition :=
  mkJobDefinition "enterprise_job_80" "Enterprise workflow 80" 1
    (Some "Generated enterprise job with staged handlers and dependency chain.")
    [ mkTaskDefinition "task_0" "Step 0" "invoice.fetch" 20000 None None;
      mkTaskDefinition "task_1" "Step 1" "invoice.normalize" 25000 None (Some ["task_0"]);
      mkTaskDefinition "task_2" "Step 2" "invoice.post_gl" 30000 None (Some ["task_1"]);
      mkTaskDefinition "task_3" "Step 3" "reconcile.extract" 35000 None (Some ["task_2"]) ]
    [ mkConstraint "c1" "context.approved == true" SeverityBlock;
      mkConstraint "c2" "context.amount < 1000000" SeverityWarn ]
    DEFAULT_RETRY_POLICY [] [("domain", "finance"); ("pack", "80"); ("tier", "enterprise")]
    "2026-01-15T00:00:00.000Z" "2026-01-15T00:00:00.000Z".

Definition ENTERPRISE_JOB_PACK : list JobDefinition := [
  JobEnterprise01; JobEnterprise02; JobEnterprise03; JobEnterprise04; JobEnterprise05;
  JobEnterprise06; JobEnterprise07; JobEnterprise08; JobEnterprise09; JobEnterprise10;
  JobEnterprise11; JobEnterprise12; JobEnterprise13; JobEnterprise14; JobEnterprise15;
  JobEnterprise16; JobEnterprise17; JobEnterprise18; JobEnterprise19; JobEnterprise20;
  JobEnterprise21; JobEnterprise22; JobEnterprise23; JobEnterprise24; JobEnterprise25;
  JobEnterprise26; JobEnterprise27; JobEnterprise28; JobEnterprise29; JobEnterprise30;
  JobEnterprise31; JobEnterprise32; JobEnterprise33; JobEnterprise34; JobEnterprise35;
  JobEnterprise36; JobEnterprise37; JobEnterprise38; JobEnterprise39; JobEnterprise40;
  JobEnterprise41; JobEnterprise42; JobEnterprise43; JobEnterprise44; JobEnterprise45;
  JobEnterprise46; JobEnterprise47; JobEnterprise48; JobEnterprise49; JobEnterprise50;
  JobEnterprise51; JobEnterprise52; JobEnterprise53; JobEnterprise54; JobEnterprise55;
  JobEnterprise56; JobEnterprise57; JobEnterprise58; JobEnterprise59; JobEnterprise60;
  JobEnterprise61; JobEnterprise62; JobEnterprise63; JobEnterprise64; JobEnterprise65;
  JobEnterprise66; JobEnterprise67; JobEnterprise68; JobEnterprise69; JobEnterprise70;
  JobEnterprise71; JobEnterprise72; JobEnterprise73; JobEnterprise74; JobEnterprise75;
  JobEnterprise76; JobEnterprise77; JobEnterprise78; JobEnterprise79; JobEnterprise80 ].
