(* ===== verification/Catalog.v ===== *)
(** * The job catalogue

    definitions/catalog.ts, definitions/catalog-extended.ts, the loader of
    definitions/loader.ts and services/catalog-service.ts.  The theorems say that
    every built-in definition could have been registered, that seeding stores
    exactly the catalogue, and that a seeded job executes to the end. *)

From S2P Require Import Prelude JsMap JsString Graph JsNum DomainTypes JsValue Domain Retry Transitions Locks Stores Metrics Handlers Validator Expressions Constraints Engine ExecInv Execution Registration EngineProps EnterpriseJobs.
From Stdlib Require Import Ascii.
Open Scope Z_scope.

(** ** The catalogues *)

(** [job(...)]; [metadata] and [constraints] default to nothing. *)
Definition job (id name : string) (version : Z) (tasks : list TaskDefinition)
    (constraints : list JobConstraint) (metadata : jsmap string string) : JobDefinition :=
  let now := "2026-01-01T00:00:00.000Z" in
  mkJobDefinition id name version None tasks constraints DEFAULT_RETRY_POLICY [] metadata now now.

Definition STANDARD_JOB_CATALOG : list JobDefinition := [
  job "invoice_fetch_daily" "Daily invoice fetch" 1 [
    mkTaskDefinition "pull" "Pull from ERP" "invoice.fetch" 45000 None None;
    mkTaskDefinition "validate" "Validate schema" "invoice.normalize" 20000 None (Some ["pull"]) ] [] [];
  job "invoice_post_gl" "GL posting run" 2 [
    mkTaskDefinition "prepare" "Prepare entries" "invoice.normalize" 30000 None None;
    mkTaskDefinition "post" "Post entries" "invoice.post_gl" 60000 None (Some ["prepare"]);
    mkTaskDefinition "audit" "Audit trail" "report.aggregate" 15000 None (Some ["post"]) ] [] [];
  job "reconcile_us_ledger" "US ledger reconcile" 3 [
    mkTaskDefinition "extract" "Extract" "reconcile.extract" 120000 None None;
    mkTaskDefinition "match" "Match" "reconcile.match" 180000 None (Some ["extract"]);
    mkTaskDefinition "exceptions" "Flag exceptions" "report.aggregate" 30000 None (Some ["match"]) ] [] [];
  job "reconcile_eu_ledger" "EU ledger reconcile" 3 [
    mkTaskDefinition "extract" "Extract" "reconcile.extract" 120000 None None;
    mkTaskDefinition "match" "Match" "reconcile.match" 180000 None (Some ["extract"]) ] [] [];
  job "onboard_enterprise" "Enterprise onboarding" 1 [
    mkTaskDefinition "kyc" "KYC" "onboard.validate" 25000 None None;
    mkTaskDefinition "provision" "Provision" "onboard.provision" 90000 None (Some ["kyc"]) ] [] [];
  job "onboard_smb" "SMB onboarding" 1 [
    mkTaskDefinition "kyc" "KYC light" "onboard.validate" 15000 None None;
    mkTaskDefinition "provision" "Provision" "onboard.provision" 45000 None (Some ["kyc"]) ] [] [];
  job "notify_ops_digest" "Ops digest notification" 1 [
    mkTaskDefinition "aggregate" "Aggregate" "report.aggregate" 60000 None None;
    mkTaskDefinition "notify" "Notify" "external.risky_notify" 10000 (Some true) (Some ["aggregate"]) ] [] [];
  job "month_end_close" "Month end close" 4 [
    mkTaskDefinition "freeze" "Freeze subledgers" "reconcile.extract" 60000 None None;
    mkTaskDefinition "reconcile" "Reconcile all" "reconcile.match" 240000 None (Some ["freeze"]);
    mkTaskDefinition "report" "CFO report" "report.aggregate" 90000 None (Some ["reconcile"]);
    mkTaskDefinition "publish" "Publish" "invoice.post_gl" 45000 None (Some ["report"]) ] [] [] ].

Definition ext (id name : string) (tasks : list TaskDefinition) : JobDefinition :=
  let now := "2026-02-01T00:00:00.000Z" in
  mkJobDefinition id name 1 None tasks [] DEFAULT_RETRY_POLICY [] [("tier", "extended")] now now.

Definition EXTENDED_JOB_CATALOG : list JobDefinition := [
  ext "apac_invoice_sync" "APAC invoice sync" [
    mkTaskDefinition "fetch" "Fetch" "invoice.fetch" 40000 None None;
    mkTaskDefinition "norm" "Normalize" "invoice.normalize" 20000 None (Some ["fetch"]);
    mkTaskDefinition "post" "Post" "invoice.post_gl" 30000 None (Some ["norm"]) ];
  ext "latam_reconcile" "LATAM reconcile" [
    mkTaskDefinition "extract" "Extract" "reconcile.extract" 90000 None None;
    mkTaskDefinition "match" "Match" "reconcile.match" 120000 None (Some ["extract"]) ];
  ext "vendor_onboarding" "Vendor onboarding" [
    mkTaskDefinition "validate" "Validate" "onboard.validate" 20000 None None;
    mkTaskDefinition "provision" "Provision" "onboard.provision" 50000 None (Some ["validate"]) ];
  ext "treasury_daily" "Treasury daily" [
    mkTaskDefinition "extract" "Extract" "reconcile.extract" 60000 None None;
    mkTaskDefinition "report" "Report" "report.aggregate" 45000 None (Some ["extract"]) ];
  ext "compliance_scan" "Compliance scan" [
    mkTaskDefinition "scan" "Scan" "onboard.validate" 30000 None None;
    mkTaskDefinition "notify" "Notify" "external.risky_notify" 8000 (Some true) (Some ["scan"]) ];
  ext "intercompany_elim" "Intercompany elimination" [
    mkTaskDefinition "pull" "Pull IC" "invoice.fetch" 55000 None None;
    mkTaskDefinition "match" "Match IC" "reconcile.match" 90000 None (Some ["pull"]);
    mkTaskDefinition "post" "Eliminate" "invoice.post_gl" 40000 None (Some ["match"]) ];
  ext "tax_withholding" "Tax withholding" [
    mkTaskDefinition "calc" "Calculate" "report.aggregate" 35000 None None;
    mkTaskDefinition "file" "File" "invoice.post_gl" 25000 None (Some ["calc"]) ];
  ext "payroll_accrual" "Payroll accrual" [
    mkTaskDefinition "accrue" "Accrue" "invoice.normalize" 40000 None None;
    mkTaskDefinition "post" "Post payroll" "invoice.post_gl" 35000 None (Some ["accrue"]) ];
  ext "inventory_reconcile" "Inventory reconcile" [
    mkTaskDefinition "count" "Count" "reconcile.extract" 70000 None None;
    mkTaskDefinition "adjust" "Adjust" "reconcile.match" 50000 None (Some ["count"]) ];
  ext "fixed_asset_depreciation" "Fixed asset depreciation" [
    mkTaskDefinition "depreciate" "Run depreciation" "report.aggregate" 80000 None None;
    mkTaskDefinition "post" "Post JE" "invoice.post_gl" 30000 None (Some ["depreciate"]) ];
  ext "credit_memo_processing" "Credit memo processing" [
    mkTaskDefinition "fetch" "Fetch memos" "invoice.fetch" 25000 None None;
    mkTaskDefinition "apply" "Apply" "invoice.normalize" 20000 None (Some ["fetch"]) ];
  ext "collections_escalation" "Collections escalation" [
    mkTaskDefinition "identify" "Identify overdue" "reconcile.extract" 30000 None None;
    mkTaskDefinition "notify" "Escalate" "external.risky_notify" 10000 None (Some ["identify"]) ];
  ext "budget_variance" "Budget variance analysis" [
    mkTaskDefinition "load" "Load budget" "invoice.fetch" 20000 None None;
    mkTaskDefinition "compare" "Compare actuals" "reconcile.match" 60000 None (Some ["load"]);
    mkTaskDefinition "report" "Variance report" "report.aggregate" 40000 None (Some ["compare"]) ];
  ext "subsidiary_roll_up" "Subsidiary roll-up" [
    mkTaskDefinition "collect" "Collect subs" "reconcile.extract" 100000 None None;
    mkTaskDefinition "consolidate" "Consolidate" "report.aggregate" 120000 None (Some ["collect"]) ] ].

Definition FULL_CATALOG : list JobDefinition := STANDARD_JOB_CATALOG ++ EXTENDED_JOB_CATALOG.

Definition getCatalogJob (id : string) : option JobDefinition :=
  List.find (λ j, bool_decide (jd_id j = id)) STANDARD_JOB_CATALOG.

Definition listCatalogJobs : list JobDefinition := STANDARD_JOB_CATALOG.

(** What the loader and the service build from both packs. *)
Definition builtin_catalog : list JobDefinition := FULL_CATALOG ++ ENTERPRISE_JOB_PACK.

(** ** The loader and the catalogue service *)

Section operations.
Context {JS WS RS : Type} `{JobDefinitionStoreLaws JS} `{!WorkflowStore WS} `{!RunStore RS} `{Environment}.
Notation world := (world JS WS RS).

Fixpoint save_all (defs : list JobDefinition) : eff world unit :=
  match defs with
  | [] => mret tt
  | def :: rest => _ ← modify (λ w, with_jobs (job_save def (w_jobs w)) w); save_all rest
  end.

Definition seedIfEmpty : eff world Z :=
  existing ← gets (λ w : world, job_list (w_jobs w));
  if bool_decide (0 < Z.of_nat (length existing)) then mret 0
  else
    let catalog := builtin_catalog in
    _ ← save_all catalog;
    mret (Z.of_nat (length catalog)).

Definition set_jd_updatedAt (d : JobDefinition) (at_ : string) : JobDefinition :=
  mkJobDefinition (jd_id d) (jd_name d) (jd_version d) (description d) (tasks d) (constraints d)
    (retryPolicy d) (allowedTransitions d) (metadata d) (jd_createdAt d) at_.

Fixpoint reload_all (defs : list JobDefinition) : eff world unit :=
  match defs with
  | [] => mret tt
  | def :: rest =>
      at_ ← now;
      _ ← modify (λ w, with_jobs (job_save (set_jd_updatedAt def at_) (w_jobs w)) w);
      reload_all rest
  end.

Definition reload : eff world unit := reload_all FULL_CATALOG.

Definition syncBuiltin : eff world Z :=
  _ ← save_all builtin_catalog;
  mret (Z.of_nat (length builtin_catalog)).

Definition catalog_get (id : string) : eff world JobDefinition :=
  fromStore ← gets (λ w : world, job_get id (w_jobs w));
  match fromStore with
  | Some d => mret d
  | None =>
      match List.find (λ j, bool_decide (jd_id j = id)) builtin_catalog with
      | Some d => mret d
      | None => throw (NotFoundError "JobDefinition" id)
      end
  end.

End operations.

Definition catalog_search (query : string) : list JobDefinition :=
  let q := to_lower query in
  List.filter (λ j,
    includes (to_lower (jd_name j)) q || includes (to_lower (jd_id j)) q
    || existsb (λ v, includes (to_lower v) q) (map_values (metadata j))) builtin_catalog.

(** ** The definitions are sound *)

(** What seeding needs of a definition: it would pass the checks of [register],
    apart from the cap on its timeouts. *)
Record seedable (reg : HandlerRegistry) (d : JobDefinition) : Prop := {
  sd_well_formed : well_formed d;
  sd_acyclic : acyclic (tasks d);
  sd_handlers : Forall (λ t, is_Some (get_handler reg (handler t))) (tasks d);
  sd_policy : policy_valid (retryPolicy d);
}.

(** The validators as one decision procedure. *)
Definition seedable_b (reg : HandlerRegistry) (d : JobDefinition) : bool :=
  match validate d, validateDependencyOrder (tasks d) with
  | Ok _, Ok _ => forallb (λ t, map_has reg (handler t)) (tasks d) && retryPolicySchema_ok (retryPolicy d)
  | _, _ => false
  end.

Lemma seedable_b_sound reg d : seedable_b reg d = true → seedable reg d.
Proof.
  unfold seedable_b. destruct (validate d) as [[]| |] eqn:Hv; [|done..].
  destruct (validateDependencyOrder _) as [[]| |] eqn:Ho; [|done..].
  intros [Hh Hp]%andb_true_iff. split.
  - by apply validate_iff.
  - by apply validateDependencyOrder_Ok.
  - apply Forall_forall. intros t Ht. rewrite forallb_forall in Hh.
    by apply map_has_Some, Hh, list_elem_of_In.
  - by apply retryPolicySchema_valid.
Qed.

Lemma seedable_executable reg d : seedable reg d → executable d.
Proof.
  intros [[_ _ Hok _] Hac _ _]. split; [|done]. intros t x Ht Hx.
  rewrite Forall_forall in Hok. by apply (Hok t Ht).
Qed.

Lemma builtin_seedable d : d ∈ builtin_catalog → seedable new_handler_registry d.
Proof.
  assert (forallb (seedable_b new_handler_registry) builtin_catalog = true) as H by by vm_compute.
  rewrite forallb_forall in H. intros Hd. by apply seedable_b_sound, H, list_elem_of_In.
Qed.

Lemma builtin_ids_NoDup : NoDup (jd_id <$> builtin_catalog).
Proof. apply (bool_decide_unpack _). by vm_compute. Qed.

(** ** Their constraints never fire *)

Definition pack_expressions : list string := ["context.approved == true"; "context.amount < 1000000"].

Lemma builtin_expressions d c :
  d ∈ builtin_catalog → c ∈ constraints d → expression c ∈ pack_expressions.
Proof.
  assert (forallb (λ d, forallb (λ c, bool_decide (expression c ∈ pack_expressions)) (constraints d))
            builtin_catalog = true) as H by by vm_compute.
  rewrite forallb_forall in H. intros Hd%list_elem_of_In Hc%list_elem_of_In. specialize (H d Hd).
  rewrite forallb_forall in H. specialize (H c Hc). by apply bool_decide_eq_true in H.
Qed.

Lemma pack_expression_inert e ctx : e ∈ pack_expressions → evaluateExpression e ctx = false.
Proof.
  assert (∀ rest, split "context.approved" "."%char = "context" :: rest → unbound "context.approved") as U1
    by (intros rest H; eapply unbound_intro; [exact H| |]; apply (bool_decide_unpack _); by vm_compute).
  assert (∀ rest, split "context.amount" "."%char = "context" :: rest → unbound "context.amount") as U2
    by (intros rest H; eapply unbound_intro; [exact H| |]; apply (bool_decide_unpack _); by vm_compute).
  intros [->|[->|[]%elem_of_nil]%elem_of_cons]%elem_of_cons.
  - eapply evaluate_unbound_comparison; [by vm_compute|done|by eapply U1|by left].
  - eapply evaluate_unbound_comparison; [by vm_compute|done|by eapply U2|].
    right. split; [set_solver|by eexists].
Qed.

Lemma builtin_violated d c ctx : d ∈ builtin_catalog → c ∈ constraints d → ¬ violated ctx c.
Proof.
  intros Hd Hc. unfold violated. rewrite pack_expression_inert; [done|by eapply builtin_expressions].
Qed.

Lemma builtin_constraints_pass d wf : d ∈ builtin_catalog → constraints_pass d wf.
Proof. intros Hd c Hc Hv. by destruct (builtin_violated _ _ _ Hd Hc Hv). Qed.

Lemma violated_ids_none s ctx cs : (∀ c, c ∈ cs → ¬ violated ctx c) → violated_ids s ctx cs = [].
Proof.
  intros H. unfold violated_ids. induction cs as [|c cs IH]; [done|].
  rewrite filter_cons_False; [apply IH; intros c' Hc'; apply H; by right|].
  intros [Hv _]. apply (H c); [by left|done].
Qed.

(** Definitions whose timeouts [register] would lower. *)
Definition over_cap (reg : HandlerRegistry) (d : JobDefinition) : bool :=
  negb (bool_decide (timeoutMs <$> resolveTasks reg (tasks d) = timeoutMs <$> tasks d)).

(** ** Seeding *)

Section seeding.
Context {JS WS RS : Type} `{JobDefinitionStoreLaws JS} `{!WorkflowStore WS} `{!WorkflowStoreLaws WS}
  `{!RunStore RS} `{!RunStoreLaws RS} `{Environment}.
Notation world := (world JS WS RS).

Definition saved (defs : list JobDefinition) (s : JS) : JS := foldl (λ s d, job_save d s) s defs.

Lemma save_all_eq defs (w : world) : save_all defs w = (Ok tt, with_jobs (saved defs (w_jobs w)) w).
Proof.
  revert w. induction defs as [|d defs IH]; intros w; [by destruct w|].
  cbn [save_all]. unfold mbind, M_bind, modify. rewrite IH. by destruct w.
Qed.

Lemma saved_get id defs s :
  NoDup (jd_id <$> defs) →
  job_get id (saved defs s) =
    match List.find (λ j, bool_decide (jd_id j = id)) defs with
    | Some d => Some d
    | None => job_get id s
    end.
Proof.
  revert s. induction defs as [|d defs IH]; intros s; [done|].
  intros [Hn Hnd]%NoDup_cons. cbn [List.find]. unfold saved in *. cbn [foldl]. rewrite IH by done.
  destruct (List.find _ defs) as [d'|] eqn:E.
  - apply find_some in E as [Hin Hid]. apply bool_decide_eq_true in Hid. rewrite bool_decide_eq_false_2; [done|].
    intros Heq. apply Hn. rewrite Heq, <-Hid. by apply list_elem_of_fmap_2, list_elem_of_In.
  - rewrite job_get_save. case_decide as Hd; [by rewrite bool_decide_eq_true_2|].
    by rewrite bool_decide_eq_false_2.
Qed.

Lemma find_id defs d :
  NoDup (jd_id <$> defs) → d ∈ defs → List.find (λ j, bool_decide (jd_id j = jd_id d)) defs = Some d.
Proof.
  induction defs as [|d' defs IH]; [by intros _ ?%elem_of_nil|].
  intros [Hn Hnd]%NoDup_cons Hin. cbn [List.find]. case_bool_decide as Hid.
  - apply elem_of_cons in Hin as [->|Hin]; [done|]. destruct Hn. rewrite Hid. by apply list_elem_of_fmap_2.
  - apply elem_of_cons in Hin as [->|Hin]; [done|]. by apply IH.
Qed.

Lemma seedIfEmpty_empty (w : world) :
  job_list (w_jobs w) = [] →
  seedIfEmpty w = (Ok 102, with_jobs (saved builtin_catalog (w_jobs w)) w).
Proof.
  intros Hl. unfold seedIfEmpty. rewrite (M_bind_eq_Ok _ _ w [] w) by (unfold gets; by rewrite Hl).
  change (bool_decide _) with false. cbv iota zeta. rewrite (M_bind_eq_Ok _ _ _ _ _ (save_all_eq _ w)).
  unfold mret, M_ret. by f_equal.
Qed.

(** Seeding an empty job store stores the 102 built-in definitions, each under
    its own id, keeps what the store answers for other ids and touches nothing
    else; a store that lists any definition is left alone. *)
Theorem seedIfEmpty_correct (w : world) :
  (job_list (w_jobs w) = [] → ∃ s, seedIfEmpty w = (Ok 102, with_jobs s w)
     ∧ (∀ d, d ∈ builtin_catalog → job_get (jd_id d) s = Some d)
     ∧ ∀ id, id ∉ jd_id <$> builtin_catalog → job_get id s = job_get id (w_jobs w))
  ∧ (job_list (w_jobs w) ≠ [] → seedIfEmpty w = (Ok 0, w)).
Proof.
  split.
  - intros Hl. eexists. split; [by apply seedIfEmpty_empty|]. split.
    + intros d Hd. rewrite saved_get by apply builtin_ids_NoDup.
      by rewrite find_id by (apply builtin_ids_NoDup || done).
    + intros id Hid. rewrite saved_get by apply builtin_ids_NoDup.
      destruct (List.find _ _) as [d|] eqn:E; [|done]. apply find_some in E as [Hin Heq].
      apply bool_decide_eq_true in Heq. destruct Hid. rewrite <-Heq.
      by apply list_elem_of_fmap_2, list_elem_of_In.
  - intros Hl. unfold seedIfEmpty. rewrite (M_bind_eq_Ok _ _ w (job_list (w_jobs w)) w) by done.
    destruct (job_list (w_jobs w)) as [|d l]; [done|].
    rewrite bool_decide_eq_true_2; [done|]. rewrite length_cons. lia.
Qed.

Lemma builtin_fuel d fuel : d ∈ builtin_catalog → (8 < fuel)%nat → enough_fuel d fuel.
Proof.
  assert (forallb (λ d, Nat.leb (Z.to_nat (attempt_bound (retryPolicy d)) * length (tasks d)) 8)
            builtin_catalog = true) as Hall by by vm_compute.
  rewrite forallb_forall in Hall. intros Hd%list_elem_of_In Hf. specialize (Hall d Hd).
  apply Nat.leb_le in Hall. unfold enough_fuel. lia.
Qed.

(** The run of a built-in job on a freshly seeded engine. *)
Lemma seeded_job_run (d : JobDefinition) (trig : string) (input : jsrecord) (w : world) (fuel : nat) :
  d ∈ builtin_catalog → job_list (w_jobs w) = [] →
  uuids_distinct (S (S (w_uuids w))) (length (tasks d)) → workflow_store_ok (w_workflows w) → ids_unused w →
  w_localLocks w = [] ∧ w_locks w = [] → (8 < fuel)%nat → tasks_succeed d input (w_calls w) →
  ∃ rid wf' w', ((_ ← seedIfEmpty; '(run, _, _) ← createRun (jd_id d) trig input;
                  _ ← executeRun fuel (run_id run); mret (run_id run)) w) = (Ok rid, w')
    ∧ workflow_getByRunId rid (w_workflows w') = Some wf' ∧ state wf' = Completed ∧ context wf' = input
    ∧ Forall (λ t, status t = TaskSucceeded) (wf_tasks wf') ∧ Forall (explained d input) (wf_tasks wf')
    ∧ NoDup (td_id <$> tasks d).
Proof.
  intros Hd He Hu Hok Hids Hfree Hf Ha.
  rewrite (M_bind_eq_Ok _ _ _ _ _ (seedIfEmpty_empty w He)).
  set (w1 := with_jobs _ w). pose proof (builtin_seedable d Hd) as Hs.
  assert (NoDup (td_id <$> tasks d)) as Hnd by apply Hs.
  destruct (createRun_spec (jd_id d) trig input d w1 Hu Hok Hids)
    as (run & wf & w2 & Hcr & _ & Hctx & Hp & Hl & Hk & _ & _ & Hcalls & _ & _); [|done|].
  { change (w_jobs w1) with (saved builtin_catalog (w_jobs w)).
    rewrite saved_get by apply builtin_ids_NoDup. by rewrite find_id by (apply builtin_ids_NoDup || done). }
  assert (unlocked (run_id run) w2) as Hun.
  { destruct Hfree as [Hl0 Hk0]. unfold unlocked. rewrite Hl, Hk. simpl. rewrite Hl0, Hk0.
    split; [set_solver|]. split; [done|apply NoDup_nil_2]. }
  rewrite (M_bind_eq_Ok _ _ _ _ _ Hcr).
  destruct (executeRun_new (run_id run) d wf w2 fuel (seedable_executable _ _ Hs) Hp Hun (builtin_fuel d fuel Hd Hf))
    as (o & wf' & w' & Hrun & Hend & Hget & _ & _ & Hctx' & _ & _ & Hall & Hexp).
  assert (tasks_succeed d (context wf) (w_calls w2)) as Ha' by (by rewrite Hcalls, Hctx).
  destruct (Hall Ha') as (Hnf & Hnd' & _). rewrite Hctx in Hexp, Hctx'.
  exists (run_id run), wf', w'. inversion Hend as [? Hst Hsucc|? t [Hst|[Hst _]]|? ? ? Hcp]; subst; try congruence.
  - unfold mbind, M_bind. rewrite Hrun. do 4 (split; [done|]). split; [|done].
    eapply Forall_impl; [exact Hsucc|]. intros t [Ht _]. exact Ht.
  - by destruct Hcp; apply builtin_constraints_pass.
Qed.

(** Every built-in job runs to completion on a freshly seeded engine: seeding,
    creating a run of the job with any input and executing it ends with the
    workflow [completed], when every call of the simulator succeeds.  The
    constraints of the enterprise pack stop no run. *)
Theorem seeded_job_completes (d : JobDefinition) (trig : string) (input : jsrecord) (w : world) (fuel : nat)
    (Hd : d ∈ builtin_catalog) (He : job_list (w_jobs w) = [])
    (Hu : uuids_distinct (S (S (w_uuids w))) (length (tasks d)))
    (Hok : workflow_store_ok (w_workflows w)) (Hids : ids_unused w)
    (Hfree : w_localLocks w = [] ∧ w_locks w = []) (Hf : (8 < fuel)%nat)
    (Ha : always_succeeds (w_calls w)) :
  ∃ rid wf' w', ((_ ← seedIfEmpty; '(run, _, _) ← createRun (jd_id d) trig input;
                  _ ← executeRun fuel (run_id run); mret (run_id run)) w) = (Ok rid, w')
    ∧ workflow_getByRunId rid (w_workflows w') = Some wf' ∧ state wf' = Completed ∧ context wf' = input.
Proof.
  destruct (seeded_job_run d trig input w fuel Hd He Hu Hok Hids Hfree Hf (always_tasks_succeed _ _ _ Ha))
    as (rid & wf' & w' & ? & ? & ? & ? & _). by exists rid, wf', w'.
Qed.

(** [CatalogService.get] returns the stored definition under the id, else the
    built-in one with that id, and throws [NotFoundError] only when there is
    neither; it changes nothing. *)
Theorem catalog_get_correct (id : string) (w : world) :
  ∃ o, catalog_get id w = (o, w)
  ∧ (∀ d, job_get id (w_jobs w) = Some d → o = Ok d)
  ∧ (job_get id (w_jobs w) = None → ∀ d, d ∈ builtin_catalog → jd_id d = id → o = Ok d)
  ∧ (job_get id (w_jobs w) = None → id ∉ jd_id <$> builtin_catalog →
       o = Throw (NotFoundError "JobDefinition" id)).
Proof.
  unfold catalog_get. rewrite (M_bind_eq_Ok _ _ w (job_get id (w_jobs w)) w) by done.
  destruct (job_get id (w_jobs w)) as [d|]; [exists (Ok d); naive_solver|].
  destruct (List.find _ builtin_catalog) as [d|] eqn:E.
  - exists (Ok d). split; [done|]. split; [done|]. split.
    + intros _ d' Hd' Hid. rewrite <-Hid, find_id in E by (apply builtin_ids_NoDup || done). congruence.
    + intros _ Hn. apply find_some in E as [Hin Hid]. apply bool_decide_eq_true in Hid. destruct Hn.
      rewrite <-Hid. by apply list_elem_of_fmap_2, list_elem_of_In.
  - exists (Throw (NotFoundError "JobDefinition" id)). split; [done|]. split; [done|]. split; [|done].
    intros _ d Hd Hid. rewrite <-Hid, find_id in E by (apply builtin_ids_NoDup || done). congruence.
Qed.
End seeding.

(** C39: Every built-in definition is well formed, acyclic, uses registered handlers
    and a valid retry policy, and their ids are distinct.  No constraint of
    theirs is ever violated, whatever the context and the outputs: the
    enterprise pack writes [context.] where the validator provides [ctx.]. *)
Theorem builtin_catalog_sound :
  NoDup (jd_id <$> builtin_catalog)
  ∧ ∀ d, d ∈ builtin_catalog →
      seedable new_handler_registry d ∧ ∀ ctx, apply_rules d ctx = ([], Ok tt).
Proof.
  split; [apply builtin_ids_NoDup|]. intros d Hd. split; [by apply builtin_seedable|].
  intros ctx. destruct (evaluate_constraints_spec (constraints d) ctx) as [Hw _].
  unfold apply_rules. rewrite Hw, violated_ids_none by (intros c Hc; by apply (builtin_violated d)).
  f_equal. apply assertPassing_Ok. intros c Hc Hv. by destruct (builtin_violated d c ctx Hd Hc).
Qed.

(** Seeding bypasses the cap on timeouts: these fourteen built-in definitions,
    and no others, have a task whose timeout [register] would have lowered to
    twice its handler's. *)
Theorem seeded_over_cap :
  jd_id <$> List.filter (over_cap new_handler_registry) builtin_catalog =
  ["reconcile_us_ledger"; "reconcile_eu_ledger"; "month_end_close"; "payroll_accrual";
   "enterprise_job_06"; "enterprise_job_14"; "enterprise_job_22"; "enterprise_job_30";
   "enterprise_job_38"; "enterprise_job_46"; "enterprise_job_54"; "enterprise_job_62";
   "enterprise_job_70"; "enterprise_job_78"].
Proof. by vm_compute. Qed.

(** ** Instances on the concrete engine *)

Section witnesses.
#[local] Instance catalog_environment : Environment := scripted (λ _, true).

Lemma seedIfEmpty_correct_witness :
  (∃ s, seedIfEmpty demo_empty = (Ok 102, with_jobs s demo_empty)
     ∧ job_get "month_end_close" s = List.find (λ j, bool_decide (jd_id j = "month_end_close")) FULL_CATALOG)
  ∧ seedIfEmpty (demo_registered demo_definition) = (Ok 0, demo_registered demo_definition).
Proof.
  split.
  - destruct (proj1 (seedIfEmpty_correct demo_empty)) as (s & Hs & Hin & _); [reflexivity|].
    exists s. split; [exact Hs|]. refine (Hin (nth 7 builtin_catalog JobEnterprise01) _).
    apply (list_elem_of_lookup_2 _ 7). reflexivity.
  - apply (seedIfEmpty_correct (demo_registered demo_definition)). discriminate.
Defined.

Lemma seeded_job_completes_witness :
  ∃ rid wf' (w' : demo_world),
    ((_ ← seedIfEmpty; '(run, _, _) ← createRun "enterprise_job_01" "manual" [("approved", JBool true)];
      _ ← executeRun 9 (run_id run); mret (run_id run)) demo_empty) = (Ok rid, w') ∧ state wf' = Completed.
Proof.
  destruct (seeded_job_completes JobEnterprise01 "manual" [("approved", JBool true)] demo_empty 9)
    as (rid & wf' & w' & Hrun & _ & Hst & _).
  - apply (list_elem_of_lookup_2 _ 22). reflexivity.
  - reflexivity.
  - apply (bool_decide_unpack _). vm_compute. exact I.
  - apply empty_workflow_store_ok.
  - intros r w Hw. discriminate Hw.
  - split; reflexivity.
  - lia.
  - apply all_succeed_always.
  - exists rid, wf', w'. split; [exact Hrun|exact Hst].
Defined.

Lemma catalog_get_correct_witness :
  catalog_get "job_demo" (demo_registered demo_definition) = (Ok demo_definition, demo_registered demo_definition)
  ∧ catalog_get "nope" demo_empty = (Throw (NotFoundError "JobDefinition" "nope"), demo_empty).
Proof.
  split.
  - destruct (catalog_get_correct "job_demo" (demo_registered demo_definition)) as (o & -> & Hst & _).
    rewrite (Hst demo_definition eq_refl). reflexivity.
  - destruct (catalog_get_correct "nope" demo_empty) as (o & -> & _ & _ & Hno).
    rewrite Hno; [reflexivity|reflexivity|]. apply (bool_decide_unpack _). vm_compute. exact I.
Defined.

Lemma builtin_catalog_sound_witness : apply_rules JobEnterprise47 (mkConstraintContext [("approved", JBool true)] []) = ([], Ok tt).
Proof.
  refine (proj2 (proj2 builtin_catalog_sound JobEnterprise47 _) _).
  apply (list_elem_of_lookup_2 _ 68). reflexivity.
Defined.
End witnesses.
