(* ===== verification/Simulator.v ===== *)
(** * The simulator and the handlers (workers/simulator.ts, handlers/implementations/)

    The answers of the program's own handlers.  What a call draws from
    [Math.random] and [Date.now], and the identities of the objects it makes,
    are functions of the number of the draw.  A handler whose loop has no end
    gives no answer ([OutOfFuel]). *)

From S2P Require Import Prelude JsMap JsString JsNum JsObject JsDate DomainTypes JsValue Domain Retry Transitions Stores Constraints Handlers Dag Engine ExecInv Execution Registration EngineProps EnterpriseJobs Catalog.
From Stdlib Require Import SpecFloat.
Open Scope Z_scope.

(** ** Loops *)

Definition max_array_length : Z := 2 ^ 32 - 1.

(** How often [for (let i = 0; i < count; i++)] runs its body, when that is a
    number of elements an array can have. *)
Definition iterations (count : num) : option nat :=
  match count with
  | S754_finite false m e =>
      let n := - floor_Z true m e in
      if n <=? max_array_length then Some (Z.to_nat n) else None
  | S754_infinity false => None
  | _ => Some 0%nat
  end.

(** ** Values *)

(** [a ?? b]. *)
Definition coalesce (a b : jsval) : jsval := if is_nullish a then b else a.

(** [r.p] for a record [r], and [v.p] for a value [v] called [name]. *)
Definition field (r : jsrecord) (p : string) : jsval := get_property (JObj 0 r) p.

Definition member (v : jsval) (p : string) : res jsval :=
  match v with
  | JUndefined => Throw (TypeError ("Cannot read properties of undefined (reading '" +:+ p +:+ "')"))
  | JNull => Throw (TypeError ("Cannot read properties of null (reading '" +:+ p +:+ "')"))
  | _ => Ok (get_property v p)
  end.

(** Assignment to a property, and the own properties of [{...v}]. *)
Fixpoint record_set (k : string) (v : jsval) (r : jsrecord) : jsrecord :=
  match r with
  | [] => [(k, v)]
  | (k', v') :: r => if decide (k = k') then (k', v) :: r else (k', v') :: record_set k v r
  end.

Definition indexed (l : list jsval) : jsrecord := imap (λ i v, (pretty (Z.of_nat i), v)) l.

Definition spread (v : jsval) : jsrecord :=
  match v with
  | JObj _ fs => fs
  | JArr _ l => indexed l
  | JStr s => indexed ((λ c, JStr (of_chars [c])) <$> chars s)
  | _ => []
  end.

(** The elements [for (const t of v)] goes over, and [v.length] for such a [v]. *)
Definition iterate (name : string) (v : jsval) : res (list jsval) :=
  match v with
  | JArr _ l => Ok l
  | JProto true => Ok []
  | JStr s => Ok ((λ c, JStr (of_chars [c])) <$> chars s)
  | _ => Throw (TypeError (name +:+ " is not iterable"))
  end.

Fixpoint map_res {A B} (f : nat → A → res B) (i : nat) (l : list A) : res (list B) :=
  match l with
  | [] => Ok []
  | a :: l => b ← f i a; bs ← map_res f (S i) l; Ok (b :: bs)
  end.

(** ** Results (handlers/implementations/base.ts) *)

Record HandlerResult : Type := mkHandlerResult {
  hr_success : bool;
  hr_output : jsrecord;
}.

Definition ok (output : jsrecord) : HandlerResult := mkHandlerResult true output.
Definition fail (message : string) : HandlerResult := mkHandlerResult false [("error", JStr message)].

(** What one call draws. *)
Record draws : Type := mkDraws {
  random : nat → num;
  date_now : nat → Z;
  ident : nat → N;
}.

Section handlers.
Context (dr : draws) (ctx : HandlerContext).
Notation input := (hc_input ctx).
Notation arr i l := (JArr (ident dr i) l).
Notation obj i fs := (JObj (ident dr i) fs).

Definition prior (task : string) : option jsrecord := map_get (priorOutputs ctx) task.

Definition jnat (n : nat) : jsval := JNum (num_of_Z (Z.of_nat n)).
Definition iso (i : nat) : jsval := JStr (toISOString (date_now dr i)).

(** [Math.random() * 5000 + 100], rounded to cents. *)
Definition invoice_amount (r : num) : num :=
  num_div (num_round (num_mul (num_add (num_mul r (num_of_Z 5000)) (num_of_Z 100)) (num_of_Z 100))) (num_of_Z 100).

Definition synthesizeBatch (tenantId : string) (count : nat) : list jsval :=
  (λ i, obj (S i)
     [("invoiceNumber", JStr ("INV-" +:+ tenantId +:+ "-" +:+ pretty (1000 + Z.of_nat i)));
      ("amount", JNum (invoice_amount (random dr i)));
      ("currency", JStr (if Z.of_nat i mod 5 =? 0 then "EUR" else "USD"))]) <$> seq 0 count.

Definition invoice_fetch : res HandlerResult :=
  tenantId ← to_string (coalesce (field input "tenantId") (JStr "unknown"));
  expected ← to_number (coalesce (field input "expectedRows") (JNum (num_of_Z 50)));
  match iterations expected with
  | None => OutOfFuel
  | Some count =>
      let records := synthesizeBatch tenantId count in
      Ok (ok [("batchId", JStr ("batch_" +:+ pretty (date_now dr 0))); ("recordCount", jnat (length records));
              ("records", arr 0 records); ("fetchedAt", iso 1)])
  end.

Definition normalize_row (i : nat) (r : jsval) : res jsval :=
  a ← member r "amount";
  amount ← to_number (coalesce a (JNum num_zero));
  let fs := record_set "taxCode" (JStr (if num_ltb (num_of_Z 1000) amount then "STANDARD" else "EXEMPT"))
              (record_set "normalized" (JBool true)
                 (record_set "amount" (JNum (num_abs amount)) (spread r))) in
  Ok (obj (S i) fs).

Definition invoice_normalize : res HandlerResult :=
  let fetch := default (default input (prior "fetch")) (prior "pull") in
  records ← array_elements "records" (coalesce (field fetch "records") (arr 0 []));
  normalized ← map_res normalize_row 0 records;
  let invalid := List.filter (λ r, negb (to_boolean (get_property r "invoiceNumber"))) normalized in
  if (0 <? length invalid)%nat then Ok (fail (pretty (Z.of_nat (length invalid)) +:+ " rows missing invoice number"))
  else Ok (ok [("normalized", arr 0 normalized); ("lineCount", jnat (length normalized))]).

Definition gl_entry (glAccount : string) (idx : nat) (row : jsval) : res (num * jsval) :=
  a ← member row "amount";
  debit ← to_number (coalesce a (JNum num_zero));
  n ← member row "invoiceNumber";
  memo ← to_string (coalesce n (JStr ""));
  let run := hc_runId ctx in
  Ok (debit, obj (S idx)
        [("entryId", JStr ("JE-" +:+ slice_from run (String.length run - 6) +:+ "-" +:+ pretty (Z.of_nat idx)));
         ("account", JStr glAccount); ("debit", JNum debit); ("credit", JNum num_zero); ("memo", JStr memo)]).

(** [ctx.priorOutputs.task?.normalized]. *)
Definition normalized_of (task : string) : jsval :=
  match prior task with Some out => field out "normalized" | None => JUndefined end.

Definition invoice_post_gl : res HandlerResult :=
  glAccount ← to_string (coalesce (field input "glAccount") (JStr "4000-AP"));
  rows ← array_elements "normalized"
    (coalesce (coalesce (normalized_of "prepare") (normalized_of "normalize")) (arr 0 []));
  entries ← map_res (gl_entry glAccount) 0 rows;
  let total := foldl num_add num_zero entries.*1 in
  Ok (ok [("journalId", JStr ("JRNL-" +:+ pretty (date_now dr 0))); ("entries", arr 0 entries.*2);
          ("totalPosted", JNum total); ("postedAt", iso 1)]).

(** One page is 100 transactions. *)
Definition transaction (ledger : string) (n : nat) : jsval :=
  let p := (n / 100)%nat in
  let i := (n mod 100)%nat in
  obj (S n)
    [("txnId", JStr (ledger +:+ "-p" +:+ pretty (Z.of_nat p) +:+ "-" +:+ pretty (Z.of_nat i)));
     ("amount", JNum (num_div (num_round (num_mul (random dr n) (num_of_Z 10000))) (num_of_Z 100)));
     ("postedDate", JStr (slice_to (toISOString (date_now dr n - Z.of_nat i * 86400000)) 10))].

Definition reconcile_extract : res HandlerResult :=
  ledger ← to_string (coalesce (field input "ledger") (JStr "PRIMARY"));
  pages ← to_number (coalesce (field input "pages") (JNum (num_of_Z 3)));
  match iterations pages with
  | None => OutOfFuel
  | Some p =>
      if max_array_length <? 100 * Z.of_nat p then OutOfFuel
      else
        let transactions := transaction ledger <$> seq 0 (100 * p) in
        Ok (ok [("ledger", JStr ledger); ("transactionCount", jnat (length transactions));
                ("transactions", arr 0 transactions)])
  end.

(** The loop over the transactions: how many matched, and the exceptions. *)
Fixpoint match_loop (i : nat) (txns : list jsval) (matched : nat) (exceptions : list jsval) : res (nat * list jsval) :=
  match txns with
  | [] => Ok (matched, exceptions)
  | t :: txns =>
      if num_ltb (num_of_decimal 8 (-2)) (random dr i) then match_loop (S i) txns (S matched) exceptions
      else
        id ← member t "txnId";
        match_loop (S i) txns matched (exceptions ++ [obj (S i) [("txnId", id); ("reason", JStr "no_po_match")]])
  end.

Definition reconcile_match : res HandlerResult :=
  let extract := default [] (prior "extract") in
  txns ← iterate "txns" (coalesce (field extract "transactions") (arr 0 []));
  '(matched, exceptions) ← match_loop 0 txns 0 [];
  let rate := if (0 <? length txns)%nat
              then num_div (num_of_Z (Z.of_nat matched)) (num_of_Z (Z.of_nat (length txns))) else num_of_Z 1 in
  Ok (ok [("matched", jnat matched); ("unmatched", jnat (length exceptions)); ("matchRate", JNum rate);
          ("exceptions", arr 0 (take 50 exceptions))]).

Definition computeRiskScore (customerId : string) : Z :=
  let score := Z.of_nat (String.length customerId) mod 40 in
  let score := match field input "country" with
               | JStr s => if decide (s = "XX") then score + 30 else score
               | _ => score
               end in
  let score := match field input "highRiskIndustry" with JBool true => score + 25 | _ => score end in
  Z.min 100 score.

Definition onboard_validate : res HandlerResult :=
  customerId ← to_string (coalesce (field input "customerId") (JStr ""));
  if negb (truthy_string customerId) then Ok (fail "customerId required")
  else
    let riskScore := computeRiskScore customerId in
    if 85 <? riskScore then Ok (fail ("risk score " +:+ pretty riskScore +:+ " exceeds threshold"))
    else Ok (ok [("customerId", JStr customerId); ("riskScore", JNum (num_of_Z riskScore)); ("validatedAt", iso 0)]).

Definition onboard_provision : res HandlerResult :=
  let kyc := default (default [] (prior "validate")) (prior "kyc") in
  customerId ← to_string (coalesce (coalesce (field kyc "customerId") (field input "customerId")) (JStr ""));
  let resource (i : nat) (type prefix : string) := obj i [("type", JStr type); ("id", JStr (prefix +:+ customerId))] in
  Ok (ok [("customerId", JStr customerId);
          ("resources", arr 0 [resource 1%nat "database_schema" "db_"; resource 2%nat "api_key" "key_";
                               resource 3%nat "storage_bucket" "s3_"]);
          ("provisionedAt", iso 0)]).

(** What the report says of one earlier output. *)
Definition report_slice (i : nat) (val : jsrecord) : jsval :=
  let numeric := List.filter (λ kv : string * jsval, match kv.2 with JNum _ => true | _ => false end) (own_fields val) in
  obj (3 * i)%nat
    [("keys", arr (3 * i + 1)%nat (JStr <$> (own_fields val).*1));
     ("numericFields", arr (3 * i + 2)%nat ((λ kv : string * jsval, obj (3 * i + 2)%nat [("k", JStr kv.1); ("v", kv.2)]) <$> numeric))].

Fixpoint report_loop (i : nat) (slices : list (string * jsrecord)) (summary : jsrecord) : jsrecord :=
  match slices with
  | [] => summary
  | (key, val) :: slices =>
      report_loop (S i) slices
        (if decide (key = "__proto__") then summary else record_set key (report_slice (S i) val) summary)
  end.

Definition report_aggregate : res HandlerResult :=
  let summary := report_loop 0 (own_fields (priorOutputs ctx)) [("runId", JStr (hc_runId ctx))] in
  Ok (ok [("summary", obj 0 summary); ("generatedAt", iso 0)]).

Definition external_notify : res HandlerResult :=
  channel ← to_string (coalesce (field input "channel") (JStr "email"));
  recipient ← to_string (coalesce (field input "recipient") (JStr "ops@internal"));
  if num_ltb (random dr 0) (num_of_decimal 5 (-2)) then Ok (fail "upstream notification gateway timeout")
  else Ok (ok [("channel", JStr channel); ("recipient", JStr recipient);
               ("messageId", JStr ("msg_" +:+ pretty (date_now dr 0))); ("delivered", JBool true)]).
End handlers.

(** ** The registry (handlers/implementations/registry.ts) *)

Definition implementation : Type := draws → HandlerContext → res HandlerResult.

Definition IMPLEMENTATIONS : list (string * implementation) := [
  ("invoice.fetch", invoice_fetch);
  ("invoice.normalize", invoice_normalize);
  ("invoice.post_gl", invoice_post_gl);
  ("reconcile.extract", reconcile_extract);
  ("reconcile.match", reconcile_match);
  ("onboard.validate", onboard_validate);
  ("onboard.provision", onboard_provision);
  ("report.aggregate", report_aggregate);
  ("external.risky_notify", external_notify)
].

Definition byName : jsmap string implementation := map_of_entries IMPLEMENTATIONS.
Definition get_implementation (name : string) : option implementation := map_get byName name.
Definition list_implementations : list string := map_keys byName.

(** ** The simulator (workers/simulator.ts) *)

Record SimulatorConfig : Type := mkSimulatorConfig {
  latency_min : Z;
  latency_max : Z;
  failRatePercent : num;
}.

Section simulator.
Context (config : SimulatorConfig) (dr : draws).

Definition randomLatency : Z :=
  latency_min config + num_floor (num_mul (random dr 0) (num_of_Z (latency_max config - latency_min config + 1))).

Definition shouldFail (handler : string) : bool :=
  if num_leb (failRatePercent config) num_zero then false
  else if num_leb (failRatePercent config) (num_mul (random dr 1) (num_of_Z 100)) then false
  else includes handler "risky" || includes handler "external".

Definition buildOutput (handler : string) (input : jsrecord) : jsrecord :=
  [("handler", JStr handler); ("processedAt", JStr (toISOString (date_now dr 0)));
   ("inputKeys", JArr (ident dr 0) (JStr <$> (own_fields input).*1))].

(** The executor always passes a context.  [elapsed] is the clock's measure of
    the implementation's call. *)
Definition execute (impls : string → option implementation) (elapsed : Z) (handler : string) (input : jsrecord)
    (ctx : HandlerContext) : res SimulatedResult :=
  match impls handler with
  | Some impl =>
      result ← impl dr ctx;
      error ← (if hr_success result then Ok None
               else s ← to_string (coalesce (field (hr_output result) "error") (JStr "handler failed")); Ok (Some s));
      Ok (mkSimResult (hr_success result) (hr_output result) elapsed error)
  | None =>
      if shouldFail handler
      then Ok (mkSimResult false [] randomLatency (Some ("simulated failure for handler " +:+ handler)))
      else Ok (mkSimResult true (buildOutput handler input) randomLatency None)
  end.
End simulator.

(** ** What the handlers answer without earlier outputs *)

Definition text_fields : list string := ["tenantId"; "glAccount"; "ledger"; "customerId"; "channel"; "recipient"].

(** A count the loops of a handler end on. *)
Definition countable (v : jsval) (default_ : Z) (most : Z) : Prop :=
  ∃ x n, to_number (coalesce v (JNum (num_of_Z default_))) = Ok x ∧ iterations x = Some n ∧ Z.of_nat n ≤ most.

(** An input the handlers accept, and which brings no records of its own. *)
Record plain_input (input : jsrecord) : Prop := {
  pi_text : ∀ k, k ∈ text_fields → ∃ s, to_string (field input k) = Ok s;
  pi_rows : countable (field input "expectedRows") 50 max_array_length;
  pi_pages : countable (field input "pages") 3 1000000;
  pi_records : is_nullish (field input "records") = true;
}.

(** The customer [onboard.validate] lets through. *)
Definition accepted_customer (input : jsrecord) : Prop :=
  ∃ s, to_string (coalesce (field input "customerId") (JStr "")) = Ok s ∧ truthy_string s = true
    ∧ ∀ rid tid, computeRiskScore (mkHandlerContext rid tid input []) s ≤ 85.

(** The outputs of the handlers that work on the outputs of others. *)
Record isolated (h : string) (rid : string) (out : jsrecord) : Prop := {
  is_normalize : h = "invoice.normalize" →
    ∃ i, out = [("normalized", JArr i []); ("lineCount", JNum num_zero)];
  is_post : h = "invoice.post_gl" →
    ∃ i j a, out = [("journalId", JStr j); ("entries", JArr i []); ("totalPosted", JNum num_zero); ("postedAt", a)];
  is_match : h = "reconcile.match" →
    ∃ i, out = [("matched", JNum num_zero); ("unmatched", JNum num_zero); ("matchRate", JNum (num_of_Z 1));
                ("exceptions", JArr i [])];
  is_report : h = "report.aggregate" →
    ∃ i a, out = [("summary", JObj i [("runId", JStr rid)]); ("generatedAt", a)];
}.

Lemma coalesce_text v d : (∃ s, to_string v = Ok s) → ∃ s, to_string (coalesce v (JStr d)) = Ok s.
Proof. intros [s Hs]. unfold coalesce. destruct (is_nullish v); [by exists d|by exists s]. Qed.

Lemma coalesce_nullish a b : is_nullish a = true → coalesce a b = b.
Proof. intros H. unfold coalesce. by rewrite H. Qed.

Section isolated_handlers.
Context (dr : draws) (rid tid : string) (input : jsrecord) (Hin : plain_input input).
Notation ctx := (mkHandlerContext rid tid input []).

Lemma input_text k d : k ∈ text_fields → ∃ s, to_string (coalesce (field input k) (JStr d)) = Ok s.
Proof. intros Hk. by apply coalesce_text, pi_text. Qed.

(** Take the text of a field of the input. *)
Ltac take_text k d :=
  let s := fresh "s" in
  let Hs := fresh "Hs" in
  destruct (input_text k d ltac:(set_solver)) as [s Hs]; cbn [hc_input]; rewrite Hs; cbn [mbind outcome_bind].

Ltac irrelevant := split; intros; done.

Lemma fetch_alone : ∃ out, invoice_fetch dr ctx = Ok (ok out) ∧ isolated "invoice.fetch" rid out.
Proof.
  unfold invoice_fetch. take_text "tenantId" "unknown". destruct (pi_rows _ Hin) as (x & n & Hx & Hn & _).
  rewrite Hx. cbn [mbind outcome_bind]. rewrite Hn. eexists. split; [reflexivity|irrelevant].
Qed.

Lemma normalize_alone : ∃ out, invoice_normalize dr ctx = Ok (ok out) ∧ isolated "invoice.normalize" rid out.
Proof.
  unfold invoice_normalize, prior. cbn [map_get priorOutputs default hc_input].
  rewrite coalesce_nullish by apply Hin. cbn. eexists. split; [reflexivity|]. split; intros; try done. by eexists.
Qed.

Lemma post_alone : ∃ out, invoice_post_gl dr ctx = Ok (ok out) ∧ isolated "invoice.post_gl" rid out.
Proof.
  unfold invoice_post_gl. take_text "glAccount" "4000-AP". cbn. eexists. split; [reflexivity|].
  split; intros; try done. by eexists _, _, _.
Qed.

Lemma extract_alone : ∃ out, reconcile_extract dr ctx = Ok (ok out) ∧ isolated "reconcile.extract" rid out.
Proof.
  unfold reconcile_extract. take_text "ledger" "PRIMARY". destruct (pi_pages _ Hin) as (x & n & Hx & Hn & Hle).
  rewrite Hx. cbn [mbind outcome_bind]. rewrite Hn.
  destruct (Z.ltb_spec max_array_length (100 * Z.of_nat n)) as [Hlt|_].
  { unfold max_array_length in Hlt. lia. }
  eexists. split; [reflexivity|irrelevant].
Qed.

Lemma match_alone : ∃ out, reconcile_match dr ctx = Ok (ok out) ∧ isolated "reconcile.match" rid out.
Proof.
  unfold reconcile_match. cbn. eexists. split; [reflexivity|]. split; intros; try done. by eexists.
Qed.

Lemma provision_alone : ∃ out, onboard_provision dr ctx = Ok (ok out) ∧ isolated "onboard.provision" rid out.
Proof.
  unfold onboard_provision, prior. cbn [map_get priorOutputs default hc_input].
  rewrite (coalesce_nullish (field [] "customerId")) by done. take_text "customerId" "".
  eexists. split; [reflexivity|irrelevant].
Qed.

Lemma report_alone : ∃ out, report_aggregate dr ctx = Ok (ok out) ∧ isolated "report.aggregate" rid out.
Proof. eexists. split; [reflexivity|]. split; intros; try done. by eexists _, _. Qed.

Lemma validate_alone : accepted_customer input →
  ∃ out, onboard_validate dr ctx = Ok (ok out) ∧ isolated "onboard.validate" rid out.
Proof.
  intros (s & Hs & Ht & Hrisk). unfold onboard_validate. cbn [hc_input]. rewrite Hs. cbn [mbind outcome_bind].
  rewrite Ht. cbn [negb]. specialize (Hrisk rid tid).
  destruct (Z.ltb_spec 85 (computeRiskScore ctx s)) as [?|_]; [lia|]. eexists. split; [reflexivity|irrelevant].
Qed.
End isolated_handlers.

(** ** What they would answer with them *)

Lemma map_res_Ok {A B} (f : nat → A → res B) (P : B → Prop) l :
  (∀ i a, a ∈ l → ∃ b, f i a = Ok b ∧ P b) →
  ∀ i, ∃ bs, map_res f i l = Ok bs ∧ length bs = length l ∧ Forall P bs.
Proof.
  induction l as [|a l IH]; intros Hf i; [by exists []|].
  destruct (Hf i a) as (b & Hb & HP); [by left|].
  destruct (IH (λ i a Ha, Hf i a (list_elem_of_further _ _ _ Ha)) (S i)) as (bs & Hbs & Hlen & Hall).
  exists (b :: bs). cbn [map_res]. rewrite Hb. cbn [mbind outcome_bind]. rewrite Hbs. cbn.
  split; [done|]. split; [by rewrite Hlen|by constructor].
Qed.

(** An invoice row: it has a number and an amount. *)
Definition invoice_row (r : jsval) : Prop :=
  ∃ i fs n a, r = JObj i fs ∧ record_get fs "invoiceNumber" = Some (JStr n) ∧ truthy_string n = true
    ∧ record_get fs "amount" = Some (JNum a).

Lemma record_get_set k k' v r :
  record_get (record_set k v r) k' = if decide (k' = k) then Some v else record_get r k'.
Proof.
  induction r as [|[k0 v0] r IH]; cbn; [done|].
  destruct (decide (k = k0)) as [->|Hne]; cbn; [by destruct (decide (k' = k0))|].
  rewrite IH. destruct (decide (k' = k0)) as [->|]; [by rewrite decide_False|done].
Qed.

Lemma synthesized_row dr tenantId count r : r ∈ synthesizeBatch dr tenantId count → invoice_row r.
Proof.
  unfold synthesizeBatch. intros (i & -> & _)%list_elem_of_fmap. by eexists _, _, _, _.
Qed.

Lemma normalize_row_Ok dr i r : invoice_row r → ∃ b, normalize_row dr i r = Ok b ∧ invoice_row b.
Proof.
  intros (id & fs & n & a & -> & Hn & Ht & Ha). unfold normalize_row. cbn [member get_property]. rewrite Ha. cbn.
  eexists. split; [reflexivity|]. eexists _, _, n, _. split; [done|].
  rewrite !record_get_set, !decide_False, decide_True by done. done.
Qed.

Lemma gl_entry_Ok dr ctx acc i r : invoice_row r → ∃ b, gl_entry dr ctx acc i r = Ok b ∧ True.
Proof.
  intros (id & fs & n & a & -> & Hn & Ht & Ha). unfold gl_entry. cbn [member get_property]. rewrite Ha, Hn. cbn. eauto.
Qed.

(** Shown the output of [invoice.fetch], [invoice.normalize] normalizes every
    row of it, and shown that output, [invoice.post_gl] posts every row: this is
    the pipeline the handlers are written for. *)
Theorem invoice_pipeline_shown (dr1 dr2 dr3 : draws) (rid : string) (input : jsrecord) (Hin : plain_input input) :
  ∃ n out1 out2 out3,
    invoice_fetch dr1 (mkHandlerContext rid "fetch" input []) = Ok (ok out1)
    ∧ invoice_normalize dr2 (mkHandlerContext rid "normalize" input [("fetch", out1)]) = Ok (ok out2)
    ∧ invoice_post_gl dr3 (mkHandlerContext rid "post" input [("normalize", out2)]) = Ok (ok out3)
    ∧ record_get out1 "recordCount" = Some (jnat n) ∧ record_get out2 "lineCount" = Some (jnat n)
    ∧ ∃ i es, record_get out3 "entries" = Some (JArr i es) ∧ length es = n.
Proof.
  unfold invoice_fetch. cbn [hc_input]. destruct (input_text input Hin "tenantId" "unknown" ltac:(set_solver)) as [tn ->].
  cbn [mbind outcome_bind]. destruct (pi_rows _ Hin) as (x & n & -> & Hn & _). cbn [mbind outcome_bind]. rewrite Hn.
  set (rows := synthesizeBatch dr1 tn n).
  assert (length rows = n) as Hlen by (unfold rows, synthesizeBatch; by rewrite length_fmap, length_seq).
  destruct (map_res_Ok (normalize_row dr2) invoice_row rows) with (i := O) as (bs & Hbs & Hlb & Hrow).
  { intros i r Hr. apply normalize_row_Ok. by eapply synthesized_row. }
  destruct (map_res_Ok (gl_entry dr3 (mkHandlerContext rid "post" input
    [("normalize", [("normalized", JArr (ident dr2 0) bs); ("lineCount", jnat (length bs))])])
    (default "" (match to_string (coalesce (field input "glAccount") (JStr "4000-AP")) with Ok s => Some s | _ => None end)))
    (λ _, True) bs) with (i := O) as (es & Hes & Hle & _).
  { intros i r Hr. apply gl_entry_Ok. rewrite Forall_forall in Hrow. auto. }
  eexists n, _, _, _. split; [reflexivity|]. split; [|split].
  - unfold invoice_normalize. cbv zeta.
    match goal with |- context [array_elements "records" ?v] =>
      change (array_elements "records" v) with (Ok rows : res (list jsval)) end.
    cbn [mbind outcome_bind]. rewrite Hbs. cbn [mbind outcome_bind]. rewrite filter_nothing; [done|].
    rewrite Forall_forall in Hrow. intros r Hr. destruct (Hrow r Hr) as (i & fs & nm & a & -> & Hnm & Ht & _).
    cbn. rewrite Hnm. cbn. by rewrite Ht.
  - unfold invoice_post_gl. cbn [hc_input].
    destruct (input_text input Hin "glAccount" "4000-AP" ltac:(set_solver)) as [gl Hgl]. rewrite Hgl in *. cbn [mbind outcome_bind default] in Hes |- *. change (id gl) with gl in Hes.
    match goal with |- context [array_elements "normalized" ?v] =>
      change (array_elements "normalized" v) with (Ok bs : res (list jsval)) end.
    cbn [mbind outcome_bind]. rewrite Hes. reflexivity.
  - cbn. rewrite Hlen, Hlb, Hlen. split; [done|]. split; [done|]. eexists _, _. split; [done|]. rewrite length_fmap. congruence.
Qed.

(** ** Runs of the built-in jobs with these handlers *)

(** The simulator of the environment is the program's, whatever its draws. *)
Definition follows `{Environment} (config : SimulatorConfig) (dr : nat → draws) (elapsed : nat → Z) : Prop :=
  ∀ k h input c,
    match execute config (dr k) get_implementation (elapsed k) h input c with
    | Ok r => simulate k h input c = inl r
    | Throw e => simulate k h input c = inr e
    | OutOfFuel => True
    end.

Definition builtin_handlers : list string :=
  ["invoice.fetch"; "invoice.normalize"; "invoice.post_gl"; "reconcile.extract"; "reconcile.match";
   "onboard.validate"; "onboard.provision"; "report.aggregate"; "external.risky_notify"].

Lemma builtin_handlers_known d td : d ∈ builtin_catalog → td ∈ tasks d → handler td ∈ builtin_handlers.
Proof.
  assert (Forall (λ d, Forall (λ td, handler td ∈ builtin_handlers) (tasks d)) builtin_catalog) as H
    by (apply (bool_decide_unpack _); by vm_compute).
  intros Hd Htd. rewrite Forall_forall in H. specialize (H d Hd). rewrite Forall_forall in H. auto.
Qed.

Section runs.
Context {JS WS RS : Type} `{JobDefinitionStoreLaws JS} `{!WorkflowStore WS} `{!WorkflowStoreLaws WS}
  `{!RunStore RS} `{!RunStoreLaws RS} `{Environment}.
Context (config : SimulatorConfig) (dr : nat → draws) (elapsed : nat → Z).

Lemma handler_alone h k rid tid input :
  h ∈ builtin_handlers → h ≠ "external.risky_notify" → plain_input input →
  (h = "onboard.validate" → accepted_customer input) →
  ∃ impl out, get_implementation h = Some impl
    ∧ impl (dr k) (mkHandlerContext rid tid input []) = Ok (ok out) ∧ isolated h rid out.
Proof.
  intros Hh Hne Hin Hc. unfold builtin_handlers in Hh. rewrite !elem_of_cons in Hh.
  destruct Hh as [->|[->|[->|[->|[->|[->|[->|[->|[->|[]%elem_of_nil]]]]]]]]]; [..|done];
    (eexists; unfold get_implementation; cbn -[invoice_fetch invoice_normalize invoice_post_gl reconcile_extract
       reconcile_match onboard_validate onboard_provision report_aggregate external_notify]).
  - destruct (fetch_alone (dr k) rid tid input Hin) as [out ?]. by exists out.
  - destruct (normalize_alone (dr k) rid tid input Hin) as [out ?]. by exists out.
  - destruct (post_alone (dr k) rid tid input Hin) as [out ?]. by exists out.
  - destruct (extract_alone (dr k) rid tid input Hin) as [out ?]. by exists out.
  - destruct (match_alone (dr k) rid tid input) as [out ?]. by exists out.
  - destruct (validate_alone (dr k) rid tid input (Hc eq_refl)) as [out ?]. by exists out.
  - destruct (provision_alone (dr k) rid tid input Hin) as [out ?]. by exists out.
  - destruct (report_alone (dr k) rid tid input) as [out ?]. by exists out.
Qed.

Lemma follows_alone h k rid tid input :
  follows config dr elapsed → h ∈ builtin_handlers → h ≠ "external.risky_notify" → plain_input input →
  (h = "onboard.validate" → accepted_customer input) →
  ∃ r, simulate k h input (mkHandlerContext rid tid input []) = inl r ∧ sim_success r = true
    ∧ isolated h rid (sim_output r).
Proof.
  intros Hf Hh Hne Hin Hc. destruct (handler_alone h k rid tid input Hh Hne Hin Hc) as (impl & out & Hi & Hr & Hiso).
  specialize (Hf k h input (mkHandlerContext rid tid input [])). unfold execute in Hf. rewrite Hi, Hr in Hf.
  eexists. split; [exact Hf|]. split; [done|exact Hiso].
Qed.

Lemma plain_tasks_succeed d input k :
  follows config dr elapsed → d ∈ builtin_catalog → Forall (λ td, handler td ≠ "external.risky_notify") (tasks d) →
  plain_input input → (∀ td, td ∈ tasks d → handler td = "onboard.validate" → accepted_customer input) →
  tasks_succeed d input k.
Proof.
  intros Hf Hd Hext Hin Hc j td rid tid _ Htd. rewrite Forall_forall in Hext.
  destruct (follows_alone (handler td) j rid tid input Hf) as (r & Hr & Hs & _);
    [by eapply builtin_handlers_known|by apply Hext|done|by apply Hc|]. by exists r.
Qed.

(** C10: With the program's own simulator and handlers, every built-in job that
    notifies no third party completes on a freshly seeded engine, for any input
    the handlers accept and whatever they draw at random; and since no handler
    sees the output of another, every normalization has normalized no row, every
    posting has posted nothing, every match has matched nothing and every report
    covers nothing. *)
Theorem builtin_job_moves_no_data (d : JobDefinition) (trig : string) (input : jsrecord) (w : world JS WS RS) (fuel : nat)
    (Hfollows : follows config dr elapsed)
    (Hd : d ∈ builtin_catalog) (Hext : Forall (λ td, handler td ≠ "external.risky_notify") (tasks d))
    (Hin : plain_input input)
    (Hcustomer : ∀ td, td ∈ tasks d → handler td = "onboard.validate" → accepted_customer input)
    (He : job_list (w_jobs w) = [])
    (Hu : uuids_distinct (S (S (w_uuids w))) (length (tasks d)))
    (Hok : workflow_store_ok (w_workflows w)) (Hids : ids_unused w)
    (Hfree : w_localLocks w = [] ∧ w_locks w = []) (Hf : (8 < fuel)%nat) :
  ∃ rid wf' w', ((_ ← seedIfEmpty; '(run, _, _) ← createRun (jd_id d) trig input;
                  _ ← executeRun fuel (run_id run); mret (run_id run)) w) = (Ok rid, w')
    ∧ workflow_getByRunId rid (w_workflows w') = Some wf' ∧ state wf' = Completed
    ∧ ∀ td t, td ∈ tasks d → t ∈ wf_tasks wf' → definitionTaskId t = td_id td →
        ∃ out rid', output t = Some out ∧ isolated (handler td) rid' out.
Proof.
  rewrite Forall_forall in Hext.
  assert (∀ j td rid tid, td ∈ tasks d → ∃ r, simulate j (handler td) input (mkHandlerContext rid tid input []) = inl r
    ∧ sim_success r = true ∧ isolated (handler td) rid (sim_output r)) as Hall.
  { intros j td rid tid Htd. apply follows_alone; [done|by eapply builtin_handlers_known|by apply Hext|done|by apply Hcustomer]. }
  destruct (seeded_job_run d trig input w fuel Hd He Hu Hok Hids Hfree Hf)
    as (rid & wf' & w' & Hrun & Hget & Hst & _ & Hs & Hexp & Hnd).
  { apply plain_tasks_succeed; try done. by apply Forall_forall. }
  exists rid, wf', w'. do 3 (split; [done|]). intros td t Htd Ht Hid. rewrite Forall_forall in Hs, Hexp.
  destruct (Hexp t Ht (Hs t Ht)) as (j & td' & rid' & r & Htd' & Hid' & Hcall & _ & Hout).
  assert (td' = td) as -> by (eapply (NoDup_fmap_inj_in td_id (tasks d)); [exact Hnd|exact Htd'|exact Htd|congruence]).
  destruct (Hall j td rid' (definitionTaskId t) Htd) as (r' & Hr' & _ & Hiso).
  unfold handler_call in Hcall. assert (r' = r) as -> by congruence. by exists (sim_output r), rid'.
Qed.
End runs.

(** ** An instance *)

Section witnesses.
Definition demo_draws (k : nat) : draws :=
  mkDraws (λ _, num_of_decimal 5 (-1)) (λ _, 1767225600000 + Z.of_nat k) N.of_nat.
Definition demo_config : SimulatorConfig := mkSimulatorConfig 10 120 num_zero.

(** An engine whose simulator is the program's. *)
#[local] Instance simulated : Environment := {|
  nowIso k := "2026-01-01T00:00:00." +:+ pretty k;
  randomUUID k := pretty k;
  elapsedMs _ := 5;
  simulate k h input c :=
    match execute demo_config (demo_draws k) get_implementation 5 h input c with
    | Ok r => inl r
    | Throw e => inr e
    | OutOfFuel => inr (PlainError "no answer")
    end;
|}.

Lemma simulated_follows : follows demo_config demo_draws (λ _, 5).
Proof. intros k h input c. unfold simulate, simulated. by destruct (execute _ _ _ _ _ _ _). Qed.

Lemma empty_plain : plain_input [].
Proof.
  split.
  - intros k _. unfold field, get_property. cbn [record_get].
    destruct (decide _); [by eexists|]. unfold object_prototype_get. case_bool_decide; by eexists.
  - exists (num_of_Z 50), 50%nat. split; [reflexivity|]. split; [vm_compute; reflexivity|unfold max_array_length; lia].
  - exists (num_of_Z 3), 3%nat. split; [reflexivity|]. split; [vm_compute; reflexivity|lia].
  - reflexivity.
Qed.

Lemma builtin_job_moves_no_data_witness :
  ∃ rid wf' (w' : demo_world),
    ((_ ← seedIfEmpty; '(run, _, _) ← createRun "enterprise_job_01" "manual" [];
      _ ← executeRun 9 (run_id run); mret (run_id run)) demo_empty) = (Ok rid, w')
    ∧ state wf' = Completed
    ∧ ∀ td t, td ∈ tasks JobEnterprise01 → t ∈ wf_tasks wf' → definitionTaskId t = td_id td →
        ∃ out rid', output t = Some out ∧ isolated (handler td) rid' out.
Proof.
  destruct (builtin_job_moves_no_data demo_config demo_draws (λ _, 5) JobEnterprise01 "manual" [] demo_empty 9)
    as (rid & wf' & w' & Hrun & _ & Hst & Hout).
  - exact simulated_follows.
  - apply (list_elem_of_lookup_2 _ 22). reflexivity.
  - apply (bool_decide_unpack _). vm_compute. exact I.
  - exact empty_plain.
  - intros td Htd Hh. exfalso.
    assert (Forall (λ td, handler td ≠ "onboard.validate") (tasks JobEnterprise01)) as Hn
      by (apply (bool_decide_unpack _); vm_compute; exact I).
    rewrite Forall_forall in Hn. exact (Hn td Htd Hh).
  - reflexivity.
  - apply (bool_decide_unpack _). vm_compute. exact I.
  - apply empty_workflow_store_ok.
  - intros r w Hw. discriminate Hw.
  - split; reflexivity.
  - lia.
  - exists rid, wf', w'. split; [exact Hrun|]. split; [exact Hst|exact Hout].
Defined.
End witnesses.
