(* ===== verification/Pool.v ===== *)
(** * The worker pool (workers/pool.ts)

    The pool keeps one array sorted by priority; it implements a family of FIFO
    lanes, one per priority, of which [start] serves the highest that is not
    empty. *)

From S2P Require Import Prelude JsSort JsMap JsNum DomainTypes JsValue Domain.
Open Scope Z_scope.

Record QueuedRun : Type := mkQueuedRun {
  q_runId : string;
  priority : RunPriority;
  enqueuedAt : string;
}.

#[export] Instance QueuedRun_eq_dec : EqDecision QueuedRun.
Proof. solve_decision. Defined.

Record WorkerPool : Type := mkPool {
  pool_queue : list QueuedRun;
  pool_running : Z;
  concurrency : Z;
}.

Definition new_pool (concurrency : Z) : WorkerPool := mkPool [] 0 concurrency.

Definition compare_queued (a b : QueuedRun) : Z := comparePriority (priority a) (priority b).

Definition pool_enqueue (item : QueuedRun) (s : WorkerPool) : WorkerPool :=
  mkPool (js_sort compare_queued (pool_queue s ++ [item])) (pool_running s) (concurrency s).

Definition canAccept (s : WorkerPool) : bool := pool_running s <? concurrency s.

Definition pool_start (s : WorkerPool) : option QueuedRun * WorkerPool :=
  if negb (canAccept s) then (None, s)
  else match pool_queue s with
       | [] => (None, s)
       | x :: rest => (Some x, mkPool rest (pool_running s + 1) (concurrency s))
       end.

Definition pool_complete (s : WorkerPool) : WorkerPool :=
  mkPool (pool_queue s) (Z.max 0 (pool_running s - 1)) (concurrency s).

Definition depth (s : WorkerPool) : Z := Z.of_nat (length (pool_queue s)).

(** ** Sequences of calls *)

Inductive PoolOp : Type := OpEnqueue (item : QueuedRun) | OpStart | OpComplete.

Definition pool_step (op : PoolOp) (s : WorkerPool) : option QueuedRun * WorkerPool :=
  match op with
  | OpEnqueue item => (None, pool_enqueue item s)
  | OpStart => pool_start s
  | OpComplete => (None, pool_complete s)
  end.

Fixpoint pool_run (ops : list PoolOp) (s : WorkerPool) : list (option QueuedRun) * WorkerPool :=
  match ops with
  | [] => ([], s)
  | op :: ops' =>
      let '(r, s1) := pool_step op s in
      let '(rs, s2) := pool_run ops' s1 in (r :: rs, s2)
  end.

(** ** Specification: a lane per priority *)

Record Lanes : Type := mkLanes {
  lane : Z → list QueuedRun;
  busy : Z;
}.

Inductive lanes_step (c : Z) (l : Lanes) : PoolOp → option QueuedRun → Lanes → Prop :=
| lanes_enqueue x l' :
    busy l' = busy l →
    (∀ p, lane l' p = lane l p ++ (if decide (priority x = p) then [x] else [])) →
    lanes_step c l (OpEnqueue x) None l'
| lanes_full : c ≤ busy l → lanes_step c l OpStart None l
| lanes_idle : (∀ p, lane l p = []) → lanes_step c l OpStart None l
| lanes_start x rest l' :
    busy l < c → lane l (priority x) = x :: rest → (∀ p, priority x < p → lane l p = []) →
    busy l' = busy l + 1 →
    (∀ p, lane l' p = if decide (p = priority x) then rest else lane l p) →
    lanes_step c l OpStart (Some x) l'
| lanes_complete l' :
    busy l' = Z.max 0 (busy l - 1) → (∀ p, lane l' p = lane l p) →
    lanes_step c l OpComplete None l'.

Inductive lanes_steps (c : Z) : Lanes → list PoolOp → list (option QueuedRun) → Lanes → Prop :=
| lanes_done l : lanes_steps c l [] [] l
| lanes_more l op r l1 ops rs l2 :
    lanes_step c l op r l1 → lanes_steps c l1 ops rs l2 → lanes_steps c l (op :: ops) (r :: rs) l2.

Definition no_lanes : Lanes := mkLanes (λ _, []) 0.

(** ** The abstraction and the simulation *)

Definition has_priority (p : Z) (x : QueuedRun) : bool := bool_decide (priority x = p).

Definition lanes_of (s : WorkerPool) : Lanes :=
  mkLanes (λ p, List.filter (has_priority p) (pool_queue s)) (pool_running s).

Record pool_ok (s : WorkerPool) : Prop := {
  po_sorted : StronglySorted (cmp_le compare_queued) (pool_queue s);
  po_running : 0 ≤ pool_running s ≤ Z.max 0 (concurrency s);
}.

Lemma compare_queued_total x y : cmp_le compare_queued x y ∨ cmp_le compare_queued y x.
Proof. unfold cmp_le, compare_queued, comparePriority. lia. Qed.

Lemma compare_queued_trans x y z :
  cmp_le compare_queued x y → cmp_le compare_queued y z → cmp_le compare_queued x z.
Proof. unfold cmp_le, compare_queued, comparePriority. lia. Qed.

Lemma new_pool_ok c : pool_ok (new_pool c).
Proof. split; simpl; [constructor|lia]. Qed.

Lemma pool_step_ok op s : pool_ok s → pool_ok (pool_step op s).2.
Proof.
  intros [Hs Hr]. destruct op as [x| |]; simpl.
  - split; simpl; [|done].
    apply js_sort_strongly_sorted; [apply compare_queued_total|apply compare_queued_trans].
  - unfold pool_start, canAccept. destruct (pool_running s <? concurrency s) eqn:E; [|by split].
    apply Z.ltb_lt in E. simpl. destruct (pool_queue s) as [|x q] eqn:Hq; [split; simpl; [by rewrite Hq|lia]|].
    split; simpl; [by inversion Hs|lia].
  - split; simpl; [done|lia].
Qed.

Lemma pool_step_concurrency op s : concurrency (pool_step op s).2 = concurrency s.
Proof. destruct op; simpl; [done| |done]. unfold pool_start. by repeat case_match. Qed.

Lemma pool_enqueue_lanes x s p :
  lane (lanes_of (pool_enqueue x s)) p
  = lane (lanes_of s) p ++ (if decide (priority x = p) then [x] else []).
Proof.
  simpl. rewrite js_sort_stable.
  - rewrite List.filter_app. f_equal. cbn. unfold has_priority.
    case_decide; [by rewrite bool_decide_eq_true_2|by rewrite bool_decide_eq_false_2].
  - intros a b Ha%bool_decide_unpack Hb%bool_decide_unpack.
    unfold cmp_le, compare_queued, comparePriority. lia.
Qed.

(** Every call of the pool is a step of the lanes. *)
Lemma pool_step_simulates op s :
  pool_ok s → lanes_step (concurrency s) (lanes_of s) op (pool_step op s).1 (lanes_of (pool_step op s).2).
Proof.
  intros [Hs Hr]. destruct op as [x| |]; simpl.
  - apply lanes_enqueue; [done|]. apply pool_enqueue_lanes.
  - unfold pool_start, canAccept. destruct (pool_running s <? concurrency s) eqn:E; simpl.
    2: { apply lanes_full. apply Z.ltb_ge in E. done. }
    apply Z.ltb_lt in E. destruct (pool_queue s) as [|x q] eqn:Hq; simpl.
    { apply lanes_idle. intros p. simpl. by rewrite Hq. }
    apply (lanes_start _ _ x (List.filter (has_priority (priority x)) q)); simpl; rewrite ?Hq; cbn [List.filter].
    + done.
    + unfold has_priority at 1. by rewrite bool_decide_eq_true_2.
    + intros p Hp. unfold has_priority at 1. rewrite bool_decide_eq_false_2 by lia.
      inversion Hs as [|? ? _ Hall]; subst. clear -Hall Hp.
      induction Hall as [|y q Hy Hall IH]; cbn [List.filter]; [done|].
      unfold has_priority at 1. unfold cmp_le, compare_queued, comparePriority in Hy.
      rewrite bool_decide_eq_false_2 by lia. done.
    + done.
    + intros p. case_decide as Hp; [by subst|]. unfold has_priority at 2.
      by rewrite bool_decide_eq_false_2 by congruence.
  - by apply lanes_complete.
Qed.

Lemma pool_run_simulates ops s :
  pool_ok s →
  lanes_steps (concurrency s) (lanes_of s) ops (pool_run ops s).1 (lanes_of (pool_run ops s).2)
  ∧ pool_ok (pool_run ops s).2 ∧ concurrency (pool_run ops s).2 = concurrency s.
Proof.
  revert s. induction ops as [|op ops IH]; intros s Hs; cbn [pool_run]; [split; [constructor|done]|].
  pose proof (pool_step_simulates op s Hs) as Hstep. pose proof (pool_step_ok op s Hs) as Hok.
  pose proof (pool_step_concurrency op s) as Hc.
  destruct (pool_step op s) as [r s1]. simpl in *. specialize (IH s1 Hok).
  destruct (pool_run ops s1) as [rs s2]. simpl in *. rewrite Hc in IH. destruct IH as (IH & ? & ?).
  split; [by econstructor|done].
Qed.

(** ** Property *)

(** C23: Whatever the sequence of calls, the pool answers like a set of FIFO lanes,
    one per priority: [start] returns the oldest run of the highest priority
    waiting, and nothing when [concurrency] runs are under way or none waits.
    Never more than [concurrency] runs are under way. *)
Theorem pool_implements_lanes (c : Z) (ops : list PoolOp) :
  let '(rs, s) := pool_run ops (new_pool c) in
  lanes_steps c no_lanes ops rs (lanes_of s) ∧ 0 ≤ pool_running s ≤ Z.max 0 c.
Proof.
  pose proof (pool_run_simulates ops (new_pool c) (new_pool_ok c)) as (Hsim & [_ Hr] & Hc).
  destruct (pool_run ops (new_pool c)) as [rs s]. simpl in *. rewrite Hc in Hr. done.
Qed.

Example pool_example :
  let a := mkQueuedRun "a" PriorityNormal "t" in let b := mkQueuedRun "b" PriorityHigh "t" in
  let d := mkQueuedRun "c" PriorityNormal "t" in
  (pool_run [OpEnqueue a; OpEnqueue b; OpEnqueue d; OpStart; OpStart; OpStart; OpComplete; OpStart] (new_pool 2)).1
  = [None; None; None; Some b; Some a; None; None; Some d].
Proof. reflexivity. Qed.
