(* ===== verification/Batch.v ===== *)
(** * Batches (batch/manifest.ts, batch/coordinator.ts, services/batch-service.ts)

    [BatchCoordinator.execute] runs [maxParallel] asynchronous workers over one
    array of items.  A worker gives way to the others at each [await], so an
    execution is a sequence of events, each of which lets one worker run up to
    its next [await]; any order of events is allowed, and the calls of the
    workflow and execution services may succeed or fail at every event.  BatchThreads.v has the
    workers call the engine's own operations. *)

From S2P Require Import Prelude JsSort JsMap JsNum DomainTypes JsValue Domain Pool.
Open Scope Z_scope.

(** ** Data *)

Record BatchJobItem : Type := mkItem {
  item_jobId : string;
  item_label : string;
  item_input : jsrecord;
  item_priority : option RunPriority;
  continueOnError : option bool;
}.

Record BatchManifest : Type := mkBatch {
  bm_id : string;
  bm_name : string;
  bm_tenantId : string;
  items : list BatchJobItem;
  maxParallel : option Z;
  bm_createdAt : string;
}.

Record BatchProgress : Type := mkProgress {
  manifestId : string;
  total : Z;
  completed : Z;
  failed : Z;
  running : Z;
  runIds : list string;
}.

(** Where a worker waits: at the head of its loop, for [createRun], for
    [executeRun], or nowhere any more. *)
Inductive Worker : Type :=
| Idle
| Creating (item : BatchJobItem)
| Executing (item : BatchJobItem) (runId : string)
| Finished.

Record BatchState : Type := mkBatchState {
  b_queue : list BatchJobItem;
  b_progress : BatchProgress;
  b_pool : WorkerPool;
  b_workers : list Worker;
  b_errors : list string;
}.

(** ** Operations *)

Definition parallel (m : BatchManifest) : Z := default 4 (maxParallel m).

Definition init_batch (m : BatchManifest) (pool : WorkerPool) : BatchState :=
  mkBatchState (items m)
    (mkProgress (bm_id m) (Z.of_nat (length (items m))) 0 0 0 [])
    pool (replicate (Z.to_nat (parallel m)) Idle) [].

Definition add_counts (c f r : Z) (p : BatchProgress) : BatchProgress :=
  mkProgress (manifestId p) (total p) (completed p + c) (failed p + f) (running p + r) (runIds p).

Definition push_run (id : string) (p : BatchProgress) : BatchProgress :=
  mkProgress (manifestId p) (total p) (completed p) (failed p) (running p) (runIds p ++ [id]).

Definition set_worker (i : nat) (w : Worker) (s : BatchState) : BatchState :=
  mkBatchState (b_queue s) (b_progress s) (b_pool s) (<[i := w]> (b_workers s)) (b_errors s).

(** The loop head: [while (queue.length) { item = queue.shift(); running += 1 ...]. *)
Definition take_item (i : nat) (s : BatchState) : BatchState :=
  match b_queue s with
  | [] => set_worker i Finished s
  | item :: queue =>
      mkBatchState queue (add_counts 0 0 1 (b_progress s)) (b_pool s)
        (<[i := Creating item]> (b_workers s)) (b_errors s)
  end.

(** After [createRun]: record the run and put it into the pool's queue. *)
Definition run_created (i : nat) (item : BatchJobItem) (id at_ : string) (s : BatchState) : BatchState :=
  mkBatchState (b_queue s) (push_run id (b_progress s))
    (pool_enqueue (mkQueuedRun id (default PriorityNormal (item_priority item)) at_) (b_pool s))
    (<[i := Executing item id]> (b_workers s)) (b_errors s).

(** The end of an item without an error, [finally] included. *)
Definition item_completed (i : nat) (s : BatchState) : BatchState :=
  mkBatchState (b_queue s) (add_counts 1 0 (-1) (b_progress s)) (b_pool s)
    (<[i := Idle]> (b_workers s)) (b_errors s).

Definition continues (item : BatchJobItem) : bool := default false (continueOnError item).

(** The [catch] and [finally] branches. *)
Definition item_failed (i : nat) (item : BatchJobItem) (s : BatchState) : BatchState :=
  mkBatchState (if continues item then b_queue s else [])
    (add_counts 0 1 (-1) (b_progress s)) (b_pool s)
    (<[i := Idle]> (b_workers s)) (b_errors s ++ [item_label item]).

(** ** Executions *)

Inductive BatchEvent : Type :=
| Resume (worker : nat)
| Created (worker : nat) (runId at_ : string)
| CreateFailed (worker : nat)
| Executed (worker : nat)
| ExecuteFailed (worker : nat).

Definition batch_step (s : BatchState) (e : BatchEvent) : option BatchState :=
  match e with
  | Resume i => match b_workers s !! i with Some Idle => Some (take_item i s) | _ => None end
  | Created i id at_ =>
      match b_workers s !! i with Some (Creating item) => Some (run_created i item id at_ s) | _ => None end
  | CreateFailed i =>
      match b_workers s !! i with Some (Creating item) => Some (item_failed i item s) | _ => None end
  | Executed i =>
      match b_workers s !! i with Some (Executing _ _) => Some (item_completed i s) | _ => None end
  | ExecuteFailed i =>
      match b_workers s !! i with Some (Executing item _) => Some (item_failed i item s) | _ => None end
  end.

Fixpoint batch_run (s : BatchState) (es : list BatchEvent) : option BatchState :=
  match es with
  | [] => Some s
  | e :: es' => match batch_step s e with Some s' => batch_run s' es' | None => None end
  end.

(** [Promise.all(workers)] resolves, and [execute] returns the progress. *)
Definition batch_done (s : BatchState) : Prop := Forall (λ w, w = Finished) (b_workers s).

(** [getProgress] reads the object the execution updates. *)
Definition getProgress (before : jsmap string BatchProgress) (s : BatchState) (id : string) : option BatchProgress :=
  map_get (map_set before (manifestId (b_progress s)) (b_progress s)) id.

Lemma batch_run_snoc s es s1 e s2 :
  batch_run s es = Some s1 → batch_step s1 e = Some s2 → batch_run s (es ++ [e]) = Some s2.
Proof.
  intros Hrun He. revert s Hrun. induction es as [|e0 es IH]; intros s; cbn [batch_run app].
  - intros [= ->]. by rewrite He.
  - destruct (batch_step s e0); [apply IH|done].
Qed.

(** ** Sums over the workers *)

Definition sum_over (f : Worker → Z) (ws : list Worker) : Z := foldr (λ w z, f w + z) 0 ws.

Lemma sum_over_insert f ws i w w' :
  ws !! i = Some w → sum_over f (<[i := w']> ws) = sum_over f ws - f w + f w'.
Proof.
  revert i. induction ws as [|x ws IH]; intros [|i] H; [done..| |].
  - injection H as ->. unfold sum_over. cbn. lia.
  - change (<[S i := w']> (x :: ws)) with (x :: <[i := w']> ws).
    change (f x + sum_over f (<[i := w']> ws) = f x + sum_over f ws - f w + f w').
    rewrite (IH i); [lia|done].
Qed.

Lemma sum_over_replicate f n w : sum_over f (replicate n w) = Z.of_nat n * f w.
Proof. induction n as [|n IH]; [done|].
  change (f w + sum_over f (replicate n w) = Z.of_nat (S n) * f w). rewrite IH. lia. Qed.

Definition busy_worker (w : Worker) : Z :=
  match w with Creating _ | Executing _ _ => 1 | Idle | Finished => 0 end.

Definition worker_cost (w : Worker) : Z :=
  match w with Finished => 0 | Idle => 1 | Executing _ _ => 2 | Creating _ => 3 end.

(** The number of events left is bounded by this. *)
Definition batch_cost (s : BatchState) : Z :=
  3 * Z.of_nat (length (b_queue s)) + sum_over worker_cost (b_workers s).

Lemma sum_over_le f g ws : (∀ w, f w ≤ g w) → sum_over f ws ≤ sum_over g ws.
Proof.
  intros Hf. induction ws as [|w ws IH]; [done|]. specialize (Hf w).
  change (f w + sum_over f ws ≤ g w + sum_over g ws). lia.
Qed.

Lemma sum_over_const z ws : sum_over (λ _, z) ws = z * Z.of_nat (length ws).
Proof.
  induction ws as [|w ws IH]; [cbn; lia|].
  change (z + sum_over (λ _, z) ws = z * Z.of_nat (S (length ws))). lia.
Qed.

(** ** What an execution did to the items *)

(** The items in the order in which workers took them; how the work on an item
    ended, [true] for the end of the [try] block and [false] for the [catch]; and
    the runs put into the pool's queue. *)
Record BatchTrace : Type := mkTrace {
  bt_taken : list BatchJobItem;
  bt_ended : list (BatchJobItem * bool);
  bt_queued : list QueuedRun;
}.

Definition worker_item (w : Worker) : option BatchJobItem :=
  match w with Creating it | Executing it _ => Some it | Idle | Finished => None end.

Definition item_at (s : BatchState) (i : nat) : list BatchJobItem := option_list (b_workers s !! i ≫= worker_item).

(** Read off the states before and after the event: a worker that resumes holds
    the item it took, one that ends held the item it worked on. *)
Definition observe (s : BatchState) (e : BatchEvent) (s' : BatchState) (t : BatchTrace) : BatchTrace :=
  match e with
  | Resume i => mkTrace (bt_taken t ++ item_at s' i) (bt_ended t) (bt_queued t)
  | Created i id at_ =>
      mkTrace (bt_taken t) (bt_ended t)
        (bt_queued t ++ ((λ it, mkQueuedRun id (default PriorityNormal (item_priority it)) at_) <$> item_at s i))
  | Executed i => mkTrace (bt_taken t) (bt_ended t ++ ((λ it, (it, true)) <$> item_at s i)) (bt_queued t)
  | CreateFailed i | ExecuteFailed i =>
      mkTrace (bt_taken t) (bt_ended t ++ ((λ it, (it, false)) <$> item_at s i)) (bt_queued t)
  end.

Fixpoint trace_from (t : BatchTrace) (s : BatchState) (es : list BatchEvent) : BatchTrace :=
  match es with
  | [] => t
  | e :: es' => match batch_step s e with Some s' => trace_from (observe s e s' t) s' es' | None => t end
  end.

Definition batch_trace (m : BatchManifest) (pool : WorkerPool) (es : list BatchEvent) : BatchTrace :=
  trace_from (mkTrace [] [] []) (init_batch m pool) es.

Lemma trace_from_app t s es1 s1 es2 :
  batch_run s es1 = Some s1 → trace_from t s (es1 ++ es2) = trace_from (trace_from t s es1) s1 es2.
Proof.
  revert t s. induction es1 as [|e es1 IH]; intros t s; cbn [batch_run trace_from app]; [by intros [= ->]|].
  destruct (batch_step s e); [apply IH|done].
Qed.

Lemma batch_run_app s es1 es2 s2 :
  batch_run s (es1 ++ es2) = Some s2 → ∃ s1, batch_run s es1 = Some s1 ∧ batch_run s1 es2 = Some s2.
Proof.
  revert s. induction es1 as [|e es1 IH]; intros s; cbn [batch_run app]; [by exists s|].
  destruct (batch_step s e); [apply IH|done].
Qed.

Definition ended_count (ok : bool) (ended : list (BatchJobItem * bool)) : Z :=
  Z.of_nat (length (List.filter (λ x, Bool.eqb x.2 ok) ended)).

Lemma ended_count_snoc ok ended it ok' :
  ended_count ok (ended ++ [(it, ok')]) = ended_count ok ended + (if Bool.eqb ok' ok then 1 else 0).
Proof. unfold ended_count. rewrite List.filter_app, length_app. simpl. destruct (Bool.eqb ok' ok); simpl; lia. Qed.

(** A failure that empties the queue: of an item that does not continue on error. *)
Definition stopped (ended : list (BatchJobItem * bool)) : Prop :=
  ∃ it, (it, false) ∈ ended ∧ continues it = false.

(** ** The invariant *)

Record batch_inv (m : BatchManifest) (pool : WorkerPool) (t : BatchTrace) (s : BatchState) : Prop := {
  bi_taken : bt_taken t `prefix_of` items m;
  bi_queue : bt_taken t ++ b_queue s = items m ∨ stopped (bt_ended t);
  bi_stopped : stopped (bt_ended t) → b_queue s = [];
  bi_held : omap worker_item (b_workers s) ++ (bt_ended t).*1 ≡ₚ bt_taken t;
  bi_running : running (b_progress s) = sum_over busy_worker (b_workers s);
  bi_completed : completed (b_progress s) = ended_count true (bt_ended t);
  bi_failed : failed (b_progress s) = ended_count false (bt_ended t);
  bi_total : total (b_progress s) = Z.of_nat (length (items m)) ∧ manifestId (b_progress s) = bm_id m;
  bi_workers : length (b_workers s) = Z.to_nat (parallel m);
  bi_pool : pool_queue (b_pool s) ≡ₚ pool_queue pool ++ bt_queued t
    ∧ q_runId <$> bt_queued t = runIds (b_progress s)
    ∧ pool_running (b_pool s) = pool_running pool;
  bi_finished : Finished ∈ b_workers s → b_queue s = [];
}.

Lemma init_batch_inv m pool : batch_inv m pool (mkTrace [] [] []) (init_batch m pool).
Proof.
  split; simpl; try done.
  - apply prefix_nil.
  - by left.
  - by intros (it & []%elem_of_nil & _).
  - rewrite app_nil_r. by induction (Z.to_nat (parallel m)).
  - rewrite sum_over_replicate. simpl. lia.
  - by rewrite length_replicate.
  - by rewrite app_nil_r.
  - by intros [? _]%elem_of_replicate.
Qed.

Lemma held_insert ws i w w' :
  ws !! i = Some w →
  option_list (worker_item w) ++ omap worker_item (<[i := w']> ws) ≡ₚ option_list (worker_item w') ++ omap worker_item ws.
Proof.
  revert i. induction ws as [|x ws IH]; intros [|i] Hi; [done..| |].
  - injection Hi as ->. cbn. destruct (worker_item w), (worker_item w'); cbn; try done. apply Permutation_swap.
  - specialize (IH i Hi). cbn. destruct (worker_item x) as [it|]; [|done].
    rewrite <-!Permutation_middle. by rewrite IH.
Qed.

(** A step on worker [i] keeps the invariant; the cases share the bookkeeping. *)
Lemma batch_inv_worker m pool t s s' i w w' dr :
  batch_inv m pool t s → b_workers s !! i = Some w → b_workers s' = <[i := w']> (b_workers s) →
  running (b_progress s') = running (b_progress s) + dr → busy_worker w' = busy_worker w + dr →
  running (b_progress s') = sum_over busy_worker (b_workers s')
  ∧ length (b_workers s') = Z.to_nat (parallel m).
Proof.
  intros Hinv Hi Hw Hd Hb. pose proof (bi_running _ _ _ _ Hinv). pose proof (bi_workers _ _ _ _ Hinv).
  rewrite Hw, length_insert, (sum_over_insert _ _ _ w) by done. lia.
Qed.

Lemma finished_insert (ws : list Worker) (i : nat) (w w' : Worker) : ws !! i = Some w' → Finished ∈ <[i := w]> ws → w ≠ Finished → Finished ∈ ws.
Proof.
  intros Hi Hin Hw. apply list_elem_of_lookup in Hin as [j Hj].
  destruct (decide (i = j)) as [->|Hne].
  - rewrite list_lookup_insert_eq in Hj by (by eapply lookup_lt_Some). congruence.
  - rewrite list_lookup_insert_ne in Hj by done. by eapply list_elem_of_lookup_2.
Qed.

Lemma item_at_insert s i w :
  (i < length (b_workers s))%nat → option_list ((<[i := w]> (b_workers s)) !! i ≫= worker_item) = option_list (worker_item w).
Proof. intros Hi. by rewrite list_lookup_insert_eq. Qed.

Lemma take_item_inv m pool t s i :
  batch_inv m pool t s → b_workers s !! i = Some Idle →
  batch_inv m pool (observe s (Resume i) (take_item i s) t) (take_item i s).
Proof.
  intros Hinv Hi. pose proof Hinv as [Hp Hq Hs Hh Hr Hc Hf Ht Hl Hpool Hfin]. pose proof (lookup_lt_Some _ _ _ Hi) as Hlt.
  unfold take_item. destruct (b_queue s) as [|it q] eqn:Eq.
  - destruct (batch_inv_worker m pool t s (set_worker i Finished s) i Idle Finished 0 Hinv Hi) as [Hr' Hl'];
      [done|simpl; lia|done|].
    pose proof (held_insert _ i _ Finished Hi) as Hh'. cbn [worker_item option_list app] in Hh'.
    unfold observe, item_at. split; simpl; rewrite ?item_at_insert, ?app_nil_r, ?Eq by done; try done. by rewrite Hh'.
  - set (s' := mkBatchState _ _ _ _ _).
    destruct (batch_inv_worker m pool t s s' i Idle (Creating it) 1 Hinv Hi) as [Hr' Hl']; [done..|].
    destruct Hq as [Hq|Hst]; [|by apply Hs in Hst].
    pose proof (held_insert _ i _ (Creating it) Hi) as Hh'. cbn [worker_item option_list app] in Hh'.
    unfold observe, item_at. split; simpl; rewrite ?item_at_insert by done; cbn [worker_item option_list]; try done.
    + rewrite <-Hq. apply prefix_app, prefix_cons, prefix_nil.
    + left. by rewrite <-app_assoc.
    + intros Hst. by apply Hs in Hst.
    + cbn in Hh'. rewrite Hh'. cbn. rewrite Hh. by rewrite Permutation_app_comm.
    + by rewrite Z.add_0_r.
    + by rewrite Z.add_0_r.
    + intros Hin. apply finished_insert with (w' := Idle) in Hin; [|done..]. by apply Hfin in Hin.
Qed.

Lemma run_created_inv m pool t s i it id at_ :
  batch_inv m pool t s → b_workers s !! i = Some (Creating it) →
  batch_inv m pool (observe s (Created i id at_) (run_created i it id at_ s) t) (run_created i it id at_ s).
Proof.
  intros Hinv Hi. pose proof Hinv as [Hp Hq Hs Hh Hr Hc Hf Ht Hl (Hpq & Hid & Hpr) Hfin].
  set (s' := run_created i it id at_ s).
  destruct (batch_inv_worker m pool t s s' i (Creating it) (Executing it id) 0 Hinv Hi) as [Hr' Hl'];
    [done|simpl; lia|done|].
  pose proof (held_insert _ i _ (Executing it id) Hi) as Hh'. apply (Permutation_app_inv_l [it]) in Hh'.
  unfold observe, item_at. rewrite Hi. split; simpl; try done.
  - by rewrite Hh'.
  - rewrite js_sort_perm, Hpq, <-app_assoc. split; [done|]. rewrite fmap_app, Hid. done.
  - intros Hin. apply finished_insert with (w' := Creating it) in Hin; [|done..]. by apply Hfin.
Qed.

(** A worker that ends its item, with or without a failure. *)
Lemma item_end_inv m pool t s s' i w it (ok : bool) :
  batch_inv m pool t s → b_workers s !! i = Some w → worker_item w = Some it →
  b_workers s' = <[i := Idle]> (b_workers s) →
  b_progress s' = add_counts (if ok then 1 else 0) (if ok then 0 else 1) (-1) (b_progress s) →
  b_pool s' = b_pool s →
  b_queue s' = (if ok || continues it then b_queue s else []) →
  batch_inv m pool (mkTrace (bt_taken t) (bt_ended t ++ [(it, ok)]) (bt_queued t)) s'.
Proof.
  intros Hinv Hi Hit Hw Hp Hpool Hqueue. pose proof Hinv as [Hpre Hq Hs Hh Hr Hc Hf Ht Hl Hpl Hfin].
  assert (busy_worker w = 1) as Hb by by destruct w.
  destruct (batch_inv_worker m pool t s s' i w Idle (-1) Hinv Hi) as [Hr' Hl'];
    [done|by rewrite Hp|rewrite Hb; done|].
  pose proof (held_insert _ i _ Idle Hi) as Hh'. rewrite Hit in Hh'. cbn [worker_item option_list app] in Hh'.
  assert (stopped (bt_ended t) → stopped (bt_ended t ++ [(it, ok)])) as Hmono.
  { intros (x & Hx & Hcx). exists x. split; [apply elem_of_app; by left|done]. }
  split; rewrite ?Hp, ?Hpool; simpl; try done.
  - rewrite Hqueue. destruct ok; cbn [orb]; [destruct Hq; auto|]. destruct (continues it) eqn:Hci; [destruct Hq; auto|].
    right. exists it. split; [|done]. apply elem_of_app. right. by left.
  - intros (x & [Hx|Hx]%elem_of_app & Hcx); rewrite Hqueue.
    + assert (b_queue s = []) as -> by (apply Hs; by exists x). by destruct (ok || continues it).
    + apply list_elem_of_singleton in Hx as [= -> <-]. cbn. by rewrite Hcx.
  - rewrite Hw, fmap_app, <-Hh, <-Hh'. cbn. by rewrite app_assoc, <-Permutation_cons_append.
  - rewrite Hp in Hr'. done.
  - rewrite ended_count_snoc, Hc. by destruct ok.
  - rewrite ended_count_snoc, Hf. by destruct ok.
  - rewrite Hw. intros Hin. apply finished_insert with (w' := w) in Hin; [|done..]. rewrite Hqueue, (Hfin Hin).
    by destruct (ok || continues it).
Qed.

Lemma batch_step_inv m pool t s e s' :
  batch_inv m pool t s → batch_step s e = Some s' → batch_inv m pool (observe s e s' t) s'.
Proof.
  intros Hinv. destruct e as [i|i id at_|i|i|i]; simpl; destruct (b_workers s !! i) as [w|] eqn:Hi; try done;
    destruct w as [|it|it id'|]; try done; intros [= <-].
  1: by apply (take_item_inv m pool t s i).
  1: by apply (run_created_inv m pool t s i it id at_).
  all: unfold item_at; rewrite Hi; eapply item_end_inv; try done; by cbn.
Qed.

Lemma trace_from_inv m pool es t s s' :
  batch_inv m pool t s → batch_run s es = Some s' → batch_inv m pool (trace_from t s es) s'.
Proof.
  revert t s. induction es as [|e es IH]; intros t s Hinv; cbn [batch_run trace_from]; [by intros [= <-]|].
  destruct (batch_step s e) as [s1|] eqn:E; [|done]. apply IH. by apply batch_step_inv.
Qed.

Lemma batch_reach_inv m pool es s :
  batch_run (init_batch m pool) es = Some s → batch_inv m pool (batch_trace m pool es) s.
Proof. intros Hrun. eapply trace_from_inv; [apply init_batch_inv|exact Hrun]. Qed.

(** From an empty queue nothing is taken. *)
Lemma trace_from_empty es t s s' :
  batch_run s es = Some s' → b_queue s = [] → bt_taken (trace_from t s es) = bt_taken t.
Proof.
  revert t s. induction es as [|e es IH]; intros t s; cbn [batch_run trace_from]; [done|].
  destruct (batch_step s e) as [s1|] eqn:E; [|done]. intros Hrun Hq.
  assert (b_queue s1 = [] ∧ bt_taken (observe s e s1 t) = bt_taken t) as [Hq1 Ht].
  { revert E. destruct e as [i|i id at_|i|i|i]; simpl; destruct (b_workers s !! i) as [w|] eqn:Hi; try done;
      destruct w as [|it|it id'|]; try done; intros [= <-]; simpl; rewrite ?Hq; try (by destruct (continues it)); try done.
    unfold take_item. rewrite Hq. unfold item_at. cbn. split; [done|].
    rewrite list_lookup_insert_eq by (by eapply lookup_lt_Some). apply app_nil_r. }
  by rewrite (IH _ _ Hrun Hq1).
Qed.

(** ** Termination *)

Lemma batch_step_cost s e s' : batch_step s e = Some s' → batch_cost s' < batch_cost s.
Proof.
  unfold batch_cost. destruct e as [i|i id at_|i|i|i]; simpl; destruct (b_workers s !! i) as [w|] eqn:Hi; try done;
    destruct w as [|it|it id'|]; try done; intros [= <-]; simpl.
  - unfold take_item. destruct (b_queue s) as [|it q] eqn:Eq; simpl; rewrite ?Eq;
      rewrite (sum_over_insert _ _ _ Idle) by done; cbn [worker_cost length]; lia.
  - rewrite (sum_over_insert _ _ _ (Creating it)) by done. simpl. lia.
  - rewrite (sum_over_insert _ _ _ (Creating it)) by done. destruct (continues it); simpl; lia.
  - rewrite (sum_over_insert _ _ _ (Executing it id')) by done. simpl. lia.
  - rewrite (sum_over_insert _ _ _ (Executing it id')) by done. destruct (continues it); simpl; lia.
Qed.

Lemma batch_cost_nonneg s : 0 ≤ batch_cost s.
Proof.
  unfold batch_cost. assert (0 ≤ sum_over worker_cost (b_workers s)); [|lia].
  pose proof (sum_over_le (λ _, 0) worker_cost (b_workers s)) as H. rewrite sum_over_const in H.
  assert (∀ w, 0 ≤ worker_cost w) as Hw by by intros []. specialize (H Hw). lia.
Qed.

Lemma batch_run_cost es s s' : batch_run s es = Some s' → Z.of_nat (length es) + batch_cost s' ≤ batch_cost s.
Proof.
  revert s. induction es as [|e es IH]; intros s; cbn [batch_run]; [intros [= ->]; simpl; lia|].
  destruct (batch_step s e) as [s1|] eqn:E; [|done]. intros H%IH. apply batch_step_cost in E. simpl. lia.
Qed.

#[export] Instance finished_dec (w : Worker) : Decision (w = Finished).
Proof. destruct w; (by left) || (by right). Defined.

(** A worker that has not finished waits for an event that can happen. *)
Lemma batch_step_enabled s : ¬ batch_done s → ∃ e s', batch_step s e = Some s'.
Proof.
  intros Hd. destruct (decide (Exists (λ w, w ≠ Finished) (b_workers s))) as [He|Hn].
  - apply Exists_exists in He as (w & [i Hi]%list_elem_of_lookup & Hw). destruct w as [|it|it id|]; [..|done].
    + exists (Resume i). simpl. rewrite Hi. eauto.
    + exists (CreateFailed i). simpl. rewrite Hi. eauto.
    + exists (Executed i). simpl. rewrite Hi. eauto.
  - destruct Hd. apply not_Exists_Forall in Hn; [|apply _]. eapply Forall_impl; [exact Hn|].
    intros w Hw. by apply dec_stable.
Qed.

(** What a finished batch leaves, for the theorem below and for the loader of
    manifests. *)
Lemma finished_batch (m : BatchManifest) (pool : WorkerPool) (es : list BatchEvent) (s : BatchState)
    (Hrun : batch_run (init_batch m pool) es = Some s) (Hdone : batch_done s) :
  let p := b_progress s in
  let t := batch_trace m pool es in
  running p = 0 ∧ (bt_ended t).*1 ≡ₚ bt_taken t
  ∧ completed p + failed p = Z.of_nat (length (bt_taken t))
  ∧ (0 < parallel m → ¬ stopped (bt_ended t) → bt_taken t = items m).
Proof.
  intros p t. pose proof (batch_reach_inv m pool es s Hrun) as [Hp Hq _ Hh Hr Hc Hf _ Hl _ Hfin]. fold t in Hp, Hq, Hh, Hc, Hf.
  assert (sum_over busy_worker (b_workers s) = 0 ∧ omap worker_item (b_workers s) = []) as [Hr0 Hh0].
  { clear -Hdone. unfold batch_done in Hdone. induction Hdone as [|w ws -> _ [IH1 IH2]]; [done|]. by split. }
  rewrite Hh0 in Hh. cbn in Hh. split; [unfold p; congruence|]. split; [done|]. split.
  - unfold p. rewrite Hc, Hf, <-Hh, length_fmap. unfold ended_count. clear.
    induction (bt_ended t) as [|[it []] l IH]; simpl in *; lia.
  - intros Hpar Hns. destruct Hq as [Hq|]; [|done]. rewrite Hfin, app_nil_r in Hq; [done|].
    unfold batch_done in Hdone. destruct (b_workers s) as [|w ws]; [simpl in Hl; lia|].
    apply Forall_cons in Hdone as [-> _]. by left.
Qed.

(** ** Properties *)

(** C18: Whatever the order in which the workers run and however the calls end, when
    every worker has finished the progress is consistent: nothing is running; the
    items taken are the first ones of the manifest, in its order, each by one
    worker; the work on each of them ended once, and [completed] and [failed]
    count the ends without and with an error.  All items were taken when there is
    a worker and every item that failed continues on error; once an item that
    does not has failed, no worker takes another one.  Each run created was put
    into the pool's queue with the priority of its item, and the run ids are
    those of these runs.  The pool only grows: [execute] starts and completes none
    of the runs it queues. *)
Theorem batch_result (m : BatchManifest) (pool : WorkerPool) (es : list BatchEvent) (s : BatchState)
    (Hrun : batch_run (init_batch m pool) es = Some s) (Hdone : batch_done s) :
  let p := b_progress s in
  let t := batch_trace m pool es in
  running p = 0 ∧ total p = Z.of_nat (length (items m))
  ∧ bt_taken t `prefix_of` items m ∧ (bt_ended t).*1 ≡ₚ bt_taken t
  ∧ completed p = ended_count true (bt_ended t) ∧ failed p = ended_count false (bt_ended t)
  ∧ (0 < parallel m → (∀ it, (it, false) ∈ bt_ended t → continues it = true) → bt_taken t = items m)
  ∧ (∀ es1 es2 it, es = es1 ++ es2 → (it, false) ∈ bt_ended (batch_trace m pool es1) → continues it = false →
       bt_taken t = bt_taken (batch_trace m pool es1))
  ∧ pool_queue (b_pool s) ≡ₚ pool_queue pool ++ bt_queued t ∧ q_runId <$> bt_queued t = runIds p
  ∧ pool_running (b_pool s) = pool_running pool.
Proof.
  intros p t. destruct (finished_batch m pool es s Hrun Hdone) as (Hr & Hends & _ & Hall). fold t p in Hr, Hends, Hall.
  pose proof (batch_reach_inv m pool es s Hrun) as [Hp _ _ _ _ Hc Hf [Ht _] _ (Hpq & Hid & Hpr) _].
  fold t in Hp, Hc, Hf, Hpq, Hid. split_and!; try done.
  - intros Hpar Hcont. apply Hall; [done|]. intros (it & Hin & Hno). by rewrite (Hcont it Hin) in Hno.
  - intros es1 es2 it -> Hin Hno. destruct (batch_run_app _ _ _ _ Hrun) as (s1 & H1 & H2).
    pose proof (batch_reach_inv m pool es1 s1 H1) as Hinv1. unfold t, batch_trace. rewrite (trace_from_app _ _ _ _ _ H1).
    eapply trace_from_empty; [exact H2|]. apply (bi_stopped _ _ _ _ Hinv1). by exists it.
Qed.

(** Every execution of a batch ends: there are at most three events per item and
    one per worker, whatever the order and the results of the calls, and as long
    as a worker has not finished some event can happen.  At every moment the
    counter [running] is the number of items being processed, which is at most
    the number of workers. *)
Theorem batch_terminates (m : BatchManifest) (pool : WorkerPool) (es : list BatchEvent) (s : BatchState)
    (Hrun : batch_run (init_batch m pool) es = Some s) :
  Z.of_nat (length es) ≤ 3 * Z.of_nat (length (items m)) + Z.max 0 (parallel m)
  ∧ (¬ batch_done s → ∃ e s', batch_run (init_batch m pool) (es ++ [e]) = Some s')
  ∧ running (b_progress s) = sum_over busy_worker (b_workers s)
  ∧ running (b_progress s) ≤ Z.max 0 (parallel m).
Proof.
  split; [|split; [|split]].
  - pose proof (batch_run_cost es _ _ Hrun) as Hc. pose proof (batch_cost_nonneg s).
    unfold batch_cost in Hc at 2. simpl in Hc. rewrite sum_over_replicate in Hc. simpl in Hc. lia.
  - intros (e & s' & He)%batch_step_enabled. exists e, s'. by eapply batch_run_snoc.
  - by eapply bi_running, batch_reach_inv.
  - pose proof (batch_reach_inv m pool es s Hrun) as Hinv. pose proof (bi_workers _ _ _ _ Hinv) as Hl. rewrite (bi_running _ _ _ _ Hinv).
    pose proof (sum_over_le busy_worker (λ _, 1) (b_workers s)) as H. rewrite sum_over_const in H.
    assert (∀ w, busy_worker w ≤ 1) as Hw by by intros []. specialize (H Hw). lia.
Qed.

(** ** Examples *)

Definition example_batch : BatchManifest :=
  mkBatch "b1" "example" "t1"
    [mkItem "j1" "first" [] None None; mkItem "j2" "second" [] (Some PriorityHigh) (Some true)]
    (Some 2) "2026-01-01T00:00:00.000Z".

Definition example_events : list BatchEvent :=
  [Resume 0; Resume 1; Created 1 "run_b" "t"; Created 0 "run_a" "t"; ExecuteFailed 1; Executed 0;
   Resume 0; Resume 1].

Lemma batch_result_witness :
  ∃ s, batch_run (init_batch example_batch (new_pool 4)) example_events = Some s
    ∧ running (b_progress s) = 0 ∧ bt_taken (batch_trace example_batch (new_pool 4) example_events) = items example_batch
    ∧ pool_running (b_pool s) = 0.
Proof.
  eexists. split; [vm_compute; reflexivity|].
  match goal with |- running (b_progress ?s) = _ ∧ _ =>
    destruct (batch_result example_batch (new_pool 4) example_events s)
      as (Hr & _ & _ & _ & _ & _ & Hall & _ & _ & _ & Hp) end.
  - vm_compute. reflexivity.
  - repeat constructor.
  - split; [exact Hr|]. split; [|exact Hp]. apply Hall; [reflexivity|]. intros it Hin. vm_compute in Hin.
    apply elem_of_cons in Hin as [Heq|Hin]; [injection Heq as ->; reflexivity|].
    apply elem_of_cons in Hin as [Heq|Hin]; [discriminate Heq|]. by apply elem_of_nil in Hin.
Defined.

Lemma batch_terminates_witness :
  ∃ s, batch_run (init_batch example_batch (new_pool 4)) (take 4 example_events) = Some s
    ∧ running (b_progress s) ≤ 2
    ∧ ∃ e s', batch_run (init_batch example_batch (new_pool 4)) (take 4 example_events ++ [e]) = Some s'.
Proof.
  eexists. split; [vm_compute; reflexivity|].
  match goal with |- running (b_progress ?s) ≤ _ ∧ _ =>
    destruct (batch_terminates example_batch (new_pool 4) (take 4 example_events) s)
      as (_ & Hn & _ & Hr) end.
  - vm_compute. reflexivity.
  - split; [exact Hr|]. apply Hn. intros Hd. inversion Hd. discriminate.
Defined.
