(* ===== verification/RunThreads.v ===== *)
(** * Runs made and executed among threads

    What the batch workers (BatchThreads.v) and the requests of the service
    (ApiThreads.v) share: threads that create a run with [createRun] and execute
    it, in a world where others do the same.  The ids still to be drawn are in
    no use, and every run belongs to one thread or has ended. *)

From S2P Require Import Prelude Threads JsMap JsString Graph JsNum DomainTypes JsValue Domain Retry Transitions Locks Stores Metrics Validator Expressions Constraints Engine EngineThreads ExecInv Execution Registration Concurrency.
Open Scope Z_scope.

(** How far a call of [createRun] has come. *)
Inductive making : Type :=
| JobRead (found : option JobDefinition)
| WorkflowSaved (run : JobRun) (wf : WorkflowInstance) (def : JobDefinition)
| RunSaved (run : JobRun) (wf : WorkflowInstance) (def : JobDefinition)
| RunMade (run : JobRun) (wf : WorkflowInstance) (def : JobDefinition)
| NotMade (e : JsError).

Definition making_rid (mk : making) : option string :=
  match mk with
  | WorkflowSaved run _ _ | RunSaved run _ _ | RunMade run _ _ => Some (run_id run)
  | JobRead _ | NotMade _ => None
  end.

(** The UUIDs it will draw, and its blocks up to the end. *)
Definition making_uuids (mk : making) : nat :=
  match mk with JobRead (Some def) => 2 + length (tasks def) | _ => 0 end.
Definition making_blocks (mk : making) : nat :=
  match mk with
  | JobRead (Some _) => 3
  | JobRead None | RunSaved _ _ _ => 1
  | WorkflowSaved _ _ _ => 2
  | RunMade _ _ _ | NotMade _ => 0
  end.
Definition made (mk : making) : bool := match mk with RunMade _ _ _ | NotMade _ => true | _ => false end.

Section run_threads.
Context {JS WS RS : Type} `{JobDefinitionStoreLaws JS} `{!WorkflowStore WS} `{!WorkflowStoreLaws WS}
  `{!RunStore RS} `{!RunStoreLaws RS} `{Environment} `{!FixedJobs}.
Notation world := (world JS WS RS).
Notation async := (thread JsError world).
Notation workflow_of rid w := (workflow_getByRunId rid (w_workflows w)).
Notation run_of rid w := (run_get rid (w_runs w)).
Notation new := (JobRun * WorkflowInstance * JobDefinition)%type.

(** ** The world *)

Section fresh.
(** The stored definitions as far as they are fixed, and the UUIDs that may be drawn. *)
Context (jobs : JS) (base N : nat) (Hids : uuids_distinct base N).

(** The ids still to be drawn are in no use. *)
Record fresh_world (w : world) : Prop := {
  fw_ok : workflow_store_ok (w_workflows w);
  fw_locks : map_ok (w_locks w);
  fw_jobs : ∀ id, fixed_job id → job_get id (w_jobs w) = job_get id jobs;
  fw_base : (base ≤ w_uuids w)%nat;
  fw_unlocked : ∀ j, (w_uuids w ≤ j < base + N)%nat → unlocked (id_at "run_" j) w;
  fw_unused : ∀ j r wf, (w_uuids w ≤ j < base + N)%nat → workflow_of r w = Some wf → wf_id wf ≠ id_at "wf_" j;
}.

(** Not one of the ids still to be drawn. *)
Definition known (w : world) (rid : string) : Prop :=
  ∀ j, (w_uuids w ≤ j < base + N)%nat → rid ≠ id_at "run_" j.

Lemma known_mono w w' rid : known w rid → (w_uuids w ≤ w_uuids w')%nat → known w' rid.
Proof. intros Hk Hu j Hj. apply Hk. lia. Qed.

(** The workflow of a run whose record is not stored yet. *)
Record half_made (rid : string) (wf : WorkflowInstance) (w : world) : Prop := {
  hm_get : workflow_of rid w = Some wf;
  hm_apart : ids_apart rid w;
  hm_unlocked : unlocked rid w;
  hm_ok : workflow_store_ok (w_workflows w);
}.

Lemma half_made_stable rid wf w w' : half_made rid wf w → rely rid w w' → half_made rid wf w'.
Proof.
  intros [Hg Ha (Hl & Hk & Hm) Ho] [Hw _ Hok Hap _ Hloc Hlock Hlocks]. split; [congruence|auto| |auto].
  split; [by rewrite Hloc|]. split; [congruence|auto].
Qed.

Lemma rely_some_other rid (w w' : world) : guar rid w w' → ∃ r, rely r w w'.
Proof.
  intros HG. exists ("x" +:+ rid). apply (gu_others _ _ _ HG). intros Heq.
  apply (f_equal String.length) in Heq. change (S (String.length rid) = String.length rid) in Heq. lia.
Qed.

(** A step of an execution of a known run. *)
Lemma fresh_world_guar rid w w' : fresh_world w → known w rid → guar rid w w' → fresh_world w'.
Proof.
  intros [Hok Hk Hj Hba Hun Huw] Hkn HG. destruct (rely_some_other _ _ _ HG) as [r0 Hr0].
  pose proof (gu_uuids _ _ _ HG) as Hu. split; rewrite ?Hu; [by apply Hr0|by apply Hr0|intros id Hf; rewrite <-Hj by done; by apply Hr0|done|..].
  - intros j Hj'. destruct (Hun j Hj') as (Hl & Hlk & Hm).
    destruct (gu_others _ _ _ HG (id_at "run_" j)) as [_ _ _ _ _ Hloc Hlock Hlocks]; [by apply not_eq_sym, Hkn|].
    split; [by rewrite Hloc|]. split; [congruence|auto].
  - intros j r wf Hj' Hwf. destruct (decide (r = rid)) as [->|Hne].
    + pose proof (gu_id _ _ _ HG) as Hid. rewrite Hwf in Hid.
      destruct (workflow_of rid w) as [wf0|] eqn:Hw0; [|done]. injection Hid as ->. by apply (Huw j rid).
    + rewrite (re_workflow _ _ _ (gu_others _ _ _ HG r Hne)) in Hwf. by apply (Huw j r).
Qed.

(** Every stored workflow is its run's, with a legal history. *)
Definition legal (rid : string) (wf : WorkflowInstance) : Prop :=
  wf_runId wf = rid ∧ audited DEFAULT_TRANSITION_RULES wf.
Definition sound (w : world) : Prop := ∀ rid wf, workflow_of rid w = Some wf → legal rid wf.
Definition run_legal (rid : string) (w : world) : Prop := ∃ wf, workflow_of rid w = Some wf ∧ legal rid wf.

Lemma sound_step rid w w' :
  sound w → (∀ r, r ≠ rid → workflow_of r w' = workflow_of r w) → run_legal rid w' → sound w'.
Proof.
  intros Hs Hoth (wf0 & Hwf0 & Hl) r wf Hwf. destruct (decide (r = rid)) as [->|Hne]; [congruence|].
  apply Hs. by rewrite <-Hoth.
Qed.

Lemma holding_legal rid w : holding rid w → run_legal rid w.
Proof. intros (wf & st & []). by exists wf. Qed.

Lemma resting_legal rid wf w : resting rid wf w → run_legal rid w.
Proof. intros []. by exists wf. Qed.

(** ** Creating a run *)

Section making.
Context (jobId trig : string) (input : jsrecord) (Hfixed : fixed_job jobId).
Context (Hjob : ∀ def, job_get jobId jobs = Some def → NoDup (td_id <$> tasks def)).

(** The block that draws and stores the workflow of a new run. *)
Lemma fresh_world_new def w :
  fresh_world w → job_get jobId jobs = Some def →
  (w_uuids w + (2 + length (tasks def)) ≤ base + N)%nat →
  ∃ run wf w1, let w' := with_workflows (workflow_save wf (w_workflows w1)) w1 in
    new_run jobId trig input def w = (Ok (run, wf), w1)
    ∧ drawn jobId trig input def (w_uuids w) run wf
    ∧ fresh_world w' ∧ half_made (run_id run) wf w' ∧ w_uuids w' = (w_uuids w + (2 + length (tasks def)))%nat
    ∧ (∀ r, r ≠ run_id run → rely r w w') ∧ known w' (run_id run) ∧ ¬ known w (run_id run).
Proof.
  intros [Hok Hk Hj Hba Hun Huw] Hget Hb.
  pose proof (Hjob def Hget) as Hnd.
  destruct (new_run_spec jobId trig input def w) as (run & wf & Hnew & Hdr);
    [by apply (uuids_distinct_sub base N); [..|lia|lia]|done|].
  exists run, wf. eexists. intros w'. split; [exact Hnew|]. split; [done|].
  destruct Hdr as [(Hrid & _ & _) (Hwid & Hwr & _ & _) _ _ _].
  assert (∀ r, r ≠ run_id run → workflow_of r w' = workflow_of r w) as Hoth.
  { intros r Hr. apply workflow_getByRunId_save_ne; [done|by rewrite Hwr|]. intros x Hx. rewrite Hwid.
    apply (Huw _ r); [lia|done]. }
  assert (workflow_of (run_id run) w' = Some wf) as Hown.
  { rewrite <-Hwr. apply workflow_getByRunId_save. by rewrite Hwid. }
  assert (workflow_store_ok (w_workflows w')) as Hok' by by apply workflow_save_ok.
  assert (w_uuids w' = (w_uuids w + (2 + length (tasks def)))%nat) as Hu by (simpl; lia).
  split; [|split; [|split; [done|split; [|split]]]].
  - split; rewrite ?Hu; [done|done|done|lia|..].
    + intros j Hj'. apply (Hun j). lia.
    + intros j r x Hj' Hx. destruct (decide (r = run_id run)) as [->|Hne].
      * rewrite Hown in Hx. injection Hx as <-. rewrite Hwid. intros Heq%(id_at_inj _ base N); [lia|done|lia|lia].
      * rewrite Hoth in Hx by done. apply (Huw j r); [lia|done].
  - split; [done| |rewrite Hrid; apply (Hun (w_uuids w)); lia|done].
    intros x r x' Hx Hr Hx'. rewrite Hown in Hx. injection Hx as <-. rewrite Hoth in Hx' by done.
    rewrite Hwid. apply (Huw _ r); [lia|done].
  - intros r Hr. split; try done; [by apply Hoth|].
    intros Hap x r' x' Hx Hne Hx'. rewrite Hoth in Hx by done. destruct (decide (r' = run_id run)) as [->|Hr'].
    + rewrite Hown in Hx'. injection Hx' as <-. rewrite Hwid. apply not_eq_sym. apply (Huw _ r); [lia|done].
    + rewrite Hoth in Hx' by done. by eapply Hap.
  - intros j Hj' Heq. rewrite Hu in Hj'. rewrite Hrid in Heq. apply (id_at_inj _ base N) in Heq; [lia|done|lia|lia].
  - intros Hkn. apply (Hkn (w_uuids w)); [lia|done].
Qed.

(** The block that stores its record. *)
Lemma half_made_save_run def run wf k w :
  half_made (run_id run) wf w → job_get jobId (w_jobs w) = Some def →
  drawn jobId trig input def k run wf →
  let w' := with_runs (run_save run (w_runs w)) w in
  guar (run_id run) w w' ∧ ready (run_id run) def wf w'.
Proof.
  intros [Hg Ha (Hl & Hlk & Hm) Ho] Hget [(Hrid & Hrj & Hst) (Hwid & Hwr & Hws & _) Hmat Hfr Hau] w'. split.
  - split; [|done..]. intros r Hr. split; try done. simpl. by rewrite run_get_save, decide_False by congruence.
  - split; [|exists run; simpl; rewrite run_get_save, decide_True, Hrj by done; done|done..].
    split; try done.
    + by rewrite Hwid.
    + exists run. simpl. rewrite run_get_save, decide_True by done. split; [done|]. split; [done|congruence].
Qed.

(** [createRun] after the lookup, and after the first [save]. *)
Definition after_lookup (found : option JobDefinition) : async new :=
  definition ← atomic (lift_outcome (from_option Ok (Throw (NotFoundError "JobDefinition" jobId)) found));
  '(run, workflow) ← atomic (new_run jobId trig input definition);
  _ ← awaiting (atomic (modify (λ w : world, with_workflows (workflow_save workflow (w_workflows w)) w)));
  _ ← awaiting (atomic (modify (λ w : world, with_runs (run_save run (w_runs w)) w)));
  mret (run, workflow, definition).

Definition after_workflow (run : JobRun) (wf : WorkflowInstance) (def : JobDefinition) : async new :=
  _ ← awaiting (atomic (modify (λ w : world, with_runs (run_save run (w_runs w)) w)));
  mret (run, wf, def).

(** The rest of [await workflows.createRun(...)]. *)
Definition making_thread (mk : making) : async new :=
  match mk with
  | JobRead found => awaiting (after_lookup found)
  | WorkflowSaved run wf def => awaiting (after_workflow run wf def)
  | RunSaved run wf def => awaiting (mret (run, wf, def))
  | RunMade run wf def => mret (run, wf, def)
  | NotMade e => Done (Throw e)
  end.

Lemma making_start (w : world) :
  run_block (awaiting (createRun_async jobId trig input)) w
  = (making_thread (JobRead (job_get jobId (w_jobs w))), w).
Proof. done. Qed.

(** What is known of the run being made. *)
Definition promised (run : JobRun) (wf : WorkflowInstance) (def : JobDefinition) : Prop :=
  job_get jobId jobs = Some def ∧ ∃ k, drawn jobId trig input def k run wf.

Definition making_ok (mk : making) (w : world) : Prop :=
  match mk with
  | JobRead found => found = job_get jobId jobs
  | WorkflowSaved run wf def => promised run wf def ∧ half_made (run_id run) wf w
  | RunSaved run wf def | RunMade run wf def => promised run wf def ∧ ready (run_id run) def wf w
  | NotMade e => job_get jobId jobs = None ∧ e = NotFoundError "JobDefinition" jobId
  end.

Lemma making_ok_stable mk w w' :
  making_ok mk w → (∀ rid, making_rid mk = Some rid → rely rid w w') → making_ok mk w'.
Proof.
  intros Hmk Hr. destruct mk; simpl in *; try done; destruct Hmk; (split; [done|]).
  - by eapply half_made_stable, Hr.
  - by eapply ready_stable, Hr.
  - by eapply ready_stable, Hr.
Qed.

(** What a block changes: the run is made one step further. *)
Record made_further (mk mk' : making) (w w' : world) : Prop := {
  mf_ok : making_ok mk' w';
  mf_fresh : fresh_world w';
  mf_others : ∀ r, making_rid mk' ≠ Some r → rely r w w';
  mf_uuids : (w_uuids w ≤ w_uuids w')%nat;
  mf_rid : ∀ rid, making_rid mk' = Some rid → making_rid mk = Some rid ∨ (known w' rid ∧ ¬ known w rid);
  mf_budget : (w_uuids w' + making_uuids mk' ≤ w_uuids w + making_uuids mk)%nat;
  mf_blocks : (making_blocks mk' < making_blocks mk)%nat;
  mf_sound : sound w → sound w';
}.

Lemma made_job_read found w :
  fresh_world w → found = job_get jobId jobs → (w_uuids w + making_uuids (JobRead found) ≤ base + N)%nat →
  ∃ mk' w', run_block (making_thread (JobRead found)) w = (making_thread mk', w')
    ∧ made_further (JobRead found) mk' w w'.
Proof.
  intros Hw Hf Hb. destruct found as [def|]; symmetry in Hf.
  - destruct (fresh_world_new def w Hw Hf Hb) as (run & wf & w1 & Hnew & Hdr & Hw' & Hhalf & Huu & Hrely & Hkn & Hnk).
    exists (WorkflowSaved run wf def). eexists. split; [|split].
    + cbn -[new_run]. rewrite Hnew. reflexivity.
    + split; [split; [done|by exists (w_uuids w)]|done].
    + done.
    + intros r Hr. apply Hrely. simpl in Hr. congruence.
    + lia.
    + intros rid [= <-]. by right.
    + cbn [making_uuids]. lia.
    + cbn. lia.
    + intros Hs. apply (sound_step (run_id run) w); [done|intros r Hr; by apply Hrely|].
      exists wf. split; [apply Hhalf|]. destruct Hdr as [_ (_ & Hwr & _) _ _ Hau]. done.
  - exists (NotMade (NotFoundError "JobDefinition" jobId)), w. split; [done|]. split; try done. cbn. lia.
Qed.

Lemma made_workflow_saved run wf def w :
  fresh_world w → making_ok (WorkflowSaved run wf def) w → known w (run_id run) →
  ∃ mk' w', run_block (making_thread (WorkflowSaved run wf def)) w = (making_thread mk', w')
    ∧ made_further (WorkflowSaved run wf def) mk' w w'.
Proof.
  intros Hw [Hprom Hhalf] Hkn. pose proof Hprom as (Hget & x & Hdr).
  destruct (half_made_save_run def run wf x w Hhalf) as [HG Hready]; [by rewrite (fw_jobs _ Hw)|done|].
  exists (RunSaved run wf def), (with_runs (run_save run (w_runs w)) w). split; [done|]. split; try done.
  - by eapply fresh_world_guar.
  - intros r Hr. apply (gu_others _ _ _ HG). simpl in Hr. congruence.
  - by left.
  - cbn. lia.
Qed.

(** Every block of [createRun] up to its end. *)
Lemma making_step mk w :
  fresh_world w → making_ok mk w → (∀ rid, making_rid mk = Some rid → known w rid) →
  (w_uuids w + making_uuids mk ≤ base + N)%nat → made mk = false →
  ∃ mk' w', run_block (making_thread mk) w = (making_thread mk', w') ∧ made_further mk mk' w w'.
Proof.
  intros Hw Hmk Hkn Hb Hd. destruct mk as [found|run wf def|run wf def| |]; [..|done|done].
  - by apply made_job_read.
  - apply made_workflow_saved; auto.
  - exists (RunMade run wf def), w. split; [done|]. split; try done; [by left|cbn; lia].
Qed.

(** In code around it, such a block ends in the call. *)
Lemma making_block_around {T B} (K : async new → thread JsError (world * T) B) mk w x :
  (∀ t s x, run_block (K (Await t)) (s, x) = (K t, (s, x))) →
  (∀ m s x, run_block (K (Atomic m)) (s, x) = let '(t, s') := m s in run_block (K t) (s', x)) →
  made mk = false →
  run_block (K (making_thread mk)) (w, x)
  = (K (run_block (making_thread mk) w).1, ((run_block (making_thread mk) w).2, x)).
Proof. intros HA HM Hd. destruct mk; [..|done|done]; by apply run_block_around_awaiting. Qed.
End making.

(** ** Runs and their owners

    [A] is what a client keeps per thread; [rid_of] is the run of a thread, and
    [ok] what it knows, which only depends on that run and on what every block
    keeps ([glob]). *)

Section owners.
Context {A : Type} (rid_of : A → option string) (ok : A → world → Prop).
Context (glob : world → world → Prop) (glob_refl : Reflexive glob).
Context (ok_stable : ∀ a w w', ok a w → glob w w' → (∀ rid, rid_of a = Some rid → rely rid w w') → ok a w').
(** How a run that no thread has any more has ended. *)
Context (result : string → res unit → world → Prop).
Context (result_stable : ∀ rid o w w', result rid o w → rely rid w w' → result rid o w').

(** Every run belongs to one thread or has ended. *)
Record runs_ok (sts : list A) (ends : list (string * res unit)) (w : world) : Prop := {
  ro_ok : ∀ k a, sts !! k = Some a → ok a w;
  ro_known : ∀ k a rid, sts !! k = Some a → rid_of a = Some rid → known w rid;
  ro_apart : ∀ k k' a a' rid, sts !! k = Some a → sts !! k' = Some a' →
    rid_of a = Some rid → rid_of a' = Some rid → k = k';
  ro_ends : ∀ rid o, (rid, o) ∈ ends → result rid o w ∧ known w rid;
  ro_left : ∀ rid o k a, (rid, o) ∈ ends → sts !! k = Some a → rid_of a ≠ Some rid;
}.

(** A thread moves on: its run is the one it had or a new one. *)
Lemma runs_ok_move sts ends w k a a' w' :
  runs_ok sts ends w → sts !! k = Some a → ok a' w' → glob w w' →
  (∀ r, rid_of a' ≠ Some r → rely r w w') → (w_uuids w ≤ w_uuids w')%nat →
  (∀ rid, rid_of a' = Some rid → rid_of a = Some rid ∨ (known w' rid ∧ ¬ known w rid)) →
  runs_ok (<[k := a']> sts) ends w'.
Proof using ok_stable result_stable.
  intros [Hst Hkn Hap Hen Hle] Hk Hst' Hglob Hrely Hu Hnew.
  assert (∀ k2 a2 rid, k2 ≠ k → sts !! k2 = Some a2 → rid_of a2 = Some rid → rid_of a' ≠ Some rid) as Hoth.
  { intros k2 a2 rid Hne Hk2 Hr2 Hr. destruct (Hnew rid Hr) as [Hr1|[_ Hn]]; [|by destruct Hn; eapply Hkn].
    apply Hne. by eapply Hap. }
  assert (∀ rid o, (rid, o) ∈ ends → rid_of a' ≠ Some rid) as Hend.
  { intros rid o Hin Hr. destruct (Hnew rid Hr) as [Hr1|[_ Hn]]; [by eapply Hle|]. destruct Hn. by eapply Hen. }
  split.
  - intros k2 a2 Hin. destruct (lookup_insert_cases _ _ _ _ _ _ Hk Hin) as [[-> ->]|[Hne Hin2]]; [done|].
    eapply ok_stable; [by eapply Hst|done|]. intros rid Hr. apply Hrely. by eapply Hoth.
  - intros k2 a2 rid Hin Hr. destruct (lookup_insert_cases _ _ _ _ _ _ Hk Hin) as [[-> ->]|[Hne Hin2]].
    + destruct (Hnew rid Hr) as [Hr1|[? _]]; [|done]. by eapply known_mono; [eapply Hkn|].
    + by eapply known_mono; [eapply Hkn|].
  - intros k1 k2 a1 a2 rid Hk1 Hk2 Hr1 Hr2.
    destruct (lookup_insert_cases _ _ _ _ _ _ Hk Hk1) as [[-> ->]|[Hne1 Hk1']],
      (lookup_insert_cases _ _ _ _ _ _ Hk Hk2) as [[-> ->]|[Hne2 Hk2']]; [done|..|by eapply Hap].
    + by destruct (Hoth _ _ rid Hne2 Hk2').
    + by destruct (Hoth _ _ rid Hne1 Hk1').
  - intros rid o Hin. destruct (Hen rid o Hin) as [Hres Hk']. split; [|by eapply known_mono].
    eapply result_stable; [done|]. by eapply Hrely, Hend.
  - intros rid o k2 a2 Hin Hk2. destruct (lookup_insert_cases _ _ _ _ _ _ Hk Hk2) as [[-> ->]|[Hne2 Hk2']]; [by eapply Hend|].
    by eapply Hle.
Qed.

(** A thread leaves the run that has ended. *)
Lemma runs_ok_end sts ends w k a a' rid o :
  runs_ok sts ends w → sts !! k = Some a → rid_of a = Some rid → result rid o w → rid_of a' = None → ok a' w →
  runs_ok (<[k := a']> sts) ((rid, o) :: ends) w.
Proof using glob_refl ok_stable result_stable.
  intros Hok Hk Hr Hres Hr' Ha'.
  destruct (runs_ok_move sts ends w k a a' w Hok Hk) as [Hst Hkn Hap Hen Hle]; [done|done|done|lia|by rewrite Hr'|].
  split; [done|done|done|..].
  - intros rid' o' [[= -> ->]|Hin]%elem_of_cons; [|by apply Hen]. split; [done|]. by eapply ro_known.
  - intros rid' o' k2 a2 [[= -> ->]|Hin]%elem_of_cons Hk2; [|by eapply Hle].
    destruct (lookup_insert_cases _ _ _ _ _ _ Hk Hk2) as [[-> ->]|[Hne2 Hk2']]; [congruence|].
    intros Hr2. apply Hne2. by eapply (ro_apart _ _ _ Hok).
Qed.
End owners.
End fresh.

(** Fewer ids, from a later point on. *)
Lemma fresh_world_sub jobs base N base' N' w :
  fresh_world jobs base N w → (base ≤ base')%nat → (base' ≤ w_uuids w)%nat → (base' + N' ≤ base + N)%nat →
  fresh_world jobs base' N' w.
Proof.
  intros [Hok Hk Hj Hb Hl Hu] Hlow Hdrawn Hup. split; [done..|lia| |].
  - intros j Hr. apply Hl. lia.
  - intros j r wf Hr. apply Hu. lia.
Qed.

(** *** After a call of [createRun] that nothing interrupts *)
Lemma created_world jobs base N jobId trig input def (w : world) :
  uuids_distinct base N → fixed_job jobId → (∀ def, job_get jobId jobs = Some def → NoDup (td_id <$> tasks def)) →
  fresh_world jobs base N w → sound w → job_get jobId jobs = Some def →
  (w_uuids w + (2 + length (tasks def)) ≤ base + N)%nat →
  ∃ run wf w', createRun jobId trig input w = (Ok (run, wf, def), w')
    ∧ ready (run_id run) def wf w' ∧ fresh_world jobs base N w' ∧ sound w' ∧ known base N w' (run_id run)
    ∧ run_id run = id_at "run_" (w_uuids w) ∧ w_uuids w' = (w_uuids w + (2 + length (tasks def)))%nat.
Proof.
  intros Hids Hfix Hnd Hw Hs Hget Hb.
  destruct (fresh_world_new jobs base N Hids jobId trig input Hnd def w Hw Hget Hb)
    as (run & wf & w1 & Hnew & Hdr & Hw' & Hhalf & Hu & Hr & Hkn & _).
  destruct (half_made_save_run jobId trig input Hfix def run wf (w_uuids w) _ Hhalf) as [HG Hready];
    [by rewrite (fw_jobs _ _ _ _ Hw')|done|].
  exists run, wf. eexists. split; [apply createRun_stores; [by rewrite (fw_jobs _ _ _ _ Hw)|exact Hnew]|].
  split; [exact Hready|]. split; [by eapply fresh_world_guar|]. split; [|split; [done|split; [apply Hdr|done]]].
  apply (sound_step (run_id run) w); [done|intros r Hne; apply (Hr r Hne)|].
  eapply resting_legal, Hready.
Qed.
End run_threads.
