(* ===== verification/BatchThreads.v ===== *)
(** * Batches over the engine's threads (batch/coordinator.ts)

    The workers of [BatchCoordinator.execute] as threads that create and execute
    their runs with the asynchronous operations of EngineThreads.v, and share the
    queue, the progress and the pool.  Every interleaving of their blocks is an
    execution of Batch.v, and every run they start ends. *)

From S2P Require Import Prelude Threads JsMap JsString Graph JsNum DomainTypes JsValue Domain Retry Transitions Locks Stores Metrics Validator Expressions Constraints Engine EngineThreads ExecInv Execution Registration Concurrency EngineProps Pool Batch RunThreads.
From stdpp Require Import relations.
Open Scope Z_scope.

(** ** The shared state *)

(** What the closures of the workers share. *)
Record Shared : Type := mkShared {
  sh_queue : list BatchJobItem;
  sh_progress : BatchProgress;
  sh_pool : WorkerPool;
  sh_errors : list string;
}.

Definition shared_of (s : BatchState) : Shared :=
  mkShared (b_queue s) (b_progress s) (b_pool s) (b_errors s).

(** [while (queue.length) { const item = queue.shift(); ... state.running += 1]. *)
Definition next_item (sh : Shared) : option BatchJobItem * Shared :=
  match sh_queue sh with
  | [] => (None, sh)
  | item :: queue => (Some item, mkShared queue (add_counts 0 0 1 (sh_progress sh)) (sh_pool sh) (sh_errors sh))
  end.

Definition record_run (item : BatchJobItem) (id at_ : string) (sh : Shared) : Shared :=
  mkShared (sh_queue sh) (push_run id (sh_progress sh))
    (pool_enqueue (mkQueuedRun id (default PriorityNormal (item_priority item)) at_) (sh_pool sh)) (sh_errors sh).

Definition count_completed (sh : Shared) : Shared :=
  mkShared (sh_queue sh) (add_counts 1 0 0 (sh_progress sh)) (sh_pool sh) (sh_errors sh).

(** The [catch] block. *)
Definition count_failed (item : BatchJobItem) (sh : Shared) : Shared :=
  mkShared (if continues item then sh_queue sh else []) (add_counts 0 1 0 (sh_progress sh)) (sh_pool sh)
    (sh_errors sh ++ [item_label item]).

(** The [finally] block. *)
Definition leave_item (sh : Shared) : Shared :=
  mkShared (sh_queue sh) (add_counts 0 0 (-1) (sh_progress sh)) (sh_pool sh) (sh_errors sh).

Lemma add_counts_add c f r c' f' r' p :
  add_counts c f r (add_counts c' f' r' p) = add_counts (c' + c) (f' + f) (r' + r) p.
Proof. unfold add_counts. simpl. f_equal; lia. Qed.

(** Batches change no definition. *)
#[local] Existing Instance every_job.

Section batch_threads.
Context {JS WS RS : Type} `{JobDefinitionStoreLaws JS} `{!WorkflowStore WS} `{!WorkflowStoreLaws WS}
  `{!RunStore RS} `{!RunStoreLaws RS} `{Environment}.
Notation world := (world JS WS RS).
Notation async := (thread JsError world).
Notation state := (world * Shared)%type.
Notation workflow_of rid w := (workflow_getByRunId rid (w_workflows w)).
Notation run_of rid w := (run_get rid (w_runs w)).
Notation new := (JobRun * WorkflowInstance * JobDefinition)%type.

Context (fuel : nat) (m : BatchManifest).

(** ** The workers *)

Definition on_shared {A} (f : Shared → A * Shared) : thread JsError state A :=
  atomic (λ '(w, sh), let '(a, sh') := f sh in (Ok a, (w, sh'))).

(** The [try] block after [createRun]. *)
Definition execute_item_async (item : BatchJobItem) (created : new) : thread JsError state unit :=
  let id := run_id created.1.1 in
  at_ ← framed (atomic now);
  _ ← on_shared (λ sh, (tt, record_run item id at_ sh));
  _ ← framed (awaiting (executeRun_async fuel id));
  on_shared (λ sh, (tt, count_completed sh)).

Definition item_async (item : BatchJobItem) : thread JsError state unit :=
  created ← framed (awaiting (createRun_async (item_jobId item) ("batch:" +:+ bm_id m) (item_input item)));
  execute_item_async item created.

(** [try], [catch] and [finally] around the body [t] of an item. *)
Definition guarded (item : BatchJobItem) (t : thread JsError state unit) : thread JsError state unit :=
  finally_thread (catch_thread t (λ _, on_shared (λ sh, (tt, count_failed item sh))))
    (λ '(w, sh), (w, leave_item sh)).

(** The loop of a worker, for at most [turns] items. *)
Fixpoint worker_async (turns : nat) : thread JsError state unit :=
  match turns with
  | O => Done OutOfFuel
  | S turns =>
      next ← on_shared next_item;
      match next with
      | None => mret tt
      | Some item => _ ← guarded item (item_async item); worker_async turns
      end
  end.

(** [Array.from({ length: parallel }, async () => ...)]: a turn for every item
    and one to find the queue empty. *)
Definition workers_async : list (thread JsError state unit) :=
  replicate (Z.to_nat (parallel m)) (worker_async (S (length (items m)))).

(** ** The stages of a worker *)

(** Where a suspended worker stands, with the turns its loop has left. *)
Inductive stage : Type :=
| AtHead
| Making (item : BatchJobItem) (mk : making)
| Underway (item : BatchJobItem) (rid : string) (def : JobDefinition) (n : nat) (t : async unit)
| Ended.

Definition trigger_of : string := "batch:" +:+ bm_id m.
Notation making_item item := (making_thread (item_jobId item) trigger_of (item_input item)).

Definition creating (item : BatchJobItem) (turns : nat) (t : async new) : thread JsError state unit :=
  guarded item (framed t ≫= execute_item_async item) ≫= λ _, worker_async turns.

Definition executing (item : BatchJobItem) (turns : nat) (t : async unit) : thread JsError state unit :=
  guarded item (framed t ≫= λ _, on_shared (λ sh, (tt, count_completed sh))) ≫= λ _, worker_async turns.

Definition thread_of (st : nat * stage) : thread JsError state unit :=
  let '(turns, st) := st in
  match st with
  | AtHead => worker_async turns
  | Making item mk => creating item turns (making_item item mk)
  | Underway item rid def n t => executing item turns t
  | Ended => Done (Ok tt)
  end.

Definition worker_of (st : stage) : Worker :=
  match st with
  | AtHead => Idle
  | Making item _ => Creating item
  | Underway item rid _ _ _ => Executing item rid
  | Ended => Finished
  end.

Definition stage_rid (st : nat * stage) : option string :=
  match st.2 with
  | Making _ mk => making_rid mk
  | Underway _ rid _ _ _ => Some rid
  | AtHead | Ended => None
  end.

(** ** The blocks *)

Lemma executing_block item turns t (w : world) sh :
  run_block (executing item turns t) (w, sh) = (executing item turns (run_block t w).1, ((run_block t w).2, sh))
  ∨ (is_done (run_block t w).1 = true
     ∧ run_block (executing item turns t) (w, sh)
       = run_block (executing item turns (run_block t w).1) ((run_block t w).2, sh)).
Proof.
  apply (run_block_around (executing item turns)); [done|]. intros f w' sh'. cbn. by destruct (f w').
Qed.

Lemma creating_block item turns mk (w : world) sh :
  made mk = false →
  run_block (creating item turns (making_item item mk)) (w, sh)
  = (creating item turns (run_block (making_item item mk) w).1, ((run_block (making_item item mk) w).2, sh)).
Proof.
  apply (making_block_around _ _ _ (creating item turns)); [done|]. intros f w' sh'. cbn. by destruct (f w').
Qed.

Lemma block_executed item turns (w : world) sh :
  run_block (executing item turns (Done (Ok tt))) (w, sh)
  = run_block (worker_async turns) (w, leave_item (count_completed sh)).
Proof. done. Qed.

Lemma block_execute_failed item turns e (w : world) sh :
  run_block (executing item turns (Done (Throw e))) (w, sh)
  = run_block (worker_async turns) (w, leave_item (count_failed item sh)).
Proof. done. Qed.

Lemma block_not_created item turns e (w : world) sh :
  run_block (creating item turns (Done (Throw e))) (w, sh)
  = run_block (worker_async turns) (w, leave_item (count_failed item sh)).
Proof. done. Qed.

Lemma block_created item turns run wf def (w : world) sh :
  run_block (creating item turns (mret (run, wf, def))) (w, sh)
  = run_block (executing item turns (awaiting (executeRun_async fuel (run_id run))))
      (with_ticks (S (w_ticks w)) w, record_run item (run_id run) (nowIso (w_ticks w)) sh).
Proof. done. Qed.

Lemma block_head turns (w : world) sh :
  run_block (worker_async (S turns)) (w, sh)
  = match next_item sh with
    | (None, sh') => (Done (Ok tt), (w, sh'))
    | (Some item, sh') =>
        (creating item turns (making_item item (JobRead (job_get (item_jobId item) (w_jobs w)))), (w, sh'))
    end.
Proof. cbn. unfold next_item. by destruct (sh_queue sh). Qed.

(** ** The invariant *)

Section invariant.
(** The definitions the items name; the UUIDs the batch may draw. *)
Context (jobs : JS) (base N : nat) (Hids : uuids_distinct base N).
Context (Hitems : ∀ item def, item ∈ items m → job_get (item_jobId item) jobs = Some def →
  executable def ∧ (attempts_of def < fuel)%nat ∧ NoDup (td_id <$> tasks def)).

(** *** The workers and their runs *)

(** How the run [rid] of the batch has ended. *)
Definition run_result (rid : string) (o : res unit) (w : world) : Prop :=
  ∃ item def wf, item ∈ items m ∧ job_get (item_jobId item) jobs = Some def
    ∧ run_end def o wf ∧ resting rid wf w.

Lemma run_result_stable rid o w w' : run_result rid o w → rely rid w w' → run_result rid o w'.
Proof. intros (item & def & wf & ? & ? & ? & ?) Hr. exists item, def, wf. do 3 (split; [done|]). by eapply resting_stable. Qed.

Definition stage_ok (st : nat * stage) (w : world) : Prop :=
  match st.2 with
  | AtHead | Ended => True
  | Making item mk => item ∈ items m ∧ making_ok jobs (item_jobId item) trigger_of (item_input item) mk w
  | Underway item rid def n t =>
      item ∈ items m ∧ job_get (item_jobId item) jobs = Some def
      ∧ parked (rely rid) (guar rid) (λ _, True) (run_over rid def) n t w
  end.

Lemma stage_ok_stable st w w' :
  stage_ok st w → (∀ rid, stage_rid st = Some rid → rely rid w w') → stage_ok st w'.
Proof.
  destruct st as [turns st]. intros Hst Hr. destruct st; simpl in *; try done.
  - destruct Hst. split; [done|]. by eapply making_ok_stable.
  - destruct Hst as (? & ? & ?). split; [done|]. split; [done|]. by eapply parked_stable, Hr; [apply _|..].
Qed.

Notation batch_world := (fresh_world jobs base N).
Notation known := (known base N).
Notation runs_ok := (runs_ok base N stage_rid stage_ok run_result).
Notation runs_move := (runs_ok_move base N stage_rid stage_ok (λ _ _, True) (λ a w w' Ha _, stage_ok_stable a w w' Ha) run_result run_result_stable).
Notation runs_end := (runs_ok_end base N stage_rid stage_ok (λ _ _, True) (λ _, I) (λ a w w' Ha _, stage_ok_stable a w w' Ha) run_result run_result_stable).

(** *** The progress *)

Definition underway (st : nat * stage) : option string :=
  match st.2 with Underway _ rid _ _ _ => Some rid | _ => None end.

Lemma underway_rid st rid : underway st = Some rid → stage_rid st = Some rid.
Proof. by destruct st as [turns []]. Qed.

Definition ended_well (ends : list (string * res unit)) : nat :=
  length (List.filter (λ x, match x.2 with Ok _ => true | _ => false end) ends).

(** The run ids of the progress are those of the runs that have ended or are
    being executed; [completed] counts the executions that did not throw. *)
Record progress_ok (sts : list (nat * stage)) (ends : list (string * res unit)) (p : BatchProgress) : Prop := {
  po_ids : ∀ rid, rid ∈ runIds p ↔
    rid ∈ ends.*1 ∨ ∃ k st, sts !! k = Some st ∧ underway st = Some rid;
  po_distinct : NoDup (runIds p) ∧ NoDup ends.*1;
  po_completed : completed p = Z.of_nat (ended_well ends);
}.

Lemma progress_ok_move sts ends p k st st' p' :
  progress_ok sts ends p → sts !! k = Some st → underway st' = underway st →
  runIds p' = runIds p → completed p' = completed p → progress_ok (<[k := st']> sts) ends p'.
Proof.
  intros [Hids' Hd Hc] Hk Hu Hi Hc'. split; rewrite ?Hi, ?Hc'; [|done..]. intros rid. rewrite Hids'.
  apply or_iff_compat_l. split.
  - intros (k2 & s2 & Hk2 & Hr). destruct (decide (k2 = k)) as [->|Hne].
    + exists k, st'. rewrite list_lookup_insert_eq by (by eapply lookup_lt_Some). split; [done|]. congruence.
    + exists k2, s2. by rewrite list_lookup_insert_ne.
  - intros (k2 & s2 & Hk2 & Hr). destruct (lookup_insert_cases _ _ _ _ _ _ Hk Hk2) as [[-> ->]|[Hne Hk2']].
    + exists k, st. split; [done|]. congruence.
    + by exists k2, s2.
Qed.

Lemma progress_ok_start sts ends p w k st st' rid p' :
  progress_ok sts ends p → runs_ok sts ends w → sts !! k = Some st →
  stage_rid st = Some rid → underway st = None → underway st' = Some rid →
  runIds p' = runIds p ++ [rid] → completed p' = completed p → progress_ok (<[k := st']> sts) ends p'.
Proof.
  intros [Hids' [Hd1 Hd2] Hc] [_ _ Hap _ Hle] Hk Hr Hu Hu' Hi Hc'. split; rewrite ?Hi, ?Hc'; [..|done].
  - intros rid'. rewrite elem_of_app, list_elem_of_singleton, Hids'. split.
    + intros [[Hin|(k2 & s2 & Hk2 & Hr2)]| ->]; [by left|right..].
      * exists k2, s2. rewrite list_lookup_insert_ne; [done|]. intros ->. congruence.
      * exists k, st'. by rewrite list_lookup_insert_eq by (by eapply lookup_lt_Some).
    + intros [Hin|(k2 & s2 & Hk2 & Hr2)]; [by left; left|].
      destruct (lookup_insert_cases _ _ _ _ _ _ Hk Hk2) as [[-> ->]|[Hne Hk2']]; [right; congruence|].
      left; right. by exists k2, s2.
  - split; [|done]. apply NoDup_app. split; [done|]. split; [|apply NoDup_singleton].
    intros rid' Hin ->%list_elem_of_singleton. apply Hids' in Hin as [Hin|(k2 & s2 & Hk2 & Hr2)].
    + apply list_elem_of_fmap in Hin as ([rid' o] & -> & Hin). by eapply Hle.
    + assert (k2 = k) as -> by (eapply Hap; [done..|by apply underway_rid|done]). congruence.
Qed.

Lemma progress_ok_end sts ends p w k st st' rid (o : res unit) p' :
  progress_ok sts ends p → runs_ok sts ends w → sts !! k = Some st →
  underway st = Some rid → underway st' = None → runIds p' = runIds p →
  completed p' = completed p + (match o with Ok _ => 1 | _ => 0 end) →
  progress_ok (<[k := st']> sts) ((rid, o) :: ends) p'.
Proof.
  intros [Hids' [Hd1 Hd2] Hc] [_ _ Hap _ Hle] Hk Hr Hu' Hi Hc'. split; rewrite ?Hi, ?Hc'.
  - intros rid'. rewrite Hids'. cbn. rewrite elem_of_cons. split.
    + intros [Hin|(k2 & s2 & Hk2 & Hr2)]; [by left; right|].
      destruct (decide (k2 = k)) as [->|Hne]; [left; left; congruence|].
      right. exists k2, s2. by rewrite list_lookup_insert_ne.
    + intros [[->|Hin]|(k2 & s2 & Hk2 & Hr2)]; [right; by exists k, st|by left|].
      destruct (lookup_insert_cases _ _ _ _ _ _ Hk Hk2) as [[-> ->]|[Hne Hk2']]; [congruence|].
      right. by exists k2, s2.
  - split; [done|]. cbn. apply NoDup_cons. split; [|done].
    intros ([rid' o'] & Heq & Hin)%list_elem_of_fmap. simpl in Heq. subst rid'.
    by eapply (Hle rid o' k); [done..|apply underway_rid].
  - rewrite Hc. unfold ended_well. cbn. destruct o; cbn; lia.
Qed.

(** *** The queue and what is left to do *)

Definition found_in (item : BatchJobItem) : option JobDefinition := job_get (item_jobId item) jobs.

(** The UUIDs an item needs, and the blocks it takes; its last block is also the
    first of the next item. *)
Definition item_uuids (item : BatchJobItem) : nat := making_uuids (JobRead (found_in item)).

Definition blocks_after_making (found : option JobDefinition) : nat :=
  match found with Some def => run_blocks def + 3 | None => 1 end.

Definition item_blocks (item : BatchJobItem) : nat :=
  making_blocks (JobRead (found_in item)) + blocks_after_making (found_in item).

Definition stage_uuids (st : nat * stage) : nat :=
  match st.2 with Making _ mk => making_uuids mk | _ => 0 end.

Definition stage_blocks (st : nat * stage) : nat :=
  match st.2 with
  | AtHead => 1
  | Making item mk => making_blocks mk + blocks_after_making (found_in item)
  | Underway _ _ _ n t => 1 + Threads.blocks n t
  | Ended => 0
  end.

Definition blocks_to_run (sts : list (nat * stage)) (s : BatchState) : nat :=
  sum_list_with item_blocks (b_queue s) + sum_list_with stage_blocks sts.

Record queue_ok (sts : list (nat * stage)) (s : BatchState) (w : world) : Prop := {
  qo_turns : ∀ k turns st, sts !! k = Some (turns, st) → st = Ended ∨ (length (b_queue s) < turns)%nat;
  qo_items : ∀ item, item ∈ b_queue s → item ∈ items m;
  qo_uuids : (w_uuids w + (sum_list_with item_uuids (b_queue s) + sum_list_with stage_uuids sts) ≤ base + N)%nat;
}.

Lemma queue_ok_move sts s w k turns st turns' st' s' w' :
  queue_ok sts s w → sts !! k = Some (turns, st) → b_queue s' `suffix_of` b_queue s →
  (st' = Ended ∨ (length (b_queue s') < turns')%nat) →
  (w_uuids w' + (sum_list_with item_uuids (b_queue s') + stage_uuids (turns', st'))
   ≤ w_uuids w + (sum_list_with item_uuids (b_queue s) + stage_uuids (turns, st)))%nat →
  queue_ok (<[k := (turns', st')]> sts) s' w'.
Proof.
  intros [Ht Hi Hu] Hk Hsuf Ht' Hu'. split.
  - intros k2 t2 s2 Hk2. destruct (lookup_insert_cases _ _ _ _ _ _ Hk Hk2) as [[-> [= -> ->]]|[Hne Hk2']]; [done|].
    destruct (Ht k2 t2 s2 Hk2') as [|Hlt]; [by left|right]. apply suffix_length in Hsuf. lia.
  - intros item Hin. apply Hi. destruct Hsuf as [l ->]. apply elem_of_app. by right.
  - pose proof (sum_list_with_insert stage_uuids sts k (turns, st) (turns', st') Hk). lia.
Qed.

(** ** The simulation *)

Context (pool : WorkerPool).

(** The workers stand where the execution [s] of Batch.v has them. *)
Record batch_sim (sts : list (nat * stage)) (ends : list (string * res unit)) (s : BatchState) (w : world) : Prop := {
  bs_world : batch_world w;
  bs_runs : runs_ok sts ends w;
  bs_progress : progress_ok sts ends (b_progress s);
  bs_queue : queue_ok sts s w;
  bs_workers : b_workers s = worker_of ∘ snd <$> sts;
  bs_reach : ∃ es, batch_run (init_batch m pool) es = Some s;
}.

Lemma bs_worker sts ends s w k turns st :
  batch_sim sts ends s w → sts !! k = Some (turns, st) → b_workers s !! k = Some (worker_of st).
Proof. intros Hs Hk. rewrite (bs_workers _ _ _ _ Hs), list_lookup_fmap, Hk. done. Qed.

Lemma bs_workers_insert sts ends s w k st turns :
  batch_sim sts ends s w → <[k := worker_of st]> (b_workers s) = worker_of ∘ snd <$> <[k := (turns, st)]> sts.
Proof. intros Hs. by rewrite (bs_workers _ _ _ _ Hs), list_fmap_insert. Qed.

Lemma bs_event sts ends s w e s' :
  batch_sim sts ends s w → batch_step s e = Some s' → ∃ es, batch_run (init_batch m pool) es = Some s'.
Proof. intros Hs He. destruct (bs_reach _ _ _ _ Hs) as [es Hes]. exists (es ++ [e]). by eapply batch_run_snoc. Qed.

(** A block that no event of Batch.v corresponds to. *)
Lemma sim_move sts ends s w k turns st st' w' :
  batch_sim sts ends s w → sts !! k = Some (turns, st) → worker_of st' = worker_of st →
  stage_ok (turns, st') w' → batch_world w' →
  (∀ r, stage_rid (turns, st') ≠ Some r → rely r w w') → (w_uuids w ≤ w_uuids w')%nat →
  (∀ rid, stage_rid (turns, st') = Some rid → stage_rid (turns, st) = Some rid ∨ (known w' rid ∧ ¬ known w rid)) →
  (w_uuids w' + stage_uuids (turns, st') ≤ w_uuids w + stage_uuids (turns, st))%nat →
  batch_sim (<[k := (turns, st')]> sts) ends s w'.
Proof.
  intros Hs Hk Hwk Hst Hw Hr Hu Hrid Hb. pose proof Hs as [_ Hruns Hp Hq Hws Hre]. split; [done|..|done].
  - by eapply runs_move.
  - eapply progress_ok_move; [done..| |done|done]. destruct st, st'; simpl in *; unfold underway; simpl; congruence.
  - eapply queue_ok_move; [done|done|done| |lia].
    destruct (qo_turns _ _ _ Hq _ _ _ Hk) as [->|?]; [left|by right]. by destruct st'.
  - rewrite <-(bs_workers_insert sts ends s w k st' turns Hs), Hwk. symmetry. apply list_insert_id.
    by eapply bs_worker.
Qed.

(** The head of the loop. *)
Lemma sim_head sts ends s w k turns :
  batch_sim sts ends s w → sts !! k = Some (turns, AtHead) →
  ∃ st' s', run_block (worker_async turns) (w, shared_of s) = (thread_of st', (w, shared_of s'))
    ∧ batch_sim (<[k := st']> sts) ends s' w
    ∧ (blocks_to_run (<[k := st']> sts) s' < blocks_to_run sts s)%nat.
Proof.
  intros Hs Hk. pose proof Hs as [Hw Hruns Hp Hq Hws Hre].
  destruct (qo_turns _ _ _ Hq _ _ _ Hk) as [|Hlt]; [done|]. destruct turns as [|turns]; [lia|].
  pose proof (bs_event _ _ _ _ (Resume k) (take_item k s) Hs) as Hev. cbn [batch_step] in Hev.
  rewrite (bs_worker _ _ _ _ _ _ _ Hs Hk) in Hev. specialize (Hev eq_refl).
  assert (∀ s' st', b_workers s' = <[k := worker_of st']> (b_workers s) →
    b_workers s' = worker_of ∘ snd <$> <[k := (turns, st')]> sts) as Hwork
    by (intros s' st' ->; by apply (bs_workers_insert sts ends s w)).
  rewrite block_head. unfold take_item in Hev. unfold next_item. destruct s as [queue p pl ws errs]. simpl in *.
  destruct queue as [|item queue]; simpl in *.
  - exists (turns, Ended), (set_worker k Finished (mkBatchState [] p pl ws errs)). split; [done|]. split.
    + split; [done|..|done]; simpl.
      * eapply runs_move; [exact Hruns|exact Hk|done|done|done|lia|done].
      * by eapply progress_ok_move.
      * eapply queue_ok_move; [exact Hq|exact Hk|done|by left|cbn; lia].
      * by apply (Hwork (mkBatchState [] p pl (<[k:=Finished]> ws) errs)).
    + unfold blocks_to_run. simpl.
      pose proof (sum_list_with_insert stage_blocks sts k _ (turns, Ended) Hk) as Hb. cbn in Hb. lia.
  - exists (turns, Making item (JobRead (found_in item))), (mkBatchState queue (add_counts 0 0 1 p) pl (<[k:=Creating item]> ws) errs).
    split; [by unfold found_in; rewrite <-(fw_jobs _ _ _ _ Hw) by exact I|]. split.
    + split; [done|..|done]; simpl.
      * eapply runs_move; [done|done| |done|done|lia|done]. split; [|done]. apply (qo_items _ _ _ Hq). by left.
      * eapply progress_ok_move; [done..|]. simpl. lia.
      * eapply queue_ok_move; [done|done|by apply suffix_cons_r|right; simpl in *; lia|].
        cbn -[making_uuids]. fold (item_uuids item). lia.
      * by apply (Hwork (mkBatchState queue p pl (<[k:=Creating item]> ws) errs)).
    + unfold blocks_to_run. simpl.
      pose proof (sum_list_with_insert stage_blocks sts k _ (turns, Making item (JobRead (found_in item))) Hk) as Hb.
      unfold stage_blocks at 2 4 in Hb. cbn [snd] in Hb. fold (item_blocks item) in Hb. lia.
Qed.

(** The end of an item, after an execution or without one. *)
Lemma shared_completed k s : leave_item (count_completed (shared_of s)) = shared_of (item_completed k s).
Proof. unfold leave_item, count_completed, shared_of. simpl. by rewrite add_counts_add. Qed.

Lemma shared_failed k item s : leave_item (count_failed item (shared_of s)) = shared_of (item_failed k item s).
Proof. unfold leave_item, count_failed, shared_of. simpl. by rewrite add_counts_add. Qed.

Lemma failed_queue k item s : b_queue (item_failed k item s) `suffix_of` b_queue s.
Proof. simpl. destruct (continues item); [done|apply suffix_nil]. Qed.

Lemma queue_suffix_sum f (q q' : list BatchJobItem) : q' `suffix_of` q → (sum_list_with f q' ≤ sum_list_with f q)%nat.
Proof. intros [l ->]. rewrite sum_list_with_app. lia. Qed.

Lemma sim_over sts ends s w k turns item rid def n o :
  batch_sim sts ends s w → sts !! k = Some (turns, Underway item rid def n (Done o)) →
  ∃ s', run_block (executing item turns (Done o)) (w, shared_of s) = run_block (worker_async turns) (w, shared_of s')
    ∧ batch_sim (<[k := (turns, AtHead)]> sts) ((rid, o) :: ends) s' w
    ∧ (blocks_to_run (<[k := (turns, AtHead)]> sts) s' ≤ blocks_to_run sts s)%nat.
Proof.
  intros Hs Hk. pose proof Hs as [Hw Hruns Hp Hq Hws Hre].
  destruct (ro_ok _ _ _ _ _ _ _ _ Hruns _ _ Hk) as (Hit & Hget & Hpk).
  destruct (Hpk w) as (wf & Hrest & Hend); [done|].
  assert (run_result rid o w) as Hres by by exists item, def, wf.
  pose proof (sum_list_with_insert stage_blocks sts k _ (turns, AtHead) Hk) as Hb. cbn in Hb.
  destruct (qo_turns _ _ _ Hq _ _ _ Hk) as [|Hlt]; [done|].
  assert (∀ s' e, batch_step s e = Some s' → b_workers s' = <[k := Idle]> (b_workers s) →
    b_queue s' `suffix_of` b_queue s → runIds (b_progress s') = runIds (b_progress s) →
    completed (b_progress s') = completed (b_progress s) + (match o with Ok _ => 1 | _ => 0 end) →
    batch_sim (<[k := (turns, AtHead)]> sts) ((rid, o) :: ends) s' w
    ∧ (blocks_to_run (<[k := (turns, AtHead)]> sts) s' ≤ blocks_to_run sts s)%nat) as Hgo.
  { intros s' e He Hwk Hsuf Hids' Hc. pose proof (queue_suffix_sum item_uuids _ _ Hsuf) as Hsu.
    pose proof (queue_suffix_sum item_blocks _ _ Hsuf) as Hsb. pose proof (suffix_length _ _ Hsuf). split; [|unfold blocks_to_run; lia].
    split; [done|..].
    - by eapply runs_end.
    - by eapply progress_ok_end.
    - eapply queue_ok_move; [exact Hq|exact Hk|done|right; lia|cbn; lia].
    - rewrite Hwk. by apply (bs_workers_insert sts ends s w k AtHead).
    - by eapply bs_event. }
  pose proof (bs_worker _ _ _ _ _ _ _ Hs Hk) as Hwk. inversion Hend; subst.
  - exists (item_completed k s). rewrite block_executed, (shared_completed k). split; [done|].
    apply (Hgo _ (Executed k)); [cbn; by rewrite Hwk|done..].
  - exists (item_completed k s). rewrite block_executed, (shared_completed k). split; [done|].
    apply (Hgo _ (Executed k)); [cbn; by rewrite Hwk|done..].
  - exists (item_failed k item s). rewrite block_execute_failed, (shared_failed k). split; [done|].
    apply (Hgo _ (ExecuteFailed k)); [cbn; by rewrite Hwk|done|apply failed_queue|done|simpl; lia].
Qed.

Lemma sim_not_created sts ends s w k turns item e :
  batch_sim sts ends s w → sts !! k = Some (turns, Making item (NotMade e)) →
  ∃ s', run_block (creating item turns (Done (Throw e))) (w, shared_of s) = run_block (worker_async turns) (w, shared_of s')
    ∧ batch_sim (<[k := (turns, AtHead)]> sts) ends s' w
    ∧ (blocks_to_run (<[k := (turns, AtHead)]> sts) s' ≤ blocks_to_run sts s)%nat.
Proof.
  intros Hs Hk. pose proof Hs as [Hw Hruns Hp Hq Hws Hre]. exists (item_failed k item s).
  rewrite block_not_created, (shared_failed k). split; [done|].
  pose proof (sum_list_with_insert stage_blocks sts k _ (turns, AtHead) Hk) as Hb. cbn -[blocks_after_making] in Hb.
  assert (1 ≤ blocks_after_making (found_in item))%nat as Hone by (destruct (found_in item); simpl; lia).
  destruct (qo_turns _ _ _ Hq _ _ _ Hk) as [|Hlt]; [done|]. pose proof (failed_queue k item s) as Hsuf.
  pose proof (queue_suffix_sum item_uuids _ _ Hsuf) as Hsu. pose proof (queue_suffix_sum item_blocks _ _ Hsuf) as Hsb.
  pose proof (suffix_length _ _ Hsuf). split; [|unfold blocks_to_run; lia]. split; [done|..].
  - eapply runs_move; [exact Hruns|exact Hk|done|done|done|lia|done].
  - eapply progress_ok_move; [exact Hp|exact Hk|done|done|simpl; lia].
  - eapply queue_ok_move; [exact Hq|exact Hk|done|right; lia|unfold stage_uuids; simpl in *; lia].
  - by apply (bs_workers_insert sts ends s w k AtHead).
  - eapply (bs_event _ _ _ _ (CreateFailed k)); [exact Hs|]. cbn. by rewrite (bs_worker _ _ _ _ _ _ _ Hs Hk).
Qed.

(** What a block of the worker [k] does. *)
Definition block_simulated (sts : list (nat * stage)) (s : BatchState) (w : world) (k : nat)
    (t : thread JsError state unit) : Prop :=
  ∃ st' ends' s' w', run_block t (w, shared_of s) = (thread_of st', (w', shared_of s'))
    ∧ batch_sim (<[k := st']> sts) ends' s' w'
    ∧ (blocks_to_run (<[k := st']> sts) s' < blocks_to_run sts s)%nat.

(** A part of the block, from one stage to the next. *)
Lemma block_simulated_after sts s w k st1 s1 w1 t t1 :
  run_block t (w, shared_of s) = run_block t1 (w1, shared_of s1) →
  (blocks_to_run (<[k := st1]> sts) s1 ≤ blocks_to_run sts s)%nat →
  block_simulated (<[k := st1]> sts) s1 w1 k t1 → block_simulated sts s w k t.
Proof.
  intros Heq Hle (st' & ends' & s' & w' & Hrun & Hs & Hlt). rewrite list_insert_insert_eq in Hs, Hlt.
  exists st', ends', s', w'. split; [by rewrite Heq|]. split; [done|lia].
Qed.

Lemma sim_at_head sts ends s w k turns :
  batch_sim sts ends s w → sts !! k = Some (turns, AtHead) → block_simulated sts s w k (worker_async turns).
Proof.
  intros Hs Hk. destruct (sim_head _ _ _ _ _ _ Hs Hk) as (st' & s' & Hb & Hs' & Hlt).
  by exists st', ends, s', w.
Qed.

Lemma sim_done sts ends s w k turns item rid def n o :
  batch_sim sts ends s w → sts !! k = Some (turns, Underway item rid def n (Done o)) →
  block_simulated sts s w k (executing item turns (Done o)).
Proof.
  intros Hs Hk. destruct (sim_over _ _ _ _ _ _ _ _ _ _ _ Hs Hk) as (s' & Hb & Hs' & Hle).
  eapply block_simulated_after; [exact Hb|exact Hle|]. eapply sim_at_head; [exact Hs'|by eapply lookup_insert_here].
Qed.

Lemma batch_uuids sts ends s w : batch_sim sts ends s w → (w_uuids w ≤ base + N)%nat.
Proof. intros Hs. pose proof (qo_uuids _ _ _ (bs_queue _ _ _ _ Hs)). lia. Qed.

Lemma sim_underway sts ends s w k turns item rid def n t :
  batch_sim sts ends s w → sts !! k = Some (turns, Underway item rid def n t) →
  block_simulated sts s w k (executing item turns t).
Proof.
  intros Hs Hk. destruct (is_done t) eqn:Hd; [destruct t; [by eapply sim_done|done..]|].
  pose proof Hs as [Hw Hruns Hp Hq Hws Hre].
  destruct (ro_ok _ _ _ _ _ _ _ _ Hruns _ _ Hk) as (Hit & Hget & Hpk).
  pose proof (ro_known _ _ _ _ _ _ _ _ Hruns _ _ rid Hk eq_refl) as Hkn.
  destruct (wp_run_block (rely rid) (guar rid) (λ _, True) (run_over rid def) n t w) as (n' & HG & Hpk' & Hlt & _);
    [|by apply Hpk|done|].
  { intros o w1 w2 (wf & Hrest & Hend) Hr. exists wf. split; [by eapply resting_stable|done]. }
  pose proof (executing_block item turns t w (shared_of s)) as Hblock.
  destruct (run_block t w) as [t' w']. simpl in *.
  assert (batch_sim (<[k := (turns, Underway item rid def n' t')]> sts) ends s w') as Hs'.
  { eapply sim_move; [exact Hs|exact Hk|done|done|..].
    - eapply fresh_world_guar; [done|done|done].
    - intros r Hr. apply (gu_others _ _ _ HG). intros ->. by apply Hr.
    - by rewrite (gu_uuids _ _ _ HG).
    - by left.
    - rewrite (gu_uuids _ _ _ HG). cbn. lia. }
  pose proof (sum_list_with_insert stage_blocks sts k _ (turns, Underway item rid def n' t') Hk) as Hb. cbn in Hb.
  destruct Hblock as [Hblock|[Hd' Hblock]].
  - exists (turns, Underway item rid def n' t'), ends, s, w'. split; [exact Hblock|]. split; [done|].
    unfold blocks_to_run. lia.
  - apply (block_simulated_after _ _ _ _ (turns, Underway item rid def n' t') s w' _ _ Hblock); [unfold blocks_to_run; lia|].
    destruct t' as [o| |]; [|done..]. eapply sim_done; [exact Hs'|by eapply lookup_insert_here].
Qed.

(** The run is queued in the pool and its execution starts. *)
Lemma sim_created sts ends s w k turns item run wf def :
  batch_sim sts ends s w → sts !! k = Some (turns, Making item (RunMade run wf def)) →
  block_simulated sts s w k (creating item turns (mret (run, wf, def))).
Proof.
  intros Hs Hk. pose proof Hs as [Hw Hruns Hp Hq Hws Hre].
  destruct (ro_ok _ _ _ _ _ _ _ _ Hruns _ _ Hk) as (Hit & (Hget & _) & Hready).
  destruct (Hitems item def Hit Hget) as (Hex & Hfuel & _).
  set (w1 := with_ticks (S (w_ticks w)) w). set (rid := run_id run).
  assert (∀ r, rely r w w1) as Hrely by (intros r; by apply quiet_rely).
  set (s1 := run_created k item rid (nowIso (w_ticks w)) s).
  set (st1 := (turns, Underway item rid def (S (run_blocks def)) (awaiting (executeRun_async fuel rid)))).
  assert (stage_ok st1 w1) as Hst1.
  { split; [done|]. split; [done|]. intros w2 Hw2. apply wp_awaiting, (wp_weaken _ _ (holding rid)); [done|].
    eapply wp_mono; [|done|apply (wp_executeRun_end rid fuel def wf); [done| |done]].
    - intros o w3 (wf3 & Hrest & Hend). split; [done|]. intros w4 Hr. exists wf3. split; [by eapply resting_stable|done].
    - eapply ready_stable; [exact Hready|]. etrans; [by apply Hrely|done]. }
  assert (batch_sim (<[k := st1]> sts) ends s1 w1) as Hs1.
  { split.
    - eapply fresh_world_guar; [done|by eapply (ro_known _ _ _ _ _ _ _ _ Hruns)|by apply quiet_guar].
    - eapply runs_move; [exact Hruns|exact Hk|done|done|by intros r _; apply Hrely|done|by left].
    - eapply progress_ok_start; [exact Hp|exact Hruns|exact Hk|done..].
    - eapply queue_ok_move; [exact Hq|exact Hk|done| |cbn; lia].
      destruct (qo_turns _ _ _ Hq _ _ _ Hk) as [|?]; [done|by right].
    - by apply (bs_workers_insert sts ends s w k st1.2).
    - eapply (bs_event _ _ _ _ (Created k rid (nowIso (w_ticks w)))); [exact Hs|]. cbn.
      by rewrite (bs_worker _ _ _ _ _ _ _ Hs Hk). }
  pose proof (sum_list_with_insert stage_blocks sts k _ st1 Hk) as Hb. unfold stage_blocks at 2 4, found_in in Hb.
  cbn [snd st1 making_blocks] in Hb. rewrite Hget in Hb. cbn [blocks_after_making] in Hb.
  apply (block_simulated_after _ _ _ _ st1 s1 w1 _ _ (block_created item turns run wf def w (shared_of s)));
    [|eapply sim_underway; [exact Hs1|by eapply lookup_insert_here]].
  unfold blocks_to_run. change (b_queue s1) with (b_queue s). unfold Threads.blocks in Hb. cbn -[run_blocks] in Hb. lia.
Qed.

(** The blocks of [createRun]. *)
Lemma block_moved sts ends s w k turns st st' w' :
  sts !! k = Some (turns, st) →
  run_block (thread_of (turns, st)) (w, shared_of s) = (thread_of (turns, st'), (w', shared_of s)) →
  batch_sim (<[k := (turns, st')]> sts) ends s w' → (stage_blocks (turns, st') < stage_blocks (turns, st))%nat →
  block_simulated sts s w k (thread_of (turns, st)).
Proof.
  intros Hk Hb Hs Hlt. exists (turns, st'), ends, s, w'. split; [exact Hb|]. split; [done|].
  unfold blocks_to_run. pose proof (sum_list_with_insert stage_blocks sts k _ (turns, st') Hk). lia.
Qed.

Lemma sim_making sts ends s w k turns item mk :
  batch_sim sts ends s w → sts !! k = Some (turns, Making item mk) → made mk = false →
  block_simulated sts s w k (thread_of (turns, Making item mk)).
Proof.
  intros Hs Hk Hmd. pose proof Hs as [Hw Hruns Hp Hq Hws Hre].
  destruct (ro_ok _ _ _ _ _ _ _ _ Hruns _ _ Hk) as [Hit Hmk].
  destruct (making_step jobs base N Hids (item_jobId item) trigger_of (item_input item) I
    (λ def Hget, proj2 (proj2 (Hitems item def Hit Hget))) mk w) as (mk' & w' & Hb & []); [done|done|..|done|].
  { intros rid Hr. by eapply (ro_known _ _ _ _ _ _ _ _ Hruns). }
  { pose proof (qo_uuids _ _ _ Hq). pose proof (sum_list_with_insert stage_uuids sts k _ (turns, AtHead) Hk) as Hu.
    cbn -[making_uuids] in Hu. lia. }
  eapply (block_moved _ ends s w k turns _ (Making item mk') w'); [exact Hk| | |].
  - cbn [thread_of]. by rewrite creating_block, Hb.
  - by eapply sim_move.
  - unfold stage_blocks. cbn [snd]. lia.
Qed.

(** Every block of a worker is simulated. *)
Lemma sim_block sts ends s w k turns st :
  batch_sim sts ends s w → sts !! k = Some (turns, st) → is_done (thread_of (turns, st)) = false →
  block_simulated sts s w k (thread_of (turns, st)).
Proof.
  intros Hs Hk Hd. destruct st as [|item mk| |].
  - by eapply sim_at_head.
  - destruct (made mk) eqn:Hmd; [|by eapply sim_making]. destruct mk as [| | |run wf def|e]; [done..|by eapply sim_created|].
    destruct (sim_not_created _ _ _ _ _ _ _ _ Hs Hk) as (s' & Hb & Hs' & Hle).
    eapply block_simulated_after; [exact Hb|exact Hle|]. eapply sim_at_head; [exact Hs'|by eapply lookup_insert_here].
  - by eapply sim_underway.
  - done.
Qed.

Lemma sim_steps i sts ends s w c :
  batch_sim sts ends s w → nsteps Threads.pool_step i (thread_of <$> sts, (w, shared_of s)) c →
  ∃ sts' ends' s' w', c = (thread_of <$> sts', (w', shared_of s')) ∧ batch_sim sts' ends' s' w'
    ∧ (i + blocks_to_run sts' s' ≤ blocks_to_run sts s)%nat.
Proof.
  intros Hs Hi. remember (thread_of <$> sts, (w, shared_of s)) as c0 eqn:Hc0. revert sts ends s w Hs Hc0.
  induction Hi as [c0|i c0 c1 c Hstep Hi IH]; intros sts ends s w Hs ->; [by exists sts, ends, s, w|].
  inversion Hstep as [ts k t x Ht Hd]; subst.
  rewrite list_lookup_fmap in Ht. destruct (sts !! k) as [[turns st]|] eqn:Hk; [|done].
  assert (t = thread_of (turns, st)) as -> by by injection Ht.
  destruct (sim_block _ _ _ _ _ _ _ Hs Hk Hd) as (st1 & ends1 & s1 & w1 & Hb & Hs1 & Hlt).
  destruct (IH (<[k := st1]> sts) ends1 s1 w1) as (sts' & ends' & s' & w' & -> & Hs' & Hle); [done| |].
  - rewrite Hb. by rewrite list_fmap_insert.
  - exists sts', ends', s', w'. split; [done|]. split; [done|lia].
Qed.

Lemma sim_start w :
  batch_world w → w_uuids w = base → (sum_list_with item_uuids (items m) ≤ N)%nat →
  let sts := replicate (Z.to_nat (parallel m)) (S (length (items m)), AtHead) in
  batch_sim sts [] (init_batch m pool) w
  ∧ thread_of <$> sts = workers_async
  ∧ blocks_to_run sts (init_batch m pool) = (sum_list_with item_blocks (items m) + Z.to_nat (parallel m))%nat.
Proof.
  intros Hw Hb HN sts.
  assert (∀ f : nat * stage → nat, sum_list_with f sts = (f (S (length (items m)), AtHead) * Z.to_nat (parallel m))%nat) as Hsum.
  { intros f. unfold sts. clear sts. induction (Z.to_nat (parallel m)) as [|p IH]; cbn [replicate sum_list_with]; lia. }
  assert (∀ k turns st, sts !! k = Some (turns, st) → (turns, st) = (S (length (items m)), AtHead)) as Hat
    by (intros k turns st Hk; by apply lookup_replicate_1 in Hk as [? _]).
  split; [split|split].
  - done.
  - split; [..|set_solver|set_solver].
    + intros k [turns st] Hk. by injection (Hat _ _ _ Hk) as -> ->.
    + intros k [turns st] rid Hk. by injection (Hat _ _ _ Hk) as -> ->.
    + intros k k' [turns st] st' rid Hk _. by injection (Hat _ _ _ Hk) as -> ->.
  - split; [|split; constructor|done]. intros rid. split; [by intros []%not_elem_of_nil|].
    intros [[]%not_elem_of_nil|(k & [turns st] & Hk & Hu)]. injection (Hat _ _ _ Hk) as -> ->. done.
  - split; [|done|rewrite Hsum; simpl; lia]. intros k turns st Hk. injection (Hat _ _ _ Hk) as -> ->. right. simpl. lia.
  - unfold sts. simpl. by rewrite fmap_replicate.
  - by exists [].
  - unfold sts. by rewrite fmap_replicate.
  - unfold blocks_to_run. rewrite Hsum. simpl. lia.
Qed.

(** When no worker can go on, every run of the batch has ended. *)
Lemma sim_end sts ends s w :
  batch_sim sts ends s w → nf Threads.pool_step (thread_of <$> sts, (w, shared_of s)) →
  batch_done s ∧ Forall (λ t, t = Done (Ok tt)) (thread_of <$> sts) ∧ ends.*1 ≡ₚ runIds (b_progress s)
  ∧ (∀ rid o, (rid, o) ∈ ends → run_result rid o w) ∧ completed (b_progress s) = Z.of_nat (ended_well ends).
Proof.
  intros [Hw Hruns [Hi [Hd1 Hd2] Hc] Hq Hws _] Hnf.
  assert (∀ k turns st, sts !! k = Some (turns, st) → st = Ended) as Hended.
  { intros k turns st Hk. destruct (decide (is_done (thread_of (turns, st)) = true)) as [Hd|Hd%not_true_is_false].
    - destruct (qo_turns _ _ _ Hq _ _ _ Hk) as [->|Hlt]; [done|]. destruct st as [|item mk| |]; try done; [by destruct turns; [lia|]|..].
      + by destruct mk.
      + match goal with t : async unit |- _ => by destruct t as [[[]|e|]|u|f] end.
    - destruct Hnf. eexists. eapply pool_block; [|exact Hd]. by rewrite list_lookup_fmap, Hk. }
  split; [|split; [|split; [|split; [|done]]]].
  - unfold batch_done. rewrite Hws. apply Forall_fmap, Forall_lookup. intros k [turns st] Hk. by rewrite (Hended _ _ _ Hk).
  - apply Forall_fmap, Forall_lookup. intros k [turns st] Hk. by rewrite (Hended _ _ _ Hk).
  - apply NoDup_Permutation; [done|done|]. intros rid. rewrite Hi. split; [by left|].
    intros [Hin|(k & [turns st] & Hk & Hu)]; [done|]. by rewrite (Hended _ _ _ Hk) in Hu.
  - intros rid o Hin. by apply (ro_ends _ _ _ _ _ _ _ _ Hruns).
Qed.
End invariant.

(** ** Properties *)

(** What a batch needs of the world it starts in: the definitions its items name
    are executable; none of the UUIDs it will draw, at most [N], is in use. *)
Record batch_ready (N : nat) (w : world) : Prop := {
  br_items : ∀ item def, item ∈ items m → job_get (item_jobId item) (w_jobs w) = Some def →
    executable def ∧ (attempts_of def < fuel)%nat ∧ NoDup (td_id <$> tasks def);
  br_uuids : uuids_distinct (w_uuids w) N;
  br_enough : (sum_list_with (item_uuids (w_jobs w)) (items m) ≤ N)%nat;
  br_world : fresh_world (w_jobs w) (w_uuids w) N w;
}.

(** C19: the workers of a batch, each a thread that creates and executes its runs
    with the engine's own asynchronous operations, refine the event model of
    batches: however their blocks interleave at the awaits, and whatever the
    simulator answers, there are at most [item_blocks] blocks per item and one per
    worker; the queue, the progress and the pool are always those of an execution
    of Batch.v; and when no worker can go on all have finished, the run ids of the
    progress are those of the runs that were executed, every one of these has
    ended in one of the ways of [run_end] with its record in step and its locks
    released, and [completed] counts those whose execution did not throw. *)
Theorem batch_threads_refine (pool : WorkerPool) (N : nat) (w : world) (Hready : batch_ready N w)
    (k : nat) (ts : list (thread JsError state unit)) (w' : world) (sh : Shared)
    (Hsteps : nsteps Threads.pool_step k (workers_async, (w, shared_of (init_batch m pool))) (ts, (w', sh))) :
  (k ≤ sum_list_with (item_blocks (w_jobs w)) (items m) + Z.to_nat (parallel m))%nat
  ∧ ∃ es s, batch_run (init_batch m pool) es = Some s ∧ sh = shared_of s
    ∧ (nf Threads.pool_step (ts, (w', sh)) → batch_done s ∧ Forall (λ t, t = Done (Ok tt)) ts
       ∧ ∃ ends : list (string * res unit), ends.*1 ≡ₚ runIds (sh_progress sh)
         ∧ (∀ rid o, (rid, o) ∈ ends → run_result (w_jobs w) rid o w')
         ∧ completed (sh_progress sh) = Z.of_nat (ended_well ends)).
Proof.
  destruct Hready as [Hit Hu HN Hw].
  destruct (sim_start (w_jobs w) (w_uuids w) N Hu Hit pool w Hw eq_refl HN) as (Hs & Hts & Hb).
  rewrite <-Hts in Hsteps.
  destruct (sim_steps (w_jobs w) (w_uuids w) N Hu Hit pool k _ _ _ _ _ Hs Hsteps)
    as (sts' & ends & s & w1 & Heq & Hs' & Hle).
  injection Heq as -> -> ->. split; [lia|].
  destruct (bs_reach _ _ _ _ _ _ _ _ Hs') as [es Hes]. exists es, s. split; [done|]. split; [done|].
  intros Hnf. destruct (sim_end _ _ _ _ _ _ _ _ Hs' Hnf) as (Hd & Hall & Hperm & Hres & Hc).
  split; [done|]. split; [done|]. by exists ends.
Qed.
End batch_threads.

(** ** Two workers over three items *)

Section witnesses.
(** The second call of the simulator fails. *)
#[local] Instance second_call_fails : Environment := scripted (λ k, negb (bool_decide (k = 1%nat))).

(** The second item names a job that is not registered. *)
Definition demo_batch : BatchManifest :=
  mkBatch "b1" "demo" "t1"
    [mkItem "job_demo" "first" [] None None; mkItem "missing" "second" [] None (Some true);
     mkItem "job_demo" "third" [] (Some PriorityHigh) None]
    (Some 2) "2026-01-01T00:00:00.000Z".

Definition demo_start : demo_world := demo_registered demo_definition.

(** The blocks of the two workers in turn, to the end. *)
Definition batch_alternation : nat * Threads.pool JsError (demo_world * Shared) unit :=
  run_schedule (mjoin (replicate 80 [0%nat; 1%nat]))
    (workers_async 20 demo_batch, (demo_start, shared_of (init_batch demo_batch (new_pool 4)))).

Lemma demo_batch_ready : batch_ready 20 demo_batch 40 demo_start.
Proof.
  assert (w_locks demo_start = [] ∧ w_localLocks demo_start = []) as [Hk Hl] by done.
  assert (∀ r, workflow_getByRunId r (w_workflows demo_start) = None) as Hno by done.
  split.
  - intros item def Hin Hget. assert (def = demo_definition) as ->.
    { simpl in Hin. set_unfold in Hin. destruct Hin as [->|[->|[->|[]]]]; revert Hget; vm_compute; congruence. }
    split; [by apply demo_executable|]. split; apply (bool_decide_unpack _); vm_compute; exact I.
  - apply (bool_decide_unpack _). by vm_compute.
  - apply (bool_decide_unpack _). by vm_compute.
  - split; [exact empty_workflow_store_ok| |done|done|..].
    + rewrite Hk. constructor.
    + intros j _. split; [rewrite Hl; set_solver|]. rewrite Hk. split; [done|constructor].
    + intros j r wf _ Hwf. by rewrite Hno in Hwf.
Qed.

Lemma batch_threads_refine_witness :
  batch_alternation.2.1 = [Done (Ok tt); Done (Ok tt)]
  ∧ (batch_alternation.1 ≤ sum_list_with (item_blocks (w_jobs demo_start)) (items demo_batch) + 2)%nat
  ∧ let p := sh_progress batch_alternation.2.2.2 in
    (completed p, failed p, running p, length (runIds p)) = (2, 1, 0, 2%nat)
    ∧ ∀ rid, rid ∈ runIds p → ∃ o, run_result demo_batch (w_jobs demo_start) rid o batch_alternation.2.2.1.
Proof.
  assert (batch_alternation.2.1 = [Done (Ok tt); Done (Ok tt)]) as Hts by (vm_compute; reflexivity).
  split; [exact Hts|].
  destruct (batch_threads_refine 20 demo_batch (new_pool 4) 40 demo_start demo_batch_ready
    batch_alternation.1 batch_alternation.2.1 batch_alternation.2.2.1 batch_alternation.2.2.2) as (Hk & es & s & _ & _ & Hend).
  - unfold batch_alternation. pose proof (run_schedule_steps (mjoin (replicate 80 [0%nat; 1%nat]))
      (workers_async 20 demo_batch, (demo_start, shared_of (init_batch demo_batch (new_pool 4))))) as Hs.
    by destruct (run_schedule _ _) as [k [ts [w sh]]].
  - split; [exact Hk|]. split; [vm_compute; reflexivity|].
    destruct Hend as (_ & _ & ends & Hperm & Hres & _); [apply pool_done; rewrite Hts; repeat constructor|].
    intros rid Hin. rewrite <-Hperm in Hin. apply list_elem_of_fmap in Hin as ([rid' o] & -> & Hin). exists o. by apply Hres.
Defined.
End witnesses.
