(* ===== verification/Cron.v ===== *)
(** * Cron expressions (utils/cron.ts, validators/schedule-validator.ts)

    A time is a number of milliseconds since the epoch (JsDate).  [nextCronRun]
    tries the 527,040 minutes of 366 days, the bound of its loop. *)

From S2P Require Import Prelude JsString JsNum JsDate DomainTypes.
From Stdlib Require Import Ascii SpecFloat.
Open Scope Z_scope.

(** ** [matchesCron] *)

(** [v % x === 0] for an integer [v] and a number [x > 0]: the remainder of
    floating-point numbers is exact, so it is zero when [v] is a multiple of [x]. *)
Definition multiple_of (v : Z) (x : num) : bool :=
  match x with
  | S754_finite false m e =>
      if 0 <=? e then v mod (Z.pos m * 2 ^ e) =? 0 else (v * 2 ^ (- e)) mod Z.pos m =? 0
  | S754_infinity false => v =? 0
  | _ => false
  end.

Definition matchField (expr : string) (value : Z) : bool :=
  if bool_decide (expr = "*") then true
  else if starts_with expr "*/" then
    let step := string_to_num (slice_from expr 2) in
    num_ltb num_zero step && multiple_of value step
  else if includes expr "," then
    existsb (λ x, num_eqb x (num_of_Z value)) (string_to_num <$> split expr ","%char)
  else num_eqb (string_to_num expr) (num_of_Z value).

Definition matchesCron (expression : string) (date : Z) : bool :=
  match trim_split_spaces expression with
  | [minExpr; hourExpr; domExpr; monthExpr; dowExpr] =>
      matchField minExpr (getUTCMinutes date) && matchField hourExpr (getUTCHours date)
      && matchField domExpr (getUTCDate date) && matchField monthExpr (getUTCMonth date + 1)
      && matchField dowExpr (getUTCDay date)
  | _ => false
  end.

(** ** [nextCronRun] *)

(** The loop with [n] iterations left. *)
Fixpoint cron_loop (n : nat) (expression : string) (cursor : Z) : res Z :=
  match n with
  | O => Throw (PlainError "no cron match within horizon")
  | S n' =>
      let cursor := setUTCMinutes cursor (getUTCMinutes cursor + 1) in
      if matchesCron expression cursor then Ok cursor else cron_loop n' expression cursor
  end.

Definition cron_horizon : Z := 60 * 24 * 366.

Definition nextCronRun (expression : string) (after : Z) : res Z :=
  cron_loop (Z.to_nat cron_horizon) expression (setUTCSeconds after 0 0).

(** ** [validateCron] *)

Definition FORBIDDEN : list string := ["@"; "rm "; "curl "; "wget "].

Definition validateCron (expression : string) : res unit :=
  if negb (Nat.eqb (length (trim_split_spaces expression)) 5)
  then Throw (ValidationError "cron must have 5 fields" [])
  else if existsb (includes expression) FORBIDDEN
  then Throw (ValidationError "cron expression contains forbidden token" [])
  else Ok tt.

(** ** Lemmas *)

Lemma cron_loop_spec n expression cursor :
  match cron_loop n expression cursor with
  | Ok t => ∃ k, (1 ≤ k ≤ Z.of_nat n) ∧ t = cursor + k * msPerMinute ∧ matchesCron expression t = true
              ∧ ∀ j, 1 ≤ j < k → matchesCron expression (cursor + j * msPerMinute) = false
  | Throw e => e = PlainError "no cron match within horizon"
      ∧ ∀ j, 1 ≤ j ≤ Z.of_nat n → matchesCron expression (cursor + j * msPerMinute) = false
  | OutOfFuel => False
  end.
Proof.
  revert cursor. induction n as [|n IH]; intros cursor; cbn [cron_loop]; [split; [done|lia]|].
  rewrite setUTCMinutes_add, Z.mul_1_l. cbv zeta.
  destruct (matchesCron expression (cursor + msPerMinute)) eqn:E.
  - exists 1. rewrite Z.mul_1_l. split; [lia|]. split; [done|]. split; [done|lia].
  - specialize (IH (cursor + msPerMinute)).
    assert (∀ j, cursor + msPerMinute + (j - 1) * msPerMinute = cursor + j * msPerMinute) as Hj by (intros; lia).
    destruct (cron_loop n expression _) as [t|e|]; [| |done].
    + destruct IH as (k & Hk & -> & Hm & Hmin). exists (k + 1). split; [lia|].
      split; [lia|]. split; [done|]. intros j Hjk.
      destruct (decide (j = 1)) as [->|Hne]; [by rewrite Z.mul_1_l|].
      rewrite <-Hj. apply Hmin. lia.
    + destruct IH as [-> Hmin]. split; [done|]. intros j Hjk.
      destruct (decide (j = 1)) as [->|Hne]; [by rewrite Z.mul_1_l|].
      rewrite <-Hj. apply Hmin. lia.
Qed.

(** A whole minute. *)
Definition minute_aligned (t : Z) : Prop := t mod msPerMinute = 0.

(** The whole minutes that [nextCronRun] looks at. *)
Definition in_horizon (after t : Z) : Prop :=
  minute_aligned t ∧ after < t ≤ after / msPerMinute * msPerMinute + cron_horizon * msPerMinute.

Lemma in_horizon_iff after t :
  in_horizon after t ↔
  ∃ k, 1 ≤ k ≤ cron_horizon ∧ t = after / msPerMinute * msPerMinute + k * msPerMinute.
Proof.
  unfold in_horizon, minute_aligned, cron_horizon, msPerMinute. split.
  - intros [Ha Hb]. exists (t / 60000 - after / 60000). Z.div_mod_to_equations. lia.
  - intros (k & Hk & ->). Z.div_mod_to_equations. lia.
Qed.

Lemma nextCronRun_spec expression after :
  match nextCronRun expression after with
  | Ok t => in_horizon after t ∧ matchesCron expression t = true
            ∧ ∀ t', in_horizon after t' → t' < t → matchesCron expression t' = false
  | Throw e => e = PlainError "no cron match within horizon"
            ∧ ∀ t', in_horizon after t' → matchesCron expression t' = false
  | OutOfFuel => False
  end.
Proof.
  unfold nextCronRun. rewrite setUTCSeconds_floor. set (c := after / msPerMinute * msPerMinute).
  pose proof (cron_loop_spec (Z.to_nat cron_horizon) expression c) as H.
  rewrite Z2Nat.id in H by (unfold cron_horizon; lia).
  destruct (cron_loop _ expression c) as [t|e|]; [| |done].
  - destruct H as (k & Hk & -> & Hm & Hmin). split; [|split; [done|]].
    + apply in_horizon_iff. by exists k.
    + intros t' (j & Hj & ->)%in_horizon_iff Hlt. apply Hmin. unfold c, msPerMinute in *. lia.
  - destruct H as [-> Hmin]. split; [done|]. intros t' (j & Hj & ->)%in_horizon_iff. by apply Hmin.
Qed.

(** ** Dates that do not come back within the horizon *)

Definition leap_day_cron : string := "0 0 29 2 *".

(** Whether a day (since the epoch) is a 29th of February for the matcher. *)
Definition leap_day (day : Z) : bool :=
  let t := day * msPerDay in matchField "29" (getUTCDate t) && matchField "2" (getUTCMonth t + 1).

Lemma day_of_day t : day_of (day_of t * msPerDay) = day_of t.
Proof. unfold day_of, msPerDay. Z.div_mod_to_equations. lia. Qed.

Lemma leap_day_match t : matchesCron leap_day_cron t = true → leap_day (day_of t) = true.
Proof.
  unfold matchesCron, leap_day. replace (trim_split_spaces leap_day_cron) with ["0"; "0"; "29"; "2"; "*"]
    by by vm_compute.
  rewrite !andb_true_iff. intros [[[_ Hd] Hm] _].
  unfold getUTCDate, getUTCMonth in *. rewrite day_of_day. done.
Qed.

(** The days from 2024-03-01 to 2028-02-28. *)
Definition ordinary_days : list Z := (λ k, 19783 + Z.of_nat k) <$> seq 0 1460.

Lemma no_leap_day d : 19783 ≤ d < 19783 + 1460 → leap_day d = false.
Proof.
  intros Hd. assert (forallb (λ d, negb (leap_day d)) ordinary_days = true) as H by by vm_compute.
  rewrite forallb_forall in H. apply negb_true_iff, H, list_elem_of_In.
  apply list_elem_of_fmap. exists (Z.to_nat (d - 19783)). split; [lia|]. apply elem_of_seq. lia.
Qed.

Lemma zero_field v : 0 ≤ v < 60 → matchField "0" v = true → v = 0.
Proof.
  intros Hv. assert (Forall (λ v, matchField "0" v = true → v = 0) (Z.of_nat <$> seq 0 60)) as H
    by (apply (bool_decide_unpack _); by vm_compute).
  rewrite Forall_forall in H. apply H, list_elem_of_fmap. exists (Z.to_nat v). split; [lia|].
  apply elem_of_seq. lia.
Qed.

(** ** Properties *)

(** C35: [nextCronRun] always ends.  It returns the first whole minute after [after],
    and within 366 days, that the expression matches; it throws exactly when
    there is none. *)
Theorem nextCronRun_correct (expression : string) (after : Z) :
  (∃ t, nextCronRun expression after = Ok t ∧ in_horizon after t ∧ matchesCron expression t = true
     ∧ ∀ t', in_horizon after t' → matchesCron expression t' = true → t ≤ t')
  ∨ (nextCronRun expression after = Throw (PlainError "no cron match within horizon")
     ∧ ∀ t', in_horizon after t' → matchesCron expression t' = false).
Proof.
  pose proof (nextCronRun_spec expression after) as H.
  destruct (nextCronRun expression after) as [t|e|]; [left|right|done].
  - destruct H as (Hin & Hm & Hmin). exists t. split; [done|]. split; [done|]. split; [done|].
    intros t' Hin' Hm'. destruct (decide (t ≤ t')) as [|Hlt]; [done|]. rewrite Hmin in Hm'; [done|done|lia].
  - destruct H as [-> Hn]. done.
Qed.

Lemma leap_day_fails after :
  1709164800000 ≤ after < 1803772800000 →
  nextCronRun leap_day_cron after = Throw (PlainError "no cron match within horizon").
Proof.
  intros Ha. pose proof (nextCronRun_spec leap_day_cron after) as H.
  destruct (nextCronRun leap_day_cron after) as [t|e|]; [|by destruct H as [-> _]|done].
  destruct H as ([Hal Ht] & Hm & _). pose proof Hm as Hl. apply leap_day_match in Hl.
  assert (day_of t = 19782 ∨ 19783 ≤ day_of t < 19783 + 1460) as [Hd|Hd].
  { unfold day_of, msPerDay, cron_horizon, msPerMinute in *. Z.div_mod_to_equations. lia. }
  - exfalso. unfold matchesCron in Hm.
    replace (trim_split_spaces leap_day_cron) with ["0"; "0"; "29"; "2"; "*"] in Hm by by vm_compute.
    rewrite !andb_true_iff in Hm. destruct Hm as [[[[Hmin Hhour] _] _] _].
    assert (getUTCHours t = 0) as H0.
    { apply zero_field; [|done]. unfold getUTCHours. pose proof (Z.mod_pos_bound (t / msPerHour) 24). lia. }
    assert (getUTCMinutes t = 0) as H1 by (apply zero_field; [apply Z.mod_pos_bound; lia|done]).
    unfold getUTCHours, getUTCMinutes, minute_aligned, day_of, msPerDay, msPerHour, msPerMinute in *.
    Z.div_mod_to_equations. lia.
  - rewrite no_leap_day in Hl; [done|lia].
Qed.
