(* ===== verification/Schedule.v ===== *)
(** * Schedules and the cron ticker

    domain/schedule.ts, storage/memory/schedule-store.ts,
    services/schedule-service.ts and workers/cron-ticker.ts.  The clock and the
    UUIDs are given by the number of the call; a tick of [CronTicker] works on
    the schedules and on the engine's world (Engine.v) together. *)

From S2P Require Import Prelude JsMap JsString JsNum JsDate DomainTypes JsValue Domain Retry Transitions Locks Stores Metrics Expressions Constraints Engine EngineProps Cron.
Open Scope Z_scope.

Record CronSchedule : Type := mkSchedule {
  sc_id : string;
  sc_tenantId : string;
  sc_jobId : string;
  cronExpression : string;
  timezone : string;
  enabled : bool;
  lastTriggeredAt : option string;
  nextRunAt : option string;
  defaultInput : jsrecord;
  sc_createdAt : string;
}.

Record ScheduleInput : Type := mkScheduleInput {
  si_tenantId : string;
  si_jobId : string;
  si_cronExpression : string;
  si_timezone : option string;
  si_defaultInput : option jsrecord;
}.

(** ** The store *)

Definition InMemoryScheduleStore : Type := jsmap string CronSchedule.

Definition schedule_save (s : CronSchedule) (st : InMemoryScheduleStore) : InMemoryScheduleStore :=
  map_set st (sc_id s) s.
Definition schedule_get (id : string) (st : InMemoryScheduleStore) : option CronSchedule := map_get st id.
Definition schedules_of_tenant (tenantId : string) (st : InMemoryScheduleStore) : list CronSchedule :=
  List.filter (λ s, bool_decide (sc_tenantId s = tenantId)) (map_values st).
Definition listEnabled (st : InMemoryScheduleStore) : list CronSchedule :=
  List.filter enabled (map_values st).

(** ** The service *)

Record Scheduler : Type := mkScheduler {
  sch_store : InMemoryScheduleStore;
  sch_ticks : nat;
  sch_uuids : nat;
  launched : list string;
}.

Section service.
Variable clock : nat → Z.
Variable uuid : nat → string.

Definition sch_now : M JsError Scheduler Z := λ s,
  (Ok (clock (sch_ticks s)), mkScheduler (sch_store s) (S (sch_ticks s)) (sch_uuids s) (launched s)).

Definition sch_nowIso : M JsError Scheduler string := t ← sch_now; mret (toISOString t).

Definition sch_uuid : M JsError Scheduler string := λ s,
  (Ok (uuid (sch_uuids s)), mkScheduler (sch_store s) (sch_ticks s) (S (sch_uuids s)) (launched s)).

Definition sch_save (x : CronSchedule) : M JsError Scheduler unit :=
  modify (λ s, mkScheduler (schedule_save x (sch_store s)) (sch_ticks s) (sch_uuids s) (launched s)).

Definition create_schedule (input : ScheduleInput) : M JsError Scheduler CronSchedule :=
  t0 ← sch_now;
  _ ← lift_outcome (match nextCronRun (si_cronExpression input) t0 with
                    | Throw _ => Throw (ValidationError ("invalid cron expression: " +:+ si_cronExpression input) [])
                    | o => o
                    end);
  now_ ← sch_nowIso;
  u ← sch_uuid;
  t1 ← sch_now;
  next ← lift_outcome (nextCronRun (si_cronExpression input) t1);
  let schedule := mkSchedule ("sched_" +:+ slice_to u 10) (si_tenantId input) (si_jobId input)
    (si_cronExpression input) (default "UTC" (si_timezone input)) true None (Some (toISOString next))
    (default [] (si_defaultInput input)) now_ in
  _ ← sch_save schedule;
  mret schedule.

(** The filter of [dueSchedules]; comparing with an invalid date is false. *)
Definition is_due (now : Z) (s : CronSchedule) : bool :=
  if negb (truthy_opt (nextRunAt s)) then matchesCron (cronExpression s) now
  else match parse_iso (default "" (nextRunAt s)) with
       | Some t => t <=? now
       | None => false
       end.

Definition dueSchedules : M JsError Scheduler (list CronSchedule) :=
  enabled ← gets (λ s, listEnabled (sch_store s));
  now ← sch_now;
  mret (List.filter (is_due now) enabled).

Definition set_triggered (s : CronSchedule) (at_ next : string) : CronSchedule :=
  mkSchedule (sc_id s) (sc_tenantId s) (sc_jobId s) (cronExpression s) (timezone s) (enabled s)
    (Some at_) (Some next) (defaultInput s) (sc_createdAt s).

Definition markTriggered (s : CronSchedule) : M JsError Scheduler CronSchedule :=
  t ← sch_now;
  next ← lift_outcome (nextCronRun (cronExpression s) t);
  at_ ← sch_nowIso;
  let updated := set_triggered s at_ (toISOString next) in
  _ ← sch_save updated;
  mret updated.

Definition listByTenant (tenantId : string) : M JsError Scheduler (list CronSchedule) :=
  gets (λ s, schedules_of_tenant tenantId (sch_store s)).

Definition set_enabled (b : bool) (s : CronSchedule) : CronSchedule :=
  mkSchedule (sc_id s) (sc_tenantId s) (sc_jobId s) (cronExpression s) (timezone s) b
    (lastTriggeredAt s) (nextRunAt s) (defaultInput s) (sc_createdAt s).

Definition disable (id : string) : M JsError Scheduler unit :=
  s ← gets (λ st, schedule_get id (sch_store st));
  match s with
  | None => throw (ValidationError ("schedule not found: " +:+ id) [])
  | Some s => sch_save (set_enabled false s)
  end.

(** ** The ticker *)

Section ticker.
Context {JS WS RS : Type} `{JobDefinitionStore JS} `{WorkflowStore WS} `{RunStore RS} `{Environment}.
Notation world := (world JS WS RS).

Definition on_schedules {A} (m : M JsError Scheduler A) : M JsError (Scheduler * world) A := λ s,
  let '(r, x) := m s.1 in (r, (x, s.2)).
Definition on_engine {A} (m : M JsError world A) : M JsError (Scheduler * world) A := λ s,
  let '(r, x) := m s.2 in (r, (s.1, x)).

(** [void this.execution.executeRun(run.id)]: the execution is started and not
    awaited. *)
Definition launch (runId : string) : M JsError Scheduler unit :=
  modify (λ s, mkScheduler (sch_store s) (sch_ticks s) (sch_uuids s) (launched s ++ [runId])).

Fixpoint trigger_all (due : list CronSchedule) : M JsError (Scheduler * world) unit :=
  match due with
  | [] => mret tt
  | s :: rest =>
      '(run, _, _) ← on_engine (createRun (sc_jobId s) "cron" (defaultInput s));
      _ ← on_schedules (markTriggered s);
      _ ← on_schedules (launch (run_id run));
      trigger_all rest
  end.

Definition tick : M JsError (Scheduler * world) unit :=
  due ← on_schedules dueSchedules;
  trigger_all due.
End ticker.

(** The interval timer: the handles that fire, the next handle, and the field [timer]. *)
Record CronTimer : Type := mkTimer { intervals : list nat; next_handle : nat; timer : option nat }.

Definition new_timer : CronTimer := mkTimer [] 0 None.
Definition ticker_start (t : CronTimer) : CronTimer :=
  mkTimer (intervals t ++ [next_handle t]) (S (next_handle t)) (Some (next_handle t)).
Definition ticker_stop (t : CronTimer) : CronTimer :=
  match timer t with
  | Some h => mkTimer (List.filter (λ i, negb (bool_decide (i = h))) (intervals t)) (next_handle t) (timer t)
  | None => t
  end.

(** ** Clocks (utils/clock.ts)

    A clock that is set by hand; [None] is an invalid date, of which
    [toISOString] throws. *)

Definition FakeClock : Type := option Z.
Definition new_fake_clock (initial : option Z) : FakeClock := Some (default 1767225600000 initial).
Definition fake_nowIso (c : FakeClock) : option string := toISOString <$> c.
Definition fake_advance (ms : Z) (c : FakeClock) : FakeClock := (λ t, t + ms) <$> c.
Definition fake_set (iso : string) (c : FakeClock) : FakeClock := parse_iso iso.

(** ** Lemmas *)

(** [stop] undoes one [start]: of a ticker started [n] times it leaves [n - 1] timers running. *)
Fixpoint started (n : nat) : CronTimer := match n with O => new_timer | S n => ticker_start (started n) end.

Lemma stop_leaves n : intervals (ticker_stop (started n)) = seq 0 (n - 1).
Proof.
  assert (intervals (started n) = seq 0 n ∧ next_handle (started n) = n) as [Hi Hn].
  { induction n as [|n [IHi IHn]]; [done|]. cbn [started ticker_start intervals next_handle]. rewrite IHi, IHn, seq_S. done. }
  destruct n as [|n]; [done|]. unfold ticker_stop. cbn [started ticker_start timer intervals next_handle] in *.
  injection Hn as Hn. rewrite Hn in *. rewrite Hi, seq_S, List.filter_app. cbn. rewrite bool_decide_eq_true_2 by done.
  cbn. rewrite app_nil_r, Nat.sub_0_r. apply List.forallb_filter_id, List.forallb_forall.
  intros i Hin%List.in_seq. rewrite bool_decide_eq_false_2; [done|lia].
Qed.

Lemma fake_clock_reads t c : 0 ≤ getUTCFullYear t ≤ 9999 → fake_nowIso (fake_set (toISOString t) c) = Some (toISOString t).
Proof. intros Hy. unfold fake_set, fake_nowIso. by rewrite parse_iso_toISOString. Qed.

Definition in_years (t : Z) : Prop := 0 ≤ getUTCFullYear t ≤ 9999.

Lemma toISOString_truthy t : truthy_string (toISOString t) = true.
Proof.
  apply truthy_string_true. intros H. apply (f_equal chars) in H. unfold toISOString in H.
  rewrite chars_of_chars in H. unfold iso_chars in H. apply app_eq_nil in H as [_ H]. done.
Qed.

Lemma is_due_next s now t :
  nextRunAt s = Some (toISOString t) → in_years t → is_due now s = (t <=? now).
Proof.
  intros Hn Hy. unfold is_due, truthy_opt. rewrite Hn, toISOString_truthy. cbn [negb from_option]. unfold id.
  by rewrite parse_iso_toISOString.
Qed.

Lemma markTriggered_eq s (st : Scheduler) :
  markTriggered s st =
    match nextCronRun (cronExpression s) (clock (sch_ticks st)) with
    | Ok next =>
        let u := set_triggered s (toISOString (clock (S (sch_ticks st)))) (toISOString next) in
        (Ok u, mkScheduler (schedule_save u (sch_store st)) (S (S (sch_ticks st))) (sch_uuids st) (launched st))
    | Throw e => (Throw e, mkScheduler (sch_store st) (S (sch_ticks st)) (sch_uuids st) (launched st))
    | OutOfFuel => (OutOfFuel, mkScheduler (sch_store st) (S (sch_ticks st)) (sch_uuids st) (launched st))
    end.
Proof.
  unfold markTriggered. rewrite (M_bind_eq_Ok _ _ st (clock (sch_ticks st))
    (mkScheduler (sch_store st) (S (sch_ticks st)) (sch_uuids st) (launched st))) by done.
  by destruct (nextCronRun _ _) as [next|e|].
Qed.

Lemma create_schedule_eq input (st : Scheduler) :
  let expr := si_cronExpression input in
  let k := sch_ticks st in
  create_schedule input st =
    match nextCronRun expr (clock k) with
    | Ok _ =>
        match nextCronRun expr (clock (S (S k))) with
        | Ok next =>
            let x := mkSchedule ("sched_" +:+ slice_to (uuid (sch_uuids st)) 10) (si_tenantId input)
              (si_jobId input) expr (default "UTC" (si_timezone input)) true None (Some (toISOString next))
              (default [] (si_defaultInput input)) (toISOString (clock (S k))) in
            (Ok x, mkScheduler (schedule_save x (sch_store st)) (S (S (S k))) (S (sch_uuids st)) (launched st))
        | o => (match o with Throw e => Throw e | _ => OutOfFuel end,
                mkScheduler (sch_store st) (S (S (S k))) (S (sch_uuids st)) (launched st))
        end
    | Throw _ => (Throw (ValidationError ("invalid cron expression: " +:+ expr) []),
                  mkScheduler (sch_store st) (S k) (sch_uuids st) (launched st))
    | OutOfFuel => (OutOfFuel, mkScheduler (sch_store st) (S k) (sch_uuids st) (launched st))
    end.
Proof.
  intros expr k. unfold create_schedule. fold expr.
  rewrite (M_bind_eq_Ok _ _ st (clock k) (mkScheduler (sch_store st) (S k) (sch_uuids st) (launched st))) by done.
  destruct (nextCronRun expr (clock k)) as [t0|e|]; [|done..].
  set (st1 := mkScheduler (sch_store st) (S k) (sch_uuids st) (launched st)).
  rewrite (M_bind_eq_Ok _ _ st1 t0 st1) by done.
  set (st2 := mkScheduler (sch_store st) (S (S k)) (sch_uuids st) (launched st)).
  rewrite (M_bind_eq_Ok _ _ st1 (toISOString (clock (S k))) st2) by done.
  set (st3 := mkScheduler (sch_store st) (S (S k)) (S (sch_uuids st)) (launched st)).
  rewrite (M_bind_eq_Ok _ _ st2 (uuid (sch_uuids st)) st3) by done.
  set (st4 := mkScheduler (sch_store st) (S (S (S k))) (S (sch_uuids st)) (launched st)).
  rewrite (M_bind_eq_Ok _ _ st3 (clock (S (S k))) st4) by done.
  by destruct (nextCronRun expr (clock (S (S k)))).
Qed.

(** ** Properties *)

(** C36: Marking a schedule triggered stores it with the first minute after the
    clock's reading that its expression matches, keeps the other schedules, and
    from then on the schedule is due exactly from that minute: never twice at
    one reading of the clock, and no match is skipped. *)
Theorem markTriggered_next (s u : CronSchedule) (st st' : Scheduler)
    (Hmark : markTriggered s st = (Ok u, st')) :
  let now := clock (sch_ticks st) in
  ∃ next, in_horizon now next ∧ matchesCron (cronExpression s) next = true
    ∧ (∀ t, in_horizon now t → matchesCron (cronExpression s) t = true → next ≤ t)
    ∧ schedule_get (sc_id s) (sch_store st') = Some u
    ∧ (∀ id, id ≠ sc_id s → schedule_get id (sch_store st') = schedule_get id (sch_store st))
    ∧ (in_years next → ∀ t, is_due t u = (next <=? t)).
Proof.
  intros now. rewrite markTriggered_eq in Hmark. fold now in Hmark.
  pose proof (nextCronRun_spec (cronExpression s) now) as H.
  destruct (nextCronRun (cronExpression s) now) as [next|e|]; [|done..].
  destruct H as (Hin & Hm & Hmin). cbv zeta in Hmark. injection Hmark as <- <-.
  exists next. split; [done|]. split; [done|]. split; [|split; [|split]].
  - intros t Ht Hmt. destruct (decide (next ≤ t)) as [|Hlt]; [done|]. rewrite Hmin in Hmt; [done|done|lia].
  - simpl. unfold schedule_get, schedule_save. apply map_get_set_eq.
  - intros id Hne. simpl. unfold schedule_get, schedule_save. by apply map_get_set_ne.
  - intros Hy t. by apply is_due_next.
Qed.

(** [ScheduleService.create] with a clock that stands still: it stores an enabled
    schedule that is due exactly from the first match of its expression on, or
    it throws a validation error and stores nothing, exactly when the
    expression matches no minute of the next 366 days. *)
Theorem create_schedule_correct (input : ScheduleInput) (st : Scheduler) (now : Z)
    (Hclock : ∀ k, clock k = now) :
  let expr := si_cronExpression input in
  (∃ next x st', create_schedule input st = (Ok x, st')
     ∧ in_horizon now next ∧ matchesCron expr next = true
     ∧ (∀ t, in_horizon now t → matchesCron expr t = true → next ≤ t)
     ∧ sch_store st' = schedule_save x (sch_store st) ∧ enabled x = true ∧ cronExpression x = expr
     ∧ (in_years next → ∀ t, is_due t x = (next <=? t)))
  ∨ (∃ st', create_schedule input st = (Throw (ValidationError ("invalid cron expression: " +:+ expr) []), st')
     ∧ sch_store st' = sch_store st ∧ ∀ t, in_horizon now t → matchesCron expr t = false).
Proof.
  intros expr. rewrite create_schedule_eq. cbv zeta. fold expr. rewrite !Hclock.
  pose proof (nextCronRun_spec expr now) as H.
  destruct (nextCronRun expr now) as [next|e|]; [left|right|done].
  - destruct H as (Hin & Hm & Hmin). eexists next, _, _. split; [reflexivity|].
    split; [done|]. split; [done|]. split; [|split; [done|split; [done|split; [done|]]]].
    + intros t Ht Hmt. destruct (decide (next ≤ t)) as [|Hlt]; [done|]. rewrite Hmin in Hmt; [done|done|lia].
    + intros Hy t. by apply is_due_next.
  - destruct H as [_ Hn]. eexists. split; [reflexivity|]. done.
Qed.

(** A schedule for the 29th of February, which the matcher accepts, cannot be
    created in the three years after such a day: the next one lies beyond the
    366 days that [nextCronRun] searches, and the error calls the expression
    invalid. *)
Theorem create_leap_day_rejected (input : ScheduleInput) (st : Scheduler)
    (Hexpr : si_cronExpression input = leap_day_cron)
    (Hnow : 1709164800000 ≤ clock (sch_ticks st) < 1803772800000) :
  (∃ st', create_schedule input st
     = (Throw (ValidationError "invalid cron expression: 0 0 29 2 *" []), st')
     ∧ sch_store st' = sch_store st)
  ∧ matchesCron leap_day_cron 1835395200000 = true
  ∧ toISOString 1835395200000 = "2028-02-29T00:00:00.000Z".
Proof.
  split; [|by vm_compute]. rewrite create_schedule_eq. cbv zeta.
  rewrite Hexpr, leap_day_fails by done. eexists. split; [reflexivity|done].
Qed.

Section tick_property.
Context {JS WS RS : Type} `{JobDefinitionStore JS} `{WorkflowStore WS} `{RunStore RS} `{Environment}.
Notation world := (world JS WS RS).

(** When the first due schedule has no further match within the horizon, a tick
    creates a run of its job, throws before starting it, and changes no
    schedule: the schedule stays due and the schedules behind it are not
    reached, tick after tick. *)
Theorem tick_stuck (st : Scheduler) (w w' : world) (s : CronSchedule) (rest : list CronSchedule)
    (run : JobRun) (wf : WorkflowInstance) (def : JobDefinition)
    (Hdue : List.filter (is_due (clock (sch_ticks st))) (listEnabled (sch_store st)) = s :: rest)
    (Hrun : createRun (sc_jobId s) "cron" (defaultInput s) w = (Ok (run, wf, def), w'))
    (Hnext : nextCronRun (cronExpression s) (clock (S (sch_ticks st)))
             = Throw (PlainError "no cron match within horizon")) :
  ∃ st', tick (st, w) = (Throw (PlainError "no cron match within horizon"), (st', w'))
    ∧ sch_store st' = sch_store st ∧ launched st' = launched st
    ∧ ∀ t, truthy_opt (nextRunAt s) = true → clock (sch_ticks st) ≤ t → is_due t s = true.
Proof.
  set (st1 := mkScheduler (sch_store st) (S (sch_ticks st)) (sch_uuids st) (launched st)).
  exists (mkScheduler (sch_store st) (S (S (sch_ticks st))) (sch_uuids st) (launched st)).
  split; [|split; [done|split; [done|]]].
  - unfold tick. rewrite (M_bind_eq_Ok _ _ (st, w) (s :: rest) (st1, w)).
    2: { unfold on_schedules, dueSchedules. cbn [fst].
         rewrite (M_bind_eq_Ok _ _ st (listEnabled (sch_store st)) st) by done.
         rewrite (M_bind_eq_Ok _ _ st (clock (sch_ticks st)) st1) by done. by rewrite Hdue. }
    cbn [trigger_all]. rewrite (M_bind_eq_Ok _ _ (st1, w) (run, wf, def) (st1, w')).
    2: { unfold on_engine. cbn [snd]. by rewrite Hrun. }
    apply M_bind_eq_Throw. unfold on_schedules. cbn [fst]. rewrite markTriggered_eq.
    change (sch_ticks st1) with (S (sch_ticks st)). by rewrite Hnext.
  - assert (s ∈ List.filter (is_due (clock (sch_ticks st))) (listEnabled (sch_store st))) as Hd
      by (rewrite Hdue; by left).
    apply list_elem_of_In, filter_In in Hd as [_ Hd]. intros t Ht Hle. unfold is_due in *. rewrite Ht in *. cbn [negb] in *.
    destruct (parse_iso _); [|done]. apply Z.leb_le in Hd. apply Z.leb_le. lia.
Qed.
End tick_property.
End service.

(** ** Instances *)

Definition leap_instant : Z := 1709164800000.

Definition leap_schedule : CronSchedule :=
  mkSchedule "sched_1" "tenant" "job_demo" leap_day_cron "UTC" true None
    (Some "2024-02-29T00:00:00.000Z") [] "2024-01-01T00:00:00.000Z".

Definition hourly_schedule : CronSchedule :=
  mkSchedule "sched_2" "tenant" "job_demo" "0 * * * *" "UTC" true None None [] "2024-01-01T00:00:00.000Z".

Definition example_scheduler (s : CronSchedule) : Scheduler := mkScheduler [(sc_id s, s)] 0 0 [].

Lemma markTriggered_next_witness :
  ∃ u st', markTriggered (λ _, leap_instant) hourly_schedule (example_scheduler hourly_schedule) = (Ok u, st')
    ∧ schedule_get "sched_2" (sch_store st') = Some u
    ∧ matchesCron "0 * * * *" 1709168400000 = true.
Proof.
  eexists _, _. split; [vm_compute; reflexivity|].
  match goal with |- schedule_get _ (sch_store ?st') = Some ?u ∧ _ =>
    destruct (markTriggered_next (λ _, leap_instant) hourly_schedule u (example_scheduler hourly_schedule) st')
      as (next & _ & _ & _ & Hget & _) end.
  - vm_compute. reflexivity.
  - split; [exact Hget|]. vm_compute. reflexivity.
Defined.

Lemma create_schedule_correct_witness :
  ∃ x st', create_schedule (λ _, leap_instant) (λ _, "0123456789ab")
      (mkScheduleInput "tenant" "job_demo" "*/15 9 * * 1" None None) (example_scheduler leap_schedule) = (Ok x, st')
    ∧ sch_store st' = schedule_save x [("sched_1", leap_schedule)].
Proof.
  destruct (create_schedule_correct (λ _, leap_instant) (λ _, "0123456789ab")
    (mkScheduleInput "tenant" "job_demo" "*/15 9 * * 1" None None) (example_scheduler leap_schedule) leap_instant
    (λ _, eq_refl)) as [(next & x & st' & Hc & _ & _ & _ & Hs & _)|(st' & _ & _ & Hn)].
  - exists x, st'. split; [exact Hc|exact Hs].
  - exfalso. specialize (Hn 1709542800000). discriminate Hn.
    apply (bool_decide_unpack _). vm_compute. exact I.
Defined.

Lemma create_leap_day_rejected_witness :
  ∃ st', create_schedule (λ _, leap_instant) (λ _, "0123456789ab")
      (mkScheduleInput "tenant" "job_demo" leap_day_cron None None) (example_scheduler hourly_schedule)
    = (Throw (ValidationError "invalid cron expression: 0 0 29 2 *" []), st').
Proof.
  destruct (create_leap_day_rejected (λ _, leap_instant) (λ _, "0123456789ab")
    (mkScheduleInput "tenant" "job_demo" leap_day_cron None None) (example_scheduler hourly_schedule)
    eq_refl) as ((st' & Hst & _) & _).
  - split; vm_compute; [discriminate|reflexivity].
  - exists st'. exact Hst.
Defined.

Section witnesses.
#[local] Instance schedule_environment : Environment := scripted (λ _, true).

Lemma tick_stuck_witness :
  ∃ st' (w' : demo_world), tick (λ _, leap_instant) (example_scheduler leap_schedule, demo_registered demo_definition)
      = (Throw (PlainError "no cron match within horizon"), (st', w'))
    ∧ sch_store st' = [("sched_1", leap_schedule)] ∧ run_get "run_0" (w_runs w') ≠ None.
Proof.
  destruct (createRun "job_demo" "cron" [] (demo_registered demo_definition)) as [[[[run wf] def]|e|] w'] eqn:E;
    [|vm_compute in E; discriminate E..].
  destruct (tick_stuck (λ _, leap_instant) (example_scheduler leap_schedule) (demo_registered demo_definition)
    w' leap_schedule [] run wf def) as (st' & Htick & Hs & _).
  - vm_compute. reflexivity.
  - exact E.
  - apply leap_day_fails. split; vm_compute; [discriminate|reflexivity].
  - exists st', w'. split; [exact Htick|]. split; [exact Hs|]. vm_compute in E. injection E as _ _ _ <-. discriminate.
Defined.
End witnesses.
