(* ===== verification/DslLexer.v ===== *)
(** * The lexer of the workflow language (dsl/lexer.ts)

    The source is a list of characters; the lexer's position is the rest of the
    source with the line and the column.  The loop of [tokenize] gets one unit of
    fuel per character, since every round consumes one. *)

From S2P Require Import Prelude JsString JsNum DomainTypes.
From Stdlib Require Import Ascii.
Open Scope Z_scope.

Inductive DslTokenType : Type :=
| TKeyword | TIdent | TNumber | TString | TLbrace | TRbrace | TLbracket | TRbracket | TColon | TComma
| TArrow | TEof.

#[export] Instance DslTokenType_eq_dec : EqDecision DslTokenType.
Proof. solve_decision. Defined.

Definition DslTokenType_string (t : DslTokenType) : string :=
  match t with
  | TKeyword => "keyword" | TIdent => "ident" | TNumber => "number" | TString => "string"
  | TLbrace => "lbrace" | TRbrace => "rbrace" | TLbracket => "lbracket" | TRbracket => "rbracket"
  | TColon => "colon" | TComma => "comma" | TArrow => "arrow" | TEof => "eof"
  end.

Record DslToken : Type := mkToken {
  tok_type : DslTokenType;
  tok_value : string;
  tok_line : Z;
  tok_column : Z;
}.

Definition KEYWORDS : list string :=
  ["workflow"; "task"; "constraint"; "depends"; "optional"; "warn"; "block"; "timeout"; "version";
   "handler"; "expr"].

(** ** Positions *)

Record LexState : Type := mkLex {
  rest : list ascii;
  line : Z;
  column : Z;
}.

Definition newline : ascii := ascii_of_nat 10.
Definition double_quote : ascii := ascii_of_nat 34.
Definition single_quote : ascii := ascii_of_nat 39.
Definition backslash : ascii := ascii_of_nat 92.

(** [advance]; past the end of the source only the column moves. *)
Definition advance (s : LexState) : LexState :=
  match rest s with
  | [] => mkLex [] (line s) (column s + 1)
  | c :: r => if decide (c = newline) then mkLex r (line s + 1) 1 else mkLex r (line s) (column s + 1)
  end.

Definition advance_over (cs : list ascii) (s : LexState) : LexState := foldl (λ s _, advance s) s cs.

(** ** Scanners

    Each recurses on the characters, which are those of the state's [rest]. *)

Fixpoint skip_go (l : list ascii) (in_comment : bool) (s : LexState) : LexState :=
  match l with
  | [] => s
  | c :: r =>
      if in_comment then
        if decide (c = newline) then skip_go r false (advance s) else skip_go r true (advance s)
      else if is_space c then skip_go r false (advance s)
      else if decide (c = "#"%char) then skip_go r true (advance s)
      else s
  end.

Definition skipWhitespaceAndComments (s : LexState) : LexState := skip_go (rest s) false s.

(** The loop of [readString], with the output so far, and its final [advance]. *)
Fixpoint string_go (q : ascii) (l : list ascii) (s : LexState) (out : list ascii) : list ascii * LexState :=
  match l with
  | [] => (out, advance s)
  | c :: r =>
      if decide (c = q) then (out, advance s)
      else if decide (c = backslash) then
        match r with
        | [] => (out, advance (advance (advance s)))
        | d :: r' => string_go q r' (advance (advance s)) (out ++ [d])
        end
      else string_go q r (advance s) (out ++ [c])
  end.

Definition readString (q : ascii) (s : LexState) : string * LexState :=
  let s1 := advance s in
  let '(out, s2) := string_go q (rest s1) s1 [] in (of_chars out, s2).

Definition is_ident_start (c : ascii) : bool := is_lower c || is_upper c || bool_decide (c = "_"%char).
Definition is_ident_char (c : ascii) : bool :=
  is_lower c || is_upper c || is_digit c || bool_decide (c ∈ ["_"; "."; "-"]%char).

Definition read_while (p : ascii → bool) (s : LexState) : string * LexState :=
  let cs := take_while p (rest s) in (of_chars cs, advance_over cs s).

Definition readNumber : LexState → string * LexState := read_while is_digit.
Definition readIdent : LexState → string * LexState := read_while is_ident_char.

Definition single_type (ch : ascii) : option DslTokenType :=
  if decide (ch = "{"%char) then Some TLbrace
  else if decide (ch = "}"%char) then Some TRbrace
  else if decide (ch = "["%char) then Some TLbracket
  else if decide (ch = "]"%char) then Some TRbracket
  else if decide (ch = ":"%char) then Some TColon
  else if decide (ch = ","%char) then Some TComma
  else None.

(** One round of the loop after the white space: the token at [ch], the first
    character, and the state behind it. *)
Definition next_token (ch : ascii) (s : LexState) : res (DslToken * LexState) :=
  let token ty v := mkToken ty v (line s) (column s) in
  match single_type ch with
  | Some ty => Ok (token ty (of_chars [ch]), advance s)
  | None =>
      if bool_decide (ch = "-"%char) && bool_decide (rest s !! 1%nat = Some ">"%char)
      then Ok (token TArrow "->", advance (advance s))
      else if bool_decide (ch = double_quote) || bool_decide (ch = single_quote) then
        let '(v, s') := readString ch s in Ok (token TString v, s')
      else if is_digit ch then
        let '(v, s') := readNumber s in Ok (token TNumber v, s')
      else if is_ident_start ch then
        let '(word, s') := readIdent s in
        Ok (token (if decide (word ∈ KEYWORDS) then TKeyword else TIdent) word, s')
      else Throw (PlainError ("unexpected character '" +:+ of_chars [ch] +:+ "' at "
                    +:+ pretty (line s) +:+ ":" +:+ pretty (column s)))
  end.

Fixpoint tokenize_loop (fuel : nat) (s : LexState) : res (list DslToken) :=
  let s := skipWhitespaceAndComments s in
  match rest s with
  | [] => Ok [mkToken TEof "" (line s) (column s)]
  | ch :: _ =>
      match fuel with
      | O => OutOfFuel
      | S n =>
          '(t, s') ← next_token ch s;
          ts ← tokenize_loop n s';
          mret (t :: ts)
      end
  end.

Definition tokenize (source : string) : res (list DslToken) :=
  tokenize_loop (String.length source) (mkLex (chars source) 1 1).

Definition kind_of (t : DslToken) : DslTokenType * string := (tok_type t, tok_value t).

Definition kinds (o : res (list DslToken)) : option (list (DslTokenType * string)) :=
  match o with Ok ts => Some (kind_of <$> ts) | _ => None end.

Example tokenize_task :
  kinds (tokenize "task a-b: { timeout: 250 optional } # end")
  = Some [(TKeyword, "task"); (TIdent, "a-b"); (TColon, ":"); (TLbrace, "{"); (TKeyword, "timeout");
          (TColon, ":"); (TNumber, "250"); (TKeyword, "optional"); (TRbrace, "}"); (TEof, "")].
Proof. vm_compute. reflexivity. Qed.

(** An identifier may contain [-], so it swallows the first half of an arrow. *)
Example tokenize_arrow :
  tokenize "a->b" = Throw (PlainError "unexpected character '>' at 1:3")
  ∧ kinds (tokenize "a ->b")
    = Some [(TIdent, "a"); (TArrow, "->"); (TIdent, "b"); (TEof, "")].
Proof. vm_compute. done. Qed.
