(* ===== verification/DslParser.v ===== *)
(** * The parser of the workflow language (dsl/ast.ts, dsl/parser.ts)

    The parser's position is the list of the tokens ahead.  Its loops get fuel;
    every round but one kind consumes a token, so the number of tokens is enough
    for every input on which the parser ends at all (DslGrammar.v). *)

From S2P Require Import Prelude JsString JsNum DomainTypes DslLexer Domain.
From Stdlib Require Import Ascii SpecFloat.
Open Scope Z_scope.

(** ** Syntax trees *)

Record TaskDslNode : Type := mkTaskNode {
  tn_id : string;
  tn_handler : string;
  tn_timeoutMs : Z;
  tn_dependsOn : list string;
  tn_optional : bool;
}.

Record ConstraintDslNode : Type := mkConstraintNode {
  cn_id : string;
  expr : string;
  cn_severity : Severity;
}.

Record WorkflowDslNode : Type := mkWorkflowNode {
  wn_name : string;
  wn_version : Z;
  wn_tasks : list TaskDslNode;
  wn_constraints : list ConstraintDslNode;
}.

(** [Number(v)] for the digits of a number token: the nearest double, which is an
    integer.  Literals beyond the largest double, which give [Infinity], are
    outside the model. *)
Definition num_to_Z (x : num) : Z :=
  match x with
  | S754_finite s m e => (if s then -1 else 1) * (if 0 <=? e then Z.pos m * 2 ^ e else Z.pos m / 2 ^ (- e))
  | _ => 0
  end.

Definition Number_of_digits (v : string) : Z := num_to_Z (string_to_num v).

(** ** Token operations *)

Notation parser := (M JsError (list DslToken)).

Definition peek : parser DslToken := λ ts,
  match ts with
  | [] => (Throw (TypeError "Cannot read properties of undefined (reading 'type')"), ts)
  | t :: _ => (Ok t, ts)
  end.

Definition is_type (ty : DslTokenType) (t : DslToken) : bool := bool_decide (tok_type t = ty).
Definition is_keyword (kw : string) (t : DslToken) : bool :=
  is_type TKeyword t && bool_decide (tok_value t = kw).

(** [this.i += 1]. *)
Definition next : parser unit := modify tail.

Definition expect (ty : DslTokenType) : parser DslToken :=
  t ← peek;
  if negb (is_type ty t)
  then throw (PlainError ("expected " +:+ DslTokenType_string ty +:+ ", got "
                +:+ DslTokenType_string (tok_type t) +:+ " (" +:+ tok_value t +:+ ")"))
  else _ ← next; mret t.

Definition expectKeyword (kw : string) : parser unit :=
  t ← expect TKeyword;
  if negb (bool_decide (tok_value t = kw)) then throw (PlainError ("expected keyword " +:+ kw)) else mret tt.

Definition expectIdent : parser string := t ← expect TIdent; mret (tok_value t).

Definition expectIdentOrString : parser string :=
  t ← peek;
  if is_type TIdent t || is_type TString t then _ ← next; mret (tok_value t)
  else throw (PlainError ("expected ident or string, got " +:+ DslTokenType_string (tok_type t))).

(** ** Productions *)

Fixpoint depends_loop (fuel : nat) (acc : list string) : parser (list string) :=
  match fuel with
  | O => diverge
  | S n =>
      t ← peek;
      if is_type TRbracket t then mret acc
      else
        d ← expectIdentOrString;
        t' ← peek;
        _ ← (if is_type TComma t' then _ ← expect TComma; mret tt else mret tt);
        depends_loop n (acc ++ [d])
  end.

(** The variables of [parseTask] and of [parseConstraint]. *)
Record TaskVars : Type := mkTaskVars {
  v_handler : string;
  v_timeoutMs : Z;
  v_dependsOn : list string;
  v_optional : bool;
}.

Definition task_field (fuel : nat) (t : DslToken) (v : TaskVars) : parser TaskVars :=
  if is_keyword "handler" t then
    _ ← expectKeyword "handler"; _ ← expect TColon; s ← expect TString;
    mret (mkTaskVars (tok_value s) (v_timeoutMs v) (v_dependsOn v) (v_optional v))
  else if is_keyword "timeout" t then
    _ ← expectKeyword "timeout"; _ ← expect TColon; s ← expect TNumber;
    mret (mkTaskVars (v_handler v) (Number_of_digits (tok_value s)) (v_dependsOn v) (v_optional v))
  else if is_keyword "depends" t then
    _ ← expectKeyword "depends"; _ ← expect TColon; _ ← expect TLbracket;
    ds ← depends_loop fuel (v_dependsOn v);
    _ ← expect TRbracket;
    mret (mkTaskVars (v_handler v) (v_timeoutMs v) ds (v_optional v))
  else if is_keyword "optional" t then
    _ ← expectKeyword "optional";
    mret (mkTaskVars (v_handler v) (v_timeoutMs v) (v_dependsOn v) true)
  else throw (PlainError ("unknown task field near " +:+ tok_value t)).

Fixpoint task_loop (fuel : nat) (v : TaskVars) : parser TaskVars :=
  match fuel with
  | O => diverge
  | S n =>
      t ← peek;
      if is_type TRbrace t then mret v else v' ← task_field n t v; task_loop n v'
  end.

Definition parseTask (fuel : nat) : parser TaskDslNode :=
  _ ← expectKeyword "task";
  id ← expectIdent;
  _ ← expect TColon;
  _ ← expect TLbrace;
  v ← task_loop fuel (mkTaskVars "" 30000 [] false);
  _ ← expect TRbrace;
  if negb (truthy_string (v_handler v)) then throw (PlainError ("task " +:+ id +:+ " missing handler"))
  else mret (mkTaskNode id (v_handler v) (v_timeoutMs v) (v_dependsOn v) (v_optional v)).

(** A round of the loop of [parseConstraint] that meets another token consumes
    nothing. *)
Definition constraint_field (t : DslToken) (v : string * Severity) : parser (string * Severity) :=
  if is_keyword "expr" t then
    _ ← expectKeyword "expr"; _ ← expect TColon; s ← expect TString; mret (tok_value s, v.2)
  else if is_keyword "warn" t then _ ← expectKeyword "warn"; mret (v.1, SeverityWarn)
  else if is_keyword "block" t then _ ← expectKeyword "block"; mret (v.1, SeverityBlock)
  else mret v.

Fixpoint constraint_loop (fuel : nat) (v : string * Severity) : parser (string * Severity) :=
  match fuel with
  | O => diverge
  | S n =>
      t ← peek;
      if is_type TRbrace t then mret v else v' ← constraint_field t v; constraint_loop n v'
  end.

Definition parseConstraint (fuel : nat) : parser ConstraintDslNode :=
  _ ← expectKeyword "constraint";
  id ← expectIdent;
  _ ← expect TColon;
  _ ← expect TLbrace;
  v ← constraint_loop fuel ("", SeverityBlock);
  _ ← expect TRbrace;
  mret (mkConstraintNode id v.1 v.2).

Fixpoint body_loop (fuel : nat) (tasks : list TaskDslNode) (constraints : list ConstraintDslNode)
    : parser (list TaskDslNode * list ConstraintDslNode) :=
  match fuel with
  | O => diverge
  | S n =>
      t ← peek;
      if is_type TRbrace t then mret (tasks, constraints)
      else if is_keyword "task" t then
        x ← parseTask n; body_loop n (tasks ++ [x]) constraints
      else if is_keyword "constraint" t then
        x ← parseConstraint n; body_loop n tasks (constraints ++ [x])
      else throw (PlainError ("unexpected token in workflow body: " +:+ tok_value t))
  end.

Definition parse_workflow (fuel : nat) : parser WorkflowDslNode :=
  _ ← expectKeyword "workflow";
  name ← expectIdent;
  _ ← expect TColon;
  _ ← expect TLbrace;
  _ ← expectKeyword "version";
  _ ← expect TColon;
  v ← expect TNumber;
  body ← body_loop fuel [] [];
  _ ← expect TRbrace;
  mret (mkWorkflowNode name (Number_of_digits (tok_value v)) body.1 body.2).

Definition dsl_parse (fuel : nat) (source : string) : res WorkflowDslNode :=
  ts ← tokenize source;
  (parse_workflow fuel ts).1.
