(* ===== verification/DslGrammar.v ===== *)
(** * The language the parser accepts

    The concrete syntax of a workflow as data, its tokens and its meaning.  The
    parser returns exactly the meanings of the token lists that begin with a
    workflow, and never ends exactly on those with a foreign token in the body of
    a constraint. *)

From S2P Require Import Prelude JsString JsNum DomainTypes DslLexer DslParser Domain.
From Stdlib Require Import Ascii.
Open Scope Z_scope.

(** ** Symbols: what the parser sees of a token *)

Definition sym : Type := DslTokenType * string.

Definition carries (ty : DslTokenType) : bool :=
  match ty with TKeyword | TIdent | TNumber | TString => true | _ => false end.

Definition sym_of (t : DslToken) : sym := (tok_type t, if carries (tok_type t) then tok_value t else "").
Definition syms (ts : list DslToken) : list sym := sym_of <$> ts.

Definition kw (w : string) : sym := (TKeyword, w).
Definition colon : sym := (TColon, "").
Definition lbrace : sym := (TLbrace, "").
Definition rbrace : sym := (TRbrace, "").
Definition rbracket : sym := (TRbracket, "").

(** ** Concrete syntax *)

Record DepSyntax : Type := mkDep { dep_quoted : bool; dep_name : string; dep_comma : bool }.

Inductive TaskField : Type :=
| FHandler (s : string) | FTimeout (digits : string) | FDepends (ds : list DepSyntax) | FOptional.

Inductive ConstraintField : Type := FExpr (s : string) | FWarn | FBlock.

Inductive Item : Type :=
| ItemTask (id : string) (fs : list TaskField)
| ItemConstraint (id : string) (fs : list ConstraintField).

Record Syntax : Type := mkSyntax { sx_name : string; sx_version : string; sx_items : list Item }.

Definition dep_syms (d : DepSyntax) : list sym :=
  (if dep_quoted d then TString else TIdent, dep_name d) :: (if dep_comma d then [(TComma, "")] else []).

Definition task_field_syms (f : TaskField) : list sym :=
  match f with
  | FHandler s => [kw "handler"; colon; (TString, s)]
  | FTimeout v => [kw "timeout"; colon; (TNumber, v)]
  | FDepends ds => [kw "depends"; colon; (TLbracket, "")] ++ (ds ≫= dep_syms) ++ [rbracket]
  | FOptional => [kw "optional"]
  end.

Definition constraint_field_syms (f : ConstraintField) : list sym :=
  match f with
  | FExpr s => [kw "expr"; colon; (TString, s)]
  | FWarn => [kw "warn"]
  | FBlock => [kw "block"]
  end.

Definition item_syms (i : Item) : list sym :=
  match i with
  | ItemTask id fs => [kw "task"; (TIdent, id); colon; lbrace] ++ (fs ≫= task_field_syms) ++ [rbrace]
  | ItemConstraint id fs =>
      [kw "constraint"; (TIdent, id); colon; lbrace] ++ (fs ≫= constraint_field_syms) ++ [rbrace]
  end.

Definition header_syms (name version : string) : list sym :=
  [kw "workflow"; (TIdent, name); colon; lbrace; kw "version"; colon; (TNumber, version)].

Definition syntax_syms (x : Syntax) : list sym :=
  header_syms (sx_name x) (sx_version x) ++ (sx_items x ≫= item_syms) ++ [rbrace].

(** ** Meaning: later fields override earlier ones, dependencies accumulate *)

Definition apply_task_field (v : TaskVars) (f : TaskField) : TaskVars :=
  match f with
  | FHandler s => mkTaskVars s (v_timeoutMs v) (v_dependsOn v) (v_optional v)
  | FTimeout d => mkTaskVars (v_handler v) (Number_of_digits d) (v_dependsOn v) (v_optional v)
  | FDepends ds => mkTaskVars (v_handler v) (v_timeoutMs v) (v_dependsOn v ++ (dep_name <$> ds)) (v_optional v)
  | FOptional => mkTaskVars (v_handler v) (v_timeoutMs v) (v_dependsOn v) true
  end.

Definition task_vars (fs : list TaskField) : TaskVars := foldl apply_task_field (mkTaskVars "" 30000 [] false) fs.

Definition task_meaning (id : string) (fs : list TaskField) : TaskDslNode :=
  let v := task_vars fs in mkTaskNode id (v_handler v) (v_timeoutMs v) (v_dependsOn v) (v_optional v).

Definition apply_constraint_field (v : string * Severity) (f : ConstraintField) : string * Severity :=
  match f with FExpr s => (s, v.2) | FWarn => (v.1, SeverityWarn) | FBlock => (v.1, SeverityBlock) end.

Definition constraint_meaning (id : string) (fs : list ConstraintField) : ConstraintDslNode :=
  let v := foldl apply_constraint_field ("", SeverityBlock) fs in mkConstraintNode id v.1 v.2.

(** Every task names a handler. *)
Definition item_ok (i : Item) : Prop :=
  match i with ItemTask _ fs => v_handler (task_vars fs) ≠ "" | ItemConstraint _ _ => True end.

Definition item_tasks (i : Item) : list TaskDslNode :=
  match i with ItemTask id fs => [task_meaning id fs] | ItemConstraint _ _ => [] end.
Definition item_constraints (i : Item) : list ConstraintDslNode :=
  match i with ItemTask _ _ => [] | ItemConstraint id fs => [constraint_meaning id fs] end.

Definition meaning (x : Syntax) : WorkflowDslNode :=
  mkWorkflowNode (sx_name x) (Number_of_digits (sx_version x)) (sx_items x ≫= item_tasks)
    (sx_items x ≫= item_constraints).

(** A token in the body of a constraint that the parser neither knows nor refuses. *)
Definition foreign (s : sym) : Prop := s ∉ [rbrace; kw "expr"; kw "warn"; kw "block"].

Definition hangs_in_constraint (l : list sym) : Prop :=
  ∃ fs s k, l = (fs ≫= constraint_field_syms) ++ s :: k ∧ foreign s.

Definition hangs_in_body (l : list sym) : Prop :=
  ∃ xs id k, l = (xs ≫= item_syms) ++ [kw "constraint"; (TIdent, id); colon; lbrace] ++ k
    ∧ Forall item_ok xs ∧ hangs_in_constraint k.

Definition hangs (l : list sym) : Prop :=
  ∃ name version k, l = header_syms name version ++ k ∧ hangs_in_body k.

(** ** What a parser consumes

    [parses F m R]: a result [a] of [m] is related by [R] to the symbols
    consumed, and [m] runs out of fuel only on inputs in [F]. *)

Definition parses {A} (F : list sym → Prop) (m : parser A) (R : A → list sym → Prop) : Prop :=
  ∀ ts, match m ts with
        | (Ok a, ts') => ∃ c, syms ts = c ++ syms ts' ∧ R a c
        | (Throw _, _) => True
        | (OutOfFuel, _) => F (syms ts)
        end.

Definition never (l : list sym) : Prop := False.

Lemma parses_bind {A B} (F F1 : list sym → Prop) (m : parser A) (R1 : A → list sym → Prop)
    (f : A → parser B) (R : B → list sym → Prop) :
  parses F1 m R1 → (∀ l, F1 l → F l) →
  (∀ a c1, R1 a c1 → parses (λ l, F (c1 ++ l)) (f a) (λ b c2, R b (c1 ++ c2))) →
  parses F (m ≫= f) R.
Proof.
  intros Hm HF Hf ts. specialize (Hm ts). unfold mbind, M_bind. destruct (m ts) as [[a|e|] ts1]; [|done|by apply HF].
  destruct Hm as (c1 & Hc1 & HR). specialize (Hf a c1 HR ts1). destruct (f a ts1) as [[b|e|] ts2]; [|done|].
  - destruct Hf as (c2 & Hc2 & HR2). exists (c1 ++ c2). split; [|done]. by rewrite Hc1, Hc2, app_assoc.
  - by rewrite Hc1.
Qed.

Lemma parses_weaken {A} (F F' : list sym → Prop) (m : parser A) (R R' : A → list sym → Prop) :
  parses F' m R' → (∀ l, F' l → F l) → (∀ a c, R' a c → R a c) → parses F m R.
Proof.
  intros Hm HF HR ts. specialize (Hm ts). destruct (m ts) as [[a|e|] ts1]; [|done|by apply HF].
  destruct Hm as (c & ? & ?). eauto.
Qed.

Lemma parses_ret {A} (F : list sym → Prop) (a : A) (R : A → list sym → Prop) : R a [] → parses F (mret a) R.
Proof. intros H ts. by exists []. Qed.

Lemma parses_throw {A} (F : list sym → Prop) (e : JsError) (R : A → list sym → Prop) : parses F (throw e) R.
Proof. by intros ts. Qed.

Lemma sym_of_type t : (sym_of t).1 = tok_type t.
Proof. done. Qed.

Lemma expect_parses ty :
  parses never (expect ty) (λ t c, c = [(ty, if carries ty then tok_value t else "")]).
Proof.
  intros [|t ts]; [done|]. unfold expect, peek, mbind, M_bind. unfold is_type.
  case_bool_decide as H; [|done]. simpl. eexists [_]. split; [done|]. unfold sym_of. by rewrite H.
Qed.

Lemma expectKeyword_parses w : parses never (expectKeyword w) (λ _ c, c = [kw w]).
Proof.
  eapply parses_bind; [apply expect_parses|done|]. intros t c1 ->. simpl.
  case_bool_decide as H; simpl; [|apply parses_throw]. apply parses_ret. by rewrite H.
Qed.

Lemma expectIdent_parses : parses never expectIdent (λ v c, c = [(TIdent, v)]).
Proof. eapply parses_bind; [apply expect_parses|done|]. intros t c1 ->. by apply parses_ret. Qed.

Lemma expectIdentOrString_parses :
  parses never expectIdentOrString (λ v c, ∃ q : bool, c = [(if q then TString else TIdent, v)]).
Proof.
  intros [|t ts]; [done|]. unfold expectIdentOrString, peek, mbind, M_bind, is_type.
  case_bool_decide as H1; simpl; [|case_bool_decide as H2; simpl; [|done]]; eexists [_];
    (split; [done|]); unfold sym_of; rewrite ?H1, ?H2; [by exists false|by exists true].
Qed.

#[export] Hint Resolve expect_parses expectKeyword_parses expectIdent_parses expectIdentOrString_parses : jobflow.

(** Run one more parser of a sequence. *)
Ltac parse_step := eapply parses_bind; [eauto with jobflow|try done|let c := fresh "c" in intros ? c ->; simpl].

(** ** Soundness of the productions, and when they run out of fuel

    [short n l]: [n] units of fuel are not more than the symbols left. *)

Definition short (n : nat) (l : list sym) : Prop := (n ≤ length l)%nat.

(** A loop that looks at the next token first. *)
Lemma parses_peek {A} (F : list sym → Prop) (f : DslToken → parser A) (R : A → list sym → Prop) :
  (∀ t ts, match f t (t :: ts) with
           | (Ok a, ts') => ∃ c, syms (t :: ts) = c ++ syms ts' ∧ R a c
           | (Throw _, _) => True
           | (OutOfFuel, _) => F (syms (t :: ts))
           end) → parses F (t ← peek; f t) R.
Proof. intros H [|t ts]; [done|]. apply H. Qed.

(** After an optional comma. *)
Lemma comma_parses :
  parses never (t' ← peek; if is_type TComma t' then _ ← expect TComma; mret tt else mret tt)
    (λ _ c, ∃ b : bool, c = (if b then [(TComma, "")] else [])).
Proof.
  apply parses_peek. intros t ts. destruct (is_type TComma t).
  - refine (_ (t :: ts)). change (parses never (_ ← expect TComma; mret tt)
      (λ _ c, ∃ b : bool, c = (if b then [(TComma, "")] else []))).
    parse_step. apply parses_ret. by exists true.
  - exists []. split; [done|]. by exists false.
Qed.

Lemma parses_assoc {A B C} (F : list sym → Prop) (m : parser A) (f : A → parser B) (g : B → parser C) R :
  parses F ((m ≫= f) ≫= g) R → parses F (x ← m; f x ≫= g) R.
Proof.
  intros H ts. specialize (H ts). unfold mbind, M_bind in *. by destruct (m ts) as [[]].
Qed.

Lemma short_app n c l : c ≠ [] → short n l → short (S n) (c ++ l).
Proof. unfold short. rewrite length_app. destruct c; [done|]. simpl. lia. Qed.

Lemma parses_short {A} n c (m : parser A) R :
  c ≠ [] → parses (short n) m R → parses (λ l, short (S n) (c ++ l)) m R.
Proof. intros Hc Hm. eapply parses_weaken; [exact Hm| |done]. intros l. by apply short_app. Qed.

Lemma depends_loop_parses n acc :
  parses (short n) (depends_loop n acc) (λ r c, ∃ ds, r = acc ++ (dep_name <$> ds) ∧ c = ds ≫= dep_syms).
Proof.
  revert acc. induction n as [|n IH]; intros acc; [intros ts; simpl; unfold short; lia|].
  cbn [depends_loop]. apply parses_peek. intros t ts. destruct (is_type TRbracket t).
  { exists []. split; [done|]. exists []. by rewrite app_nil_r. }
  revert ts. generalize t.
  assert (parses (short (S n)) (d ← expectIdentOrString; t' ← peek;
    _ ← (if is_type TComma t' then _ ← expect TComma; mret tt else mret tt); depends_loop n (acc ++ [d]))
    (λ r c, ∃ ds, r = acc ++ (dep_name <$> ds) ∧ c = ds ≫= dep_syms)) as H; [|intros t0 ts; apply H].
  eapply parses_bind; [eauto with jobflow|done|]. intros d c1 [q ->].
  apply parses_assoc. eapply parses_bind; [apply comma_parses|done|]. intros _ c2 [b ->].
  eapply parses_weaken; [apply IH| |].
  - intros l Hl. unfold short in *. rewrite !length_app. simpl. lia.
  - intros r c (ds & -> & ->). exists (mkDep q d b :: ds). rewrite <-app_assoc. split; [done|].
    rewrite bind_cons. unfold dep_syms at 1. simpl. by destruct b.
Qed.

Lemma task_field_parses n t v :
  parses (short (S n)) (task_field n t v)
    (λ v' c, ∃ f, v' = apply_task_field v f ∧ c = task_field_syms f).
Proof.
  unfold task_field. destruct (is_keyword "handler" t); [|destruct (is_keyword "timeout" t);
    [|destruct (is_keyword "depends" t); [|destruct (is_keyword "optional" t); [|apply parses_throw]]]].
  - parse_step. parse_step. parse_step. apply parses_ret. by exists (FHandler (tok_value a1)).
  - parse_step. parse_step. parse_step. apply parses_ret. by exists (FTimeout (tok_value a1)).
  - parse_step. parse_step. parse_step.
    eapply parses_bind; [apply depends_loop_parses| |].
    + intros l. unfold short. simpl. lia.
    + intros ds c (xs & -> & ->). parse_step. apply parses_ret. by exists (FDepends xs).
  - parse_step. apply parses_ret. by exists FOptional.
Qed.

Lemma task_field_syms_nonempty f : task_field_syms f ≠ [].
Proof. by destruct f. Qed.

Lemma task_loop_parses n v :
  parses (short n) (task_loop n v)
    (λ v' c, ∃ fs, v' = foldl apply_task_field v fs ∧ c = fs ≫= task_field_syms).
Proof.
  revert v. induction n as [|n IH]; intros v; [intros ts; simpl; unfold short; lia|].
  cbn [task_loop]. apply parses_peek. intros t ts. destruct (is_type TRbrace t).
  { exists []. split; [done|]. by exists []. }
  apply (parses_bind (short (S n)) (short (S n)) _ _ _ _ (task_field_parses n t v)); [done|].
  intros v' c1 (f & -> & ->).
  eapply parses_weaken; [apply (parses_short n (task_field_syms f)); [apply task_field_syms_nonempty|apply IH]|done|].
  intros v' c (fs & -> & ->). by exists (f :: fs).
Qed.

Lemma parseTask_parses n :
  parses (short (S n)) (parseTask n) (λ x c, ∃ id fs, x = task_meaning id fs
    ∧ c = item_syms (ItemTask id fs) ∧ item_ok (ItemTask id fs)).
Proof.
  unfold parseTask. parse_step. eapply parses_bind; [eauto with jobflow|done|]. intros id c2 ->. simpl.
  parse_step. parse_step. eapply parses_bind; [apply task_loop_parses| |].
  { intros l. unfold short. simpl. lia. }
  intros v c (fs & -> & ->). parse_step. destruct (truthy_string _) eqn:Ht; simpl; [|apply parses_throw].
  apply parses_ret. exists id, fs. split; [done|]. split; [done|]. by apply truthy_string_true.
Qed.

Lemma constraint_field_parses t v :
  is_keyword "expr" t = true ∨ is_keyword "warn" t = true ∨ is_keyword "block" t = true →
  parses never (constraint_field t v)
    (λ v' c, ∃ f, v' = apply_constraint_field v f ∧ c = constraint_field_syms f).
Proof.
  unfold constraint_field. intros H. destruct (is_keyword "expr" t); [|destruct (is_keyword "warn" t);
    [|destruct (is_keyword "block" t); [|naive_solver]]].
  - parse_step. parse_step. parse_step. apply parses_ret. by exists (FExpr (tok_value a1)).
  - parse_step. apply parses_ret. by exists FWarn.
  - parse_step. apply parses_ret. by exists FBlock.
Qed.

Lemma is_keyword_sym w t : is_keyword w t = true ↔ sym_of t = kw w.
Proof.
  unfold is_keyword, is_type, sym_of, kw. rewrite andb_true_iff, !bool_decide_eq_true. split.
  - intros [H1 H2]. rewrite H1. simpl. by rewrite H2.
  - intros H. injection H as H1 H2. rewrite H1 in *. simpl in H2. done.
Qed.

Lemma is_rbrace_sym t : is_type TRbrace t = true ↔ sym_of t = rbrace.
Proof.
  unfold is_type, sym_of, rbrace. rewrite bool_decide_eq_true. split.
  - intros ->. done.
  - intros [= H _]. done.
Qed.

Lemma constraint_field_syms_nonempty f : constraint_field_syms f ≠ [].
Proof. by destruct f. Qed.

Lemma hangs_in_constraint_more f l : hangs_in_constraint l → hangs_in_constraint (constraint_field_syms f ++ l).
Proof. intros (fs & s & k & -> & Hs). exists (f :: fs), s, k. split; [|done]. by rewrite bind_cons, <-app_assoc. Qed.

Lemma constraint_loop_parses n v :
  parses (λ l, short n l ∨ hangs_in_constraint l) (constraint_loop n v)
    (λ v' c, ∃ fs, v' = foldl apply_constraint_field v fs ∧ c = fs ≫= constraint_field_syms).
Proof.
  revert v. induction n as [|n IH]; intros v; [intros ts; simpl; left; unfold short; lia|].
  cbn [constraint_loop]. apply parses_peek. intros t ts. destruct (is_type TRbrace t) eqn:Hb.
  { exists []. split; [done|]. by exists []. }
  destruct (decide (is_keyword "expr" t = true ∨ is_keyword "warn" t = true ∨ is_keyword "block" t = true))
    as [Hk|Hk].
  - refine (parses_bind (λ l, short (S n) l ∨ hangs_in_constraint l) never _ _ _ _
      (constraint_field_parses t v Hk) _ _ (t :: ts)); [done|].
    intros v' c1 (f & -> & ->). eapply parses_weaken; [apply IH| |].
    + intros l [Hl|Hl]; [left; by apply short_app; [apply constraint_field_syms_nonempty|]|].
      right. by apply hangs_in_constraint_more.
    + intros v' c (fs & -> & ->). by exists (f :: fs).
  - assert (constraint_field t v = mret v) as ->.
    { unfold constraint_field. destruct (is_keyword "expr" t); [naive_solver|].
      destruct (is_keyword "warn" t); [naive_solver|]. destruct (is_keyword "block" t); naive_solver. }
    assert (hangs_in_constraint (syms (t :: ts))) as Hh.
    { exists [], (sym_of t), (syms ts). split; [done|]. unfold foreign.
      rewrite !is_keyword_sym in Hk. pose proof (is_rbrace_sym t) as Hr. rewrite Hb in Hr. set_solver. }
    specialize (IH v (t :: ts)). unfold mbind, M_bind, mret, M_ret in *. simpl in *.
    destruct (constraint_loop n v (t :: ts)) as [[v'|e|] ts']; [exact IH|done|]. by right.
Qed.

Lemma parseConstraint_parses n :
  parses (λ l, short (S n) l ∨ ∃ id k, l = [kw "constraint"; (TIdent, id); colon; lbrace] ++ k ∧ hangs_in_constraint k)
    (parseConstraint n)
    (λ x c, ∃ id fs, x = constraint_meaning id fs ∧ c = item_syms (ItemConstraint id fs)).
Proof.
  unfold parseConstraint. parse_step. eapply parses_bind; [eauto with jobflow|done|]. intros id c2 ->. simpl.
  parse_step. parse_step. eapply parses_bind; [apply constraint_loop_parses| |].
  { intros l [Hl|Hl]; [left; unfold short in *; simpl; lia|right]. exists id, l. done. }
  intros v c (fs & -> & ->). parse_step. apply parses_ret. by exists id, fs.
Qed.

Lemma item_syms_nonempty i : item_syms i ≠ [].
Proof. by destruct i. Qed.

Lemma hangs_in_body_more i l : item_ok i → hangs_in_body l → hangs_in_body (item_syms i ++ l).
Proof.
  intros Hi (xs & id & k & -> & Hxs & Hk). exists (i :: xs), id, k.
  split; [by rewrite bind_cons, <-app_assoc|]. split; [by constructor|done].
Qed.

Lemma body_loop_parses n ts0 cs0 :
  parses (λ l, short n l ∨ hangs_in_body l) (body_loop n ts0 cs0)
    (λ r c, ∃ xs, r = (ts0 ++ (xs ≫= item_tasks), cs0 ++ (xs ≫= item_constraints))
       ∧ c = xs ≫= item_syms ∧ Forall item_ok xs).
Proof.
  revert ts0 cs0. induction n as [|n IH]; intros ts0 cs0; [intros ts; simpl; left; unfold short; lia|].
  cbn [body_loop]. apply parses_peek. intros t ts. destruct (is_type TRbrace t).
  { exists []. split; [done|]. exists []. by rewrite !app_nil_r. }
  destruct (is_keyword "task" t); [|destruct (is_keyword "constraint" t); [|done]].
  - refine (parses_bind (λ l, short (S n) l ∨ hangs_in_body l) _ _ _ _ _ (parseTask_parses n) _ _ (t :: ts));
      [intros l Hl; left; unfold short in *; lia|].
    intros x c1 (id & fs & -> & -> & Hok). eapply parses_weaken; [apply IH| |].
    + intros l [Hl|Hl]; [left; by apply short_app; [apply item_syms_nonempty|]|].
      right. by apply hangs_in_body_more.
    + intros r c (xs & -> & -> & Hxs). exists (ItemTask id fs :: xs).
      rewrite !bind_cons. simpl. rewrite <-app_assoc. split; [done|]. split; [done|by constructor].
  - refine (parses_bind (λ l, short (S n) l ∨ hangs_in_body l) _ _ _ _ _ (parseConstraint_parses n) _ _ (t :: ts)).
    + intros l [Hl|(id & k & -> & Hk)]; [left; unfold short in *; lia|right]. by exists [], id, k.
    + intros x c1 (id & fs & -> & ->). eapply parses_weaken; [apply IH| |].
      * intros l [Hl|Hl]; [left; by apply short_app; [apply item_syms_nonempty|]|].
        right. by apply hangs_in_body_more.
      * intros r c (xs & -> & -> & Hxs). exists (ItemConstraint id fs :: xs).
        rewrite !bind_cons. simpl. rewrite <-app_assoc. split; [done|]. split; [done|by constructor].
Qed.

Lemma parse_workflow_parses n :
  parses (λ l, short n l ∨ hangs l) (parse_workflow n)
    (λ w c, ∃ x, w = meaning x ∧ c = syntax_syms x ∧ Forall item_ok (sx_items x)).
Proof.
  unfold parse_workflow. parse_step. eapply parses_bind; [eauto with jobflow|done|]. intros name c2 ->. simpl.
  parse_step. parse_step. parse_step. parse_step. parse_step.
  eapply parses_bind; [apply body_loop_parses| |].
  { intros l [Hl|Hl]; [left; unfold short in *; simpl; lia|right]. by exists name, (tok_value a4), l. }
  intros r c (xs & -> & -> & Hxs). parse_step. apply parses_ret.
  exists (mkSyntax name (tok_value a4) xs). done.
Qed.

(** ** Completeness of the productions

    [accepts m l v after]: on input that begins with the symbols [l], followed by
    something in [after], [m] consumes [l] and returns [v]. *)

Definition accepts {A} (m : parser A) (l : list sym) (v : A) (after : list sym → Prop) : Prop :=
  ∀ ts k, syms ts = l ++ k → after k → ∃ ts', m ts = (Ok v, ts') ∧ syms ts' = k.

Definition anything (k : list sym) : Prop := True.
Definition begins (s : sym) (k : list sym) : Prop := ∃ k', k = s :: k'.

Lemma accepts_bind {A B} (m : parser A) (f : A → parser B) l1 l2 a b (A1 A2 : list sym → Prop) :
  accepts m l1 a A1 → accepts (f a) l2 b A2 → (∀ k, A2 k → A1 (l2 ++ k)) → accepts (m ≫= f) (l1 ++ l2) b A2.
Proof.
  intros Hm Hf HA ts k Hts Hk. rewrite <-app_assoc in Hts.
  destruct (Hm ts _ Hts (HA _ Hk)) as (ts1 & Hm1 & Hts1). rewrite (M_bind_eq_Ok _ _ _ _ _ Hm1). by apply Hf.
Qed.

Lemma syms_cons_inv t ts s k : syms (t :: ts) = s :: k → sym_of t = s ∧ syms ts = k.
Proof. change (syms (t :: ts)) with (sym_of t :: syms ts). generalize (sym_of t). by intros x [= -> ->]. Qed.

Lemma accepts_ret {A} (a : A) after : accepts (mret a) [] a after.
Proof. intros ts k Hts _. by exists ts. Qed.

Lemma accepts_expect {A} (f : DslToken → parser A) ty v l b after :
  (∀ t, sym_of t = (ty, v) → accepts (f t) l b after) → accepts (t ← expect ty; f t) ((ty, v) :: l) b after.
Proof.
  intros Hf [|t ts] k Hts Hk; [done|]. apply syms_cons_inv in Hts as [Ht Hts].
  rewrite (M_bind_eq_Ok _ _ (t :: ts) t ts); [by eapply Hf|].
  unfold expect, peek, mbind, M_bind, is_type. injection Ht as Hty _. by rewrite bool_decide_eq_true_2.
Qed.

Lemma accepts_keyword {A} (m : parser A) w l b after :
  accepts m l b after → accepts (_ ← expectKeyword w; m) (kw w :: l) b after.
Proof.
  intros Hf [|t ts] k Hts Hk; [done|]. apply syms_cons_inv in Hts as [Ht Hts].
  rewrite (M_bind_eq_Ok _ _ (t :: ts) tt ts); [by eapply Hf|].
  unfold expectKeyword, expect, peek, mbind, M_bind. pose proof (proj2 (is_keyword_sym w t)) as Hk'.
  unfold sym_of in Hk'. specialize (Hk' Ht). apply andb_true_iff in Hk' as [H1 H2]. rewrite H1. simpl. by rewrite H2.
Qed.

Lemma accepts_ident {A} (f : string → parser A) v l b after :
  accepts (f v) l b after → accepts (x ← expectIdent; f x) ((TIdent, v) :: l) b after.
Proof.
  intros Hf ts k Hts Hk. unfold expectIdent.
  destruct (accepts_expect (λ t, f (tok_value t)) TIdent v l b after) with (ts := ts) (k := k)
    as (ts' & Hr & Hs); [|done|done|].
  - intros t Ht. unfold sym_of in Ht. injection Ht as H1 H2. rewrite H1 in H2. simpl in H2. by rewrite H2.
  - exists ts'. split; [|done]. rewrite <-Hr. unfold mbind, M_bind. by destruct (expect _ ts) as [[]].
Qed.

Lemma value_of_sym t ty v : sym_of t = (ty, v) → carries ty = true → tok_value t = v.
Proof. unfold sym_of. intros [= H1 H2] Hc. rewrite H1, Hc in H2. done. Qed.

(** A loop leaves at its closing token. *)
Lemma accepts_peek_stop {A} (ty : DslTokenType) (a : A) (f : DslToken → parser A) after :
  (∀ k, after k → ∃ v k', k = (ty, v) :: k') →
  accepts (t ← peek; if is_type ty t then mret a else f t) [] a after.
Proof.
  intros Ha ts k Hts Hk. destruct (Ha k Hk) as (v & k' & ->). destruct ts as [|t ts]; [done|].
  exists (t :: ts). split; [|done]. apply syms_cons_inv in Hts as [[= Ht _] _]. unfold mbind, M_bind, peek, is_type.
  by rewrite bool_decide_eq_true_2.
Qed.

Lemma accepts_peek_go {A} (ty : DslTokenType) (a : A) (f : DslToken → parser A) s l b after :
  s.1 ≠ ty → (∀ t, sym_of t = s → accepts (f t) (s :: l) b after) →
  accepts (t ← peek; if is_type ty t then mret a else f t) (s :: l) b after.
Proof.
  intros Hs Hf [|t ts] k Hts Hk; [done|]. pose proof Hts as Hts'. apply syms_cons_inv in Hts' as [Ht _]. unfold mbind, M_bind, peek, is_type.
  rewrite bool_decide_eq_false_2; [by apply Hf|]. intros Heq. apply Hs. by rewrite <-Ht.
Qed.

Lemma accepts_dep_token (q : bool) v : accepts expectIdentOrString [(if q then TString else TIdent, v)] v anything.
Proof.
  intros [|t ts] k Hts _; [done|]. apply syms_cons_inv in Hts as [[= Ht1 Ht2] Hts]. exists ts. split; [|done].
  assert (tok_value t = v) as Hv by (rewrite Ht1 in Ht2; by destruct q).
  unfold expectIdentOrString, mbind, M_bind, peek, is_type. rewrite Ht1.
  destruct q; cbn; by rewrite Hv.
Qed.

Lemma expect_hit ty t ts : tok_type t = ty → expect ty (t :: ts) = (Ok t, ts).
Proof.
  intros Ht. unfold expect. rewrite (M_bind_eq_Ok _ _ _ t (t :: ts)) by done. unfold is_type.
  by rewrite bool_decide_eq_true_2.
Qed.

Lemma accepts_comma (b : bool) :
  accepts (t' ← peek; if is_type TComma t' then _ ← expect TComma; mret tt else mret tt)
    (if b then [(TComma, "")] else []) tt
    (λ k, match k with s :: _ => s.1 ≠ TComma | [] => False end).
Proof.
  intros [|t ts] k Hts Hk; [by destruct b, k|]. rewrite (M_bind_eq_Ok _ _ _ t (t :: ts)) by done.
  unfold is_type. destruct b.
  - apply syms_cons_inv in Hts as [[= Ht1 _] Hts]. exists ts. split; [|done].
    rewrite bool_decide_eq_true_2 by done. by rewrite (M_bind_eq_Ok _ _ _ t ts) by (by apply expect_hit).
  - destruct k as [|s k]; [done|]. apply syms_cons_inv in Hts as [Ht Hts]. exists (t :: ts).
    rewrite bool_decide_eq_false_2; [split; [done|]|];
      [change (syms (t :: ts)) with (sym_of t :: syms ts); by rewrite Ht, Hts|].
    intros Heq. apply Hk. by rewrite <-Ht.
Qed.

Lemma depends_loop_accepts ds n acc :
  (length ds < n)%nat →
  accepts (depends_loop n acc) (ds ≫= dep_syms) (acc ++ (dep_name <$> ds)) (begins rbracket).
Proof.
  revert n acc. induction ds as [|d ds IH]; intros [|n] acc Hn; simpl in Hn; try lia; cbn [depends_loop].
  - rewrite app_nil_r. apply accepts_peek_stop. intros k [k' ->]. by eexists _, _.
  - rewrite bind_cons. unfold dep_syms at 1. cbn [app].
    apply accepts_peek_go; [by destruct (dep_quoted d)|]. intros t _.
    rewrite fmap_cons. change (acc ++ dep_name d :: (dep_name <$> ds)) with (acc ++ [dep_name d] ++ (dep_name <$> ds)).
    rewrite app_assoc.
    apply (accepts_bind _ _ [_] _ (dep_name d) _ anything); [apply accepts_dep_token| |done].
    intros ts k Hts Hk.
    destruct (accepts_bind _ (λ _, depends_loop n (acc ++ [dep_name d])) _ (ds ≫= dep_syms) tt
      ((acc ++ [dep_name d]) ++ (dep_name <$> ds)) _ (begins rbracket) (accepts_comma (dep_comma d))
      (IH n (acc ++ [dep_name d]) ltac:(lia))) with (ts := ts) (k := k) as (ts' & Hr & Hs); [|done|done|].
    + intros k' [k'' ->]. destruct ds as [|d' ds']; [done|]. rewrite bind_cons. unfold dep_syms. simpl.
      by destruct (dep_quoted d').
    + exists ts'. split; [|done]. rewrite <-Hr. unfold mbind, M_bind. by destruct (peek ts) as [[]].
Qed.

Lemma keyword_cases t w :
  sym_of t = kw w →
  is_type TRbrace t = false ∧ ∀ w', is_keyword w' t = bool_decide (w = w').
Proof.
  intros H. split.
  - destruct (is_type TRbrace t) eqn:E; [|done]. apply is_rbrace_sym in E. rewrite E in H. done.
  - intros w'. destruct (is_keyword w' t) eqn:E.
    + apply is_keyword_sym in E. rewrite E in H. injection H as ->. by rewrite bool_decide_eq_true_2.
    + rewrite bool_decide_eq_false_2; [done|]. intros ->. apply is_keyword_sym in H. congruence.
Qed.

(** Choose the alternative of a field whose keyword is known. *)
Ltac choose_field Hk :=
  rewrite !Hk;
  repeat first [rewrite bool_decide_eq_false_2 by done | rewrite bool_decide_eq_true_2 by done].

Lemma value_token t ty v : sym_of t = (ty, v) → carries ty = true → tok_value t = v.
Proof. apply value_of_sym. Qed.

Lemma task_field_accepts f n t v :
  (length (task_field_syms f) ≤ n)%nat → Some (sym_of t) = head (task_field_syms f) →
  accepts (task_field n t v) (task_field_syms f) (apply_task_field v f) anything.
Proof.
  intros Hn Hh. unfold task_field. destruct f as [s|d|ds|]; injection Hh as Hty Hv;
    match type of Hv with _ = ?w => assert (sym_of t = kw w) as Ht by (unfold sym_of, kw; by rewrite <-Hty, <-Hv) end.
  all: destruct (keyword_cases t _ Ht) as [_ Hk]; choose_field Hk;
    cbn [task_field_syms apply_task_field app].
  - apply accepts_keyword, accepts_expect; intros t1 _. apply accepts_expect. intros t2 H2.
    rewrite (value_token _ _ _ H2) by done. apply accepts_ret.
  - apply accepts_keyword, accepts_expect; intros t1 _. apply accepts_expect. intros t2 H2.
    rewrite (value_token _ _ _ H2) by done. apply accepts_ret.
  - apply accepts_keyword, accepts_expect; intros t1 _. apply accepts_expect. intros t2 _.
    apply (accepts_bind _ _ _ [rbracket] (v_dependsOn v ++ (dep_name <$> ds)) _ (begins rbracket)).
    + apply depends_loop_accepts. simpl in Hn. rewrite length_app in Hn. simpl in Hn.
      assert (length ds ≤ length (ds ≫= dep_syms))%nat; [|lia].
      clear. induction ds as [|d ds IH]; [done|]. rewrite bind_cons, length_app. simpl. lia.
    + apply accepts_expect. intros t3 _. apply accepts_ret.
    + intros k _. by exists k.
  - apply accepts_keyword, accepts_ret.
Qed.

Lemma task_loop_accepts fs n v :
  (length (fs ≫= task_field_syms) < n)%nat →
  accepts (task_loop n v) (fs ≫= task_field_syms) (foldl apply_task_field v fs) (begins rbrace).
Proof.
  revert n v. induction fs as [|f fs IH]; intros [|n] v Hn; try (simpl in Hn; lia); cbn [task_loop].
  - apply accepts_peek_stop. intros k [k' ->]. by eexists _, _.
  - rewrite bind_cons in *. rewrite length_app in Hn. destruct (task_field_syms f) as [|s l] eqn:E;
      [by destruct (task_field_syms_nonempty f)|]. simpl in Hn. cbn [app].
    apply accepts_peek_go; [by destruct f; injection E as <- _|]. intros t Ht.
    change (s :: l ++ (fs ≫= task_field_syms)) with ((s :: l) ++ (fs ≫= task_field_syms)). rewrite <-E.
    apply (accepts_bind _ _ _ _ (apply_task_field v f) _ anything).
    + apply task_field_accepts; [rewrite E; simpl; lia|by rewrite E, Ht].
    + apply IH. lia.
    + done.
Qed.

Lemma parseTask_accepts id fs n :
  (length (item_syms (ItemTask id fs)) ≤ n)%nat → item_ok (ItemTask id fs) →
  accepts (parseTask n) (item_syms (ItemTask id fs)) (task_meaning id fs) anything.
Proof.
  intros Hn Hok. unfold parseTask. simpl in *. rewrite length_app in Hn. simpl in Hn.
  apply accepts_keyword, accepts_ident, accepts_expect; intros t1 _. apply accepts_expect; intros t2 _.
  apply (accepts_bind _ _ _ [rbrace] (task_vars fs) _ (begins rbrace)).
  - apply task_loop_accepts. lia.
  - apply accepts_expect. intros t3 _. rewrite (proj2 (truthy_string_true _) Hok). apply accepts_ret.
  - intros k _. by exists k.
Qed.

Lemma constraint_field_accepts f t v :
  Some (sym_of t) = head (constraint_field_syms f) →
  accepts (constraint_field t v) (constraint_field_syms f) (apply_constraint_field v f) anything.
Proof.
  intros Hh. unfold constraint_field. destruct f as [s| |]; injection Hh as Hty Hv;
    match type of Hv with _ = ?w => assert (sym_of t = kw w) as Ht by (unfold sym_of, kw; by rewrite <-Hty, <-Hv) end.
  all: destruct (keyword_cases t _ Ht) as [_ Hk]; choose_field Hk;
    cbn [constraint_field_syms apply_constraint_field].
  - apply accepts_keyword, accepts_expect; intros t1 _. apply accepts_expect. intros t2 H2.
    rewrite (value_token _ _ _ H2) by done. apply accepts_ret.
  - apply accepts_keyword, accepts_ret.
  - apply accepts_keyword, accepts_ret.
Qed.

Lemma constraint_loop_accepts fs n v :
  (length (fs ≫= constraint_field_syms) < n)%nat →
  accepts (constraint_loop n v) (fs ≫= constraint_field_syms) (foldl apply_constraint_field v fs) (begins rbrace).
Proof.
  revert n v. induction fs as [|f fs IH]; intros [|n] v Hn; try (simpl in Hn; lia); cbn [constraint_loop].
  - apply accepts_peek_stop. intros k [k' ->]. by eexists _, _.
  - rewrite bind_cons in *. rewrite length_app in Hn. destruct (constraint_field_syms f) as [|s l] eqn:E;
      [by destruct (constraint_field_syms_nonempty f)|]. simpl in Hn. cbn [app].
    apply accepts_peek_go; [by destruct f; injection E as <- _|]. intros t Ht.
    change (s :: l ++ (fs ≫= constraint_field_syms)) with ((s :: l) ++ (fs ≫= constraint_field_syms)). rewrite <-E.
    apply (accepts_bind _ _ _ _ (apply_constraint_field v f) _ anything).
    + apply constraint_field_accepts. by rewrite E, Ht.
    + apply IH. lia.
    + done.
Qed.

Lemma parseConstraint_accepts id fs n :
  (length (item_syms (ItemConstraint id fs)) ≤ n)%nat →
  accepts (parseConstraint n) (item_syms (ItemConstraint id fs)) (constraint_meaning id fs) anything.
Proof.
  intros Hn. unfold parseConstraint. simpl in *. rewrite length_app in Hn. simpl in Hn.
  apply accepts_keyword, accepts_ident, accepts_expect; intros t1 _. apply accepts_expect; intros t2 _.
  apply (accepts_bind _ _ _ [rbrace] (foldl apply_constraint_field ("", SeverityBlock) fs) _ (begins rbrace)).
  - apply constraint_loop_accepts. lia.
  - apply accepts_expect. intros t3 _. apply accepts_ret.
  - intros k _. by exists k.
Qed.

(** ** The body of a workflow *)

(** The loop gets past the items ahead. *)
Lemma body_loop_prefix xs n ts0 cs0 ts k :
  syms ts = (xs ≫= item_syms) ++ k → (length (xs ≫= item_syms) < n)%nat → Forall item_ok xs →
  ∃ n' ts', body_loop n ts0 cs0 ts
      = body_loop n' (ts0 ++ (xs ≫= item_tasks)) (cs0 ++ (xs ≫= item_constraints)) ts'
    ∧ syms ts' = k ∧ (n ≤ n' + length (xs ≫= item_syms))%nat.
Proof.
  revert n ts0 cs0 ts. induction xs as [|x xs IH]; intros n ts0 cs0 ts Hts Hn Hok.
  { exists n, ts. rewrite !app_nil_r. simpl. rewrite Nat.add_0_r. done. }
  rewrite !bind_cons in *. rewrite length_app in *. rewrite <-app_assoc in Hts.
  apply Forall_cons in Hok as [Hx Hok]. destruct n as [|n]; [lia|].
  pose proof (item_syms_nonempty x) as Hne.
  assert (0 < length (item_syms x))%nat as Hpos by (destruct (item_syms x); [done|simpl; lia]).
  destruct ts as [|t ts]; [destruct x; discriminate Hts|]. cbn [body_loop].
  rewrite (M_bind_eq_Ok _ _ (t :: ts) t (t :: ts)) by done.
  destruct x as [id fs|id fs].
  - pose proof Hts as Hh. apply syms_cons_inv in Hh as [Hh _]. destruct (keyword_cases _ _ Hh) as [-> Hk].
    choose_field Hk.
    destruct (parseTask_accepts id fs n ltac:(lia) Hx (t :: ts) _ Hts I) as (ts1 & Hp & Hts1).
    rewrite (M_bind_eq_Ok _ _ _ _ _ Hp).
    destruct (IH n (ts0 ++ [task_meaning id fs]) cs0 ts1 Hts1 ltac:(lia) Hok) as (n' & ts' & -> & Hs & Hn').
    exists n', ts'. rewrite <-app_assoc. split; [done|]. split; [done|lia].
  - pose proof Hts as Hh. apply syms_cons_inv in Hh as [Hh _]. destruct (keyword_cases _ _ Hh) as [-> Hk].
    choose_field Hk.
    destruct (parseConstraint_accepts id fs n ltac:(lia) (t :: ts) _ Hts I) as (ts1 & Hp & Hts1).
    rewrite (M_bind_eq_Ok _ _ _ _ _ Hp).
    destruct (IH n ts0 (cs0 ++ [constraint_meaning id fs]) ts1 Hts1 ltac:(lia) Hok) as (n' & ts' & -> & Hs & Hn').
    exists n', ts'. rewrite <-app_assoc. split; [done|]. split; [done|lia].
Qed.

Lemma body_loop_accepts xs n :
  (length (xs ≫= item_syms) < n)%nat → Forall item_ok xs →
  accepts (body_loop n [] []) (xs ≫= item_syms) (xs ≫= item_tasks, xs ≫= item_constraints) (begins rbrace).
Proof.
  intros Hn Hok ts k Hts [k' ->].
  destruct (body_loop_prefix xs n [] [] ts _ Hts Hn Hok) as (n' & ts' & -> & Hs & Hn').
  destruct n' as [|n']; [lia|]. cbn [body_loop].
  destruct (accepts_peek_stop TRbrace (xs ≫= item_tasks, xs ≫= item_constraints)
    (λ t, if is_keyword "task" t then x ← parseTask n'; body_loop n' ((xs ≫= item_tasks) ++ [x]) (xs ≫= item_constraints)
      else if is_keyword "constraint" t then
        x ← parseConstraint n'; body_loop n' (xs ≫= item_tasks) ((xs ≫= item_constraints) ++ [x])
      else throw (PlainError ("unexpected token in workflow body: " +:+ tok_value t))) (begins rbrace))
    with (ts := ts') (k := rbrace :: k') as (ts2 & Hr & Hs2); [|done|by eexists|].
  - intros k [k2 ->]. by eexists _, _.
  - exists ts2. split; [exact Hr|done].
Qed.

Lemma constraint_loop_hangs n fs v ts s k :
  syms ts = (fs ≫= constraint_field_syms) ++ s :: k → foreign s → (constraint_loop n v ts).1 = OutOfFuel.
Proof.
  revert fs v ts. induction n as [|n IH]; intros fs v ts Hts Hs; [done|]. cbn [constraint_loop].
  destruct ts as [|t ts]; [destruct fs as [|[]]; discriminate Hts|].
  rewrite (M_bind_eq_Ok _ _ (t :: ts) t (t :: ts)) by done. destruct fs as [|f fs].
  - pose proof Hts as Hh. apply syms_cons_inv in Hh as [Hh _]. unfold foreign in Hs.
    destruct (is_type TRbrace t) eqn:E; [apply is_rbrace_sym in E; set_solver|].
    assert (constraint_field t v = mret v) as ->.
    { unfold constraint_field. destruct (is_keyword "expr" t) eqn:E1; [apply is_keyword_sym in E1; set_solver|].
      destruct (is_keyword "warn" t) eqn:E2; [apply is_keyword_sym in E2; set_solver|].
      destruct (is_keyword "block" t) eqn:E3; [apply is_keyword_sym in E3; set_solver|done]. }
    rewrite (M_bind_eq_Ok _ _ (t :: ts) v (t :: ts)) by done. by apply (IH [] v (t :: ts)).
  - rewrite bind_cons, <-app_assoc in Hts.
    assert (Some (sym_of t) = head (constraint_field_syms f)) as Hh.
    { destruct f; apply syms_cons_inv in Hts as [-> _]; done. }
    assert (is_type TRbrace t = false) as ->.
    { destruct (is_type TRbrace t) eqn:E; [|done]. apply is_rbrace_sym in E. rewrite E in Hh. by destruct f. }
    destruct (constraint_field_accepts f t v Hh (t :: ts) _ Hts I) as (ts1 & Hc & Hts1).
    rewrite (M_bind_eq_Ok _ _ _ _ _ Hc). by apply (IH fs (apply_constraint_field v f) ts1).
Qed.

Lemma M_bind_OutOfFuel {A B} (m : parser A) (f : A → parser B) ts :
  (m ts).1 = OutOfFuel → ((m ≫= f) ts).1 = OutOfFuel.
Proof. unfold mbind, M_bind. by destruct (m ts) as [[] ?]. Qed.

(** [diverges m l]: [m] runs out of fuel on the input [l]. *)
Definition diverges {A} (m : parser A) (l : list sym) : Prop := ∀ ts, syms ts = l → (m ts).1 = OutOfFuel.

Lemma diverges_expect {A} (f : DslToken → parser A) ty v l :
  (∀ t, sym_of t = (ty, v) → diverges (f t) l) → diverges (t ← expect ty; f t) ((ty, v) :: l).
Proof.
  intros Hf [|t ts] Hts; [done|]. apply syms_cons_inv in Hts as [Ht Hts].
  rewrite (M_bind_eq_Ok _ _ _ t ts); [by apply Hf|]. apply expect_hit. by injection Ht.
Qed.

Lemma diverges_keyword {A} (m : parser A) w l : diverges m l → diverges (_ ← expectKeyword w; m) (kw w :: l).
Proof.
  intros Hm ts Hts. destruct (accepts_keyword (mret tt) w [] tt anything (accepts_ret tt anything) ts l Hts I)
    as (ts' & Hr & Hs). unfold mbind, M_bind in *. destruct (expectKeyword w ts) as [[[]|e|] ts1]; [|done..].
  injection Hr as ->. by apply Hm.
Qed.

Lemma diverges_ident {A} (f : string → parser A) v l :
  diverges (f v) l → diverges (x ← expectIdent; f x) ((TIdent, v) :: l).
Proof.
  intros Hf ts Hts. destruct (accepts_ident mret v [] v anything (accepts_ret v anything) ts l Hts I)
    as (ts' & Hr & Hs). unfold mbind, M_bind in *. destruct (expectIdent ts) as [[x|e|] ts1]; [|done..].
  injection Hr as -> ->. by apply Hf.
Qed.

Lemma diverges_bind {A B} (m : parser A) (f : A → parser B) l : diverges m l → diverges (m ≫= f) l.
Proof. intros Hm ts Hts. by apply M_bind_OutOfFuel, Hm. Qed.

Lemma parseConstraint_hangs n id k :
  hangs_in_constraint k → diverges (parseConstraint n) ([kw "constraint"; (TIdent, id); colon; lbrace] ++ k).
Proof.
  intros (fs & s & k' & -> & Hs). unfold parseConstraint. cbn [app].
  apply diverges_keyword, diverges_ident, diverges_expect. intros t1 _.
  apply diverges_expect. intros t2 _. apply diverges_bind.
  intros ts Hts. by eapply constraint_loop_hangs.
Qed.

Lemma body_loop_hangs n l : (length l < n)%nat → hangs_in_body l → diverges (body_loop n [] []) l.
Proof.
  intros Hn (xs & id & k & -> & Hok & Hk) ts Hts. rewrite length_app in Hn.
  destruct (body_loop_prefix xs n [] [] ts _ Hts ltac:(lia) Hok) as (n' & ts' & -> & Hs & Hn').
  destruct n' as [|n']; [done|]. cbn [body_loop]. destruct ts' as [|t ts']; [done|].
  rewrite (M_bind_eq_Ok _ _ (t :: ts') t (t :: ts')) by done.
  pose proof Hs as Hh. apply syms_cons_inv in Hh as [Hh _]. destruct (keyword_cases _ _ Hh) as [-> Hkw].
  choose_field Hkw. apply M_bind_OutOfFuel. by apply (parseConstraint_hangs n' id k Hk).
Qed.

Lemma parse_workflow_hangs n l : (length l < n)%nat → hangs l → diverges (parse_workflow n) l.
Proof.
  intros Hn (name & version & k & -> & Hk). unfold parse_workflow, header_syms. cbn [app].
  apply diverges_keyword, diverges_ident, diverges_expect. intros t1 _. apply diverges_expect. intros t2 _.
  apply diverges_keyword, diverges_expect. intros t3 _. apply diverges_expect. intros t4 _.
  apply diverges_bind, body_loop_hangs; [simpl in Hn; lia|done].
Qed.

Lemma parse_workflow_accepts x n :
  (length (syntax_syms x) < n)%nat → Forall item_ok (sx_items x) →
  accepts (parse_workflow n) (syntax_syms x) (meaning x) anything.
Proof.
  intros Hn Hok. unfold parse_workflow, syntax_syms, header_syms. unfold syntax_syms in Hn. cbn [app] in *.
  simpl in Hn. rewrite length_app in Hn. simpl in Hn.
  apply accepts_keyword, accepts_ident, accepts_expect; intros t1 _. apply accepts_expect; intros t2 _.
  apply accepts_keyword, accepts_expect; intros t3 _. apply accepts_expect; intros t4 H4.
  apply (accepts_bind _ _ _ [rbrace] (sx_items x ≫= item_tasks, sx_items x ≫= item_constraints) _ (begins rbrace)).
  - apply body_loop_accepts; [lia|done].
  - apply accepts_expect. intros t5 _. rewrite (value_token _ _ _ H4) by done. apply accepts_ret.
  - intros k _. by exists k.
Qed.

(** ** Property *)

(** C21: With more fuel than tokens, the parser returns a workflow exactly when the
    tokens begin with the syntax of a workflow whose tasks all name a handler,
    and then its meaning, leaving the tokens behind the closing brace unread; and
    it does not end, whatever the fuel, exactly when the body of a constraint
    holds a token other than its three keywords and the closing brace, the end of
    the source included.  On every other input it throws. *)
Theorem parse_workflow_correct (ts : list DslToken) (n : nat) (Hn : (length ts < n)%nat) :
  (∀ w ts', parse_workflow n ts = (Ok w, ts') → ∃ x, syms ts = syntax_syms x ++ syms ts'
     ∧ Forall item_ok (sx_items x) ∧ w = meaning x)
  ∧ (∀ x k, syms ts = syntax_syms x ++ k → Forall item_ok (sx_items x) →
       ∃ ts', parse_workflow n ts = (Ok (meaning x), ts') ∧ syms ts' = k)
  ∧ ((parse_workflow n ts).1 = OutOfFuel ↔ hangs (syms ts)).
Proof.
  assert (length (syms ts) = length ts) as Hlen by apply length_fmap.
  pose proof (parse_workflow_parses n ts) as Hs. split; [|split; [|split]].
  - intros w ts' Hr. rewrite Hr in Hs. destruct Hs as (c & Hc & x & -> & -> & Hok). by exists x.
  - intros x k Hk Hok. apply (parse_workflow_accepts x n); [|done|done|done].
    rewrite Hk, length_app in Hlen. lia.
  - intros Hr. destruct (parse_workflow n ts) as [[w|e|] ts']; try done.
    destruct Hs as [Hs|Hs]; [unfold short in Hs; lia|done].
  - intros Hh. apply (parse_workflow_hangs n (syms ts)); [lia|done|done].
Qed.
