(* ===== verification/DslPrint.v ===== *)
(** * Printing workflows

    A printer for the language (the code has none) against which the lexer and
    the parser are checked: every syntax tree with proper names, printed with a
    space behind each token, compiles to its meaning. *)

From S2P Require Import Prelude JsString JsNum DomainTypes DslLexer DslParser DslGrammar Domain.
From Stdlib Require Import Ascii.
Open Scope Z_scope.

(** ** Lexemes *)

Definition escape_char (c : ascii) : list ascii :=
  if decide (c = single_quote ∨ c = backslash) then [backslash; c] else [c].
Definition escape (l : list ascii) : list ascii := l ≫= escape_char.

Definition punctuation (ty : DslTokenType) : option ascii :=
  match ty with
  | TLbrace => Some "{"%char | TRbrace => Some "}"%char | TLbracket => Some "["%char
  | TRbracket => Some "]"%char | TColon => Some ":"%char | TComma => Some ","%char
  | _ => None
  end.

Definition lexeme (s : sym) : list ascii :=
  match s.1 with
  | TString => single_quote :: escape (chars s.2) ++ [single_quote]
  | TKeyword | TIdent | TNumber => chars s.2
  | ty => from_option (λ c, [c]) [] (punctuation ty)
  end.

Definition space : ascii := " "%char.
Definition print_chars (l : list sym) : list ascii := l ≫= λ s, lexeme s ++ [space].
Definition print (l : list sym) : string := of_chars (print_chars l).

(** Symbols that the lexer can produce. *)
Definition word_ok (l : list ascii) : Prop :=
  ∃ c r, l = c :: r ∧ is_ident_start c = true ∧ Forall (λ c, is_ident_char c = true) r.

Definition valid_sym (s : sym) : Prop :=
  match s.1 with
  | TKeyword => s.2 ∈ KEYWORDS
  | TIdent => word_ok (chars s.2) ∧ s.2 ∉ KEYWORDS
  | TNumber => ∃ c r, chars s.2 = c :: r ∧ Forall (λ c, is_digit c = true) (c :: r)
  | TString => True
  | ty => is_Some (punctuation ty) ∧ s.2 = ""
  end.

(** ** The scanners on printed text *)

Lemma rest_advance s : rest (advance s) = tail (rest s).
Proof. unfold advance. destruct (rest s) as [|c r]; [done|]. by case_decide. Qed.

Lemma rest_advance_over cs s : rest (advance_over cs s) = drop (length cs) (rest s).
Proof.
  unfold advance_over. revert s. induction cs as [|c cs IH]; intros s; [done|]. cbn [foldl].
  rewrite IH, rest_advance. by destruct (rest s); simpl; rewrite ?drop_nil.
Qed.

Definition starts_token (c : ascii) : Prop := is_space c = false ∧ c ≠ "#"%char.

Lemma skip_at s c r : rest s = c :: r → starts_token c → skipWhitespaceAndComments s = s.
Proof.
  intros Hr [H1 H2]. unfold skipWhitespaceAndComments. rewrite Hr. cbn [skip_go]. rewrite H1.
  by rewrite decide_False.
Qed.

Lemma skip_space_at s l : rest s = space :: l → (l = [] ∨ ∃ c r, l = c :: r ∧ starts_token c) →
  rest (skipWhitespaceAndComments s) = l.
Proof.
  intros Hr Hl. unfold skipWhitespaceAndComments. rewrite Hr. cbn [skip_go].
  replace (is_space space) with true by by vm_compute.
  assert (rest (advance s) = l) as Ha by (rewrite rest_advance, Hr; done).
  destruct Hl as [->|(c & r & -> & H1 & H2)]; [done|]. cbn [skip_go]. rewrite H1.
  by rewrite decide_False.
Qed.

Lemma string_go_escape l s k out :
  rest s = escape l ++ single_quote :: k →
  ∃ s', string_go single_quote (rest s) s out = (out ++ l, s') ∧ rest s' = k.
Proof.
  revert s out. induction l as [|c l IH]; intros s out Hr; rewrite Hr.
  - cbn. rewrite decide_True by done. exists (advance s). rewrite app_nil_r, rest_advance, Hr. done.
  - unfold escape in *. rewrite bind_cons in *. unfold escape_char at 1. unfold escape_char at 1 in Hr.
    rewrite <-app_assoc in *. case_decide as Hc.
    + cbn [app string_go] in *. rewrite decide_False, decide_True by done.
      destruct (IH (advance (advance s)) (out ++ [c])) as (s' & Hg & Hs').
      { by rewrite !rest_advance, Hr. }
      exists s'. split; [|done]. rewrite !rest_advance, Hr in Hg. cbn [tail] in Hg. rewrite Hg.
      by rewrite <-app_assoc.
    + cbn [app string_go] in *. rewrite decide_False by naive_solver. rewrite decide_False by naive_solver.
      destruct (IH (advance s) (out ++ [c])) as (s' & Hg & Hs').
      { by rewrite rest_advance, Hr. }
      exists s'. split; [|done]. rewrite rest_advance, Hr in Hg. cbn [tail] in Hg. rewrite Hg.
      by rewrite <-app_assoc.
Qed.

Lemma read_while_word p s l k :
  rest s = l ++ space :: k → Forall (λ c, p c = true) l → p space = false →
  ∃ s', read_while p s = (of_chars l, s') ∧ rest s' = space :: k.
Proof.
  intros Hr Hl Hp. unfold read_while. rewrite Hr.
  assert (take_while p (l ++ space :: k) = l) as ->.
  { clear Hr. induction Hl as [|c l Hc Hl IH]; cbn; [by rewrite Hp|]. by rewrite Hc, IH. }
  exists (advance_over l s). split; [done|]. rewrite rest_advance_over, Hr. by rewrite drop_app_length.
Qed.

(** ** Facts about all characters *)

Lemma all_chars (p : ascii → bool) :
  forallb p (ascii_of_nat <$> seq 0 256) = true → ∀ c, p c = true.
Proof.
  rewrite forallb_forall. intros H c. apply H, list_elem_of_In, list_elem_of_fmap.
  exists (nat_of_ascii c). split; [by rewrite ascii_nat_embedding|].
  apply elem_of_seq. pose proof (nat_ascii_bounded c). lia.
Qed.

Definition no_punctuation (c : ascii) : bool :=
  bool_decide (single_type c = None) && negb (bool_decide (c ∈ ["-"%char; double_quote; single_quote]))
  && negb (is_space c) && negb (bool_decide (c = "#"%char)).

Lemma ident_start_char c : is_ident_start c = true → no_punctuation c = true ∧ is_digit c = false ∧ is_ident_char c = true.
Proof.
  pose proof (all_chars (λ c, implb (is_ident_start c) (no_punctuation c && negb (is_digit c) && is_ident_char c))
    ltac:(by vm_compute) c) as H.
  intros Hc. cbv beta in H. rewrite Hc in H. cbn [implb] in H. rewrite !andb_true_iff, negb_true_iff in H. tauto.
Qed.

Lemma digit_char c : is_digit c = true → no_punctuation c = true.
Proof.
  pose proof (all_chars (λ c, implb (is_digit c) (no_punctuation c)) ltac:(by vm_compute) c) as H.
  intros Hc. cbv beta in H. by rewrite Hc in H.
Qed.

Lemma no_punctuation_spec c :
  no_punctuation c = true →
  single_type c = None ∧ c ≠ "-"%char ∧ c ≠ double_quote ∧ c ≠ single_quote ∧ starts_token c.
Proof.
  unfold no_punctuation, starts_token. rewrite !andb_true_iff, !negb_true_iff, !bool_decide_eq_false, bool_decide_eq_true.
  set_solver.
Qed.

Lemma keyword_word v : v ∈ KEYWORDS → word_ok (chars v).
Proof.
  intros Hv. unfold KEYWORDS in Hv.
  repeat (apply elem_of_cons in Hv as [->|Hv]; [eexists _, _; split; [reflexivity|];
    split; [reflexivity|repeat constructor]|]).
  by apply elem_of_nil in Hv.
Qed.

(** ** Reading one token *)

(** A word is read as a keyword or as an identifier. *)
Lemma next_token_word v st k :
  word_ok (chars v) → rest st = chars v ++ space :: k →
  ∃ c r t st', rest st = c :: r ∧ starts_token c ∧ next_token c st = Ok (t, st')
    ∧ sym_of t = (if decide (v ∈ KEYWORDS) then TKeyword else TIdent, v) ∧ rest st' = space :: k.
Proof.
  intros (c & r & Hv & Hc & Hr) Hst. destruct (ident_start_char c Hc) as (Hp & Hd & Hi).
  apply no_punctuation_spec in Hp as (H1 & H2 & H3 & H4 & H5).
  destruct (read_while_word is_ident_char st (c :: r) k) as (st' & Hw & Hst').
  { by rewrite Hst, Hv. } { by constructor. } { by vm_compute. }
  exists c, (r ++ space :: k). eexists _, st'. split; [by rewrite Hst, Hv|]. split; [done|]. split; [|split; [|done]].
  - unfold next_token. rewrite H1. rewrite (bool_decide_eq_false_2 _ H2), (bool_decide_eq_false_2 _ H3),
      (bool_decide_eq_false_2 _ H4). cbn [andb orb].
    rewrite Hd, Hc. unfold readIdent. rewrite Hw. reflexivity.
  - rewrite <-Hv, of_chars_chars. unfold sym_of. simpl. by case_decide.
Qed.

Lemma next_token_lexeme s st k :
  valid_sym s → rest st = lexeme s ++ space :: k →
  ∃ c r t st', rest st = c :: r ∧ starts_token c ∧ next_token c st = Ok (t, st')
    ∧ sym_of t = s ∧ rest st' = space :: k.
Proof.
  destruct s as [ty v]. unfold valid_sym, lexeme. cbn [fst snd].
  destruct ty; cbn [punctuation from_option]; intros Hv Hst;
    try (apply proj1 in Hv; destruct Hv; discriminate).
  1: { destruct (next_token_word v st k (keyword_word v Hv) Hst) as (c & r & t & st' & H).
       rewrite decide_True in H by done. eauto. }
  1: { destruct Hv as [Hw Hn]. destruct (next_token_word v st k Hw Hst) as (c & r & t & st' & H).
       rewrite decide_False in H by done. eauto. }
  1: { destruct Hv as (c & r & Hv & Hd). pose proof Hd as Hd'. apply Forall_cons in Hd' as [Hc _].
       destruct (no_punctuation_spec c (digit_char c Hc)) as (H1 & H2 & H3 & H4 & H5).
       destruct (read_while_word is_digit st (c :: r) k) as (st' & Hw & Hst'); [by rewrite Hst, Hv|done|by vm_compute|].
       exists c, (r ++ space :: k). eexists _, st'. split; [by rewrite Hst, Hv|]. split; [done|].
       split; [|split; [|done]].
       - unfold next_token. rewrite H1. rewrite (bool_decide_eq_false_2 _ H2), (bool_decide_eq_false_2 _ H3),
      (bool_decide_eq_false_2 _ H4). cbn [andb orb].
         rewrite Hc. unfold readNumber. rewrite Hw. reflexivity.
       - rewrite <-Hv, of_chars_chars. done. }
  1: { cbn [app] in Hst. rewrite <-app_assoc in Hst.
       destruct (string_go_escape (chars v) (advance st) (space :: k) []) as (st' & Hg & Hst').
       { rewrite rest_advance, Hst. done. }
       eexists single_quote, _, _, st'. split; [exact Hst|]. split; [split; [by vm_compute|done]|].
       split; [|split; [|exact Hst']].
       - unfold next_token. replace (single_type single_quote) with (@None DslTokenType) by by vm_compute.
         rewrite bool_decide_eq_false_2 by done. cbn [andb].
         rewrite (bool_decide_eq_true_2 (single_quote = single_quote)) by done. rewrite orb_true_r.
         unfold readString. rewrite Hg. reflexivity.
       - cbn [app]. by rewrite of_chars_chars. }
  all: destruct Hv as [_ ->]; (eexists _, _, _, _; split; [exact Hst|]; split; [split; [by vm_compute|done]|];
    split; [reflexivity|]; split; [reflexivity|]; rewrite rest_advance, Hst; reflexivity).
Qed.

(** ** The lexer inverts the printer *)

Lemma lexeme_length s : valid_sym s → (1 ≤ length (lexeme s))%nat.
Proof.
  destruct s as [ty v]. unfold valid_sym, lexeme. cbn [fst snd]. destruct ty; cbn; try lia; try (by intros [[? [=]] _]).
  - intros (c & r & -> & _)%keyword_word. simpl. lia.
  - intros [(c & r & -> & _) _]. simpl. lia.
  - intros (c & r & -> & _). simpl. lia.
Qed.

Lemma tokenize_loop_print l fuel st :
  Forall valid_sym l → (length l ≤ fuel)%nat →
  rest (skipWhitespaceAndComments st) = print_chars l →
  ∃ ts, tokenize_loop fuel st = Ok ts ∧ syms ts = l ++ [(TEof, "")].
Proof.
  intros Hl. revert fuel st. induction Hl as [|s l Hs Hl IH]; intros fuel st Hf Hst.
  - destruct fuel; cbn [tokenize_loop]; rewrite Hst; eexists; done.
  - destruct fuel as [|fuel]; [simpl in Hf; lia|]. cbn [tokenize_loop].
    unfold print_chars in Hst. rewrite bind_cons, <-app_assoc in Hst. cbn [app] in Hst.
    set (st1 := skipWhitespaceAndComments st) in *.
    destruct (next_token_lexeme s st1 _ Hs Hst) as (c & r & t & st2 & Hc & Hst1 & Hn & Ht & Hst2).
    rewrite Hc, Hn. cbn [mbind outcome_bind].
    destruct (IH fuel st2) as (ts & -> & Hts); [simpl in Hf; lia| |].
    + apply (skip_space_at _ _ Hst2). destruct l as [|s' l']; [by left|right].
      apply Forall_cons in Hl as [Hs' _]. rewrite bind_cons, <-app_assoc. cbn [app].
      destruct (next_token_lexeme s' (mkLex (lexeme s' ++ space :: l' ≫= λ s, lexeme s ++ [space]) 1 1) _ Hs' eq_refl)
        as (c' & r' & _ & _ & Hc' & Hst' & _). by exists c', r'.
    + exists (t :: ts). split; [done|]. change (sym_of t :: syms ts = s :: l ++ [(TEof, "")]). by rewrite Ht, Hts.
Qed.

(** ** The lexer ends *)

Lemma string_go_length q n l s out :
  (length l ≤ n)%nat → l = rest s → (length (rest (string_go q l s out).2) ≤ length l)%nat.
Proof.
  revert l s out. induction n as [|n IH]; intros l s out Hn Hl.
  { destruct l; [|simpl in Hn; lia]. cbn. rewrite rest_advance, <-Hl. simpl. lia. }
  destruct l as [|c l]; [cbn; rewrite rest_advance, <-Hl; simpl; lia|]. simpl in Hn.
  assert (rest (advance s) = l) as Ha by (rewrite rest_advance, <-Hl; done).
  cbn [string_go]. case_decide; [cbn [snd]; rewrite Ha; simpl; lia|]. case_decide.
  - destruct l as [|d l]; [cbn [snd]; rewrite !rest_advance, <-Hl; simpl; lia|]. simpl in Hn.
    assert (rest (advance (advance s)) = l) as Ha2 by (rewrite rest_advance, Ha; done).
    pose proof (IH l (advance (advance s)) (out ++ [d]) ltac:(lia) (eq_sym Ha2)). simpl. lia.
  - pose proof (IH l (advance s) (out ++ [c]) ltac:(lia) (eq_sym Ha)). simpl. lia.
Qed.

Lemma read_while_length p s c r :
  rest s = c :: r → p c = true → (length (rest (read_while p s).2) < length (rest s))%nat.
Proof.
  intros Hr Hp. unfold read_while. rewrite Hr. cbn [take_while]. rewrite Hp. cbn [snd].
  rewrite rest_advance_over, Hr, length_drop. simpl. lia.
Qed.

Lemma next_token_length c r s t s' :
  rest s = c :: r → next_token c s = Ok (t, s') → (length (rest s') < length (rest s))%nat.
Proof.
  intros Hr. unfold next_token. destruct (single_type c).
  { intros [= _ <-]. rewrite rest_advance, Hr. simpl. lia. }
  destruct (_ && _). { intros [= _ <-]. rewrite !rest_advance, Hr. simpl. destruct r; simpl; lia. }
  destruct (_ || _).
  { unfold readString. pose proof (string_go_length c (length (rest (advance s))) (rest (advance s)) (advance s) [] ltac:(lia) eq_refl) as H.
    destruct (string_go c _ (advance s) []) as [out s2]. intros [= _ <-]. simpl in H.
    rewrite rest_advance in H. rewrite Hr in *. simpl in *. lia. }
  destruct (is_digit c) eqn:Hd.
  { unfold readNumber. pose proof (read_while_length is_digit s c r Hr Hd) as H.
    destruct (read_while is_digit s) as [v s2]. by intros [= _ <-]. }
  destruct (is_ident_start c) eqn:Hi; [|done].
  unfold readIdent. pose proof (read_while_length is_ident_char s c r Hr (proj2 (proj2 (ident_start_char c Hi)))) as H.
  destruct (read_while is_ident_char s) as [v s2]. by intros [= _ <-].
Qed.

Lemma skip_go_length l b s : l = rest s → (length (rest (skip_go l b s)) ≤ length l)%nat.
Proof.
  revert b s. induction l as [|c l IH]; intros b s Hl; cbn [skip_go]; [by rewrite <-Hl|].
  assert (l = rest (advance s)) as Ha by (rewrite rest_advance, <-Hl; done).
  pose proof (IH true _ Ha). pose proof (IH false _ Ha).
  destruct b; [case_decide; simpl; lia|]. destruct (is_space c); [simpl; lia|].
  case_decide; [simpl; lia|]. rewrite <-Hl. done.
Qed.

Lemma tokenize_loop_ends fuel s :
  (length (rest s) ≤ fuel)%nat →
  match tokenize_loop fuel s with
  | Ok ts => (length ts ≤ S (length (rest s)))%nat
  | Throw _ => True
  | OutOfFuel => False
  end.
Proof.
  revert s. induction fuel as [|fuel IH]; intros s Hf; cbn [tokenize_loop];
    pose proof (skip_go_length (rest s) false s eq_refl) as Hskip;
    fold (skipWhitespaceAndComments s) in Hskip; destruct (rest (skipWhitespaceAndComments s)) as [|c r] eqn:Hr;
    try (simpl in *; lia).
  destruct (next_token c _) as [[t s']|e|] eqn:Hn; cbn [mbind outcome_bind]; [|done|].
  - apply (next_token_length c r) in Hn; [|done]. rewrite Hr in Hn.
    specialize (IH s' ltac:(lia)). destruct (tokenize_loop fuel s') as [ts|e|]; cbn; [lia|done|done].
  - unfold next_token in Hn. destruct (single_type c); [done|].
    repeat (case_match; try done).
Qed.

Lemma tokenize_ends source :
  match tokenize source with
  | Ok ts => (length ts ≤ S (String.length source))%nat
  | Throw _ => True
  | OutOfFuel => False
  end.
Proof.
  unfold tokenize. pose proof (tokenize_loop_ends (String.length source) (mkLex (chars source) 1 1)) as H.
  simpl in H. rewrite length_chars in H. by apply H.
Qed.

(** ** Properties *)

(** C13: Whatever the workflow, provided its names, keywords and numbers are words of
    the language and its tasks name their handlers, parsing its printed form
    gives its meaning: names, versions, fields with later ones overriding,
    dependencies in order, handlers and expressions with quotes and
    backslashes. *)
Theorem dsl_parse_print (x : Syntax) (n : nat) (Hvalid : Forall valid_sym (syntax_syms x))
    (Hok : Forall item_ok (sx_items x)) (Hn : (S (length (syntax_syms x)) < n)%nat) :
  dsl_parse n (print (syntax_syms x)) = Ok (meaning x).
Proof.
  unfold dsl_parse, tokenize, print. rewrite chars_of_chars.
  destruct (tokenize_loop_print (syntax_syms x) (String.length (of_chars (print_chars (syntax_syms x))))
    (mkLex (print_chars (syntax_syms x)) 1 1) Hvalid) as (ts & -> & Hts).
  - rewrite <-length_chars, chars_of_chars. clear -Hvalid. unfold print_chars.
    induction Hvalid as [|s l Hs Hl IH]; [done|]. rewrite bind_cons, !length_app.
    pose proof (lexeme_length s Hs). simpl. lia.
  - by rewrite (skip_at _ "w"%char (tail (print_chars (syntax_syms x)))).
  - cbn [mbind outcome_bind].
    destruct (parse_workflow_accepts x n) with (ts := ts) (k := [(TEof, "")]) as (ts' & Hr & _);
      [lia|done|done|done|]. by rewrite Hr.
Qed.

(** Lexing ends for every source.  Parsing ends as well, unless the body of a
    constraint holds a foreign token or is not closed: then no amount of fuel
    over the length of the source is enough. *)
Theorem dsl_parse_ends (source : string) (n : nat) (Hn : (S (String.length source) < n)%nat) :
  tokenize source ≠ OutOfFuel
  ∧ (dsl_parse n source = OutOfFuel ↔ ∃ ts, tokenize source = Ok ts ∧ hangs (syms ts)).
Proof.
  pose proof (tokenize_ends source) as Ht. unfold dsl_parse.
  destruct (tokenize source) as [ts|e|]; [|by split; [|split; [|intros (? & ? & _)]]|done].
  split; [done|]. cbn [mbind outcome_bind].
  pose proof (parse_workflow_parses n ts) as Hs. split.
  - intros Hr. exists ts. split; [done|]. destruct (parse_workflow n ts) as [o ts']. simpl in Hr. subst o.
    destruct Hs as [Hs|Hs]; [|done]. unfold short, syms in Hs. rewrite length_fmap in Hs. lia.
  - intros (ts' & [= <-] & Hh). apply (parse_workflow_hangs n (syms ts)); [|done|done].
    unfold syms. rewrite length_fmap. lia.
Qed.

(** ** Examples *)

Definition example_source : string :=
  "workflow Demo: { version: 2 task fetch: { handler: 'invoice.fetch' } # comment
   task post: { handler: 'invoice.post_gl' timeout: 500 depends: [fetch, 'fetch'] optional }
   constraint c1: { expr: 'ctx.amount' warn } } trailing words".

Example dsl_parse_example :
  dsl_parse 100 example_source =
  Ok (mkWorkflowNode "Demo" 2
    [mkTaskNode "fetch" "invoice.fetch" 30000 [] false;
     mkTaskNode "post" "invoice.post_gl" 500 ["fetch"; "fetch"] true]
    [mkConstraintNode "c1" "ctx.amount" SeverityWarn]).
Proof. vm_compute. reflexivity. Qed.

Definition example_syntax : Syntax :=
  mkSyntax "Demo" "2" [ItemTask "a" [FHandler "x'y"; FDepends [mkDep false "b" true; mkDep true "c d" false]];
    ItemConstraint "k" [FExpr "ctx.a"; FBlock]].

Lemma dsl_parse_print_witness :
  dsl_parse 60 (print (syntax_syms example_syntax)) = Ok (meaning example_syntax)
  ∧ wn_version (meaning example_syntax) = 2.
Proof.
  split; [|vm_compute; reflexivity]. apply dsl_parse_print.
  - repeat (apply Forall_cons; split);
      try apply Forall_nil_2; unfold valid_sym; cbn [fst snd kw];
      first [exact I
            |apply (bool_decide_unpack _); vm_compute; exact I
            |split; [eexists; reflexivity|reflexivity]
            |split; [eexists _, _; split; [reflexivity|]; split; [reflexivity|repeat constructor]
                    |apply (bool_decide_unpack _); vm_compute; exact I]
            |eexists _, _; split; [reflexivity|repeat constructor]].
  - repeat constructor; vm_compute; discriminate.
  - apply (bool_decide_unpack _). vm_compute. exact I.
Defined.

(** A misspelt field of a constraint. *)
Definition hanging_source : string := "workflow w: { version: 1 constraint c: { severity: block } }".

Lemma dsl_parse_ends_witness : dsl_parse 100 hanging_source = OutOfFuel.
Proof.
  apply dsl_parse_ends; [change (String.length hanging_source) with 60%nat; lia|].
  eexists. split; [vm_compute; reflexivity|]. exists "w", "1". eexists. split; [reflexivity|].
  exists [], "c". eexists. split; [reflexivity|]. split; [apply Forall_nil_2; exact I|].
  exists [], (TIdent, "severity"). eexists. split; [reflexivity|].
  apply (bool_decide_unpack _). vm_compute. exact I.
Defined.

Lemma parse_workflow_correct_witness :
  ∃ ts ts', tokenize example_source = Ok ts
    ∧ parse_workflow (S (length ts)) ts = (Ok (meaning (mkSyntax "Demo" "2" [
         ItemTask "fetch" [FHandler "invoice.fetch"];
         ItemTask "post" [FHandler "invoice.post_gl"; FTimeout "500";
           FDepends [mkDep false "fetch" true; mkDep true "fetch" false]; FOptional];
         ItemConstraint "c1" [FExpr "ctx.amount"; FWarn]])), ts')
    ∧ syms ts' = [(TIdent, "trailing"); (TIdent, "words"); (TEof, "")].
Proof.
  destruct (tokenize example_source) as [ts|e|] eqn:E; [|vm_compute in E; discriminate E..].
  destruct (parse_workflow_correct ts (S (length ts)) (Nat.lt_succ_diag_r _)) as (_ & Hc & _).
  destruct (Hc (mkSyntax "Demo" "2" [
         ItemTask "fetch" [FHandler "invoice.fetch"];
         ItemTask "post" [FHandler "invoice.post_gl"; FTimeout "500";
           FDepends [mkDep false "fetch" true; mkDep true "fetch" false]; FOptional];
         ItemConstraint "c1" [FExpr "ctx.amount"; FWarn]])
      [(TIdent, "trailing"); (TIdent, "words"); (TEof, "")]) as (ts' & Hr & Hs).
  - vm_compute in E. injection E as <-. vm_compute. reflexivity.
  - repeat constructor; vm_compute; discriminate.
  - exists ts, ts'. split; [reflexivity|]. split; [exact Hr|exact Hs].
Defined.
