(* ===== verification/DslCompiler.v ===== *)
(** * The optimizer and the compiler (dsl/optimizer.ts, dsl/compiler.ts, services/dsl-service.ts)

    The optimizer orders the tasks by a depth-first search and then stably by
    depth.  The recursion of its closure [visit] gets fuel; one more than the
    number of ids named is enough. *)

From S2P Require Import Prelude JsMap JsString JsSort Graph JsNum DomainTypes JsValue Domain Retry Transitions Locks Stores Metrics Handlers Validator Expressions Constraints Engine ExecInv Execution Registration EngineProps DslLexer DslParser.
From stdpp Require Import relations sorting.
From Stdlib Require Import Ascii.
Open Scope Z_scope.

(** ** [sortTasksTopologically] *)

Definition nodes_by_id (tasks : list TaskDslNode) : jsmap string TaskDslNode :=
  map_of_entries ((λ t, (tn_id t, t)) <$> tasks).

(** [visited] and [out]. *)
Definition topo_state : Type := list string * list TaskDslNode.

Fixpoint visit_task (byId : jsmap string TaskDslNode) (fuel : nat) (id : string) (st : topo_state)
    : outcome JsError topo_state :=
  match fuel with
  | O => OutOfFuel
  | S n =>
      let '(visited, out) := st in
      if bool_decide (id ∈ visited) then Ok st
      else match map_get byId id with
           | None => Ok (visited ++ [id], out)
           | Some t =>
               st' ← ofold (visit_task byId n) (tn_dependsOn t) (visited ++ [id], out);
               Ok (st'.1, st'.2 ++ [t])
           end
  end.

Definition named_ids (tasks : list TaskDslNode) : list string :=
  (tn_id <$> tasks) ++ (tasks ≫= tn_dependsOn).

Definition sortTasksTopologically (tasks : list TaskDslNode) : outcome JsError (list TaskDslNode) :=
  st ← ofold (visit_task (nodes_by_id tasks) (S (length (named_ids tasks)))) (tn_id <$> tasks) ([], []);
  Ok st.2.

(** ** [mergeParallelTasks] *)

(** [depth.set(t.id, max of the depths of the dependencies + 1)]. *)
Definition set_depth (depth : jsmap string Z) (t : TaskDslNode) : jsmap string Z :=
  let depDepth := foldl (λ m d, Z.max m (default 0 (map_get depth d))) 0 (tn_dependsOn t) in
  map_set depth (tn_id t) (depDepth + 1).

Definition depths (tasks : list TaskDslNode) : jsmap string Z := foldl set_depth [] tasks.

Definition compare_depth (depth : jsmap string Z) (a b : TaskDslNode) : Z :=
  default 0 (map_get depth (tn_id a)) - default 0 (map_get depth (tn_id b)).

Definition mergeParallelTasks (tasks : list TaskDslNode) : list TaskDslNode :=
  js_sort (compare_depth (depths tasks)) tasks.

Definition optimize (w : WorkflowDslNode) : outcome JsError WorkflowDslNode :=
  tasks ← sortTasksTopologically (wn_tasks w);
  Ok (mkWorkflowNode (wn_name w) (wn_version w) (mergeParallelTasks tasks) (wn_constraints w)).

(** ** [compile] *)

Definition task_of_node (t : TaskDslNode) : TaskDefinition :=
  mkTaskDefinition (tn_id t) (tn_id t) (tn_handler t) (tn_timeoutMs t) (Some (tn_optional t))
    (match tn_dependsOn t with [] => None | ds => Some ds end).

Definition constraint_of_node (c : ConstraintDslNode) : JobConstraint :=
  mkConstraint (cn_id c) (expr c) (cn_severity c).

Definition toJobDefinition (now : string) (ast : WorkflowDslNode) (jobId : option string) : JobDefinition :=
  let id := default (to_lower (replace_spaces (wn_name ast) "_"%char)) jobId in
  mkJobDefinition id (wn_name ast) (wn_version ast) None (task_of_node <$> wn_tasks ast)
    (constraint_of_node <$> wn_constraints ast) DEFAULT_RETRY_POLICY [] [("compiledFrom", "dsl")] now now.

Definition compile (fuel : nat) (now source : string) (jobId : option string) : res JobDefinition :=
  ast ← dsl_parse fuel source;
  optimized ← optimize ast;
  Ok (toJobDefinition now optimized jobId).

Definition set_file_meta (id createdAt : string) (d : JobDefinition) : JobDefinition :=
  mkJobDefinition id (jd_name d) (jd_version d) (description d) (tasks d) (constraints d) (retryPolicy d)
    (allowedTransitions d) (metadata d) createdAt createdAt.

Definition compileFile (fuel : nat) (now content id createdAt : string) : res JobDefinition :=
  def ← compile fuel now content (Some id);
  Ok (set_file_meta id createdAt def).

(** What [register] reads of a compiled definition. *)
Definition input_of_definition (d : JobDefinition) : JobDefinitionInput :=
  mkInput (jd_id d) (jd_name d) (jd_version d) (description d) (tasks d) (Some (constraints d))
    (Some (retryPolicy d)) (Some (allowedTransitions d)) (Some (metadata d)).

Section service.
Context {JS WS RS : Type} `{JobDefinitionStoreLaws JS} `{!WorkflowStore WS} `{!RunStore RS} `{Environment}.
Notation world := (world JS WS RS).

(** The instant of the compilation does not depend on the source and is read first. *)
Definition compileAndRegister (zod_message : JobDefinitionInput → string) (reg : HandlerRegistry) (fuel : nat)
    (source : string) (jobId : option string) : eff world JobDefinition :=
  now_ ← now;
  def ← lift_outcome (compile fuel now_ source jobId);
  register zod_message reg (input_of_definition def).
End service.

(** ** The search *)

Section search_spec.
Context (byId : jsmap string TaskDslNode).

Definition node_deps (id : string) : list string :=
  match map_get byId id with Some t => tn_dependsOn t | None => [] end.

(** What a visit of the ids [ids] adds: the tasks [new], each once, none of them
    seen before, and every task it marks. *)
Record visit_ok (ids : list string) (st st' : topo_state) (new : list TaskDslNode) : Prop := {
  vo_out : st'.2 = st.2 ++ new;
  vo_new : Forall (λ t, map_get byId (tn_id t) = Some t ∧ tn_id t ∉ st.1 ∧ tn_id t ∈ st'.1) new;
  vo_nodup : NoDup (tn_id <$> new);
  vo_sub : st.1 ⊆ st'.1;
  vo_ids : ids ⊆ st'.1;
  vo_marked : ∀ x, x ∈ st'.1 → x ∉ st.1 → is_Some (map_get byId x) → x ∈ tn_id <$> new;
}.

Context (byId_key : ∀ id t, map_get byId id = Some t → tn_id t = id).
Context (universe : list string)
  (universe_closed : ∀ x c, x ∈ universe → c ∈ node_deps x → c ∈ universe).

Definition unseen (visited : list string) : nat :=
  length (List.filter (λ x, negb (bool_decide (x ∈ visited))) universe).

Lemma unseen_mono v v' : v ⊆ v' → (unseen v' ≤ unseen v)%nat.
Proof.
  intros Hs. apply filter_length_le_impl. intros x _. rewrite !negb_true_iff, !bool_decide_eq_false. set_solver.
Qed.

Lemma unseen_mark v id : id ∈ universe → id ∉ v → (unseen (v ++ [id]) < unseen v)%nat.
Proof.
  intros Hu Hv. apply (filter_length_lt_impl _ _ _ id); [|done|..].
  - intros x _. rewrite !negb_true_iff, !bool_decide_eq_false. set_solver.
  - rewrite negb_false_iff, bool_decide_eq_true. set_solver.
  - by rewrite negb_true_iff, bool_decide_eq_false.
Qed.

Lemma visit_ok_refl st : visit_ok [] st st [].
Proof. split; [by rewrite app_nil_r|by constructor|by constructor|done|set_solver|done]. Qed.

Lemma visit_ok_trans x xs st st1 st2 new1 new2 :
  visit_ok [x] st st1 new1 → visit_ok xs st1 st2 new2 → visit_ok (x :: xs) st st2 (new1 ++ new2).
Proof.
  intros [O1 F1 N1 S1 I1 M1] [O2 F2 N2 S2 I2 M2]. rewrite Forall_forall in F1, F2. split.
  - by rewrite O2, O1, app_assoc.
  - apply Forall_app. rewrite !Forall_forall. split; intros t Ht.
    + destruct (F1 t Ht) as (? & ? & ?). split; [done|]. split; [done|]. by apply S2.
    + destruct (F2 t Ht) as (? & ? & ?). split; [done|]. split; [|done]. intros Hin. by apply S1 in Hin.
  - rewrite fmap_app, NoDup_app. split; [done|]. split; [|done].
    intros y (t & -> & Ht)%list_elem_of_fmap (t' & Heq & Ht')%list_elem_of_fmap.
    destruct (F1 t Ht) as (_ & _ & Hin). destruct (F2 t' Ht') as (_ & Hn & _). rewrite <-Heq in Hn. done.
  - set_solver.
  - set_solver.
  - intros y Hy Hny Hs. rewrite fmap_app, elem_of_app. destruct (decide (y ∈ st1.1)); [left; by apply M1|right; by apply M2].
Qed.

Lemma ofold_visit_ok n xs st :
  (∀ id st, id ∈ universe → (unseen st.1 < n)%nat → ∃ st' new, visit_task byId n id st = Ok st' ∧ visit_ok [id] st st' new) →
  xs ⊆ universe → (unseen st.1 < n)%nat →
  ∃ st' new, ofold (visit_task byId n) xs st = Ok st' ∧ visit_ok xs st st' new.
Proof.
  intros Hv. revert st. induction xs as [|x xs IH]; intros st Hu Hn; cbn [ofold].
  { exists st, []. split; [done|apply visit_ok_refl]. }
  destruct (Hv x st) as (st1 & new1 & -> & H1); [set_solver|done|]. cbn [mbind outcome_bind].
  destruct (IH st1) as (st2 & new2 & -> & H2); [set_solver| |].
  { pose proof (unseen_mono _ _ (vo_sub _ _ _ _ H1)). lia. }
  exists st2, (new1 ++ new2). split; [done|]. by eapply visit_ok_trans.
Qed.

Lemma visit_task_ok n id st :
  id ∈ universe → (unseen st.1 < n)%nat → ∃ st' new, visit_task byId n id st = Ok st' ∧ visit_ok [id] st st' new.
Proof.
  revert id st. induction n as [|n IH]; intros id [v out] Hu Hn; [lia|]. cbn [visit_task].
  case_bool_decide as Hv.
  { exists (v, out), []. split; [done|]. destruct (visit_ok_refl (v, out)). split; try done. set_solver. }
  simpl in Hn. pose proof (unseen_mark v id Hu Hv) as Hlt.
  destruct (map_get byId id) as [t|] eqn:Hid.
  2: { exists (v ++ [id], out), []. split; [done|]. split; simpl; try done.
       - by rewrite app_nil_r.
       - by constructor.
       - set_solver.
       - set_solver.
       - intros x Hx Hnx. assert (x = id) as -> by set_solver. rewrite Hid. by intros [? ?]. }
  destruct (ofold_visit_ok n (tn_dependsOn t) (v ++ [id], out) IH) as (st' & new & -> & [O F N S I M]).
  { intros c Hc. apply (universe_closed id); [done|]. unfold node_deps. by rewrite Hid. }
  { simpl. lia. }
  cbn [mbind outcome_bind]. simpl in *. rewrite Forall_forall in F. pose proof (byId_key id t Hid) as Hkey.
  exists (st'.1, st'.2 ++ [t]), (new ++ [t]). split; [done|]. split; simpl.
  - by rewrite O, app_assoc.
  - apply Forall_app. rewrite Forall_singleton, Forall_forall. split.
    + intros t' Ht'. destruct (F t' Ht') as (? & ? & ?). set_solver.
    + rewrite Hkey. split; [done|]. split; [done|]. set_solver.
  - rewrite fmap_app, NoDup_app. split; [done|]. split; [|apply NoDup_singleton].
    intros y (t' & -> & Ht')%list_elem_of_fmap Hy. apply list_elem_of_singleton in Hy. simpl in Hy.
    destruct (F t' Ht') as (_ & Hn' & _). rewrite Hy, Hkey in Hn'. set_solver.
  - set_solver.
  - set_solver.
  - intros x Hx Hnx Hs. rewrite fmap_app, elem_of_app. destruct (decide (x = id)) as [->|Hne].
    + right. simpl. rewrite Hkey. set_solver.
    + left. apply M; [done|set_solver|done].
Qed.

(** ** Order, on acyclic graphs *)

(** Every task comes after the tasks it depends on. *)
Definition ordered (out : list TaskDslNode) : Prop :=
  ∀ l t k d, out = l ++ t :: k → d ∈ tn_dependsOn t → is_Some (map_get byId d) → d ∈ tn_id <$> l.

Lemma ordered_snoc out t :
  ordered out → (∀ d, d ∈ tn_dependsOn t → is_Some (map_get byId d) → d ∈ tn_id <$> out) → ordered (out ++ [t]).
Proof.
  intros Ho Ht l t' k d Heq Hd Hs. destruct k as [|u k _] using rev_ind.
  - apply app_inj_tail in Heq as [-> ->]. by apply Ht.
  - rewrite app_comm_cons, app_assoc in Heq. apply app_inj_tail in Heq as [-> _]. by eapply Ho.
Qed.

(** The tasks begun and not finished, which all lead to [id]. *)
Definition leads_to (st : topo_state) (id : string) : Prop :=
  ∀ x, x ∈ st.1 → is_Some (map_get byId x) → x ∉ tn_id <$> st.2 → tc (edge node_deps) x id.

Context (acyclic : ∀ x, ¬ cyclic node_deps x).

Lemma ofold_visit_ordered n xs st st' :
  (∀ id st st', id ∈ universe → (unseen st.1 < n)%nat → leads_to st id → ordered st.2 →
     visit_task byId n id st = Ok st' → ordered st'.2) →
  xs ⊆ universe → (unseen st.1 < n)%nat → (∀ x, x ∈ xs → leads_to st x) → ordered st.2 →
  ofold (visit_task byId n) xs st = Ok st' → ordered st'.2.
Proof.
  intros Hv. revert st. induction xs as [|x xs IH]; intros st Hu Hn Hl Ho; cbn [ofold]; [by intros [= <-]|].
  destruct (visit_task_ok n x st) as (st1 & new & Hr & Hok); [set_solver|done|]. rewrite Hr. cbn [mbind outcome_bind].
  intros H. apply (IH st1); [set_solver| | | |done].
  - pose proof (unseen_mono _ _ (vo_sub _ _ _ _ Hok)). lia.
  - intros y Hy z Hz Hs Hnot. destruct Hok as [O _ _ _ _ M]. rewrite O, fmap_app, not_elem_of_app in Hnot.
    destruct (decide (z ∈ st.1)) as [Hin|Hnin]; [apply (Hl y); [by right|done|done|tauto]|].
    by destruct (proj2 Hnot); apply M.
  - apply (Hv x st st1); [set_solver|done|apply Hl; by left|done|done].
Qed.

Lemma visit_task_ordered n id st st' :
  id ∈ universe → (unseen st.1 < n)%nat → leads_to st id → ordered st.2 →
  visit_task byId n id st = Ok st' → ordered st'.2.
Proof.
  revert id st st'. induction n as [|n IH]; intros id [v out] st' Hu Hn Hl Ho; [lia|]. cbn [visit_task].
  case_bool_decide as Hv; [by intros [= <-]|]. simpl in Hn. pose proof (unseen_mark v id Hu Hv) as Hlt.
  destruct (map_get byId id) as [t|] eqn:Hid; [|by intros [= <-]].
  assert (node_deps id = tn_dependsOn t) as Hdeps by (unfold node_deps; by rewrite Hid).
  assert (tn_dependsOn t ⊆ universe) as Hsub.
  { intros c Hc. apply (universe_closed id); [done|]. by rewrite Hdeps. }
  destruct (ofold_visit_ok n (tn_dependsOn t) (v ++ [id], out)) as (st1 & new & Hr & Hok);
    [intros; by apply visit_task_ok|done|simpl; lia|].
  rewrite Hr. cbn [mbind outcome_bind]. intros [= <-]. simpl.
  assert (∀ x, x ∈ v ++ [id] → is_Some (map_get byId x) → x ∉ tn_id <$> out → x = id ∨ tc (edge node_deps) x id) as Hgrey.
  { intros x Hx Hs Hnot. destruct (decide (x = id)); [by left|right]. apply Hl; simpl; set_solver. }
  apply ordered_snoc.
  - apply (ofold_visit_ordered n (tn_dependsOn t) (v ++ [id], out)); [exact IH|done|simpl; lia| |done|done].
    intros c Hc x Hx Hs Hnot. simpl in *. assert (edge node_deps id c) as He by (unfold edge; by rewrite Hdeps).
    destruct (Hgrey x Hx Hs Hnot) as [->|Ht]; [by apply tc_once|by eapply tc_r].
  - intros d Hd Hs. destruct Hok as [O _ _ _ I M]. simpl in *. rewrite O, fmap_app, elem_of_app.
    destruct (decide (d ∈ v ++ [id])) as [Hin|Hnin]; [left|right; apply M; [by apply I|done|done]].
    destruct (decide (d ∈ tn_id <$> out)) as [|Hnot]; [done|]. exfalso.
    assert (edge node_deps id d) as He by (unfold edge; by rewrite Hdeps).
    destruct (Hgrey d Hin Hs Hnot) as [->|Ht]; apply (acyclic id); unfold cyclic; [by apply tc_once|].
    by eapply tc_l.
Qed.
End search_spec.

(** ** The sorted tasks *)

Lemma nodes_by_id_get tasks id :
  map_get (nodes_by_id tasks) id = last (filter (λ t, tn_id t = id) tasks).
Proof.
  unfold nodes_by_id, map_of_entries. induction tasks as [|t tasks IH] using rev_ind; [done|].
  rewrite fmap_app, foldl_app, filter_app, filter_cons, filter_nil. cbn -[decide filter]. rewrite map_get_set.
  case_decide; [by rewrite last_snoc|by rewrite app_nil_r].
Qed.

Lemma nodes_by_id_in tasks id t : map_get (nodes_by_id tasks) id = Some t → t ∈ tasks ∧ tn_id t = id.
Proof.
  rewrite nodes_by_id_get. intros Hl%last_Some_elem_of. apply list_elem_of_filter in Hl as [? ?]. done.
Qed.

Lemma nodes_by_id_is_Some tasks id : is_Some (map_get (nodes_by_id tasks) id) ↔ id ∈ tn_id <$> tasks.
Proof.
  rewrite nodes_by_id_get, last_is_Some, list_elem_of_fmap. split.
  - intros Hne. destruct (filter _ tasks) as [|t l] eqn:E; [done|]. exists t.
    assert (t ∈ filter (λ t, tn_id t = id) tasks) as [? ?]%list_elem_of_filter by (rewrite E; by left). done.
  - intros (t & -> & Ht) Hnil. apply (not_elem_of_nil t). rewrite <-Hnil. by apply list_elem_of_filter.
Qed.

(** With distinct ids every task is found under its own. *)
Lemma nodes_by_id_unique tasks t :
  NoDup (tn_id <$> tasks) → t ∈ tasks → map_get (nodes_by_id tasks) (tn_id t) = Some t.
Proof.
  intros Hnd Ht. destruct (proj2 (nodes_by_id_is_Some tasks (tn_id t))) as [t' Ht'].
  { by apply list_elem_of_fmap_2. }
  rewrite Ht'. f_equal. apply nodes_by_id_in in Ht' as [Hin Hid]. by apply (NoDup_fmap_inj_in tn_id tasks).
Qed.

Lemma named_ids_closed tasks x c : c ∈ node_deps (nodes_by_id tasks) x → c ∈ named_ids tasks.
Proof.
  unfold node_deps, named_ids. destruct (map_get _ x) as [t|] eqn:E; [|set_solver].
  apply nodes_by_id_in in E as [Hin _]. intros Hc. rewrite elem_of_app, list_elem_of_bind. eauto.
Qed.

(** The dependencies of the tasks have no cycle. *)
Definition acyclic_nodes (tasks : list TaskDslNode) : Prop :=
  ∀ id, ¬ cyclic (node_deps (nodes_by_id tasks)) id.

(** The search ends, and returns for every id the last task that has it, each
    once and, without cycles, each after its dependencies. *)
Lemma sortTasks_correct tasks :
  ∃ out, sortTasksTopologically tasks = Ok out
    ∧ NoDup (tn_id <$> out)
    ∧ (∀ t, t ∈ out ↔ last (filter (λ u, tn_id u = tn_id t) tasks) = Some t)
    ∧ (acyclic_nodes tasks → ordered (nodes_by_id tasks) out).
Proof.
  set (byId := nodes_by_id tasks). set (n := S (length (named_ids tasks))).
  assert (∀ id t, map_get byId id = Some t → tn_id t = id) as Hkey by (intros id t Ht; by apply (nodes_by_id_in tasks)).
  assert (∀ x c, x ∈ named_ids tasks → c ∈ node_deps byId x → c ∈ named_ids tasks) as Hcl
    by (intros x c _; apply named_ids_closed).
  assert (tn_id <$> tasks ⊆ named_ids tasks) as Hsub by (unfold named_ids; set_solver).
  assert (unseen (named_ids tasks) ([], [] : list TaskDslNode).1 < n)%nat as Hn.
  { unfold unseen, n. pose proof (List.filter_length_le (λ x, negb (bool_decide (x ∈ @nil string))) (named_ids tasks)).
    simpl in *. lia. }
  destruct (ofold_visit_ok byId Hkey (named_ids tasks) Hcl n (tn_id <$> tasks) ([], []))
    as (st & new & Hr & [O F N S I M]); [intros; by apply (visit_task_ok byId Hkey (named_ids tasks) Hcl)|exact Hsub|exact Hn|].
  exists st.2. unfold sortTasksTopologically. fold byId n. rewrite Hr.
  cbn [mbind outcome_bind]. split; [done|]. simpl in O. rewrite O.
  rewrite Forall_forall in F. split; [done|]. split.
  - intros t. rewrite <-nodes_by_id_get. fold byId. split; [by intros Ht; apply F|]. intros Ht.
    assert (tn_id t ∈ tn_id <$> tasks) as Hin by (apply nodes_by_id_is_Some; by exists t).
    destruct (proj1 (list_elem_of_fmap _ _ _) (M (tn_id t) (I _ Hin) ltac:(set_solver) ltac:(by exists t)))
      as (t' & Heq & Ht').
    destruct (F t' Ht') as (Hget & _). rewrite <-Heq in Hget. congruence.
  - intros Hac. rewrite <-O.
    apply (ofold_visit_ordered byId Hkey (named_ids tasks) Hcl Hac n (tn_id <$> tasks) ([], []));
      [|exact Hsub|exact Hn|..|exact Hr].
    + intros. by eapply (visit_task_ordered byId Hkey (named_ids tasks) Hcl Hac).
    + intros x _ y Hy. by apply not_elem_of_nil in Hy.
    + intros l t k d Heq. by destruct l.
Qed.

Lemma sortTasks_perm tasks out :
  NoDup (tn_id <$> tasks) → NoDup (tn_id <$> out) →
  (∀ t, t ∈ out ↔ last (filter (λ u, tn_id u = tn_id t) tasks) = Some t) → out ≡ₚ tasks.
Proof.
  intros Hnd Hout Hin. apply NoDup_Permutation; [by eapply NoDup_fmap_1|by eapply NoDup_fmap_1|].
  intros t. rewrite Hin, <-nodes_by_id_get. split; [intros Ht; by apply nodes_by_id_in in Ht as [? _]|by apply nodes_by_id_unique].
Qed.

(** The search of the validator decides it. *)
Lemma acyclic_nodes_search tasks :
  (∃ m, search (node_deps (nodes_by_id tasks)) (S (length (named_ids tasks))) (tn_id <$> tasks) = Ok m)
  ↔ acyclic_nodes tasks.
Proof.
  apply (search_Ok_iff _ (named_ids tasks)).
  - intros x c _. apply named_ids_closed.
  - intros x c. unfold edge, node_deps. destruct (map_get (nodes_by_id tasks) x) as [t|] eqn:E; [|set_solver]. intros _.
    apply nodes_by_id_is_Some. by exists t.
  - unfold named_ids. set_solver.
  - lia.
Qed.

(** ** Depths *)

(** The greatest depth of the dependencies. *)
Definition dep_depth (D : string → Z) (t : TaskDslNode) : Z :=
  foldl (λ m d, Z.max m (D d)) 0 (tn_dependsOn t).

Lemma foldl_max_ge (D : string → Z) ds m : m ≤ foldl (λ m d, Z.max m (D d)) m ds.
Proof. revert m. induction ds as [|d ds IH]; intros m; simpl; [lia|]. specialize (IH (Z.max m (D d))). lia. Qed.

Lemma dep_depth_ge D t d : d ∈ tn_dependsOn t → D d ≤ dep_depth D t.
Proof.
  unfold dep_depth. generalize 0. induction (tn_dependsOn t) as [|x ds IH]; intros m; [set_solver|].
  intros [->|Hd]%elem_of_cons; simpl; [|by apply IH].
  pose proof (foldl_max_ge D ds (Z.max m (D x))). lia.
Qed.

Lemma dep_depth_ext D D' t : (∀ d, d ∈ tn_dependsOn t → D d = D' d) → dep_depth D t = dep_depth D' t.
Proof.
  unfold dep_depth. generalize 0. induction (tn_dependsOn t) as [|x ds IH]; intros m H; simpl; [done|].
  rewrite (H x) by (by left). apply IH. intros d Hd. apply H. by right.
Qed.

Definition depth_of (tasks : list TaskDslNode) (id : string) : Z := default 0 (map_get (depths tasks) id).

Lemma depths_get_app l k id : id ∉ tn_id <$> k → map_get (depths (l ++ k)) id = map_get (depths l) id.
Proof.
  unfold depths. rewrite foldl_app. generalize (foldl set_depth [] l).
  induction k as [|t k IH]; intros m Hn; simpl; [done|].
  rewrite fmap_cons, not_elem_of_cons in Hn. destruct Hn as [Hne Hn].
  rewrite IH by done. unfold set_depth. by rewrite map_get_set_ne.
Qed.

(** A task is one deeper than the deepest of its dependencies. *)
Lemma depth_of_task out t :
  NoDup (tn_id <$> out) → ordered (nodes_by_id out) out → t ∈ out →
  depth_of out (tn_id t) = 1 + dep_depth (depth_of out) t.
Proof.
  intros Hnd Ho (l & k & ->)%list_elem_of_split.
  assert (∀ d, d ∈ tn_dependsOn t → d ∉ tn_id <$> t :: k) as Hd.
  { intros d Hd Hin. rewrite fmap_app, NoDup_app in Hnd. destruct Hnd as (_ & Hdis & _).
    apply (Hdis d); [|done]. apply (Ho l t k); [done|done|]. apply nodes_by_id_is_Some. rewrite fmap_app. set_solver. }
  assert (tn_id t ∉ tn_id <$> k) as Htk.
  { rewrite fmap_app, NoDup_app, fmap_cons, NoDup_cons in Hnd. tauto. }
  rewrite (dep_depth_ext _ (depth_of l)).
  2: { intros d Hin. unfold depth_of. by rewrite (depths_get_app l (t :: k)) by auto. }
  unfold depth_of at 1. rewrite cons_middle, app_assoc, depths_get_app by done.
  unfold depths. rewrite foldl_app. simpl. unfold set_depth at 1. rewrite map_get_set_eq. simpl.
  unfold dep_depth, depth_of, depths. lia.
Qed.

Lemma mergeParallelTasks_perm tasks : mergeParallelTasks tasks ≡ₚ tasks.
Proof. apply js_sort_perm. Qed.

Lemma mergeParallelTasks_sorted tasks :
  StronglySorted (λ t u, depth_of tasks (tn_id t) ≤ depth_of tasks (tn_id u)) (mergeParallelTasks tasks).
Proof.
  assert (∀ t u, cmp_le (compare_depth (depths tasks)) t u ↔ depth_of tasks (tn_id t) ≤ depth_of tasks (tn_id u)) as Hle.
  { intros t u. unfold cmp_le, compare_depth, depth_of. lia. }
  eapply StronglySorted_mono; [intros t u; apply Hle|].
  apply js_sort_strongly_sorted; intros; rewrite !Hle in *; lia.
Qed.

(** ** The optimizer as a whole *)

Lemma ordered_ext byId byId' out :
  (∀ id, is_Some (map_get byId id) ↔ is_Some (map_get byId' id)) → ordered byId out → ordered byId' out.
Proof. intros He Ho l t k d Heq Hd Hs. eapply Ho; [done|done|by apply He]. Qed.

(** A permutation sorted by depth is still in the order of the dependencies. *)
Lemma sorted_by_depth_ordered out r :
  NoDup (tn_id <$> out) → ordered (nodes_by_id out) out → r ≡ₚ out →
  StronglySorted (λ t u, depth_of out (tn_id t) ≤ depth_of out (tn_id u)) r →
  ordered (nodes_by_id out) r.
Proof.
  intros Hnd Ho Hp Hs l t k d -> Hd Hk. apply nodes_by_id_is_Some in Hk as (u & -> & Hu)%list_elem_of_fmap.
  assert (t ∈ out) as Ht by (rewrite <-Hp; set_solver).
  pose proof (dep_depth_ge (depth_of out) t (tn_id u) Hd). pose proof (depth_of_task out t Hnd Ho Ht).
  rewrite <-Hp in Hu. apply elem_of_app in Hu as [Hu|[->|Hu]%elem_of_cons]; [by apply list_elem_of_fmap_2|lia|].
  apply StronglySorted_app in Hs as (_ & _ & Hs). apply StronglySorted_cons in Hs as [Hs _].
  rewrite Forall_forall in Hs. specialize (Hs u Hu). simpl in Hs. lia.
Qed.

Lemma optimize_ok w :
  ∃ ts, optimize w = Ok (mkWorkflowNode (wn_name w) (wn_version w) ts (wn_constraints w))
    ∧ NoDup (tn_id <$> ts)
    ∧ (∀ t, t ∈ ts ↔ last (filter (λ u, tn_id u = tn_id t) (wn_tasks w)) = Some t)
    ∧ (NoDup (tn_id <$> wn_tasks w) → ts ≡ₚ wn_tasks w)
    ∧ (acyclic_nodes (wn_tasks w) →
         ordered (nodes_by_id (wn_tasks w)) ts
         ∧ ∃ depth : string → Z,
             (∀ t, t ∈ ts → depth (tn_id t) = 1 + dep_depth depth t)
             ∧ StronglySorted (λ t u, depth (tn_id t) ≤ depth (tn_id u)) ts).
Proof.
  destruct (sortTasks_correct (wn_tasks w)) as (out & Hr & Hnd & Hin & Hord).
  exists (mergeParallelTasks out). unfold optimize. rewrite Hr. split; [done|].
  pose proof (mergeParallelTasks_perm out) as Hp. split; [by rewrite Hp|].
  split; [intros t; by rewrite Hp|]. split; [intros Hw; rewrite Hp; by apply sortTasks_perm|].
  intros Hac. specialize (Hord Hac).
  assert (∀ id, is_Some (map_get (nodes_by_id (wn_tasks w)) id) ↔ is_Some (map_get (nodes_by_id out) id)) as He.
  { intros id. rewrite (nodes_by_id_is_Some out), list_elem_of_fmap. split.
    - intros [t Ht]. destruct (nodes_by_id_in _ _ _ Ht) as [_ <-]. exists t. split; [done|].
      apply Hin. by rewrite <-nodes_by_id_get.
    - intros (t & -> & Ht). exists t. rewrite nodes_by_id_get. by apply Hin. }
  assert (ordered (nodes_by_id out) out) as Ho by by eapply ordered_ext.
  split.
  - eapply ordered_ext; [by symmetry; apply He|]. apply sorted_by_depth_ordered; [done|done|done|].
    apply mergeParallelTasks_sorted.
  - exists (depth_of out). split; [|apply mergeParallelTasks_sorted].
    intros t Ht. rewrite Hp in Ht. by apply depth_of_task.
Qed.

(** C17: the optimizer always ends and changes nothing but the list of tasks;
    the new list has, once each, the last task of every id, hence is a
    permutation of the old one when ids are distinct; when the dependencies
    have no cycle it is sorted by depth, where a task is one deeper than the
    deepest of its dependencies, and every task comes after those it depends on. *)
Theorem optimize_correct (w : WorkflowDslNode) :
  ∃ ts, optimize w = Ok (mkWorkflowNode (wn_name w) (wn_version w) ts (wn_constraints w))
    ∧ NoDup (tn_id <$> ts)
    ∧ (∀ t, t ∈ ts ↔ last (filter (λ u, tn_id u = tn_id t) (wn_tasks w)) = Some t)
    ∧ (NoDup (tn_id <$> wn_tasks w) → ts ≡ₚ wn_tasks w)
    ∧ (acyclic_nodes (wn_tasks w) →
         ordered (nodes_by_id (wn_tasks w)) ts
         ∧ ∃ depth : string → Z,
             (∀ t, t ∈ ts → depth (tn_id t) = 1 + dep_depth depth t)
             ∧ StronglySorted (λ t u, depth (tn_id t) ≤ depth (tn_id u)) ts).
Proof. apply optimize_ok. Qed.

(** ** Compiling and registering *)

(** A workflow the service registers under [jobId]. *)
Record workflow_sound (reg : HandlerRegistry) (jobId : option string) (wn : WorkflowDslNode) : Prop := {
  ws_id : default (to_lower (replace_spaces (wn_name wn) "_"%char)) jobId ≠ "";
  ws_name : wn_name wn ≠ "";
  ws_version : 0 < wn_version wn;
  ws_tasks : wn_tasks wn ≠ [];
  ws_unique : NoDup (tn_id <$> wn_tasks wn);
  ws_each : ∀ t, t ∈ wn_tasks wn → tn_id t ≠ "" ∧ tn_handler t ≠ "" ∧ 0 < tn_timeoutMs t
    ∧ (∃ m, get_handler reg (tn_handler t) = Some m ∧ 0 < hm_timeoutMs m)
    ∧ tn_dependsOn t ⊆ tn_id <$> wn_tasks wn;
  ws_acyclic : acyclic_nodes (wn_tasks wn);
}.

Definition registered_task (reg : HandlerRegistry) (t : TaskDslNode) : TaskDefinition :=
  resolve_task reg (task_of_node t).

Lemma registered_task_id reg t : td_id (registered_task reg t) = tn_id t.
Proof. apply resolve_task_id. Qed.

Lemma registered_task_deps reg t : deps (registered_task reg t) = tn_dependsOn t.
Proof. unfold registered_task. rewrite resolve_task_deps. unfold deps. simpl. by destruct (tn_dependsOn t). Qed.

Lemma registered_tasks_ids reg (ts : list TaskDslNode) : td_id <$> (registered_task reg <$> ts) = tn_id <$> ts.
Proof. rewrite <-list_fmap_compose. apply list_fmap_ext. intros i t _. apply registered_task_id. Qed.

(** Compiled and resolved, the tasks have the dependencies of the nodes. *)
Lemma registered_tasks_acyclic reg (ts tasks : list TaskDslNode) :
  NoDup (tn_id <$> tasks) → ts ≡ₚ tasks → acyclic_nodes tasks → acyclic (registered_task reg <$> ts).
Proof.
  intros Hnd Hp Hac id Hc. apply (Hac id). revert Hc. apply cyclic_ext. intros x.
  unfold dep_children. destruct (map_get (tasks_by_id _) x) as [t|] eqn:E.
  - apply tasks_by_id_in in E as [(u & -> & Hu)%list_elem_of_fmap <-]. rewrite Hp in Hu.
    unfold node_deps. rewrite registered_task_id, registered_task_deps, nodes_by_id_unique by done. done.
  - unfold node_deps. destruct (map_get (nodes_by_id tasks) x) as [u|] eqn:E'; [|done]. exfalso.
    apply nodes_by_id_in in E' as [Hu <-]. rewrite <-Hp in Hu.
    rewrite <-(registered_task_id reg u), tasks_by_id_unique in E; [done| |by apply list_elem_of_fmap_2].
    by rewrite registered_tasks_ids, Hp.
Qed.

Lemma registered_task_ok reg jobId wn (ts : list TaskDslNode) t :
  workflow_sound reg jobId wn → ts ≡ₚ wn_tasks wn → t ∈ ts →
  task_ok (tn_id <$> ts) (registered_task reg t) ∧ task_schema_ok (task_of_node t) = true.
Proof.
  intros Hs Hp Ht. assert (t ∈ wn_tasks wn) as Hw by by rewrite <-Hp.
  destruct (ws_each _ _ _ Hs t Hw) as (Hid & Hh & Hms & (m & Hm & Hmm) & Hd). split.
  - split.
    + unfold registered_task, resolve_task. simpl. rewrite Hm. case_match; simpl; lia.
    + rewrite registered_task_deps, registered_task_id. intros d Hin. rewrite Hp. split; [by apply Hd|].
      intros ->. apply (ws_acyclic _ _ _ Hs (tn_id t)). apply tc_once. unfold edge, node_deps.
      rewrite nodes_by_id_unique by (done || apply Hs). done.
  - unfold task_schema_ok. rewrite !andb_true_iff, !truthy_string_true, Z.ltb_lt. done.
Qed.

Section registration.
Context {JS WS RS : Type} `{JobDefinitionStoreLaws JS} `{!WorkflowStore WS} `{!WorkflowStoreLaws WS}
  `{!RunStore RS} `{!RunStoreLaws RS} `{Environment}.
Notation world := (world JS WS RS).

(** The definition [register] builds from the compiled tasks [ts]. *)
Lemma compiled_registered reg jobId wn ts now1 now2 :
  workflow_sound reg jobId wn → ts ≡ₚ wn_tasks wn →
  let i := input_of_definition (toJobDefinition now1
             (mkWorkflowNode (wn_name wn) (wn_version wn) ts (wn_constraints wn)) jobId) in
  jobDefinitionInputSchema_ok i = true ∧ registration_checks reg i (definition_of reg i (in_id i) now2) = Ok tt.
Proof.
  intros Hs Hp i. assert (resolveTasks reg (in_tasks i) = registered_task reg <$> ts) as Hts
    by (simpl; unfold resolveTasks; by rewrite <-list_fmap_compose).
  pose proof (registered_tasks_ids reg ts) as Hids. rewrite <-Hts in Hids.
  split.
  - unfold jobDefinitionInputSchema_ok. rewrite !andb_true_iff, !truthy_string_true, Z.ltb_lt, negb_true_iff,
      bool_decide_eq_false, forallb_forall. destruct Hs as [Hid Hn Hv Ht Hu He Ha] eqn:Es.
    repeat split; [done|done|done| |].
    + simpl. intros Hnil%fmap_nil_inv. apply Ht, Permutation_nil_r. by rewrite <-Hp, Hnil.
    + intros t. rewrite <-list_elem_of_In. intros (u & -> & Hin)%list_elem_of_fmap.
      by eapply registered_task_ok.
  - apply registration_checks_Ok. split; [|split].
    + simpl. intros t (u & -> & Hin)%list_elem_of_fmap. rewrite Hp in Hin.
      destruct (ws_each _ _ _ Hs u Hin) as (_ & _ & _ & (m & Hm & _) & _). by exists m.
    + split; simpl in *.
      * rewrite Hts. intros Hnil%fmap_nil_inv. apply (ws_tasks _ _ _ Hs), Permutation_nil_r. by rewrite <-Hp, Hnil.
      * rewrite Hids, Hp. apply Hs.
      * rewrite Hids, Hts. apply Forall_fmap, Forall_forall. intros t Ht. by eapply registered_task_ok.
      * done.
    + simpl. simpl in Hts. rewrite Hts. eapply registered_tasks_acyclic; [apply Hs|done|apply Hs].
Qed.

(** C16: compiling a sound workflow source registers it: the definition is
    stored, satisfies what registration promises, and its tasks are those of the
    source in a dependency order, each with the timeout its handler allows. *)
Theorem compileAndRegister_correct (zod_message : JobDefinitionInput → string) (reg : HandlerRegistry)
    (fuel : nat) (source : string) (jobId : option string) (wn : WorkflowDslNode) (w : world)
    (Hparse : dsl_parse fuel source = Ok wn) (Hs : workflow_sound reg jobId wn) :
  ∃ def ts w', compileAndRegister zod_message reg fuel source jobId w = (Ok def, w')
    ∧ job_get (jd_id def) (w_jobs w') = Some def ∧ registered reg def
    ∧ tasks def = registered_task reg <$> ts ∧ ts ≡ₚ wn_tasks wn
    ∧ ordered (nodes_by_id (wn_tasks wn)) ts
    ∧ constraints def = constraint_of_node <$> wn_constraints wn.
Proof.
  destruct (optimize_ok wn) as (ts & Hopt & _ & _ & Hp & Hord).
  specialize (Hp (ws_unique _ _ _ Hs)). destruct (Hord (ws_acyclic _ _ _ Hs)) as [Ho _].
  set (now1 := nowIso (w_ticks w)). set (w1 := with_ticks (S (w_ticks w)) w).
  set (i := input_of_definition (toJobDefinition now1
             (mkWorkflowNode (wn_name wn) (wn_version wn) ts (wn_constraints wn)) jobId)).
  destruct (compiled_registered reg jobId wn ts now1 (nowIso (w_ticks w1)) Hs Hp) as [Hschema Hc]. fold i in Hschema, Hc.
  assert (compileAndRegister zod_message reg fuel source jobId w = register zod_message reg i w1) as Heq.
  { unfold compileAndRegister. rewrite (M_bind_eq_Ok _ _ w now1 w1) by done.
    rewrite (M_bind_eq_Ok _ _ w1 (toJobDefinition now1
             (mkWorkflowNode (wn_name wn) (wn_version wn) ts (wn_constraints wn)) jobId) w1); [done|].
    unfold lift_outcome, compile. rewrite Hparse. cbn [mbind outcome_bind]. by rewrite Hopt. }
  pose proof (proj1 (checks_registered reg i (in_id i) (nowIso (w_ticks w1)) Hschema) Hc) as Hrg.
  rewrite Heq, register_eq, Hschema. cbv zeta. rewrite Hc. eexists _, ts, _. split; [reflexivity|].
  split; [by simpl; rewrite job_get_save, decide_True|]. split; [exact Hrg|].
  split; [by simpl; unfold resolveTasks; rewrite <-list_fmap_compose|]. done.
Qed.
End registration.

(** ** Examples *)

Definition example_node : WorkflowDslNode :=
  mkWorkflowNode "MonthEnd" 1
    [mkTaskNode "post" "invoice.post_gl" 5000 ["validate"; "fetch"] false;
     mkTaskNode "audit" "invoice.validate" 500 ["fetch"] true;
     mkTaskNode "fetch" "invoice.fetch" 30000 [] false;
     mkTaskNode "validate" "invoice.validate" 1000 ["fetch"] false] [].

Lemma example_node_acyclic : acyclic_nodes (wn_tasks example_node).
Proof. apply acyclic_nodes_search. eexists. vm_compute. reflexivity. Qed.

Example optimize_example :
  ∃ w, optimize example_node = Ok w ∧ tn_id <$> wn_tasks w = ["fetch"; "validate"; "audit"; "post"].
Proof. eexists. split; vm_compute; reflexivity. Qed.

(** Of two tasks with one id only the second is compiled. *)
Example optimize_drops_duplicate :
  let a h := mkTaskNode "a" h 1 [] false in
  optimize (mkWorkflowNode "w" 1 [a "invoice.fetch"; a "invoice.validate"] [])
  = Ok (mkWorkflowNode "w" 1 [a "invoice.validate"] []).
Proof. vm_compute. reflexivity. Qed.

Lemma optimize_correct_witness :
  NoDup (tn_id <$> wn_tasks example_node) ∧ acyclic_nodes (wn_tasks example_node)
  ∧ ∃ ts, ts ≡ₚ wn_tasks example_node ∧ ordered (nodes_by_id (wn_tasks example_node)) ts.
Proof.
  assert (NoDup (tn_id <$> wn_tasks example_node)) as Hnd by (apply (bool_decide_unpack _); vm_compute; exact I).
  split; [exact Hnd|]. split; [exact example_node_acyclic|].
  destruct (optimize_correct example_node) as (ts & _ & _ & _ & Hp & Ho). exists ts.
  split; [exact (Hp Hnd)|]. apply Ho, example_node_acyclic.
Defined.

Definition example_text : string :=
  "workflow MonthEnd : { version: 1
   task post: { handler: 'invoice.post_gl' timeout: 5000 depends: [fetch] }
   task fetch: { handler: 'invoice.fetch' } }".

Definition example_ast : WorkflowDslNode :=
  mkWorkflowNode "MonthEnd" 1
    [mkTaskNode "post" "invoice.post_gl" 5000 ["fetch"] false;
     mkTaskNode "fetch" "invoice.fetch" 30000 [] false] [].

Lemma example_ast_sound : workflow_sound new_handler_registry None example_ast.
Proof.
  split; [done|done|done|done| | |].
  - apply (bool_decide_unpack _). vm_compute. exact I.
  - intros t Ht. apply list_elem_of_In in Ht. destruct Ht as [<-|[<-|[]]]; simpl;
      (split; [done|]; split; [done|]; split; [done|]; split; [eexists; split; [vm_compute; reflexivity|done]|set_solver]).
  - apply acyclic_nodes_search. eexists. vm_compute. reflexivity.
Qed.

Section witnesses.
#[local] Instance compiler_environment : Environment := scripted (λ _, true).

Lemma compileAndRegister_correct_witness :
  ∃ def ts (w' : demo_world), compileAndRegister (λ _, "invalid") new_handler_registry 100 example_text None
      (demo_empty : demo_world) = (Ok def, w')
    ∧ job_get (jd_id def) (w_jobs w') = Some def
    ∧ tasks def = registered_task new_handler_registry <$> ts ∧ length ts = 2%nat.
Proof.
  assert (dsl_parse 100 example_text = Ok example_ast) as Hparse by (vm_compute; reflexivity).
  destruct (compileAndRegister_correct (λ _, "invalid") new_handler_registry 100 example_text None example_ast
    (demo_empty : demo_world) Hparse example_ast_sound) as (def & ts & w' & Hr & Hget & _ & Hts & Hp & _).
  exists def, ts, w'. split; [exact Hr|]. split; [exact Hget|]. split; [exact Hts|]. by rewrite Hp.
Defined.
End witnesses.
