(* ===== verification/Saga.v ===== *)
(** * Sagas (saga/saga-types.ts, saga/compensation-stack.ts, saga/saga-coordinator.ts)

    A saga runs its steps forward and, when one fails, compensates the completed
    ones in reverse order.  The step states of an instance are shared objects:
    the stack of completed steps holds references to them, here their indices in
    [instance.steps].  The handlers of the registry are arbitrary: the [k]-th
    execution gets the [k]-th answer. *)

From S2P Require Import Prelude JsMap JsString JsNum DomainTypes JsValue Domain Engine.
Open Scope Z_scope.

(** ** Data *)

Inductive SagaStepStatus : Type :=
| StepPending | StepRunning | StepCompleted | StepFailed | StepCompensating | StepCompensated.

Record SagaStepDefinition : Type := mkStepDef {
  sd_id : string;
  sd_name : string;
  forward : string;
  compensate : option string;
  sd_timeoutMs : Z;
}.

Record SagaStepState : Type := mkStepState {
  stepId : string;
  st_status : SagaStepStatus;
  st_attempt : Z;
  st_output : option jsrecord;
  st_error : option string;
  st_startedAt : option string;
  st_finishedAt : option string;
}.

Inductive SagaStatus : Type := SagaActive | SagaCompleted | SagaFailed | SagaCompensated.

Record SagaInstance : Type := mkSaga {
  sg_id : string;
  sg_runId : string;
  definitionId : string;
  steps : list SagaStepState;
  sg_status : SagaStatus;
  sg_createdAt : string;
  sg_updatedAt : string;
}.

Record SagaDefinition : Type := mkSagaDef {
  sdef_id : string;
  sdef_name : string;
  sdef_steps : list SagaStepDefinition;
}.

(** What [handler.execute] answers: a result or an exception. *)
Record HandlerResult : Type := mkHandlerResult { success : bool; hr_output : jsrecord }.

(** ** Field assignments *)

Definition set_step_status (x : SagaStepStatus) (s : SagaStepState) : SagaStepState :=
  mkStepState (stepId s) x (st_attempt s) (st_output s) (st_error s) (st_startedAt s) (st_finishedAt s).

Definition begin_step (at_ : string) (s : SagaStepState) : SagaStepState :=
  mkStepState (stepId s) StepRunning (st_attempt s + 1) (st_output s) (st_error s) (Some at_) (st_finishedAt s).

Definition fail_step (message : string) (s : SagaStepState) : SagaStepState :=
  mkStepState (stepId s) StepFailed (st_attempt s) (st_output s) (Some message) (st_startedAt s) (st_finishedAt s).

Definition complete_step (out : jsrecord) (at_ : string) (s : SagaStepState) : SagaStepState :=
  mkStepState (stepId s) StepCompleted (st_attempt s) (Some out) (st_error s) (st_startedAt s) (Some at_).

Definition set_steps (ss : list SagaStepState) (i : SagaInstance) : SagaInstance :=
  mkSaga (sg_id i) (sg_runId i) (definitionId i) ss (sg_status i) (sg_createdAt i) (sg_updatedAt i).

Definition set_saga_status (x : SagaStatus) (i : SagaInstance) : SagaInstance :=
  mkSaga (sg_id i) (sg_runId i) (definitionId i) (steps i) x (sg_createdAt i) (sg_updatedAt i).

Definition set_saga_updatedAt (at_ : string) (i : SagaInstance) : SagaInstance :=
  mkSaga (sg_id i) (sg_runId i) (definitionId i) (steps i) (sg_status i) (sg_createdAt i) at_.

(** ** The stack of completed steps

    [stack.push] keeps a step only when it is completed; [toCompensateOrder]
    reverses a copy. *)

Definition stack_push (ss : list SagaStepState) (i : nat) (stack : list nat) : list nat :=
  match ss !! i with
  | Some s => match st_status s with StepCompleted => stack ++ [i] | _ => stack end
  | None => stack
  end.
Definition stack_pop (stack : list nat) : option nat * list nat :=
  match rev stack with [] => (None, []) | x :: r => (Some x, rev r) end.
Definition stack_peek (stack : list nat) : option nat := last stack.
Definition stack_size (stack : list nat) : nat := length stack.
Definition toCompensateOrder (stack : list nat) : list nat := rev stack.

(** ** The coordinator *)

Section coordinator.
Variable registry : list string.
Variable execute : nat → string → HandlerContext → HandlerResult + JsError.
Variable clock : nat → string.
Variable uuid : nat → string.

Record SagaWorld : Type := mkSagaWorld {
  instances : jsmap string SagaInstance;
  definitions : jsmap string SagaDefinition;
  sw_ticks : nat;
  sw_uuids : nat;
  executions : list (string * string);
  compensation_errors : list string;
}.

Notation saga := (M JsError SagaWorld).

Definition saga_now : saga string := λ w,
  (Ok (clock (sw_ticks w)),
   mkSagaWorld (instances w) (definitions w) (S (sw_ticks w)) (sw_uuids w) (executions w) (compensation_errors w)).

Definition saga_run_id : saga string := λ w,
  (Ok ("run_" +:+ slice_to (uuid (sw_uuids w)) 12),
   mkSagaWorld (instances w) (definitions w) (sw_ticks w) (S (sw_uuids w)) (executions w) (compensation_errors w)).

Definition store_instance (i : SagaInstance) : saga unit := modify (λ w,
  mkSagaWorld (map_set (instances w) (sg_id i) i) (definitions w) (sw_ticks w) (sw_uuids w) (executions w)
    (compensation_errors w)).

Definition registerDefinition (d : SagaDefinition) : saga unit := modify (λ w,
  mkSagaWorld (instances w) (map_set (definitions w) (sdef_id d) d) (sw_ticks w) (sw_uuids w) (executions w)
    (compensation_errors w)).

(** [handler.execute(ctx, task)]; the handler and the task id are recorded. *)
Definition call_handler (name : string) (ctx : HandlerContext) : saga (HandlerResult + JsError) := λ w,
  (Ok (execute (length (executions w)) name ctx),
   mkSagaWorld (instances w) (definitions w) (sw_ticks w) (sw_uuids w) (executions w ++ [(name, hc_taskId ctx)])
     (compensation_errors w)).

Definition log_compensation_error (id : string) : saga unit := modify (λ w,
  mkSagaWorld (instances w) (definitions w) (sw_ticks w) (sw_uuids w) (executions w) (compensation_errors w ++ [id])).

Definition handler_known (name : string) : bool := bool_decide (name ∈ registry).

Definition persist (i : SagaInstance) : saga SagaInstance :=
  at_ ← saga_now;
  let i := set_saga_updatedAt at_ i in
  _ ← store_instance i;
  mret i.

Definition update_step (k : nat) (f : SagaStepState → SagaStepState) (i : SagaInstance) : SagaInstance :=
  set_steps (alter f k (steps i)) i.

(** The index [instance.steps.find] finds. *)
Definition find_step (id : string) (ss : list SagaStepState) : option nat :=
  fst <$> list_find (λ s, stepId s = id) ss.

(** One round of the loop of [compensate], on the completed step number [c]. *)
Definition compensate_one (def : SagaDefinition) (inst : SagaInstance) (c : nat) : saga SagaInstance :=
  match steps inst !! c with
  | None => mret inst
  | Some completed =>
      match List.find (λ s, bool_decide (sd_id s = stepId completed)) (sdef_steps def) with
      | None => mret inst
      | Some stepDef =>
          if negb (truthy_opt (compensate stepDef)) then mret inst
          else
            let name := default "" (compensate stepDef) in
            match find_step (stepId completed) (steps inst) with
            | Some k =>
                if negb (handler_known name) then mret inst
                else
                  let inst := update_step k (set_step_status StepCompensating) inst in
                  r ← call_handler name
                        (mkHandlerContext (sg_runId inst) (sd_id stepDef) (default [] (st_output completed)) []);
                  match r with
                  | inl _ => mret (update_step k (set_step_status StepCompensated) inst)
                  | inr _ => _ ← log_compensation_error (sd_id stepDef); mret inst
                  end
            | None => mret inst
            end
      end
  end.

Fixpoint compensate_all (def : SagaDefinition) (inst : SagaInstance) (order : list nat) : saga SagaInstance :=
  match order with
  | [] => mret inst
  | c :: order' => inst' ← compensate_one def inst c; compensate_all def inst' order'
  end.

Definition compensate_saga (inst : SagaInstance) (def : SagaDefinition) (stack : list nat) : saga SagaInstance :=
  inst ← compensate_all def inst (toCompensateOrder stack);
  mret (set_saga_status SagaCompensated inst).

(** The failure branches of [executeForward]. *)
Definition fail_forward (def : SagaDefinition) (inst : SagaInstance) (k : nat) (message : string) (stack : list nat)
    : saga SagaInstance :=
  inst ← compensate_saga (set_saga_status SagaFailed (update_step k (fail_step message) inst)) def stack;
  persist inst.

(** [String(result.output?.error ?? 'step failed')]; an exception of the
    conversion is caught like one of the handler. *)
Definition failure_message (out : jsrecord) : string :=
  let v := get_property (JObj 0 out) "error" in
  if is_nullish v then "step failed"
  else match to_string v with Ok s => s | Throw e => error_message e | OutOfFuel => "" end.

Fixpoint forward_loop (def : SagaDefinition) (input : jsrecord) (todo : list SagaStepDefinition) (k : nat)
    (inst : SagaInstance) (stack : list nat) (prior : list (string * jsrecord)) : saga SagaInstance :=
  match todo with
  | [] => persist (set_saga_status SagaCompleted inst)
  | stepDef :: rest =>
      match steps inst !! k with
      | None => throw (TypeError "Cannot set properties of undefined (setting 'status')")
      | Some _ =>
          at_ ← saga_now;
          let inst := update_step k (begin_step at_) inst in
          if negb (handler_known (forward stepDef))
          then fail_forward def inst k ("no handler for " +:+ forward stepDef) stack
          else
            r ← call_handler (forward stepDef) (mkHandlerContext (sg_runId inst) (sd_id stepDef) input prior);
            match r with
            | inr e => fail_forward def inst k (error_message e) stack
            | inl res =>
                if negb (success res) then fail_forward def inst k (failure_message (hr_output res)) stack
                else
                  done_at ← saga_now;
                  let inst := update_step k (complete_step (hr_output res) done_at) inst in
                  forward_loop def input rest (S k) inst (stack_push (steps inst) k stack)
                    (map_set prior (sd_id stepDef) (hr_output res))
            end
      end
  end.

Definition executeForward (inst : SagaInstance) (def : SagaDefinition) (input : jsrecord) : saga SagaInstance :=
  forward_loop def input (sdef_steps def) 0 inst [] [].

Definition initial_step (s : SagaStepDefinition) : SagaStepState :=
  mkStepState (sd_id s) StepPending 0 None None None None.

Definition start_saga (definitionId : string) (input : jsrecord) : saga SagaInstance :=
  found ← gets (λ w, map_get (definitions w) definitionId);
  match found with
  | None => throw (PlainError ("unknown saga definition: " +:+ definitionId))
  | Some def =>
      runId ← saga_run_id;
      created ← saga_now;
      updated ← saga_now;
      let inst := mkSaga ("saga_" +:+ runId) runId definitionId (initial_step <$> sdef_steps def) SagaActive
        created updated in
      _ ← store_instance inst;
      executeForward inst def input
  end.

Definition get_saga (id : string) : saga (option SagaInstance) := gets (λ w, map_get (instances w) id).

(** ** Specification *)

Definition comp_name (d : SagaStepDefinition) : string := default "" (compensate d).

(** The step has a compensation that can be called. *)
Definition compensable (d : SagaStepDefinition) : bool := truthy_opt (compensate d) && handler_known (comp_name d).

(** A completed step after the compensation: its handler may have thrown. *)
Definition compensated_from (d : SagaStepDefinition) (s s' : SagaStepState) : Prop :=
  if compensable d
  then s' = set_step_status StepCompensated s ∨ s' = set_step_status StepCompensating s
  else s' = s.

Definition forward_call (d : SagaStepDefinition) : string * string := (forward d, sd_id d).
Definition compensation_call (d : SagaStepDefinition) : list (string * string) :=
  if compensable d then [(comp_name d, sd_id d)] else [].

(** The calls of a saga that fails at step [k]: forward up to that step, then the
    compensations of the steps before it, the last one first. *)
Definition failing_calls (def : SagaDefinition) (k : nat) : list (string * string) :=
  (forward_call <$> take k (sdef_steps def))
  ++ (match sdef_steps def !! k with
      | Some d => if handler_known (forward d) then [forward_call d] else []
      | None => []
      end)
  ++ (rev (take k (sdef_steps def)) ≫= compensation_call).

(** How a saga ends. *)
Inductive saga_end (def : SagaDefinition) (inst : SagaInstance) (calls : list (string * string)) : Prop :=
| saga_all_done :
    sg_status inst = SagaCompleted → Forall (λ s, st_status s = StepCompleted) (steps inst) →
    calls = forward_call <$> sdef_steps def → saga_end def inst calls
| saga_rolled_back k failed :
    sg_status inst = SagaCompensated →
    steps inst !! k = Some failed → st_status failed = StepFailed → is_Some (st_error failed) →
    (∀ j d, (j < k)%nat → sdef_steps def !! j = Some d → ∃ s s', st_status s = StepCompleted
       ∧ compensated_from d s s' ∧ steps inst !! j = Some s') →
    (∀ j d, (k < j)%nat → sdef_steps def !! j = Some d → steps inst !! j = Some (initial_step d)) →
    calls = failing_calls def k → saga_end def inst calls.

(** ** Lemmas *)

Definition ids_match (def : SagaDefinition) (inst : SagaInstance) : Prop :=
  stepId <$> steps inst = sd_id <$> sdef_steps def.

Definition same_saga (i i' : SagaInstance) : Prop :=
  sg_id i' = sg_id i ∧ sg_status i' = sg_status i ∧ sg_runId i' = sg_runId i.

Lemma steps_set_status x inst : steps (set_saga_status x inst) = steps inst.
Proof. done. Qed.

Lemma update_step_ids k f inst :
  (∀ s, stepId (f s) = stepId s) → stepId <$> steps (update_step k f inst) = stepId <$> steps inst.
Proof.
  intros Hf. apply list_eq. intros j. simpl. rewrite !list_lookup_fmap.
  destruct (decide (j = k)) as [->|Hne].
  - rewrite list_lookup_alter_eq. destruct (steps inst !! k) as [s|]; [|done]. cbn. f_equal. apply Hf.
  - rewrite list_lookup_alter_ne by done. done.
Qed.

Lemma ids_match_lookup def inst j d :
  ids_match def inst → sdef_steps def !! j = Some d → ∃ s, steps inst !! j = Some s ∧ stepId s = sd_id d.
Proof.
  intros Hm Hd. apply (f_equal (λ l, l !! j)) in Hm. rewrite !list_lookup_fmap, Hd in Hm.
  destruct (steps inst !! j) as [s|]; [|done]. injection Hm as Hm. by exists s.
Qed.

Lemma find_step_unique def inst j d :
  ids_match def inst → NoDup (sd_id <$> sdef_steps def) → sdef_steps def !! j = Some d →
  find_step (sd_id d) (steps inst) = Some j.
Proof.
  intros Hm Hnd Hd. destruct (ids_match_lookup def inst j d Hm Hd) as (s & Hs & Hid).
  unfold find_step. destruct (list_find (λ s, stepId s = sd_id d) (steps inst)) as [[k s']|] eqn:E.
  - apply list_find_Some in E as (Hk & Hk' & _). simpl. f_equal.
    unfold ids_match in Hm. rewrite <-Hm in Hnd. eapply (NoDup_lookup _ _ _ (sd_id d) Hnd); rewrite list_lookup_fmap.
    + by rewrite Hk, <-Hk'.
    + by rewrite Hs, <-Hid.
  - apply list_find_None in E. rewrite Forall_forall in E. destruct (E s); [by eapply list_elem_of_lookup_2|done].
Qed.

Lemma find_def_unique def j d :
  NoDup (sd_id <$> sdef_steps def) → sdef_steps def !! j = Some d →
  List.find (λ s, bool_decide (sd_id s = sd_id d)) (sdef_steps def) = Some d.
Proof.
  intros Hnd Hd. apply list_elem_of_lookup_2 in Hd. clear j. induction (sdef_steps def) as [|d' ds IH].
  - by apply elem_of_nil in Hd.
  - apply NoDup_cons in Hnd as [Hn Hnd]. cbn [List.find]. case_bool_decide as He.
    + apply elem_of_cons in Hd as [->|Hd]; [done|]. destruct Hn. rewrite He. by apply list_elem_of_fmap_2.
    + apply elem_of_cons in Hd as [->|Hd]; [done|]. by apply IH.
Qed.

Lemma persist_eq i w :
  let i' := set_saga_updatedAt (clock (sw_ticks w)) i in
  persist i w = (Ok i', mkSagaWorld (map_set (instances w) (sg_id i) i') (definitions w) (S (sw_ticks w))
    (sw_uuids w) (executions w) (compensation_errors w)).
Proof. done. Qed.

Section with_definition.
Context (def : SagaDefinition) (Hnd : NoDup (sd_id <$> sdef_steps def)).

Lemma compensate_one_spec inst j d s w :
  ids_match def inst → sdef_steps def !! j = Some d → steps inst !! j = Some s →
  ∃ inst' w', compensate_one def inst j w = (Ok inst', w')
    ∧ ids_match def inst' ∧ same_saga inst inst'
    ∧ (∀ i, i ≠ j → steps inst' !! i = steps inst !! i)
    ∧ (∃ s', steps inst' !! j = Some s' ∧ compensated_from d s s')
    ∧ executions w' = executions w ++ compensation_call d ∧ instances w' = instances w.
Proof.
  intros Hm Hd Hs. destruct (ids_match_lookup def inst j d Hm Hd) as (s0 & Hs0 & Hid).
  assert (s0 = s) as -> by congruence. clear Hs0.
  unfold compensate_one, compensated_from, compensation_call, compensable. rewrite Hs, Hid.
  rewrite (find_def_unique def j d Hnd Hd). fold (comp_name d).
  destruct (truthy_opt (compensate d)); cbn [negb andb];
    [|exists inst, w; rewrite app_nil_r; repeat split; eauto].
  rewrite (find_step_unique def inst j d Hm Hnd Hd).
  destruct (handler_known (comp_name d)); cbn [negb]; [|exists inst, w; rewrite app_nil_r; repeat split; eauto].
  set (i1 := update_step j (set_step_status StepCompensating) inst).
  set (ctx := mkHandlerContext _ _ _ _).
  set (w1 := mkSagaWorld (instances w) (definitions w) (sw_ticks w) (sw_uuids w)
    (executions w ++ [(comp_name d, sd_id d)]) (compensation_errors w)).
  rewrite (M_bind_eq_Ok _ _ w (execute (length (executions w)) (comp_name d) ctx) w1) by done.
  destruct (execute _ _ _) as [r|e].
  - eexists _, w1. split; [reflexivity|]. split; [|split; [done|split; [|split; [|done]]]].
    + unfold ids_match, i1. by rewrite !update_step_ids.
    + intros i Hi. simpl. by rewrite !list_lookup_alter_ne.
    + exists (set_step_status StepCompensated s). split; [|by left]. simpl.
      rewrite !list_lookup_alter_eq, Hs. done.
  - eexists i1, _. split; [reflexivity|]. split; [|split; [done|split; [|split; [|done]]]].
    + unfold ids_match, i1. by rewrite update_step_ids.
    + intros i Hi. simpl. rewrite list_lookup_alter_ne by done. done.
    + exists (set_step_status StepCompensating s). split; [|by right]. simpl. by rewrite list_lookup_alter_eq, Hs.
Qed.

Definition calls_of (order : list nat) : list (string * string) :=
  order ≫= λ j, from_option compensation_call [] (sdef_steps def !! j).

Lemma compensate_all_spec order inst w :
  ids_match def inst → NoDup order → (∀ j, j ∈ order → is_Some (sdef_steps def !! j)) →
  ∃ inst' w', compensate_all def inst order w = (Ok inst', w')
    ∧ ids_match def inst' ∧ same_saga inst inst'
    ∧ (∀ i, i ∉ order → steps inst' !! i = steps inst !! i)
    ∧ (∀ j d s, j ∈ order → sdef_steps def !! j = Some d → steps inst !! j = Some s →
         ∃ s', steps inst' !! j = Some s' ∧ compensated_from d s s')
    ∧ executions w' = executions w ++ calls_of order ∧ instances w' = instances w.
Proof.
  revert inst w. induction order as [|j order IH]; intros inst w Hm Ho Hin.
  { exists inst, w. rewrite app_nil_r. repeat split; [done|]. intros j d s Hj. by apply elem_of_nil in Hj. }
  apply NoDup_cons in Ho as [Hj Ho]. destruct (Hin j) as [d Hd]; [by left|].
  destruct (ids_match_lookup def inst j d Hm Hd) as (s & Hs & _). cbn [compensate_all].
  destruct (compensate_one_spec inst j d s w Hm Hd Hs)
    as (i1 & w1 & Hc & Hm1 & (Hsid & Hss & Hsr) & Hoth & Hs1 & He1 & Hin1).
  rewrite (M_bind_eq_Ok _ _ _ _ _ Hc).
  destruct (IH i1 w1 Hm1 Ho) as (i2 & w2 & Hr & Hm2 & (Hsid2 & Hss2 & Hsr2) & Hoth2 & Hs2 & He2 & Hin2);
    [intros k Hk; apply Hin; by right|].
  exists i2, w2. split; [done|]. split; [done|]. split; [unfold same_saga; split_and!; congruence|].
  split; [|split; [|split; [|congruence]]].
  - intros i [Hne Hni]%not_elem_of_cons. by rewrite Hoth2, Hoth.
  - intros k d' s' Hk Hd' Hs'. apply elem_of_cons in Hk as [->|Hk].
    + destruct Hs1 as (s1 & Hs1 & Hcf). exists s1. rewrite Hoth2 by done. split; [done|].
      by simplify_eq.
    + apply (Hs2 k d' s' Hk Hd'). rewrite Hoth; [done|]. by intros ->.
  - rewrite He2, He1, <-app_assoc. unfold calls_of. rewrite bind_cons, Hd. done.
Qed.

Lemma calls_of_seq k :
  (k ≤ length (sdef_steps def))%nat →
  calls_of (rev (seq 0 k)) = rev (take k (sdef_steps def)) ≫= compensation_call.
Proof.
  induction k as [|k IH]; intros Hk; [done|].
  destruct (lookup_lt_is_Some_2 (sdef_steps def) k) as [d Hd]; [lia|].
  rewrite seq_S, (take_S_r _ _ _ Hd), !rev_app_distr. cbn [rev app plus]. unfold calls_of in *.
  rewrite !bind_cons, Hd, <-IH by lia. done.
Qed.

(** The forward pass before step [k]. *)
Record forward_inv (k : nat) (inst : SagaInstance) (stack : list nat) : Prop := {
  fi_ids : ids_match def inst;
  fi_done : ∀ j d, (j < k)%nat → sdef_steps def !! j = Some d →
    ∃ s, steps inst !! j = Some s ∧ st_status s = StepCompleted;
  fi_ahead : ∀ j d, (k ≤ j)%nat → sdef_steps def !! j = Some d → steps inst !! j = Some (initial_step d);
  fi_stack : stack = seq 0 k;
}.

(** The failure branches, once step [k] has begun. *)
Lemma fail_forward_spec k d inst stack message at_ w calls :
  forward_inv k inst stack → sdef_steps def !! k = Some d →
  (forward_call <$> take k (sdef_steps def)) ++ (if handler_known (forward d) then [forward_call d] else []) = calls →
  ∃ inst' w', fail_forward def (update_step k (begin_step at_) inst) k message stack w = (Ok inst', w')
    ∧ map_get (instances w') (sg_id inst) = Some inst' ∧ sg_id inst' = sg_id inst
    ∧ (∀ c0, executions w = c0 ++ calls → ∃ cs, executions w' = c0 ++ cs ∧ saga_end def inst' cs).
Proof.
  intros [Hm Hdone Hahead ->] Hd Hcalls. unfold fail_forward.
  set (i1 := set_saga_status SagaFailed _).
  assert (ids_match def i1) as Hm1 by (unfold ids_match, i1; rewrite steps_set_status; by rewrite !update_step_ids).
  assert (∀ j, j ≠ k → steps i1 !! j = steps inst !! j) as Hoth.
  { intros j Hj. unfold i1. simpl. by rewrite !list_lookup_alter_ne. }
  assert (k < length (sdef_steps def))%nat as Hk by by eapply lookup_lt_Some.
  destruct (compensate_all_spec (rev (seq 0 k)) i1 w Hm1) as (i2 & w2 & Hc & Hm2 & (Hsid & Hst & Hrid) & Hoth2 & Hcomp & He & Hins).
  { apply NoDup_ListNoDup, NoDup_rev, NoDup_ListNoDup, NoDup_seq. }
  { intros j Hj. apply lookup_lt_is_Some_2. apply list_elem_of_In, in_rev, in_seq in Hj. lia. }
  set (i3 := set_saga_status SagaCompensated i2).
  assert (compensate_saga i1 def (seq 0 k) w = (Ok i3, w2)) as Hcs.
  { unfold compensate_saga, toCompensateOrder. by rewrite (M_bind_eq_Ok _ _ _ _ _ Hc). }
  rewrite (M_bind_eq_Ok _ _ _ _ _ Hcs), persist_eq.
  eexists _, _. split; [reflexivity|]. simpl. rewrite Hsid. split; [apply map_get_set_eq|]. split; [done|].
  intros c0 Hw. eexists. rewrite He, Hw, <-app_assoc. split; [reflexivity|].
  assert (∀ j, j ∉ rev (seq 0 k) ↔ (k ≤ j)%nat) as Hnotin.
  { intros j. rewrite list_elem_of_In, <-in_rev, in_seq. lia. }
  apply (saga_rolled_back _ _ _ k (fail_step message (begin_step at_ (initial_step d)))).
  - done.
  - simpl. rewrite Hoth2 by (by apply Hnotin). unfold i1. simpl.
    rewrite !list_lookup_alter_eq, (Hahead k d) by done. done.
  - done.
  - by eexists.
  - intros j d' Hj Hd'. destruct (Hdone j d' Hj Hd') as (s & Hs & Hst').
    destruct (Hcomp j d' s) as (s' & Hs' & Hcf); [apply list_elem_of_In; rewrite <-in_rev; apply in_seq; lia|done|by rewrite Hoth by lia|].
    exists s, s'. done.
  - intros j d' Hj Hd'. simpl. rewrite Hoth2 by (apply Hnotin; lia). rewrite Hoth by lia. apply Hahead; [lia|done].
  - unfold failing_calls. rewrite Hd, <-Hcalls, <-app_assoc, calls_of_seq by lia. done.
Qed.

Lemma forward_loop_spec todo k inst stack input prior w c0 :
  forward_inv k inst stack → todo = drop k (sdef_steps def) → (k ≤ length (sdef_steps def))%nat →
  executions w = c0 ++ (forward_call <$> take k (sdef_steps def)) →
  ∃ inst' w' cs, forward_loop def input todo k inst stack prior w = (Ok inst', w')
    ∧ map_get (instances w') (sg_id inst) = Some inst' ∧ sg_id inst' = sg_id inst
    ∧ executions w' = c0 ++ cs ∧ saga_end def inst' cs.
Proof.
  revert k inst stack prior w. induction todo as [|d todo IH]; intros k inst stack prior w Hinv Htodo Hk Hw.
  - assert (k = length (sdef_steps def)) as Hke.
    { apply (f_equal length) in Htodo. rewrite length_drop in Htodo. simpl in Htodo. lia. }
    cbn [forward_loop]. rewrite persist_eq. eexists _, _, _. split; [reflexivity|]. simpl. split; [apply map_get_set_eq|].
    split; [done|]. split; [exact Hw|]. destruct Hinv as [Hm Hdone _ _].
    apply saga_all_done; [done| |by rewrite Hke, firstn_all]. simpl. apply Forall_lookup. intros j s Hs.
    assert (is_Some (sdef_steps def !! j)) as [d Hd].
    { apply lookup_lt_is_Some_2. apply (f_equal length) in Hm. rewrite !length_fmap in Hm. rewrite <-Hm. by eapply lookup_lt_Some. }
    destruct (Hdone j d) as (s' & Hs' & Hc); [apply lookup_lt_Some in Hd; lia|done|]. by simplify_eq.
  - assert (sdef_steps def !! k = Some d ∧ todo = drop (S k) (sdef_steps def)) as [Hd Htodo'].
    { pose proof (f_equal (λ l, l !! 0%nat) Htodo) as H0. simpl in H0. rewrite lookup_drop, Nat.add_0_r in H0.
      split; [done|]. by apply (f_equal (drop 1)) in Htodo; rewrite drop_drop, Nat.add_1_r in Htodo. }
    assert (k < length (sdef_steps def))%nat as Hlt by by eapply lookup_lt_Some.
    cbn [forward_loop]. rewrite (fi_ahead _ _ _ Hinv k d) by done.
    set (w1 := mkSagaWorld (instances w) (definitions w) (S (sw_ticks w)) (sw_uuids w) (executions w) (compensation_errors w)).
    rewrite (M_bind_eq_Ok _ _ w (clock (sw_ticks w)) w1) by done.
    set (at_ := clock (sw_ticks w)).
    destruct (handler_known (forward d)) eqn:Hkn; cbn [negb].
    2: { destruct (fail_forward_spec k d inst stack ("no handler for " +:+ forward d) at_ w1 _ Hinv Hd eq_refl)
           as (inst' & w' & Hf & Hg & Hid & Hcs).
         destruct (Hcs c0) as (cs & He & Hend); [by rewrite Hkn, app_nil_r|]. by exists inst', w', cs. }
    set (ctx := mkHandlerContext _ _ _ _).
    set (w2 := mkSagaWorld (instances w) (definitions w) (S (sw_ticks w)) (sw_uuids w)
      (executions w ++ [forward_call d]) (compensation_errors w)).
    rewrite (M_bind_eq_Ok _ _ w1 (execute (length (executions w)) (forward d) ctx) w2) by done.
    assert (∀ message, ∃ inst' w' cs, fail_forward def (update_step k (begin_step at_) inst) k message stack w2 = (Ok inst', w')
      ∧ map_get (instances w') (sg_id inst) = Some inst' ∧ sg_id inst' = sg_id inst
      ∧ executions w' = c0 ++ cs ∧ saga_end def inst' cs) as Hfail.
    { intros message. destruct (fail_forward_spec k d inst stack message at_ w2 _ Hinv Hd eq_refl)
        as (inst' & w' & Hf & Hg & Hid & Hcs).
      destruct (Hcs c0) as (cs & He & Hend); [simpl; by rewrite Hkn, Hw, app_assoc|]. by exists inst', w', cs. }
    destruct (execute _ _ _) as [r|e]; [|apply Hfail]. destruct (success r); cbn [negb]; [|apply Hfail].
    set (w3 := mkSagaWorld (instances w2) (definitions w2) (S (sw_ticks w2)) (sw_uuids w2) (executions w2) (compensation_errors w2)).
    rewrite (M_bind_eq_Ok _ _ w2 (clock (sw_ticks w2)) w3) by done.
    set (i2 := update_step k _ _).
    assert (steps i2 !! k = Some (complete_step (hr_output r) (clock (sw_ticks w2)) (begin_step at_ (initial_step d)))) as Hk2.
    { unfold i2. simpl. rewrite !list_lookup_alter_eq, (fi_ahead _ _ _ Hinv k d) by done. done. }
    assert (∀ j, j ≠ k → steps i2 !! j = steps inst !! j) as Hoth.
    { intros j Hj. unfold i2. simpl. by rewrite !list_lookup_alter_ne. }
    destruct (IH (S k) i2 (stack_push (steps i2) k stack) (map_set prior (sd_id d) (hr_output r)) w3)
      as (inst' & w' & cs & Hr & Hg & Hid & He & Hend).
    + split.
      * unfold ids_match, i2. rewrite !update_step_ids by done. apply Hinv.
      * intros j d' Hj Hd'. destruct (decide (j = k)) as [->|Hne]; [by eexists|].
        rewrite Hoth by done. apply (fi_done _ _ _ Hinv j d'); [lia|done].
      * intros j d' Hj Hd'. rewrite Hoth by lia. apply (fi_ahead _ _ _ Hinv); [lia|done].
      * unfold stack_push. rewrite Hk2. cbn [st_status complete_step]. rewrite (fi_stack _ _ _ Hinv). by rewrite seq_S.
    + done.
    + lia.
    + simpl. rewrite Hw, (take_S_r _ _ _ Hd), fmap_app, app_assoc. done.
    + by exists inst', w', cs.
Qed.
End with_definition.

(** ** Property *)

(** C20: A saga of a registered definition whose steps have distinct ids always
    ends and is stored, whatever its handlers do.  Either every step has
    completed, its handler called once, in order, and the saga is completed.  Or
    one step has failed, having thrown, answered without success or named no
    registered handler, and the steps behind it never began; of the completed steps
    before it, those that name a compensation with a registered handler had it
    called once, in reverse order, and are compensated, or still compensating
    when it threw; the others are skipped and stay completed.  Nothing else is
    called, and the saga's final status is then [compensated], never [failed]. *)
Theorem start_saga_correct (definitionId : string) (input : jsrecord) (def : SagaDefinition) (w : SagaWorld)
    (Hdef : map_get (definitions w) definitionId = Some def) (Hnd : NoDup (sd_id <$> sdef_steps def)) :
  ∃ inst w' calls, start_saga definitionId input w = (Ok inst, w')
    ∧ map_get (instances w') (sg_id inst) = Some inst
    ∧ executions w' = executions w ++ calls ∧ saga_end def inst calls.
Proof.
  unfold start_saga. rewrite (M_bind_eq_Ok _ _ w (Some def) w) by (unfold gets; by rewrite Hdef).
  cbn [mbind M_bind]. unfold mbind, M_bind, saga_run_id, saga_now, store_instance, modify. cbn -[forward_loop].
  set (inst := mkSaga _ _ _ _ _ _ _). set (w1 := mkSagaWorld _ _ _ _ _ _).
  destruct (forward_loop_spec def Hnd (sdef_steps def) 0 inst [] input [] w1 (executions w))
    as (inst' & w' & cs & Hr & Hg & Hid & He & Hend); try done.
  - split; [|lia| |done].
    + unfold ids_match, inst. simpl. rewrite <-list_fmap_compose. by apply list_fmap_ext.
    + intros j d _ Hd. unfold inst. simpl. by rewrite list_lookup_fmap, Hd.
  - lia.
  - simpl. by rewrite app_nil_r.
  - exists inst', w', cs. unfold executeForward. split; [exact Hr|]. rewrite Hid. done.
Qed.
End coordinator.

(** ** The compensation planner (engine/compensation.ts) *)

Record CompensationStep : Type := mkCompensationStep { cs_taskId : string; action : string }.

Definition planFailedRun (ts : list TaskRun) : list CompensationStep :=
  (λ t, mkCompensationStep (definitionTaskId t) ("rollback." +:+ tr_handler t))
    <$> rev (List.filter (λ t, bool_decide (status t = TaskSucceeded)) ts).

(** ** Instances *)

Definition example_saga : SagaDefinition :=
  mkSagaDef "order" "Order"
    [mkStepDef "reserve" "Reserve" "stock.reserve" (Some "stock.release") 1000;
     mkStepDef "charge" "Charge" "card.charge" (Some "card.refund") 1000;
     mkStepDef "notify" "Notify" "mail.send" None 1000;
     mkStepDef "ship" "Ship" "parcel.ship" None 1000].

Definition example_registry : list string :=
  ["stock.reserve"; "stock.release"; "card.charge"; "card.refund"; "mail.send"; "parcel.ship"].

(** Shipping reports a failure and the refund throws. *)
Definition example_execute (k : nat) (name : string) (ctx : HandlerContext) : HandlerResult + JsError :=
  if decide (name = "parcel.ship") then inl (mkHandlerResult false [("error", JStr "lost")])
  else if decide (name = "card.refund") then inr (PlainError "refused")
  else inl (mkHandlerResult true []).

Definition example_world : SagaWorld :=
  mkSagaWorld [] [("order", example_saga)] 0 0 [] [].

(** Nothing checks that the ids of a definition's steps differ.  With a repeated
    one the compensation of the first such step is called twice, and that of the
    second never. *)
Definition repeated_saga : SagaDefinition :=
  mkSagaDef "order" "Order"
    [mkStepDef "reserve" "Reserve" "stock.reserve" (Some "stock.release") 1000;
     mkStepDef "reserve" "Charge" "card.charge" (Some "card.refund") 1000;
     mkStepDef "ship" "Ship" "parcel.ship" None 1000].

Example repeated_step_id :
  executions (start_saga example_registry example_execute (λ k, pretty k) (λ k, pretty k) "order" []
    (mkSagaWorld [] [("order", repeated_saga)] 0 0 [] [])).2
  = [("stock.reserve", "reserve"); ("card.charge", "reserve"); ("parcel.ship", "ship");
     ("stock.release", "reserve"); ("stock.release", "reserve")].
Proof. by vm_compute. Qed.

Lemma start_saga_correct_witness :
  ∃ inst w' calls,
    start_saga example_registry example_execute (λ k, pretty k) (λ k, pretty k) "order" [] example_world = (Ok inst, w')
    ∧ executions w' = calls ∧ saga_end example_registry example_saga inst calls
    ∧ calls = [("stock.reserve", "reserve"); ("card.charge", "charge"); ("mail.send", "notify");
               ("parcel.ship", "ship"); ("card.refund", "charge"); ("stock.release", "reserve")]
    ∧ st_status <$> steps inst = [StepCompensated; StepCompensating; StepCompleted; StepFailed].
Proof.
  destruct (start_saga_correct example_registry example_execute (λ k, pretty k) (λ k, pretty k) "order" []
    example_saga example_world) as (inst & w' & calls & Hrun & _ & He & Hend).
  - reflexivity.
  - apply (bool_decide_unpack _). vm_compute. exact I.
  - exists inst, w', calls. split; [exact Hrun|]. split; [exact He|]. split; [exact Hend|].
    assert (Hc := Hrun). vm_compute in Hc. injection Hc as <- <-. split; [|reflexivity].
    symmetry. exact He.
Defined.
