(* ===== verification/Guards.v ===== *)
(** * Request guards (middleware/rate-limit.ts, handlers/http/circuit-breaker.ts)

    Both read [Date.now()]; here each call carries the time of the reading, in
    milliseconds. *)

From S2P Require Import Prelude JsMap.
From stdpp Require Import sorting.
Open Scope Z_scope.

(** ** The rate limit *)

Record Bucket : Type := mkBucket { count : Z; resetAt : Z }.

Definition window_ms : Z := 60000.

(** The [preHandler] hook for a request of [ip] at time [now]: whether it is let
    through, and the buckets afterwards. *)
Definition rate_limit (maxPerMinute : Z) (buckets : jsmap string Bucket) (ip : string) (now : Z)
    : bool * jsmap string Bucket :=
  let fresh := mkBucket 0 (now + window_ms) in
  let bucket := match map_get buckets ip with
                | None => fresh
                | Some b => if resetAt b <? now then fresh else b
                end in
  let bucket := mkBucket (count bucket + 1) (resetAt bucket) in
  (negb (maxPerMinute <? count bucket), map_set buckets ip bucket).

(** The requests let through, in order. *)
Fixpoint accepted_requests (maxPerMinute : Z) (buckets : jsmap string Bucket) (reqs : list (string * Z))
    : list (string * Z) :=
  match reqs with
  | [] => []
  | (ip, now) :: reqs' =>
      let '(ok, buckets') := rate_limit maxPerMinute buckets ip now in
      (if ok then [(ip, now)] else []) ++ accepted_requests maxPerMinute buckets' reqs'
  end.

Definition in_window (ip : string) (a : Z) (r : string * Z) : bool :=
  bool_decide (r.1 = ip) && (a <=? r.2) && (r.2 <=? a + window_ms).

Definition window_count (ip : string) (a : Z) (reqs : list (string * Z)) : Z :=
  Z.of_nat (length (List.filter (in_window ip a) reqs)).

(** What the window from [a] can still get from the bucket of [ip]: nothing that
    its limit does not leave, and one more bucket if this one ends inside. *)
Definition allowance (maxPerMinute a : Z) (bucket : option Bucket) : Z :=
  match bucket with
  | None => 2 * maxPerMinute
  | Some b =>
      if resetAt b <? a then 2 * maxPerMinute
      else if resetAt b <? a + window_ms then Z.max 0 (maxPerMinute - count b) + maxPerMinute
      else Z.max 0 (maxPerMinute - count b)
  end.

Lemma window_count_cons ip a r l :
  window_count ip a (r :: l) = (if in_window ip a r then 1 else 0) + window_count ip a l.
Proof. unfold window_count. cbn [List.filter]. destruct (in_window ip a r); simpl length; lia. Qed.

Lemma window_count_nonneg ip a l : 0 ≤ window_count ip a l.
Proof. unfold window_count. lia. Qed.

(** Requests after the window do not count. *)
Lemma window_count_late max buckets ip a reqs :
  Forall (λ r, a + window_ms < r.2) reqs → window_count ip a (accepted_requests max buckets reqs) = 0.
Proof.
  intros Hl. revert buckets. induction Hl as [|[ip' now] reqs Hr Hl IH]; intros buckets; [done|].
  cbn [accepted_requests]. destruct (rate_limit max buckets ip' now) as [ok buckets']. simpl in Hr.
  destruct ok; cbn [app]; [|apply IH]. rewrite window_count_cons, IH.
  unfold in_window. cbn [fst snd]. replace (now <=? a + window_ms) with false by lia. by rewrite andb_false_r.
Qed.

Lemma rate_limit_other max buckets ip now ip' :
  ip' ≠ ip → map_get (rate_limit max buckets ip now).2 ip' = map_get buckets ip'.
Proof. intros Hne. unfold rate_limit. cbn [snd]. by apply map_get_set_ne. Qed.

(** Split the comparisons of the goal. *)
Ltac split_comparisons :=
  repeat match goal with
         | |- context [?x <? ?y] => destruct (Z.ltb_spec x y)
         | |- context [?x <=? ?y] => destruct (Z.leb_spec x y)
         end.

Lemma accepted_window_bound max buckets ip a reqs :
  0 ≤ max → Sorted (λ r r', r.2 ≤ r'.2) reqs →
  window_count ip a (accepted_requests max buckets reqs) ≤ allowance max a (map_get buckets ip).
Proof.
  intros Hmax Hs. apply Sorted_StronglySorted in Hs; [|intros x y z; lia].
  revert buckets. induction Hs as [|[ip' now] reqs Hs IH Hall]; intros buckets.
  { unfold window_count, allowance. simpl. repeat case_match; lia. }
  cbn [accepted_requests]. destruct (rate_limit max buckets ip' now) as [ok buckets'] eqn:E.
  specialize (IH buckets'). destruct (decide (ip' = ip)) as [->|Hne].
  2: { rewrite <-(rate_limit_other max buckets ip' now ip) by done. rewrite E. cbn [snd].
       destruct ok; cbn [app]; [|done]. rewrite window_count_cons. unfold in_window at 1. cbn [fst].
       rewrite bool_decide_eq_false_2 by done. cbn. lia. }
  assert (window_count ip a ((if ok then [(ip, now)] else []) ++ accepted_requests max buckets' reqs)
    = (if ok && (a <=? now) && (now <=? a + window_ms) then 1 else 0)
      + window_count ip a (accepted_requests max buckets' reqs)) as ->.
  { destruct ok; cbn [app andb]; [|lia]. rewrite window_count_cons. unfold in_window. cbn [fst snd].
    rewrite bool_decide_eq_true_2 by done. done. }
  destruct (decide (a + window_ms < now)) as [Hlate|Hlate].
  { rewrite window_count_late.
    - replace (now <=? a + window_ms) with false by lia. rewrite andb_false_r.
      unfold allowance. repeat case_match; lia.
    - eapply Forall_impl; [exact Hall|]. intros r Hr. simpl in *. lia. }
  revert IH. generalize (window_count ip a (accepted_requests max buckets' reqs)) as n. intros n IH.
  unfold rate_limit in E. injection E as Eok Eb. rewrite <-Eb, map_get_set_eq in IH. clear Eb.
  unfold allowance in *. unfold window_ms in *. revert IH. subst ok.
  destruct (map_get buckets ip) as [[c r]|]; cbn [count resetAt];
    [destruct (Z.ltb_spec r now)|]; cbn [count resetAt]; split_comparisons; cbn [andb negb]; lia.
Qed.

(** However the requests arrive, in any window of a minute at most twice the
    limit of one address are let through; twice, because the fixed windows of
    the buckets do not slide. *)
Theorem rate_limit_window (maxPerMinute a : Z) (ip : string) (reqs : list (string * Z))
    (Hmax : 0 ≤ maxPerMinute) (Hordered : Sorted (λ r r', r.2 ≤ r'.2) reqs) :
  window_count ip a (accepted_requests maxPerMinute [] reqs) ≤ 2 * maxPerMinute.
Proof. apply (accepted_window_bound maxPerMinute [] ip a reqs Hmax Hordered). Qed.

(** The bound is reached: at the end of one bucket and the start of the next. *)
Lemma rate_limit_window_witness :
  let reqs := [("ip", 0); ("ip", 59990); ("ip", 59995); ("ip", 60001); ("ip", 60002); ("ip", 60003)] in
  window_count "ip" 30000 (accepted_requests 3 [] reqs) ≤ 2 * 3
  ∧ window_count "ip" 30000 (accepted_requests 3 [] reqs) = 5.
Proof.
  split; [|vm_compute; reflexivity]. apply rate_limit_window; [lia|].
  repeat constructor; simpl; lia.
Defined.

(** ** The circuit breaker *)

Inductive CircuitState : Type := Closed | Open | HalfOpen.

Record CircuitBreaker : Type := mkBreaker {
  cb_state : CircuitState;
  failures : Z;
  lastFailureAt : Z;
}.

Definition new_breaker : CircuitBreaker := mkBreaker Closed 0 0.

Section breaker.
Variables threshold cooldownMs : Z.

Definition canExecute (now : Z) (b : CircuitBreaker) : bool * CircuitBreaker :=
  match cb_state b with
  | Closed => (true, b)
  | Open =>
      if cooldownMs <=? now - lastFailureAt b
      then (true, mkBreaker HalfOpen (failures b) (lastFailureAt b)) else (false, b)
  | HalfOpen => (true, b)
  end.

Definition recordSuccess (b : CircuitBreaker) : CircuitBreaker := mkBreaker Closed 0 (lastFailureAt b).

Definition recordFailure (now : Z) (b : CircuitBreaker) : CircuitBreaker :=
  let f := failures b + 1 in
  mkBreaker (if threshold <=? f then Open else cb_state b) f now.

Inductive BreakerCall : Type := AskAt (now : Z) | Succeeded | FailedAt (now : Z).

Definition breaker_step (c : BreakerCall) (b : CircuitBreaker) : CircuitBreaker :=
  match c with
  | AskAt now => (canExecute now b).2
  | Succeeded => recordSuccess b
  | FailedAt now => recordFailure now b
  end.

Definition breaker_run (cs : list BreakerCall) : CircuitBreaker := foldl (λ b c, breaker_step c b) new_breaker cs.

(** ** Specification: what the history says *)

Definition failure_time (c : BreakerCall) : option Z := match c with FailedAt t => Some t | _ => None end.
Definition call_time (c : BreakerCall) : option Z :=
  match c with AskAt t | FailedAt t => Some t | Succeeded => None end.
Definition is_success (c : BreakerCall) : bool := match c with Succeeded => true | _ => false end.

(** The calls since the last success, the last one first. *)
Fixpoint since_success (cs : list BreakerCall) : list BreakerCall :=
  match cs with
  | [] => []
  | c :: cs' => if is_success c then [] else c :: since_success cs'
  end.

(** The times of the failures since the last success, the last one first. *)
Definition recent_failures (cs : list BreakerCall) : list Z := omap failure_time (since_success (rev cs)).

(** The breaker after the calls [cs]; a half-open one has let a call through after
    the cooldown. *)
Record breaker_inv (cs : list BreakerCall) (b : CircuitBreaker) : Prop := {
  br_failures : failures b = Z.of_nat (length (recent_failures cs));
  br_last : match recent_failures cs with [] => True | t :: _ => lastFailureAt b = t end;
  br_closed : cb_state b = Closed ↔ failures b < threshold;
  br_half : cb_state b = HalfOpen → ∃ t, AskAt t ∈ cs ∧ cooldownMs ≤ t - lastFailureAt b;
}.

Lemma breaker_run_inv cs : 1 ≤ threshold → breaker_inv cs (breaker_run cs).
Proof.
  intros Ht. induction cs as [|c cs IH] using rev_ind.
  { split; simpl; try done. split; [lia|done]. }
  unfold breaker_run in *. rewrite foldl_app. cbn [foldl]. set (b := foldl _ _ cs) in *.
  destruct IH as [Hf Hl Hc Hh]. unfold recent_failures in *.
  destruct c as [now| |now]; cbn [breaker_step].
  - assert (omap failure_time (since_success (rev (cs ++ [AskAt now]))) = omap failure_time (since_success (rev cs)))
      as Heq by (rewrite rev_app_distr; done).
    unfold canExecute. destruct (cb_state b) eqn:Es; cbn [snd].
    + split; unfold recent_failures; rewrite ?Heq, ?Es; try done.
    + destruct (Z.leb_spec cooldownMs (now - lastFailureAt b)) as [Hle|Hle]; cbn [snd].
      * split; unfold recent_failures; rewrite ?Heq; cbn; try done.
        -- split; [done|]. intros Hlt. by apply Hc in Hlt.
        -- intros _. exists now. split; [set_solver|done].
      * split; unfold recent_failures; rewrite ?Heq, ?Es; try done.
    + split; unfold recent_failures; rewrite ?Heq, ?Es; try done.
      intros _. destruct (Hh eq_refl) as (t & Hin & Hcd). exists t. split; [set_solver|done].
  - split; unfold recent_failures; rewrite ?rev_app_distr; cbn; try done. split; [lia|done].
  - split; unfold recent_failures; rewrite ?rev_app_distr; cbn -[Z.of_nat].
    + rewrite Hf. simpl length. lia.
    + done.
    + unfold recordFailure. destruct (Z.leb_spec threshold (failures b + 1)) as [Hle|Hle]; cbn;
        [split; [done|lia]|]. split; [lia|]. intros _. apply Hc. lia.
    + unfold recordFailure. destruct (Z.leb_spec threshold (failures b + 1)) as [Hle|Hle]; cbn; [done|].
      intros Hs. assert (cb_state b = Closed) as Hcl by (apply Hc; lia). congruence.
Qed.

(** A breaker refuses a call exactly when the calls since the last success count
    at least [threshold] failures and the last of them is more recent than the
    cooldown.  Once the cooldown has passed, every call is let through until
    the next failure, not only one. *)
Theorem breaker_refuses_iff (cs : list BreakerCall) (now : Z) (Ht : 1 ≤ threshold)
    (Hnow : ∀ c t, c ∈ cs → call_time c = Some t → t ≤ now) :
  (canExecute now (breaker_run cs)).1 = false
  ↔ threshold ≤ Z.of_nat (length (recent_failures cs))
    ∧ ∃ t, head (recent_failures cs) = Some t ∧ now - t < cooldownMs.
Proof.
  destruct (breaker_run_inv cs Ht) as [Hf Hl Hc Hh]. set (b := breaker_run cs) in *. rewrite <-Hf.
  assert (threshold ≤ failures b → ∃ t, head (recent_failures cs) = Some t ∧ lastFailureAt b = t) as Hlast.
  { intros Hle. destruct (recent_failures cs) as [|t l]; [simpl in Hf; lia|]. by exists t. }
  unfold canExecute. destruct (cb_state b) eqn:Es; cbn [fst].
  - split; [done|]. intros [Hle _]. pose proof (proj1 Hc eq_refl). lia.
  - assert (threshold ≤ failures b) as Hle.
    { destruct (decide (threshold ≤ failures b)) as [|Hn]; [done|]. assert (Open = Closed) by (apply Hc; lia). done. }
    destruct (Hlast Hle) as (t & Hh' & <-). destruct (Z.leb_spec cooldownMs (now - lastFailureAt b)); cbn.
    + split; [done|]. intros (_ & t & Ht' & Hlt). simplify_eq. lia.
    + split; [|done]. intros _. split; [done|]. eauto.
  - split; [done|]. intros (Hle & t & Ht' & Hlt). destruct (Hlast Hle) as (t' & Ht2 & Heq). simplify_eq.
    destruct (Hh eq_refl) as (t1 & Hin & Hcd). pose proof (Hnow _ t1 Hin eq_refl). lia.
Qed.
End breaker.

Lemma breaker_refuses_iff_witness :
  (canExecute 1000 150 (breaker_run 2 1000 [FailedAt 50; AskAt 60; FailedAt 100])).1 = false
  ∧ (canExecute 1000 1200 (breaker_run 2 1000 [FailedAt 50; AskAt 60; FailedAt 100])).1 = true.
Proof.
  split; [|vm_compute; reflexivity]. apply breaker_refuses_iff; [lia| |].
  - intros c t Hin. repeat (apply elem_of_cons in Hin as [->|Hin]; [intros [= <-]; lia|]). by apply elem_of_nil in Hin.
  - split; [vm_compute; discriminate|]. exists 100. split; [reflexivity|lia].
Defined.
