(* ===== verification/HttpInvoker.v ===== *)
(** * Calls of handlers over HTTP (handlers/http/invoker.ts)

    One circuit breaker per handler.  A call asks its breaker before the request
    and reports to it after the answer; other calls may start and finish in
    between.  The request and the parsing of the body are the platform's. *)

From S2P Require Import Prelude JsMap DomainTypes JsValue Guards.
Open Scope Z_scope.

Record HttpInvokeResult : Type := mkInvokeResult {
  hi_ok : bool;
  hi_status : Z;
  hi_body : jsval;
  hi_latencyMs : Z;
}.

(** What [fetch] and [res.text()] give: the status and the body of an answer, or
    the text of an error. *)
Inductive Answer : Type :=
| Answered (status : Z) (body : jsval)
| Unanswered (error : string).

(** [res.ok]. *)
Definition status_ok (status : Z) : bool := (200 <=? status) && (status <=? 299).

Definition answer_ok (a : Answer) : bool :=
  match a with Answered status _ => status_ok status | Unanswered _ => false end.

Section invoker.
Variables defaultBreakerThreshold defaultCooldownMs : Z.
Context (ident : N).

Definition getBreaker (handler : string) (breakers : jsmap string CircuitBreaker)
    : CircuitBreaker * jsmap string CircuitBreaker :=
  match map_get breakers handler with
  | Some b => (b, breakers)
  | None => (new_breaker, map_set breakers handler new_breaker)
  end.

(** Up to the request: whether it is made. *)
Definition invoke_start (handler : string) (now : Z) (breakers : jsmap string CircuitBreaker)
    : bool * jsmap string CircuitBreaker :=
  let '(b, breakers) := getBreaker handler breakers in
  let '(allowed, b) := canExecute defaultCooldownMs now b in
  (allowed, map_set breakers handler b).

(** After the answer; the breaker is the one [invoke_start] got. *)
Definition invoke_finish (handler : string) (a : Answer) (now : Z) (breakers : jsmap string CircuitBreaker)
    : jsmap string CircuitBreaker :=
  let b := (getBreaker handler breakers).1 in
  map_set breakers handler (if answer_ok a then recordSuccess b else recordFailure defaultBreakerThreshold now b).

Definition refused : HttpInvokeResult :=
  mkInvokeResult false 503 (JObj ident [("error", JStr "circuit_open")]) 0.

Definition answer_result (a : Answer) (latencyMs : Z) : HttpInvokeResult :=
  match a with
  | Answered status body => mkInvokeResult (status_ok status) status body latencyMs
  | Unanswered error => mkInvokeResult false 0 (JObj ident [("error", JStr error)]) latencyMs
  end.

(** A call nothing interrupts, which starts at [started] and has its answer at
    [ended]. *)
Definition invoke (handler : string) (started : Z) (a : Answer) (ended : Z) (breakers : jsmap string CircuitBreaker)
    : HttpInvokeResult * jsmap string CircuitBreaker :=
  let '(allowed, breakers) := invoke_start handler started breakers in
  if allowed then (answer_result a (ended - started), invoke_finish handler a ended breakers)
  else (refused, breakers).

(** ** Calls that overlap *)

Inductive InvokerEvent : Type :=
| Started (handler : string) (at_ : Z)
| Finished (handler : string) (a : Answer) (at_ : Z).

Definition invoker_step (breakers : jsmap string CircuitBreaker) (e : InvokerEvent) : jsmap string CircuitBreaker :=
  match e with
  | Started h now => (invoke_start h now breakers).2
  | Finished h a now => invoke_finish h a now breakers
  end.

Definition invoker_run (es : list InvokerEvent) : jsmap string CircuitBreaker := foldl invoker_step [] es.

(** What the events of one handler are to its breaker. *)
Definition breaker_call (h : string) (e : InvokerEvent) : option BreakerCall :=
  match e with
  | Started h' now => if decide (h' = h) then Some (AskAt now) else None
  | Finished h' a now =>
      if decide (h' = h) then Some (if answer_ok a then Succeeded else FailedAt now) else None
  end.

Definition calls_of (h : string) (es : list InvokerEvent) : list BreakerCall := omap (breaker_call h) es.

Definition event_time (e : InvokerEvent) : Z := match e with Started _ t | Finished _ _ t => t end.

Lemma getBreaker_get h h' bs : default new_breaker (map_get (getBreaker h bs).2 h') = default new_breaker (map_get bs h').
Proof.
  unfold getBreaker. destruct (map_get bs h) eqn:Hb; [done|]. cbn [snd]. rewrite map_get_set.
  destruct (decide (h = h')) as [<-|]; [by rewrite Hb|done].
Qed.

Lemma getBreaker_fst h bs : (getBreaker h bs).1 = default new_breaker (map_get bs h).
Proof. unfold getBreaker. by destruct (map_get bs h). Qed.

Lemma invoke_start_get h now h' bs :
  default new_breaker (map_get (invoke_start h now bs).2 h') =
    if decide (h = h') then (canExecute defaultCooldownMs now (default new_breaker (map_get bs h))).2
    else default new_breaker (map_get bs h').
Proof.
  pose proof (getBreaker_fst h bs) as Hf. pose proof (getBreaker_get h h' bs) as Hg.
  unfold invoke_start. destruct (getBreaker h bs) as [b bs']. cbn [fst snd] in *. subst b.
  destruct (canExecute _ _ _) as [ok b']. cbn [snd]. rewrite map_get_set. by destruct (decide (h = h')).
Qed.

(** The breaker of a handler has seen the calls of that handler and no other. *)
Lemma invoker_run_get es h :
  default new_breaker (map_get (invoker_run es) h) = breaker_run defaultBreakerThreshold defaultCooldownMs (calls_of h es).
Proof.
  induction es as [|e es IH] using rev_ind; [done|]. unfold invoker_run, breaker_run, calls_of in *.
  rewrite foldl_snoc, omap_app, foldl_app, <-IH. destruct e as [h' now|h' a now]; cbn [invoker_step omap list_omap breaker_call].
  - rewrite invoke_start_get. by destruct (decide (h' = h)) as [->|].
  - unfold invoke_finish. rewrite map_get_set, getBreaker_fst. destruct (decide (h' = h)) as [->|]; [|done].
    cbn. by destruct (answer_ok a).
Qed.

Lemma invoke_start_refused es h now :
  1 ≤ defaultBreakerThreshold → (∀ e, e ∈ es → event_time e ≤ now) →
  (invoke_start h now (invoker_run es)).1 = false
  ↔ defaultBreakerThreshold ≤ Z.of_nat (length (recent_failures (calls_of h es)))
    ∧ ∃ t, head (recent_failures (calls_of h es)) = Some t ∧ now - t < defaultCooldownMs.
Proof.
  intros Ht Hnow. rewrite <-(breaker_refuses_iff defaultBreakerThreshold defaultCooldownMs); [|done|].
  - rewrite <-invoker_run_get. unfold invoke_start. pose proof (getBreaker_fst h (invoker_run es)) as Hf.
    destruct (getBreaker _ _) as [b bs]. cbn [fst] in Hf. subst b. by destruct (canExecute _ _ _).
  - intros c t Hc Hct. unfold calls_of in Hc. apply list_elem_of_omap in Hc as (e & He & Hec).
    specialize (Hnow e He). destruct e as [h' t'|h' a' t']; cbn [event_time breaker_call] in *;
      destruct (decide (h' = h)); simplify_eq; [by simplify_eq/=|]. destruct (answer_ok a'); by simplify_eq/=.
Qed.

(** C37: However calls have overlapped, a call is answered 503 without a request
    exactly when its own handler has failed at least as often as the threshold
    since its last success and failed last within the cooldown.  Otherwise its
    result is the answer it got, which its breaker then counts.  What other
    handlers do does not matter, and is not changed. *)
Theorem invoke_correct (es : list InvokerEvent) (h : string) (now : Z) (a : Answer) (ended : Z)
    (Ht : 1 ≤ defaultBreakerThreshold) (Hnow : ∀ e, e ∈ es → event_time e ≤ now) :
  let failed := recent_failures (calls_of h es) in
  let open := defaultBreakerThreshold ≤ Z.of_nat (length failed)
              ∧ ∃ t, head failed = Some t ∧ now - t < defaultCooldownMs in
  let '(result, breakers) := invoke h now a ended (invoker_run es) in
  (open → result = refused ∧ breakers = invoker_run (es ++ [Started h now]))
  ∧ (¬ open → result = answer_result a (ended - now) ∧ breakers = invoker_run (es ++ [Started h now; Finished h a ended]))
  ∧ ∀ h', h' ≠ h → default new_breaker (map_get breakers h') = default new_breaker (map_get (invoker_run es) h').
Proof.
  cbv zeta. pose proof (invoke_start_refused es h now Ht Hnow) as Hiff. unfold invoke.
  assert (∀ h' es', calls_of h' es' = [] →
    default new_breaker (map_get (invoker_run (es ++ es')) h') = default new_breaker (map_get (invoker_run es) h')) as Hoth.
  { intros h' es' Hno. rewrite !invoker_run_get. unfold calls_of in *. by rewrite omap_app, Hno, app_nil_r. }
  assert (∀ es', invoker_run (es ++ es') = foldl invoker_step (invoker_run es) es') as Hrun
    by (intros; apply foldl_app).
  assert ((invoke_start h now (invoker_run es)).2 = invoker_run (es ++ [Started h now])) as Hbs by (by rewrite Hrun).
  destruct (invoke_start h now (invoker_run es)) as [ok bs]. cbn [fst snd] in *. subst bs.
  destruct ok; rewrite <-Hiff; split_and!; try done.
  - intros _. split; [done|]. by rewrite !Hrun.
  - intros h' Hne. rewrite <-(Hoth h' [Started h now; Finished h a ended]); [by rewrite !Hrun|].
    cbn. by rewrite !decide_False by congruence.
  - intros h' Hne. apply Hoth. cbn. by rewrite decide_False by congruence.
Qed.
End invoker.

Lemma invoke_correct_witness :
  (invoke 2 1000 0 "erp" 150 (Answered 200 JNull) 160
     (invoker_run 2 1000 [Started "erp" 10; Started "crm" 20; Finished "erp" (Unanswered "timeout") 50;
                          Started "erp" 60; Finished "crm" (Answered 200 JNull) 70;
                          Finished "erp" (Answered 500 JNull) 100])).1 = refused 0.
Proof.
  set (es := [Started "erp" 10; Started "crm" 20; Finished "erp" (Unanswered "timeout") 50;
              Started "erp" 60; Finished "crm" (Answered 200 JNull) 70; Finished "erp" (Answered 500 JNull) 100]).
  pose proof (invoke_correct 2 1000 0 es "erp" 150 (Answered 200 JNull) 160) as Hc.
  destruct (invoke 2 1000 0 "erp" 150 (Answered 200 JNull) 160 (invoker_run 2 1000 es)) as [result bs].
  destruct Hc as [Hopen _]; [lia| |].
  - intros e He. repeat (apply elem_of_cons in He as [->|He]; [cbn; lia|]). by apply elem_of_nil in He.
  - refine (proj1 (Hopen _)). split; [vm_compute; discriminate|]. exists 100. split; [reflexivity|lia].
Defined.
