(* ===== verification/Export.v ===== *)
(** * Export of runs (export/run-exporter.ts, lib/run-serializer.ts)

    The rows of a run, its CSV text and its summary, and the redaction of
    bundles.  A reader of CSV text, in the format of RFC 4180 with line feeds,
    specifies the writer. *)

From S2P Require Import Prelude JsString JsMap DomainTypes JsValue Domain.
From Stdlib Require Import Ascii.
Open Scope Z_scope.

(** ** RunExporter *)

Record RunExportRow : Type := mkExportRow {
  row_runId : string;
  row_jobId : string;
  row_state : string;
  row_taskId : string;
  row_taskStatus : string;
  row_attempt : Z;
  row_error : option string;
}.

Definition toRows (workflow : WorkflowInstance) : list RunExportRow :=
  (λ t, mkExportRow (wf_runId workflow) (wf_jobId workflow) (WorkflowState_string (state workflow))
          (definitionTaskId t) (TaskStatus_string (status t)) (attempt t) (errorMessage t)) <$> wf_tasks workflow.

(** The character a cell is quoted with, and [replace] of it by two of it. *)
Definition dquote : ascii := ascii_of_N 34.
Definition line_feed : ascii := ascii_of_N 10.
Definition comma : ascii := ","%char.

Definition csv_cell (c : string) : string :=
  of_chars [dquote] +:+ replace_all dquote (of_chars [dquote; dquote]) c +:+ of_chars [dquote].

Definition row_fields (r : RunExportRow) : list string :=
  [row_runId r; row_jobId r; row_state r; row_taskId r; row_taskStatus r; pretty (row_attempt r);
   default "" (row_error r)].

Definition csv_header : string := "runId,jobId,state,taskId,taskStatus,attempt,error".

Definition toCsv (workflow : WorkflowInstance) : string :=
  join (of_chars [line_feed])
    (csv_header :: ((λ r, join (of_chars [comma]) (csv_cell <$> row_fields r)) <$> toRows workflow)).

(** [counts] of the tasks by status, and the summary read off it. *)
Definition status_counts (ts : list TaskRun) : jsmap string Z :=
  foldl (λ counts t, map_set counts (TaskStatus_string (status t))
           (default 0 (map_get counts (TaskStatus_string (status t))) + 1)) [] ts.

Record RunSummary : Type := mkSummary {
  sum_runId : string;
  sum_state : WorkflowState;
  sum_taskCount : Z;
  sum_succeeded : Z;
  sum_failed : Z;
  sum_historyLength : Z;
}.

Definition toSummary (workflow : WorkflowInstance) : RunSummary :=
  let counts := status_counts (wf_tasks workflow) in
  mkSummary (wf_runId workflow) (state workflow) (Z.of_nat (length (wf_tasks workflow)))
    (default 0 (map_get counts (TaskStatus_string TaskSucceeded)))
    (default 0 (map_get counts (TaskStatus_string TaskFailed)))
    (Z.of_nat (length (history workflow))).

(** ** RunSerializer.redact *)

Record SerializedRunBundle : Type := mkBundle {
  bundle_version : Z;
  bundle_run : JobRun;
  bundle_workflow : WorkflowInstance;
  exportedAt : string;
}.

(** [delete record[key]]. *)
Definition record_delete (k : string) (r : jsrecord) : jsrecord :=
  List.filter (λ kv, negb (bool_decide (kv.1 = k))) r.

Definition set_context (w : WorkflowInstance) (c : jsrecord) : WorkflowInstance :=
  mkWorkflow (wf_id w) (wf_jobId w) (wf_runId w) (state w) (currentTaskId w) c (wf_tasks w)
    (history w) (wf_version w) (wf_createdAt w) (wf_updatedAt w).
Definition set_run_input (r : JobRun) (i : jsrecord) : JobRun :=
  mkJobRun (run_id r) (run_jobId r) (run_workflowId r) (run_status r) (run_startedAt r) (run_finishedAt r)
    (trigger r) i.

(** A deleted key that is absent changes nothing, so the test [key in] of the
    source decides nothing. *)
Definition redact_key (b : SerializedRunBundle) (key : string) : SerializedRunBundle :=
  mkBundle (bundle_version b)
    (set_run_input (bundle_run b) (record_delete key (run_input (bundle_run b))))
    (set_context (bundle_workflow b) (record_delete key (context (bundle_workflow b))))
    (exportedAt b).

Definition redact (bundle : SerializedRunBundle) (keys : list string) : SerializedRunBundle :=
  foldl redact_key bundle keys.

(** ** Reading CSV text *)

Inductive csv_state : Type := FieldStart | Unquoted | Quoted | QuoteSeen.

(** [field] and [row] are read backwards; a quoted field holds any character, two
    quotes stand for one, and a quote has no place in an unquoted field. *)
Fixpoint csv_go (s : list ascii) (st : csv_state) (field : list ascii) (row : list string)
    : option (list (list string)) :=
  let cell := of_chars (rev field) in
  match s with
  | [] => match st with Quoted => None | _ => Some [rev (cell :: row)] end
  | c :: s =>
      match st with
      | Quoted => if decide (c = dquote) then csv_go s QuoteSeen field row else csv_go s Quoted (c :: field) row
      | _ =>
          if decide (c = comma) then csv_go s FieldStart [] (cell :: row)
          else if decide (c = line_feed) then cons (rev (cell :: row)) <$> csv_go s FieldStart [] []
          else if decide (c = dquote) then
            match st with
            | FieldStart => csv_go s Quoted field row
            | QuoteSeen => csv_go s Quoted (dquote :: field) row
            | _ => None
            end
          else match st with QuoteSeen => None | _ => csv_go s Unquoted (c :: field) row end
      end
  end.

Definition csv_read (s : string) : option (list (list string)) := csv_go (chars s) FieldStart [] [].

(** ** The reader inverts the writer *)

Definition doubled (l : list ascii) : list ascii := l ≫= λ d, if decide (d = dquote) then [dquote; dquote] else [d].

Lemma chars_csv_cell c : chars (csv_cell c) = dquote :: doubled (chars c) ++ [dquote].
Proof. unfold csv_cell, replace_all. by rewrite !chars_app, !chars_of_chars. Qed.

Lemma csv_go_quoted l s field row :
  csv_go (doubled l ++ dquote :: s) Quoted field row = csv_go s QuoteSeen (rev l ++ field) row.
Proof.
  revert field. induction l as [|c l IH]; intros field; [done|].
  unfold doubled in *. cbn [mbind list_bind]. rewrite <-(assoc_L (++)).
  destruct (decide (c = dquote)) as [->|Hc].
  - cbn [app csv_go]. rewrite (decide_True (P := dquote = dquote)) by done. cbn -[app].
    rewrite IH. simpl. by rewrite <-(assoc_L (++)).
  - cbn [app csv_go]. rewrite decide_False by done. rewrite IH. simpl. by rewrite <-(assoc_L (++)).
Qed.

Lemma csv_go_cell c s row :
  csv_go (chars (csv_cell c) ++ s) FieldStart [] row = csv_go s QuoteSeen (rev (chars c)) row.
Proof.
  rewrite chars_csv_cell. cbn [app csv_go]. cbn -[app rev].
  rewrite <-(assoc_L (++)). cbn [app]. by rewrite csv_go_quoted, app_nil_r.
Qed.

Lemma chars_join sep l : chars (join sep l) = match l with
  | [] => [] | [s] => chars s | s :: l' => chars s ++ chars sep ++ chars (join sep l') end.
Proof. destruct l as [|s [|s' l]]; [done..|]. cbn [join]. by rewrite !chars_app. Qed.

Lemma csv_go_row fields s row :
  fields ≠ [] →
  csv_go (chars (join (of_chars [comma]) (csv_cell <$> fields)) ++ s) FieldStart [] row
  = csv_go s QuoteSeen (rev (chars (List.last fields ""))) (rev (List.removelast fields) ++ row).
Proof.
  revert row. induction fields as [|f fields IH]; intros row Hne; [done|].
  destruct fields as [|f' fields]; [apply csv_go_cell|].
  rewrite fmap_cons, chars_join. cbn [fmap list_fmap]. rewrite <-!(assoc_L (++)), csv_go_cell.
  rewrite chars_of_chars. cbn [app csv_go]. cbn -[csv_go fmap List.last List.removelast].
  rewrite rev_involutive, of_chars_chars.
  change (csv_cell f' :: (csv_cell <$> fields)) with (csv_cell <$> (f' :: fields)).
  rewrite IH by done. cbn [List.last List.removelast]. cbn [rev]. by rewrite <-(assoc_L (++)).
Qed.

Lemma fields_last fields : fields ≠ [] → rev (of_chars (rev (rev (chars (List.last fields "")))) :: rev (List.removelast fields)) = fields.
Proof.
  intros Hne. rewrite rev_involutive, of_chars_chars. cbn [rev]. rewrite rev_involutive.
  symmetry. by apply app_removelast_last.
Qed.

Definition csv_line (r : list string) : string := join (of_chars [comma]) (csv_cell <$> r).

Lemma csv_go_break r s :
  r ≠ [] → csv_go (chars (csv_line r) ++ line_feed :: s) FieldStart [] [] = cons r <$> csv_go s FieldStart [] [].
Proof.
  intros Hr. unfold csv_line. rewrite csv_go_row by done. cbn [csv_go].
  rewrite decide_False, decide_True by done. by rewrite app_nil_r, fields_last.
Qed.

(** A text of quoted rows. *)
Lemma csv_go_rows rows :
  Forall (λ r, r ≠ []) rows → rows ≠ [] →
  csv_go (chars (join (of_chars [line_feed]) (csv_line <$> rows))) FieldStart [] [] = Some rows.
Proof.
  induction 1 as [|r rows Hr Hrows IH]; intros Hne; [done|].
  rewrite fmap_cons, chars_join. destruct rows as [|r' rows].
  - cbn [fmap list_fmap]. rewrite <-(app_nil_r (chars _)). unfold csv_line. rewrite csv_go_row by done.
    cbn [csv_go]. by rewrite app_nil_r, fields_last.
  - rewrite fmap_cons, <-fmap_cons, chars_of_chars. cbn [app]. rewrite csv_go_break by done. by rewrite IH.
Qed.

Definition header_fields : list string := ["runId"; "jobId"; "state"; "taskId"; "taskStatus"; "attempt"; "error"].

Lemma csv_go_header s :
  csv_go (chars csv_header ++ line_feed :: s) FieldStart [] [] = cons header_fields <$> csv_go s FieldStart [] [].
Proof. done. Qed.

Lemma csv_read_toCsv wf : csv_read (toCsv wf) = Some (header_fields :: (row_fields <$> toRows wf)).
Proof.
  unfold csv_read, toCsv.
  assert ((λ r, join (of_chars [comma]) (csv_cell <$> row_fields r)) <$> toRows wf = csv_line <$> (row_fields <$> toRows wf))
    as -> by by rewrite <-list_fmap_compose.
  rewrite chars_join. destruct (row_fields <$> toRows wf) as [|r rows] eqn:E; [done|].
  rewrite fmap_cons, <-fmap_cons, chars_of_chars. cbn [app]. rewrite csv_go_header, csv_go_rows; [done| |done].
  rewrite <-E. apply Forall_fmap, Forall_true. done.
Qed.

(** ** Summaries and redaction *)

Lemma TaskStatus_string_inj s s' : TaskStatus_string s = TaskStatus_string s' → s = s'.
Proof. by destruct s, s'. Qed.

Definition count_status (s : TaskStatus) (ts : list TaskRun) : nat :=
  length (List.filter (λ t, bool_decide (status t = s)) ts).

Lemma status_counts_get s ts :
  default 0 (map_get (status_counts ts) (TaskStatus_string s)) = Z.of_nat (count_status s ts).
Proof.
  unfold status_counts, count_status.
  assert (∀ counts, default 0 (map_get (foldl (λ counts t, map_set counts (TaskStatus_string (status t))
      (default 0 (map_get counts (TaskStatus_string (status t))) + 1)) counts ts) (TaskStatus_string s))
    = default 0 (map_get counts (TaskStatus_string s))
      + Z.of_nat (length (List.filter (λ t, bool_decide (status t = s)) ts))) as Hgen; [|by rewrite Hgen].
  induction ts as [|t ts IH]; intros counts; [simpl; lia|]. cbn [foldl List.filter]. rewrite IH, map_get_set.
  case_bool_decide as Hs.
  - rewrite Hs, decide_True by done. cbn [from_option id length]. lia.
  - rewrite decide_False; [done|]. intros Heq. by apply Hs, TaskStatus_string_inj.
Qed.

Lemma toSummary_spec wf :
  sum_taskCount (toSummary wf) = Z.of_nat (length (wf_tasks wf))
  ∧ sum_succeeded (toSummary wf) = Z.of_nat (count_status TaskSucceeded (wf_tasks wf))
  ∧ sum_failed (toSummary wf) = Z.of_nat (count_status TaskFailed (wf_tasks wf)).
Proof. unfold toSummary. cbn [sum_taskCount sum_succeeded sum_failed]. by rewrite !status_counts_get. Qed.

Lemma record_get_delete k k' r :
  record_get (record_delete k r) k' = if decide (k' = k) then None else record_get r k'.
Proof.
  induction r as [|[x v] r IH]; [by case_decide|]. unfold record_delete in *. cbn [List.filter fst].
  destruct (bool_decide (x = k)) eqn:E; cbn [negb record_get].
  - apply bool_decide_eq_true in E as ->. rewrite IH. repeat case_decide; congruence.
  - apply bool_decide_eq_false in E. rewrite IH. repeat case_decide; congruence.
Qed.

(** The keys are gone from the context and the input; all else is kept. *)
Lemma redact_spec b keys k :
  record_get (context (bundle_workflow (redact b keys))) k
    = (if decide (k ∈ keys) then None else record_get (context (bundle_workflow b)) k)
  ∧ record_get (run_input (bundle_run (redact b keys))) k
    = (if decide (k ∈ keys) then None else record_get (run_input (bundle_run b)) k)
  ∧ set_context (bundle_workflow (redact b keys)) [] = set_context (bundle_workflow b) []
  ∧ set_run_input (bundle_run (redact b keys)) [] = set_run_input (bundle_run b) [].
Proof.
  unfold redact. revert b. induction keys as [|k0 keys IH]; intros b; [by rewrite decide_False by set_solver|].
  cbn [foldl]. destruct (IH (redact_key b k0)) as (-> & -> & -> & ->). cbn [redact_key bundle_workflow bundle_run set_context
    set_run_input context run_input]. rewrite !record_get_delete.
  repeat split; repeat case_decide; set_solver.
Qed.

(** ** Properties *)

(** What a row shows of a task: a missing error message and an empty one look
    the same. *)
Definition shown (r : RunExportRow) : RunExportRow :=
  mkExportRow (row_runId r) (row_jobId r) (row_state r) (row_taskId r) (row_taskStatus r) (row_attempt r)
    (Some (default "" (row_error r))).

(** C25: the CSV text of a run, read as RFC 4180 says, is the header and one
    record per task with the row's values, whatever quotes, commas and line
    breaks ids and error messages contain; so two runs with the same text have
    the same rows, up to a missing error message that is shown as empty. *)
Theorem csv_round_trip (wf : WorkflowInstance) :
  csv_read (toCsv wf) = Some (header_fields :: (row_fields <$> toRows wf))
  ∧ ∀ wf', toCsv wf' = toCsv wf → shown <$> toRows wf' = shown <$> toRows wf.
Proof.
  split; [apply csv_read_toCsv|]. intros wf' Heq. pose proof (csv_read_toCsv wf') as H1.
  rewrite Heq, csv_read_toCsv in H1. injection H1 as H1. revert H1.
  generalize (toRows wf) (toRows wf'). intros rs rs'. revert rs'.
  induction rs as [|r rs IH]; intros [|r' rs'] H1; try done. injection H1 as ? ? ? ? ? Ha ? H1.
  apply (inj pretty) in Ha. rewrite !fmap_cons, (IH rs' H1). f_equal. unfold shown. congruence.
Qed.
