(* ===== verification/JsonFiles.v ===== *)
(** * State kept as JSON (lib/run-serializer.ts, storage/file/)

    The bundle a run is exported as, the journal with one JSON text per line, and
    the snapshot file.  The file system ([node:fs/promises]) is a class: its
    calls reject or succeed, and the laws say what a later read returns. *)

From S2P Require Import Prelude JsString JsNum DomainTypes JsValue Json.
From Stdlib Require Import Ascii.
Open Scope Z_scope.

(** ** RunSerializer *)

Section serializer.
(** The [SyntaxError] of [JSON.parse] on a text. *)
Context (syntax_error : string → JsError).

(** [ident] identifies the bundle object. *)
Definition bundle_value (ident : N) (run workflow : jsval) (exportedAt : string) : jsval :=
  JObj ident [("version", JNum (num_of_Z 1)); ("run", run); ("workflow", workflow); ("exportedAt", JStr exportedAt)].

Definition serialize (run workflow : jsval) (now : string) : string :=
  default "" (stringify 2 (bundle_value 0 run workflow now)).

(** The parsed objects are new: they are numbered from [next]. *)
Definition deserialize (next : N) (raw : string) : res jsval :=
  match json_parse raw with
  | None => Throw (syntax_error raw)
  | Some j =>
      let parsed := (of_json next j).1 in
      match parsed with
      | JNull => Throw (TypeError "Cannot read properties of null (reading 'version')")
      | _ =>
          let version := get_property parsed "version" in
          if match version with JNum n => bool_decide (n = num_of_Z 1) | _ => false end then Ok parsed
          else s ← to_string version; Throw (PlainError ("unsupported bundle version " +:+ s))
      end
  end.
End serializer.

(** ** The file system *)

(** A promise that rejects with an error or resolves. *)
Notation settled A := (JsError + A)%type.
Notation Rejected e := (inl e).
Notation Resolved a := (inr a).

Class FileSystem (F : Type) := {
  resolve : string → string;
  dirname : string → string;
  (** [mkdir(path, { recursive: true })] *)
  mkdir : F → string → settled F;
  readFile : F → string → settled string;
  (** A text that is [undefined] is refused. *)
  writeFile : F → string → option string → settled F;
  appendFile : F → string → string → settled F;
}.

Class FileSystemLaws (F : Type) `{FileSystem F} := {
  (** No entry of that name. *)
  missing : F → string → Prop;
  read_missing fs p : missing fs p → ∃ e, readFile fs p = Rejected e;
  mkdir_missing fs p fs' : mkdir fs (dirname p) = Resolved fs' → missing fs (resolve p) → missing fs' (resolve p);
  read_mkdir fs d fs' p s : mkdir fs d = Resolved fs' → readFile fs p = Resolved s → readFile fs' p = Resolved s;
  read_write fs p s fs' : writeFile fs p (Some s) = Resolved fs' → readFile fs' p = Resolved s;
  (** A path is taken relative to the directory [resolve] starts from. *)
  read_append fs p t fs' s :
    appendFile fs p t = Resolved fs' → readFile fs (resolve p) = Resolved s → readFile fs' (resolve p) = Resolved (s +:+ t);
  read_append_missing fs p t fs' :
    appendFile fs p t = Resolved fs' → missing fs (resolve p) → readFile fs' (resolve p) = Resolved t;
}.

(** ** FileJournal *)

Definition line_feed : ascii := ascii_of_N 10.

Record JournalEntry : Type := mkEntry {
  entry_seq : Z;
  entry_type : string;
  entry_payload : jsrecord;
  entry_at : string;
}.

Definition entry_value (e : JournalEntry) : jsval :=
  JObj 0 [("seq", JNum (num_of_Z (entry_seq e))); ("type", JStr (entry_type e)); ("payload", JObj 1 (entry_payload e));
          ("at", JStr (entry_at e))].

Record FileJournal : Type := mkJournal { journal_path : string; journal_seq : Z }.

(** [new FileJournal(path)]. *)
Definition new_journal (path : string) : FileJournal := mkJournal path 0.

Section journal.
Context {F : Type} `{FileSystem F}.

(** The number is taken once the directory exists; it stays taken when the write
    is refused. *)
Definition append (j : FileJournal) (fs : F) (type : string) (payload : jsrecord) (now : string)
    : FileJournal * F * settled JournalEntry :=
  match mkdir fs (dirname (journal_path j)) with
  | Rejected e => (j, fs, Rejected e)
  | Resolved fs =>
      let j := mkJournal (journal_path j) (journal_seq j + 1) in
      let entry := mkEntry (journal_seq j) type payload now in
      match appendFile fs (journal_path j) (default "" (stringify 0 (entry_value entry)) +:+ of_chars [line_feed]) with
      | Rejected e => (j, fs, Rejected e)
      | Resolved fs => (j, fs, Resolved entry)
      end
  end.

Definition readAll (j : FileJournal) (fs : F) : list json :=
  match readFile fs (resolve (journal_path j)) with
  | Rejected _ => []
  | Resolved raw => default [] (mapM json_parse (List.filter truthy_string (split raw line_feed)))
  end.

(** ** FileSnapshotStore *)

Definition snapshot_save (path : string) (fs : F) (state : jsval) : F * settled unit :=
  match mkdir fs (dirname path) with
  | Rejected e => (fs, Rejected e)
  | Resolved fs =>
      match writeFile fs (resolve path) (stringify 2 state) with
      | Rejected e => (fs, Rejected e)
      | Resolved fs => (fs, Resolved ())
      end
  end.

Definition snapshot_load (path : string) (next : N) (fs : F) : option jsval :=
  match readFile fs (resolve path) with
  | Rejected _ => None
  | Resolved raw => (λ j, (of_json next j).1) <$> json_parse raw
  end.
End journal.

(** ** Lines *)

Lemma split_chars_app c l r cur : split_chars c (l ++ c :: r) cur = split_chars c l cur ++ split_chars c r [].
Proof.
  revert cur. induction l as [|d l IH]; intros cur; cbn; [by rewrite decide_True|].
  case_decide; cbn; by rewrite IH.
Qed.

Lemma split_chars_single c l cur : Forall (λ d, d ≠ c) l → split_chars c l cur = [rev cur ++ l].
Proof.
  intros Hl. revert cur. induction Hl as [|d l Hd _ IH]; intros cur; cbn; [by rewrite app_nil_r|].
  rewrite decide_False by done. rewrite IH. cbn. by rewrite <-(assoc_L (++)).
Qed.

Lemma mapM_option_app {A B} (f : A → option B) l k :
  mapM f (l ++ k) = (x ← mapM f l; y ← mapM f k; Some (x ++ y)).
Proof.
  induction l as [|a l IH]; cbn; [by destruct (mapM f k)|]. destruct (f a); [|done]. cbn. rewrite IH.
  destruct (mapM f l); [|done]. cbn. by destruct (mapM f k).
Qed.

(** The values of the lines of a text, empty lines aside. *)
Definition parse_lines (text : string) : option (list json) :=
  mapM json_parse (List.filter truthy_string (split text line_feed)).

(** Nothing, or text whose last line is ended. *)
Definition ended (text : string) : Prop := text = "" ∨ ∃ t, text = t +:+ of_chars [line_feed].

Lemma parse_lines_app s t :
  ended s → parse_lines (s +:+ t) = (es ← parse_lines s; es' ← parse_lines t; Some (es ++ es')).
Proof.
  unfold parse_lines, split. intros [->|[s' ->]]; [cbn; by destruct (mapM _ _)|].
  rewrite !chars_app, chars_of_chars, <-(assoc_L (++)). cbn [app]. rewrite !split_chars_app. cbn [split_chars].
  rewrite !fmap_app, !List.filter_app, mapM_option_app. cbn [fmap list_fmap List.filter rev]. cbn. by rewrite app_nil_r.
Qed.

(** Compact text has no line feed: strings escape it. *)
Lemma no_line_feed_string s : Forall (λ c, c ≠ line_feed) (print_string s).
Proof.
  unfold print_string. constructor; [done|]. apply Forall_app. split; [|by repeat constructor].
  induction (chars s) as [|c l IH]; [constructor|]. cbn [mbind list_bind]. apply Forall_app. split; [|done].
  destruct c as [[] [] [] [] [] [] [] []]; cbv; repeat constructor; discriminate.
Qed.

Lemma no_line_feed_seq {A} (pr : A → list ascii) depth l :
  Forall (λ a, Forall (λ c, c ≠ line_feed) (pr a)) l → Forall (λ c, c ≠ line_feed) (print_seq 0 pr depth l).
Proof.
  induction 1 as [|a l Ha _ IH]; [constructor|]. rewrite <-(app_nil_r (print_seq _ _ _ _)).
  destruct l as [|a' l]; rewrite ?print_seq_one, ?print_seq_cons, !app_nil_r; [done|].
  cbn [break Nat.eqb app]. apply Forall_app. by repeat constructor.
Qed.

Lemma no_line_feed depth j : printable j = true → Forall (λ c, c ≠ line_feed) (print_json 0 depth j).
Proof.
  revert depth. induction j as [|b|n|s|l Hl|fs Hfs] using json_induction; intros depth Hp.
  - cbv. repeat constructor; discriminate.
  - destruct b; cbv; repeat constructor; discriminate.
  - cbn in *. unfold number_ok in Hp. apply andb_true_iff in Hp as [[Hc _]%andb_true_iff _].
    rewrite List.forallb_forall in Hc. apply Forall_forall. intros c Hin%list_elem_of_In ->. by apply Hc in Hin.
  - apply no_line_feed_string.
  - destruct l as [|j l]; [cbv; repeat constructor; discriminate|].
    rewrite <-(app_nil_r (print_json _ _ _)), print_array_app. constructor; [done|]. apply Forall_app.
    split; [|by repeat constructor]. apply no_line_feed_seq. cbn [printable] in Hp. rewrite List.forallb_forall in Hp.
    rewrite Forall_forall in Hl |- *. intros a Ha. apply Hl; [done|]. by apply Hp, list_elem_of_In.
  - destruct fs as [|kv fs]; [cbv; repeat constructor; discriminate|].
    rewrite <-(app_nil_r (print_json _ _ _)), print_object_app. constructor; [done|]. apply Forall_app.
    split; [|by repeat constructor]. apply no_line_feed_seq. cbn [printable] in Hp.
    apply andb_true_iff in Hp as [_ Hp]. rewrite List.forallb_forall in Hp.
    rewrite Forall_forall in Hfs |- *. intros a Ha. repeat (apply Forall_app; split).
    + apply no_line_feed_string.
    + by repeat constructor.
    + apply Hfs; [done|]. by apply Hp, list_elem_of_In.
Qed.

Definition line_of (j : json) : string := of_chars (print_json 0 0 j) +:+ of_chars [line_feed].

Lemma parse_line_of j : printable j = true → parse_lines (line_of j) = Some [j].
Proof.
  intros Hj. unfold parse_lines, split, line_of. rewrite chars_app, !chars_of_chars, split_chars_app.
  rewrite split_chars_single by by apply no_line_feed. cbn [rev app split_chars fmap list_fmap List.filter].
  assert (truthy_string (of_chars (print_json 0 0 j)) = true) as ->.
  { destruct (print_opens 0 0 j Hj) as (c & l & -> & _). done. }
  change (truthy_string (of_chars [])) with false. cbn [mapM mbind option_bind].
  change (mapM ?f [?a]) with (b ← f a; Some [b]). by rewrite json_round_trip.
Qed.

(** ** The journal on the file system *)

(** What one [append] writes of an entry. *)
Definition entry_json (e : JournalEntry) : json := default JsonNull (to_json (entry_value e)).

Lemma stringify_entry e : default "" (stringify 0 (entry_value e)) = of_chars (print_json 0 0 (entry_json e)).
Proof. done. Qed.

Section journal_laws.
Context {F : Type} `{FileSystemLaws F}.

(** The file of the journal is missing or holds the lines of [es]. *)
Definition holds (path : string) (fs : F) (es : list json) : Prop :=
  (missing fs (resolve path) ∧ es = [])
  ∨ ∃ text, readFile fs (resolve path) = Resolved text ∧ ended text ∧ parse_lines text = Some es.

Lemma readAll_holds j fs es : holds (journal_path j) fs es → readAll j fs = es.
Proof.
  unfold readAll. intros [[Hm ->]|(text & -> & _ & Ht)].
  - by destruct (read_missing _ _ Hm) as [e ->].
  - unfold parse_lines in Ht. by rewrite Ht.
Qed.

Lemma append_holds j fs type payload now j' fs' e es :
  append j fs type payload now = (j', fs', Resolved e) →
  printable (entry_json e) = true →
  holds (journal_path j) fs es →
  j' = mkJournal (journal_path j) (journal_seq j + 1)
  ∧ e = mkEntry (journal_seq j + 1) type payload now
  ∧ holds (journal_path j) fs' (es ++ [entry_json e]).
Proof.
  unfold append. destruct (mkdir fs _) as [|fs1] eqn:Hd; [done|]. rewrite stringify_entry.
  destruct (appendFile fs1 _ _) as [|fs2] eqn:Ha; [done|]. intros [= <- <- <-] Hp Hes. split; [done|split; [done|]].
  right. cbn [journal_path journal_seq] in Ha. change (appendFile fs1 (journal_path j) (line_of (entry_json
    (mkEntry (journal_seq j + 1) type payload now))) = Resolved fs2) in Ha.
  set (e := mkEntry (journal_seq j + 1) type payload now) in *.
  destruct Hes as [[Hm ->]|(text & Hr & He & Ht)].
  - exists (line_of (entry_json e)). split; [|split].
    + eapply read_append_missing; [done|]. by eapply mkdir_missing.
    + right. by eexists.
    + by apply parse_line_of.
  - exists (text +:+ line_of (entry_json e)). split; [|split].
    + eapply read_append; [done|]. by eapply read_mkdir.
    + right. exists (text +:+ of_chars (print_json 0 0 (entry_json e))). unfold line_of.
      rewrite <-(of_chars_chars text), <-!of_chars_app. by rewrite (assoc_L (++)).
    + rewrite parse_lines_app, Ht, parse_line_of by done. done.
Qed.
End journal_laws.

(** A sequence of appends, each of which succeeds. *)
Inductive appends {F : Type} `{FileSystem F} : FileJournal → F → list JournalEntry → FileJournal → F → Prop :=
| appends_nil j fs : appends j fs [] j fs
| appends_cons j fs type payload now j' fs' e l j'' fs'' :
    append j fs type payload now = (j', fs', Resolved e) →
    appends j' fs' l j'' fs'' → appends j fs (e :: l) j'' fs''.

Lemma appends_read {F : Type} `{FileSystemLaws F} j fs l j' fs' es :
  appends j fs l j' fs' →
  forallb (λ e, printable (entry_json e)) l = true →
  holds (journal_path j) fs es →
  readAll j' fs' = es ++ (entry_json <$> l)
  ∧ entry_seq <$> l = (λ n, journal_seq j + 1 + Z.of_nat n) <$> seq 0 (length l).
Proof.
  intros Hl. revert es. induction Hl as [j fs|j fs type payload now j' fs' e l j'' fs'' He _ IH]; intros es Hp Hes.
  - cbn. rewrite app_nil_r. split; [by apply readAll_holds|done].
  - cbn [forallb] in Hp. apply andb_true_iff in Hp as [Hpe Hp].
    destruct (append_holds _ _ _ _ _ _ _ _ _ He Hpe Hes) as (-> & -> & Hes').
    destruct (IH _ Hp Hes') as [-> Hseq]. split; [by rewrite <-(assoc_L (++))|].
    cbn [length seq]. rewrite !fmap_cons, Hseq, <-fmap_S_seq, <-list_fmap_compose. cbn [entry_seq journal_seq].
    f_equal; [by rewrite Z.add_0_r|]. apply list_fmap_ext. intros i n _. cbn [compose]. lia.
Qed.

(** A file system of one directory, in which every call succeeds. *)
#[export] Instance plain_files : FileSystem (string → option string) := {|
  resolve p := p;
  dirname p := ".";
  mkdir fs _ := inr fs;
  readFile fs p := match fs p with Some s => inr s | None => inl (PlainError "ENOENT") end;
  writeFile fs p s :=
    match s with
    | Some s => inr (λ q, if decide (q = p) then Some s else fs q)
    | None => inl (TypeError "ERR_INVALID_ARG_TYPE")
    end;
  appendFile fs p t := inr (λ q, if decide (q = p) then Some (default "" (fs p) +:+ t) else fs q);
|}.

#[export, refine] Instance plain_files_laws : FileSystemLaws (string → option string) := {|
  missing fs p := fs p = None;
|}.
Proof.
  - intros fs p Hm. cbn. rewrite Hm. by eexists.
  - by intros fs p fs' [= <-].
  - by intros fs d fs' p s [= <-].
  - intros fs p s fs' [= <-]. cbn. by rewrite decide_True.
  - intros fs p t fs' s [= <-]. cbn. rewrite decide_True by done. by destruct (fs p) as [s'|]; intros [= ->].
  - intros fs p t fs' [= <-]. cbn. intros ->. by rewrite decide_True.
Defined.

(** One line that is not JSON hides every entry of the file. *)
Lemma readAll_loses_all {F : Type} `{FileSystem F} j (fs : F) text line :
  readFile fs (resolve (journal_path j)) = Resolved text →
  line ∈ split text line_feed → line ≠ "" → json_parse line = None → readAll j fs = [].
Proof.
  unfold readAll. intros -> Hin Hne Hline. enough (mapM json_parse (List.filter truthy_string (split text line_feed)) = None)
    as -> by done.
  apply mapM_None_2, Exists_exists. exists line. split; [|done].
  apply list_elem_of_In, List.filter_In. split; [by apply list_elem_of_In|by apply truthy_string_true].
Qed.

(** ** Bundles and snapshots *)

Lemma stringify_parse gap v j :
  to_json v = Some j → printable j = true → json_parse (default "" (stringify gap v)) = Some j.
Proof. intros Hv Hj. unfold stringify. rewrite Hv. cbn [fmap option_fmap option_map default]. by apply json_round_trip. Qed.

Definition bundle_json (run workflow : json) (exportedAt : string) : json :=
  JsonObj [("version", JsonNum (num_of_Z 1)); ("run", run); ("workflow", workflow); ("exportedAt", JsonStr exportedAt)].

(** A run and its workflow, exported and read back, print the same. *)
Lemma serialize_deserialize syntax_error next run workflow now jr jw :
  to_json run = Some jr → to_json workflow = Some jw → printable jr = true → printable jw = true →
  ∃ v, deserialize syntax_error next (serialize run workflow now) = Ok v
    ∧ to_json v = Some (bundle_json jr jw now).
Proof.
  intros Hr Hw Hpr Hpw. assert (to_json (bundle_value 0 run workflow now) = Some (bundle_json jr jw now)) as Hb.
  { cbn. by rewrite Hr, Hw. }
  assert (printable (bundle_json jr jw now) = true) as Hp.
  { cbn [bundle_json printable forallb snd fmap list_fmap fst]. rewrite Hpr, Hpw. by vm_compute. }
  unfold deserialize, serialize. rewrite (stringify_parse _ _ _ Hb Hp). pose proof (to_json_of_json _ next Hp) as Hv.
  unfold bundle_json in *. cbn [of_json] in *.
  destruct (of_json (N.succ next) jr) as [vr n1], (of_json n1 jw) as [vw n2]. cbn [fst] in *.
  eexists. split; [|exact Hv]. done.
Qed.

(** Another version is refused, by name. *)
Lemma deserialize_version syntax_error next raw v :
  deserialize syntax_error next raw = Ok v → get_property v "version" = JNum (num_of_Z 1).
Proof.
  unfold deserialize. destruct (json_parse raw) as [j|]; [|done]. destruct (of_json next j).1 eqn:E; try done; intros Hd.
  all: match type of Hd with (if ?c then _ else _) = _ => destruct c eqn:Hc end;
    [injection Hd as <-|by destruct (to_string _)].
  all: destruct (get_property _ _) eqn:E'; try done; by apply bool_decide_eq_true in Hc as ->.
Qed.

(** A saved state is what the next [load] returns; no file, no state. *)
Lemma snapshot_save_load {F : Type} `{FileSystemLaws F} path (fs fs' : F) state j next :
  to_json state = Some j → printable j = true →
  snapshot_save path fs state = (fs', Resolved ()) →
  ∃ v, snapshot_load path next fs' = Some v ∧ to_json v = Some j.
Proof.
  intros Hj Hp. unfold snapshot_save. destruct (mkdir fs _) as [|fs1]; [done|].
  destruct (stringify 2 state) as [text|] eqn:Ht; [|by unfold stringify in Ht; rewrite Hj in Ht].
  destruct (writeFile fs1 _ _) as [|fs2] eqn:Hw; [done|]. intros [= <-]. unfold snapshot_load.
  rewrite (read_write _ _ _ _ Hw). pose proof (stringify_parse 2 _ _ Hj Hp) as Hs. rewrite Ht in Hs. change (default "" (Some text)) with text in Hs.
  rewrite Hs. eexists. split; [reflexivity|]. by apply to_json_of_json.
Qed.

Lemma snapshot_load_missing {F : Type} `{FileSystemLaws F} path (fs : F) next :
  missing fs (resolve path) → snapshot_load path next fs = None.
Proof. unfold snapshot_load. intros Hm. by destruct (read_missing _ _ Hm) as [e ->]. Qed.

(** ** Properties *)

(** C30: what a journal returned from its appends, it reads back: opened on a file
    that is missing or holds the lines [es], and after any number of appends
    that succeed, [readAll] is [es] and then the entries, in order; the entries
    are numbered from 1, whatever the file held when the journal was opened. *)
Theorem journal_reads_back {F : Type} `{FileSystemLaws F} (path : string) (fs : F) (es : list json)
    (l : list JournalEntry) (j : FileJournal) (fs' : F) :
  holds path fs es →
  appends (new_journal path) fs l j fs' →
  forallb (λ e, printable (entry_json e)) l = true →
  readAll j fs' = es ++ (entry_json <$> l)
  ∧ entry_seq <$> l = (λ n, 1 + Z.of_nat n) <$> seq 0 (length l).
Proof. intros Hes Hl Hp. by apply (appends_read (new_journal path) fs l j fs' es Hl Hp Hes). Qed.

Lemma journal_reads_back_witness :
  let es := [JsonObj [("seq", JsonNum (num_of_Z 1))]] in
  let e1 := mkEntry 1 "run.started" [("note", JStr ("a" +:+ of_chars [line_feed; json_quote] +:+ "b"))] "t1" in
  let e2 := mkEntry 2 "run.done" [("ok", JBool true); ("n", JNum (num_of_Z 7)); ("l", JArr 5 [JNull])] "t2" in
  let fs : string → option string := λ p, if decide (p = "j") then Some (line_of (JsonObj [("seq", JsonNum (num_of_Z 1))])) else None in
  ∃ (j : FileJournal) (fs' : string → option string),
    appends (new_journal "j") fs [e1; e2] j fs'
    ∧ readAll j fs' = es ++ [entry_json e1; entry_json e2]
    ∧ [1; 2] = (λ n, 1 + Z.of_nat n) <$> seq 0 2.
Proof.
  intros es e1 e2 fs.
  assert (∃ j fs', appends (new_journal "j") fs [e1; e2] j fs') as (j & fs' & Hl).
  { eexists _, _. eapply appends_cons; [reflexivity|]. eapply appends_cons; [reflexivity|]. apply appends_nil. }
  exists j, fs'. split; [done|]. apply (journal_reads_back "j" fs es [e1; e2] j fs'); [|done|vm_compute; reflexivity].
  right. exists (line_of (JsonObj [("seq", JsonNum (num_of_Z 1))])). split; [reflexivity|].
  split; [right; by eexists|by apply parse_line_of].
Defined.
