(* ===== verification/Analytics.v ===== *)
(** * Analytics, reports and the dashboard (analytics/, reporting/, services/analytics-service.ts)

    A time that does not parse is [NaN]: [None] here.  Objects used as tables
    are maps, which they are for keys that [Object.prototype] does not have:
    task statuses, the names of registered handlers and the identifiers of jobs. *)

From S2P Require Import Prelude JsMap JsString JsNum JsDate JsSort DomainTypes JsValue Domain Stores Engine Export.
Open Scope Z_scope.

(** ** Tables *)

Section tables.
Context {K V A : Type} `{EqDecision K}.
Context (key : A → K) (f : V → A → V) (d : V).

(** [const v = m[key(a)] ?? d; m[key(a)] = f(v, a)] for every [a]. *)
Definition tally_step (m : jsmap K V) (a : A) : jsmap K V :=
  map_set m (key a) (f (default d (map_get m (key a))) a).
Definition tally (l : list A) : jsmap K V := foldl tally_step [] l.

Definition group (k : K) (l : list A) : list A := List.filter (λ a, bool_decide (key a = k)) l.

Lemma tally_get_from m l k :
  map_get (foldl tally_step m l) k =
    match group k l with [] => map_get m k | g => Some (foldl f (default d (map_get m k)) g) end.
Proof.
  revert m. induction l as [|a l IH]; intros m; [done|]. cbn [foldl]. rewrite IH. unfold tally_step, group.
  cbn [List.filter]. rewrite map_get_set. case_bool_decide as Hk.
  - rewrite decide_True by done. cbn [default from_option id]. destruct (List.filter _ l); cbn; by rewrite ?Hk.
  - by rewrite decide_False by congruence.
Qed.

Lemma tally_get l k :
  map_get (tally l) k = match group k l with [] => None | g => Some (foldl f d g) end.
Proof. apply tally_get_from. Qed.

Lemma tally_ok l : map_ok (tally l).
Proof.
  unfold tally. assert (∀ m, map_ok m → map_ok (foldl tally_step m l)) as Hg; [|apply Hg, NoDup_nil_2].
  induction l as [|a l IH]; intros m Hm; [done|]. by apply IH, map_set_ok.
Qed.

Lemma tally_keys l k : k ∈ map_keys (tally l) ↔ k ∈ key <$> l.
Proof.
  rewrite <-map_get_is_Some, tally_get, list_elem_of_fmap. split.
  - intros [v Hv]. destruct (group k l) as [|a g] eqn:Hg; [done|].
    assert (a ∈ group k l) as Ha by (rewrite Hg; left).
    apply list_elem_of_In, List.filter_In in Ha as [Ha Hk]. apply bool_decide_eq_true in Hk.
    exists a. split; [done|]. by apply list_elem_of_In.
  - intros (a & -> & Ha). destruct (group (key a) l) eqn:Hg; [|done].
    assert (a ∈ group (key a) l) as Hin; [|rewrite Hg in Hin; by apply elem_of_nil in Hin].
    apply list_elem_of_In, List.filter_In. split; [by apply list_elem_of_In|by apply bool_decide_eq_true].
Qed.
End tables.

(** ** Times *)

(** [s ? new Date(s).getTime() : other]. *)
Definition time_or (s : option string) (other : option Z) : option Z :=
  match s with Some s => if truthy_string s then parse_iso s else other | None => other end.

Definition time_minus (a b : option Z) : option Z := a ← a; b ← b; Some (a - b).
Definition time_plus (a b : option Z) : option Z := a ← a; b ← b; Some (a + b).
Definition time_num (a : option Z) : num := match a with Some z => num_of_Z z | None => num_nan end.

(** ** Summaries of a run (analytics/run-analytics.ts) *)

Record HandlerCount : Type := mkHandlerCount { hc_count : Z; hc_failed : Z }.

Record RunAnalyticsSummary : Type := mkAnalytics {
  as_runId : string;
  totalTasks : Z;
  succeeded : Z;
  failed : Z;
  retrying : Z;
  averageAttempts : num;
  criticalPathMs : num;
  handlerBreakdown : jsmap string HandlerCount;
}.

Definition is_status (s : TaskStatus) (t : TaskRun) : Z := if bool_decide (status t = s) then 1 else 0.

Definition count_handler (h : HandlerCount) (t : TaskRun) : HandlerCount :=
  mkHandlerCount (hc_count h + 1) (hc_failed h + is_status TaskFailed t).

(** What the loop of [summarize] accumulates. *)
Record summary_loop : Type := mkLoop {
  lp_breakdown : jsmap string HandlerCount;
  lp_succeeded : Z;
  lp_failed : Z;
  lp_retrying : Z;
  lp_attempts : Z;
}.

Definition summary_step (s : summary_loop) (t : TaskRun) : summary_loop :=
  mkLoop (tally_step tr_handler count_handler (mkHandlerCount 0 0) (lp_breakdown s) t)
    (lp_succeeded s + is_status TaskSucceeded t) (lp_failed s + is_status TaskFailed t)
    (lp_retrying s + is_status TaskRetrying t) (lp_attempts s + attempt t).

Definition estimateCriticalPath (workflow : WorkflowInstance) : option Z :=
  foldl (λ sum t,
    let start := time_or (tr_startedAt t) (Some 0) in
    let end_ := time_or (tr_finishedAt t) start in
    time_plus sum (Z.max 0 <$> time_minus end_ start)) (Some 0) (wf_tasks workflow).

Definition summarize (workflow : WorkflowInstance) : RunAnalyticsSummary :=
  let s := foldl summary_step (mkLoop [] 0 0 0 0) (wf_tasks workflow) in
  let n := length (wf_tasks workflow) in
  mkAnalytics (wf_runId workflow) (Z.of_nat n) (lp_succeeded s) (lp_failed s) (lp_retrying s)
    (if (0 <? n)%nat then num_div (num_of_Z (lp_attempts s)) (num_of_Z (Z.of_nat n)) else num_zero)
    (time_num (estimateCriticalPath workflow)) (lp_breakdown s).

(** ** Time series (analytics/time-series.ts) *)

Record TimeSeriesPoint : Type := mkPoint { ts : string; value : num }.

Definition TimeSeriesBuffer : Type := jsmap string (list TimeSeriesPoint).

Definition points (name : string) (b : TimeSeriesBuffer) : list TimeSeriesPoint := default [] (map_get b name).

Section buffer.
Context (maxPoints : nat).

Definition record (name : string) (v : num) (at_ : string) (b : TimeSeriesBuffer) : TimeSeriesBuffer :=
  let list_ := points name b ++ [mkPoint at_ v] in
  map_set b name (if (maxPoints <? length list_)%nat then tail list_ else list_).
End buffer.

Definition series_get (name : string) (since : option string) (b : TimeSeriesBuffer) : list TimeSeriesPoint :=
  if truthy_opt since then List.filter (λ p, string_leb (default "" since) (ts p)) (points name b)
  else points name b.

Record bucket : Type := mkBucket { bk_sum : num; bk_count : Z }.

Definition bucket_add (b : bucket) (p : Z * TimeSeriesPoint) : bucket :=
  mkBucket (num_add (bk_sum b) (value p.2)) (bk_count b + 1).

(** [Math.floor(t / bucketMs) * bucketMs]. *)
Definition bucket_key (bucketMs : Z) (p : Z * TimeSeriesPoint) : Z := p.1 / bucketMs * bucketMs.

(** The points with their times; [None] when a time does not parse, whose bucket
    [toISOString] then refuses to print, as it does those of a width of 0. *)
Definition timed (ps : list TimeSeriesPoint) : option (list (Z * TimeSeriesPoint)) :=
  mapM (λ p, t ← parse_iso (ts p); Some (t, p)) ps.

Definition rollup (name : string) (bucketMs : Z) (b : TimeSeriesBuffer) : option (list TimeSeriesPoint) :=
  ps ← timed (points name b);
  _ ← (if bool_decide (bucketMs = 0 ∧ ps ≠ []) then None else Some tt);
  let buckets := tally (bucket_key bucketMs) bucket_add (mkBucket num_zero 0) ps in
  Some ((λ kv : Z * bucket, mkPoint (toISOString kv.1) (num_div (bk_sum kv.2) (num_of_Z (bk_count kv.2))))
          <$> js_sort (λ a b : Z * bucket, a.1 - b.1) buckets).

(** ** Reports (reporting/run-report-builder.ts) *)

Record RunReport : Type := mkReport {
  rp_runId : string;
  rp_jobId : string;
  rp_jobName : string;
  rp_state : WorkflowState;
  durationMs : num;
  taskSummary : jsmap string Z;
  failures : list (string * string * Z);
  timeline : list (string * string * WorkflowState * WorkflowState);
}.

(** [now_] is [Date.now()]. *)
Definition build_report (workflow : WorkflowInstance) (definition : JobDefinition) (finishedAt : option string)
    (now_ : Z) : RunReport :=
  let started := parse_iso (wf_createdAt workflow) in
  let ended := time_or finishedAt (Some now_) in
  mkReport (wf_runId workflow) (wf_jobId workflow) (jd_name definition) (state workflow)
    (time_num (time_minus ended started)) (status_counts (wf_tasks workflow))
    ((λ t, (definitionTaskId t, default "unknown" (errorMessage t), attempt t)) <$>
       List.filter (λ t, bool_decide (status t = TaskFailed) || bool_decide (status t = TaskRetrying)) (wf_tasks workflow))
    ((λ h, (he_at h, he_event h, he_from h, he_to h)) <$> history workflow).

(** ** The dashboard (reporting/tenant-dashboard.ts) *)

Record JobCount : Type := mkJobCount { jc_runs : Z; jc_failed : Z }.

Record TenantDashboardStats : Type := mkStats {
  activeRuns : Z;
  completedToday : Z;
  failedToday : Z;
  averageDurationMs : num;
  byJob : jsmap string JobCount;
}.

Definition has_status (s : WorkflowState) (r : JobRun) : bool := bool_decide (run_status r = s).

Definition count_run (c : JobCount) (r : JobRun) : JobCount :=
  mkJobCount (jc_runs c + 1) (jc_failed c + if has_status Failed r then 1 else 0).

Definition started_since (since : option Z) (r : JobRun) : bool :=
  match parse_iso (run_startedAt r), since with Some t, Some s => s <=? t | _, _ => false end.

(** The durations of the finished runs: their sum and their number. *)
Definition add_duration (acc : option Z * Z) (r : JobRun) : option Z * Z :=
  if truthy_opt (run_finishedAt r)
  then (time_plus acc.1 (time_minus (time_or (run_finishedAt r) None) (parse_iso (run_startedAt r))), acc.2 + 1)
  else acc.

Definition aggregate (runs : list JobRun) (sinceIso : string) : TenantDashboardStats :=
  let recent := List.filter (started_since (parse_iso sinceIso)) runs in
  let '(totalDuration, durationCount) := foldl add_duration (Some 0, 0) recent in
  let active := List.filter (λ r, has_status Pending r || has_status Running r || has_status Waiting r) runs in
  mkStats (Z.of_nat (length active))
    (Z.of_nat (length (List.filter (has_status Completed) recent)))
    (Z.of_nat (length (List.filter (has_status Failed) recent)))
    (if 0 <? durationCount then num_round (num_div (time_num totalDuration) (num_of_Z durationCount)) else num_zero)
    (tally run_jobId count_run (mkJobCount 0 0) recent).

(** ** The service (services/analytics-service.ts) *)

Section service.
Context {JS WS RS : Type} `{JobDefinitionStore JS} `{WorkflowStore WS} `{RunStore RS} `{Environment}.
Notation world := (world JS WS RS).

Definition default_points : nat := Z.to_nat 10000.

Definition record_now (name : string) (v : num) : eff (world * TimeSeriesBuffer) unit := λ s,
  (Ok tt, (with_ticks (S (w_ticks s.1)) s.1, record default_points name v (nowIso (w_ticks s.1)) s.2)).

Definition summarizeRun (runId : string) : eff (world * TimeSeriesBuffer) RunAnalyticsSummary :=
  wf ← (λ s, let '(o, w) := getWorkflowByRun runId s.1 in (o, (w, s.2)));
  let summary := summarize wf in
  _ ← record_now "run.duration_ms" (criticalPathMs summary);
  _ ← record_now "run.failed_tasks" (num_of_Z (failed summary));
  mret summary.

Definition timeSeries (name : string) (since : option string) (b : TimeSeriesBuffer) : list TimeSeriesPoint :=
  series_get name since b.
End service.

(** ** Properties *)

(** The buffer after a sequence of recordings of name, value and time. *)
Definition recorded (maxPoints : nat) (l : list (string * num * string)) : TimeSeriesBuffer :=
  foldl (λ b r, record maxPoints r.1.1 r.1.2 r.2 b) [] l.

Definition recorded_for (name : string) (l : list (string * num * string)) : list TimeSeriesPoint :=
  (λ r : string * num * string, mkPoint r.2 r.1.2) <$> List.filter (λ r, bool_decide (r.1.1 = name)) l.

Definition keep_last {A} (n : nat) (l : list A) : list A := drop (length l - n) l.

Lemma keep_last_snoc {A} n (l : list A) a :
  keep_last n (l ++ [a]) =
    let k := keep_last n l ++ [a] in if (n <? length k)%nat then tail k else k.
Proof.
  unfold keep_last. cbv zeta. rewrite !length_app, length_drop. cbn [length].
  destruct (Nat.ltb_spec n (length l - (length l - n) + 1)) as [Hlt|Hge].
  - destruct (decide (length l < n)%nat); [lia|]. replace (length l + 1 - n)%nat with (S (length l - n)) by lia.
    rewrite <-drop_app_le by lia. destruct (drop (length l - n) (l ++ [a])) as [|x k] eqn:Hk.
    + apply (f_equal length) in Hk. rewrite length_drop, length_app in Hk. cbn in Hk. lia.
    + cbn. replace (S (length l - n)) with (length l - n + 1)%nat by lia. by rewrite <-drop_drop, Hk.
  - replace (length l - n)%nat with O by lia. by replace (length l + 1 - n)%nat with O by lia.
Qed.

Lemma recorded_snoc maxPoints l r name :
  points name (recorded maxPoints (l ++ [r])) =
    if decide (r.1.1 = name)
    then let k := points name (recorded maxPoints l) ++ [mkPoint r.2 r.1.2] in
         if (maxPoints <? length k)%nat then tail k else k
    else points name (recorded maxPoints l).
Proof.
  unfold recorded. rewrite foldl_snoc. cbn. unfold record at 1, points at 1. rewrite map_get_set.
  destruct (decide (r.1.1 = name)) as [<-|]; done.
Qed.

(** The buffer holds the last points of every name. *)
Lemma points_recorded maxPoints l name :
  points name (recorded maxPoints l) = keep_last maxPoints (recorded_for name l).
Proof.
  induction l as [|r l IH] using rev_ind; [done|]. rewrite recorded_snoc. unfold recorded_for.
  rewrite List.filter_app, fmap_app. cbn [List.filter]. case_bool_decide as Hn.
  - rewrite decide_True by done. cbn [fmap list_fmap]. rewrite keep_last_snoc, IH. done.
  - rewrite decide_False, app_nil_r by done. apply IH.
Qed.

Lemma summary_loop_eq l s :
  foldl summary_step s l =
    mkLoop (foldl (tally_step tr_handler count_handler (mkHandlerCount 0 0)) (lp_breakdown s) l)
      (lp_succeeded s + Z.of_nat (count_status TaskSucceeded l)) (lp_failed s + Z.of_nat (count_status TaskFailed l))
      (lp_retrying s + Z.of_nat (count_status TaskRetrying l)) (lp_attempts s + total_attempts l).
Proof.
  assert (∀ st t l, is_status st t + Z.of_nat (count_status st l) = Z.of_nat (count_status st (t :: l))) as Hc.
  { intros st t k. unfold is_status, count_status. cbn [List.filter]. case_bool_decide; cbn [length]; lia. }
  assert (∀ k z, foldl (λ s t, s + attempt t) z k = z + foldl (λ s t, s + attempt t) 0 k) as Ht.
  { induction k as [|t k IH]; intros z; cbn [foldl]; [lia|]. rewrite (IH (z + attempt t)), (IH (0 + attempt t)). lia. }
  revert s. induction l as [|t l IH]; intros s; cbn [foldl].
  - unfold count_status, total_attempts. cbn. destruct s; cbn. f_equal; lia.
  - rewrite IH. cbn [lp_breakdown lp_succeeded lp_failed lp_retrying lp_attempts summary_step]. rewrite <-!Hc.
    unfold total_attempts. cbn [foldl]. rewrite (Ht l (0 + attempt t)). f_equal; lia.
Qed.

Lemma count_handler_fold g c :
  foldl count_handler c g =
    mkHandlerCount (hc_count c + Z.of_nat (length g)) (hc_failed c + Z.of_nat (count_status TaskFailed g)).
Proof.
  revert c. induction g as [|t g IH]; intros c; cbn [foldl].
  - unfold count_status. cbn. destruct c; cbn. f_equal; lia.
  - rewrite IH. unfold count_handler, count_status, is_status. cbn [hc_count hc_failed List.filter length].
    case_bool_decide; cbn [length]; f_equal; lia.
Qed.

(** The numbers of a summary are the numbers of the tasks, and its breakdown has
    one entry for every handler the run uses. *)
Theorem summarize_correct (wf : WorkflowInstance) :
  let s := summarize wf in
  let by_handler h := List.filter (λ t, bool_decide (tr_handler t = h)) (wf_tasks wf) in
  totalTasks s = Z.of_nat (length (wf_tasks wf))
  ∧ succeeded s = Z.of_nat (count_status TaskSucceeded (wf_tasks wf))
  ∧ failed s = Z.of_nat (count_status TaskFailed (wf_tasks wf))
  ∧ retrying s = Z.of_nat (count_status TaskRetrying (wf_tasks wf))
  ∧ map_ok (handlerBreakdown s) ∧ (∀ h, h ∈ map_keys (handlerBreakdown s) ↔ h ∈ tr_handler <$> wf_tasks wf)
  ∧ (∀ h c, map_get (handlerBreakdown s) h = Some c →
       hc_count c = Z.of_nat (length (by_handler h)) ∧ hc_failed c = Z.of_nat (count_status TaskFailed (by_handler h))).
Proof.
  cbv zeta. unfold summarize. rewrite summary_loop_eq. cbn [lp_breakdown lp_succeeded lp_failed lp_retrying
    lp_attempts totalTasks succeeded failed retrying handlerBreakdown]. rewrite !Z.add_0_l.
  do 4 (split; [done|]). split; [apply tally_ok|]. split; [intros h; apply tally_keys|].
  intros h c Hc. pose proof (tally_get tr_handler count_handler (mkHandlerCount 0 0) (wf_tasks wf) h) as Hg.
  unfold tally in Hg. rewrite Hg in Hc. unfold group in Hc.
  destruct (List.filter _ _) as [|t g] eqn:He; [done|]. 
  assert (c = foldl count_handler (mkHandlerCount 0 0) (t :: g)) as -> by congruence.
  rewrite count_handler_fold. split; done.
Qed.

(** ** Buckets *)

Definition in_bucket (bucketMs k : Z) (p : Z * TimeSeriesPoint) : bool := (k <=? p.1) && (p.1 <? k + bucketMs).

Lemma bucket_key_iff bucketMs k p :
  0 < bucketMs → bucket_key bucketMs p = k ↔ k mod bucketMs = 0 ∧ in_bucket bucketMs k p = true.
Proof.
  intros Hb. unfold bucket_key, in_bucket. rewrite andb_true_iff, Z.leb_le, Z.ltb_lt.
  pose proof (Z.div_mod p.1 bucketMs ltac:(lia)). pose proof (Z.mod_pos_bound p.1 bucketMs Hb). split.
  - intros <-. rewrite Z.mod_mul by lia. lia.
  - intros [Hm Hk]. apply Z.div_exact in Hm; [|lia].
    assert (p.1 / bucketMs = k / bucketMs) as ->; [|lia].
    symmetry. apply (Z.div_unique_pos _ _ _ (p.1 - k)); lia.
Qed.

Lemma bucket_fold g b :
  foldl bucket_add b g =
    mkBucket (foldl num_add (bk_sum b) ((λ p : Z * TimeSeriesPoint, value p.2) <$> g)) (bk_count b + Z.of_nat (length g)).
Proof.
  revert b. induction g as [|p g IH]; intros b; cbn; [destruct b; cbn; f_equal; lia|].
  rewrite IH. cbn. f_equal. lia.
Qed.

Definition average (vs : list num) : num := num_div (foldl num_add num_zero vs) (num_of_Z (Z.of_nat (length vs))).

Lemma strictly_sorted_keys (m : jsmap Z bucket) :
  map_ok m → Sorted Z.lt (js_sort (λ a b : Z * bucket, a.1 - b.1) m).*1.
Proof.
  intros Hm. pose proof (js_sort_strongly_sorted (λ a b : Z * bucket, a.1 - b.1)
    ltac:(unfold cmp_le; intros; lia) ltac:(unfold cmp_le; intros; lia) m) as Hs.
  assert (NoDup (js_sort (λ a b : Z * bucket, a.1 - b.1) m).*1) as Hnd.
  { eapply NoDup_Permutation_proper; [apply fmap_Permutation, js_sort_perm|exact Hm]. }
  apply StronglySorted_Sorted. induction Hs as [|x l Hs IH Hall]; [constructor|].
  rewrite fmap_cons in Hnd. apply NoDup_cons in Hnd as [Hn Hnd]. cbn. constructor; [by apply IH|].
  rewrite Forall_forall in Hall. apply Forall_forall. intros k (y & -> & Hy)%list_elem_of_fmap.
  specialize (Hall y Hy). unfold cmp_le in Hall. assert (x.1 ≠ y.1); [|lia].
  intros Heq. apply Hn. rewrite Heq. by apply list_elem_of_fmap_2.
Qed.

(** [rollup] has one point for every bucket that a recorded point falls into, in
    the order of time, whose value is the average of the points of that bucket. *)
Theorem rollup_correct (name : string) (bucketMs : Z) (b : TimeSeriesBuffer) (ps : list (Z * TimeSeriesPoint))
    (Hb : 0 < bucketMs) (Hps : timed (points name b) = Some ps) :
  ∃ keys, Sorted Z.lt keys
    ∧ (∀ k, k ∈ keys ↔ k mod bucketMs = 0 ∧ ∃ p, p ∈ ps ∧ in_bucket bucketMs k p = true)
    ∧ rollup name bucketMs b = Some ((λ k, mkPoint (toISOString k)
        (average ((λ p : Z * TimeSeriesPoint, value p.2) <$> List.filter (in_bucket bucketMs k) ps))) <$> keys).
Proof.
  unfold rollup. rewrite Hps. cbn [mbind option_bind]. rewrite bool_decide_eq_false_2 by (intros [? _]; lia). cbn [mbind option_bind].
  set (m := tally (bucket_key bucketMs) bucket_add (mkBucket num_zero 0) ps).
  assert (map_ok m) as Hm by apply tally_ok. set (l := js_sort _ m).
  assert (∀ kv, kv ∈ l ↔ kv ∈ m) as Hl.
  { intros kv. unfold l. by rewrite js_sort_perm. }
  assert (∀ k p, bucket_key bucketMs p = k ↔ k mod bucketMs = 0 ∧ in_bucket bucketMs k p = true) as Hk
    by (intros; by apply bucket_key_iff).
  exists l.*1. split; [by apply strictly_sorted_keys|]. split.
  - intros k. assert (k ∈ l.*1 ↔ k ∈ map_keys m) as ->.
    { unfold map_keys. rewrite !list_elem_of_fmap. setoid_rewrite Hl. done. }
    unfold m. rewrite tally_keys, list_elem_of_fmap. split.
    + intros (p & -> & Hp). destruct (proj1 (Hk _ p) eq_refl) as [? ?]. eauto.
    + intros (Hmod & p & Hp & Hin). exists p. split; [|done]. symmetry. by apply Hk.
  - f_equal. rewrite <-list_fmap_compose. apply list_fmap_ext. intros i [k v] Hkv. cbn.
    apply list_elem_of_lookup_2, Hl in Hkv. apply (map_get_in _ _ _ Hm) in Hkv.
    unfold m in Hkv. rewrite tally_get in Hkv. unfold group in Hkv. f_equal.
    assert (List.filter (λ a, bool_decide (bucket_key bucketMs a = k)) ps = List.filter (in_bucket bucketMs k) ps) as Hg.
    { destruct (List.filter (λ a, bool_decide (bucket_key bucketMs a = k)) ps) as [|p0 g0] eqn:He; [done|].
      assert (p0 ∈ List.filter (λ a, bool_decide (bucket_key bucketMs a = k)) ps) as Hp0 by (rewrite He; left).
      apply list_elem_of_In, List.filter_In in Hp0 as [_ Hp0]. apply bool_decide_eq_true, Hk in Hp0 as [Hmod _].
      rewrite <-He. apply List.filter_ext. intros p. apply Bool.eq_iff_eq_true. rewrite bool_decide_eq_true, Hk. tauto. }
    rewrite Hg in Hkv. destruct (List.filter (in_bucket bucketMs k) ps) as [|p g] eqn:Hf; [done|].
    assert (v = foldl bucket_add (mkBucket num_zero 0) (p :: g)) as -> by congruence.
    rewrite bucket_fold. unfold average. by rewrite length_fmap.
Qed.

(** What a name's series answers: those of the last points recorded for it that
    are not before [since], in order. *)
Theorem series_get_correct (maxPoints : nat) (l : list (string * num * string)) (name : string) (since : option string) :
  series_get name since (recorded maxPoints l) =
    List.filter (λ p, match since with Some s => negb (truthy_string s) || string_leb s (ts p) | None => true end)
      (keep_last maxPoints (recorded_for name l)).
Proof.
  unfold series_get. rewrite points_recorded. destruct since as [s|]; cbn [truthy_opt default from_option id].
  - destruct (truthy_string s); cbn [negb orb]; [done|]. symmetry. by apply filter_all.
  - symmetry. by apply filter_all.
Qed.

(** ** The dashboard *)

Lemma count_run_fold g c :
  foldl count_run c g =
    mkJobCount (jc_runs c + Z.of_nat (length g)) (jc_failed c + Z.of_nat (length (List.filter (has_status Failed) g))).
Proof.
  revert c. induction g as [|r g IH]; intros c; cbn [foldl List.filter length].
  - destruct c; cbn. f_equal; lia.
  - rewrite IH. unfold count_run. cbn [jc_runs jc_failed]. destruct (has_status Failed r); cbn [length]; f_equal; lia.
Qed.

Lemma aggregate_correct (runs : list JobRun) (sinceIso : string) :
  let s := aggregate runs sinceIso in
  let recent := List.filter (started_since (parse_iso sinceIso)) runs in
  let of_job j := List.filter (λ r, bool_decide (run_jobId r = j)) recent in
  activeRuns s = Z.of_nat (length (List.filter (λ r, bool_decide (run_status r ∈ [Pending; Running; Waiting])) runs))
  ∧ completedToday s = Z.of_nat (length (List.filter (has_status Completed) recent))
  ∧ failedToday s = Z.of_nat (length (List.filter (has_status Failed) recent))
  ∧ (∀ j, j ∈ map_keys (byJob s) ↔ j ∈ run_jobId <$> recent)
  ∧ (∀ j c, map_get (byJob s) j = Some c → jc_runs c = Z.of_nat (length (of_job j))
       ∧ jc_failed c = Z.of_nat (length (List.filter (has_status Failed) (of_job j)))).
Proof.
  cbv zeta. unfold aggregate. destruct (foldl add_duration _ _) as [total n].
  cbn [activeRuns completedToday failedToday byJob]. split.
  { do 2 f_equal. apply List.filter_ext. intros r. unfold has_status. by destruct (run_status r). }
  do 2 (split; [done|]). split; [intros j; apply tally_keys|]. intros j c Hc. rewrite tally_get in Hc.
  unfold group in Hc. destruct (List.filter (λ a, bool_decide (run_jobId a = j)) _) as [|r g] eqn:He; [done|].
  assert (c = foldl count_run (mkJobCount 0 0) (r :: g)) as -> by congruence. rewrite count_run_fold. split; done.
Qed.

(** ** What [estimateCriticalPath] estimates *)

Definition task_duration (t : TaskRun) : option Z :=
  Z.max 0 <$> time_minus (time_or (tr_finishedAt t) (time_or (tr_startedAt t) (Some 0))) (time_or (tr_startedAt t) (Some 0)).

(** It is the sum of the durations of all tasks, also of those that do not
    depend on each other. *)
Lemma estimateCriticalPath_sum wf ds :
  mapM task_duration (wf_tasks wf) = Some ds → estimateCriticalPath wf = Some (foldr Z.add 0 ds).
Proof.
  unfold estimateCriticalPath.
  assert (∀ ts z ds, mapM task_duration ts = Some ds →
    foldl (λ sum t, let start := time_or (tr_startedAt t) (Some 0) in
             let end_ := time_or (tr_finishedAt t) start in
             time_plus sum (Z.max 0 <$> time_minus end_ start)) (Some z) ts = Some (z + foldr Z.add 0 ds)) as Hg.
  { induction ts0 as [|t ts0 IH]; intros z ds' Hds; cbn in Hds.
    - injection Hds as <-. cbn. f_equal. lia.
    - destruct (task_duration t) as [x|] eqn:Ht; [|done]. cbn in Hds.
      destruct (mapM task_duration ts0) as [xs|] eqn:Hxs; [|done]. injection Hds as <-. cbn [foldl foldr].
      unfold task_duration in Ht. cbv zeta. rewrite Ht.
      etrans; [exact (IH (z + x) xs eq_refl)|]. f_equal. lia. }
  intros Hds. exact (Hg _ 0 ds Hds).
Qed.
