(* ===== verification/Query.v ===== *)
(** * Queries over runs (query/, utils/pagination.ts)

    Filtering, sorting and pages.  Page numbers and sizes are integers.  The
    collation of [localeCompare] is the host's, so it is a parameter; what is
    used of it is that it orders strings consistently. *)

From S2P Require Import Prelude JsMap JsString DomainTypes JsValue Domain Stores JsSort.
Open Scope Z_scope.

(** ** Pages (utils/pagination.ts) *)

Record PageRequest : Type := mkPageRequest { page : Z; pageSize : Z }.

Record PageResult (T : Type) : Type := mkPage {
  pg_items : list T;
  pg_page : Z;
  pg_pageSize : Z;
  pg_total : Z;
  pg_totalPages : Z;
}.
Arguments mkPage {T}.
Arguments pg_items {T}.
Arguments pg_page {T}.
Arguments pg_pageSize {T}.
Arguments pg_total {T}.
Arguments pg_totalPages {T}.

(** [l.slice(a, b)] for [0 <= a]. *)
Definition js_slice {T} (l : list T) (a b : Z) : list T := take (Z.to_nat (b - a)) (drop (Z.to_nat a) l).

(** [Math.ceil(a / b) || 1]: the quotient of lengths below [2 ^ 46] by at most
    100 is rounded to no other ceiling. *)
Definition page_count (total size : Z) : Z :=
  let n := (total + size - 1) / size in if n =? 0 then 1 else n.

Definition clamp_page (req : PageRequest) : Z := Z.max 1 (page req).
Definition clamp_size (req : PageRequest) : Z := Z.min 100 (Z.max 1 (pageSize req)).

Definition paginate {T} (items : list T) (req : PageRequest) : PageResult T :=
  let page := clamp_page req in
  let pageSize := clamp_size req in
  let total := Z.of_nat (length items) in
  let start := (page - 1) * pageSize in
  mkPage (js_slice items start (start + pageSize)) page pageSize total (page_count total pageSize).

(** ** Filters and order (query/run-filter.ts) *)

Record RunFilter : Type := mkRunFilter {
  f_status : option (list WorkflowState);
  f_jobId : option string;
  f_triggerPrefix : option string;
  f_since : option string;
  f_until : option string;
}.

(** [if (x && test(x)) return false]. *)
Definition refuses (x : option string) (test : string → bool) : bool :=
  match x with Some s => truthy_string s && test s | None => false end.

Definition run_passes (filter : RunFilter) (r : JobRun) : bool :=
  negb (match f_status filter with
        | Some (s :: ss) => negb (bool_decide (run_status r ∈ s :: ss))
        | _ => false
        end)
  && negb (refuses (f_jobId filter) (λ j, negb (bool_decide (run_jobId r = j))))
  && negb (refuses (f_triggerPrefix filter) (λ p, negb (starts_with (trigger r) p)))
  && negb (refuses (f_since filter) (λ s, string_ltb (run_startedAt r) s))
  && negb (refuses (f_until filter) (λ u,
       match run_finishedAt r with Some f => truthy_string f && string_ltb u f | None => false end)).

Definition filterRuns (runs : list JobRun) (filter : RunFilter) : list JobRun :=
  List.filter (run_passes filter) runs.

Inductive sort_key : Type := ByStartedAt | ByFinishedAt.

Definition key_of (by_ : sort_key) (r : JobRun) : string :=
  match by_ with ByStartedAt => run_startedAt r | ByFinishedAt => default "" (run_finishedAt r) end.

Section queries.
Context (localeCompare : string → string → Z).

Definition compare_runs (by_ : sort_key) (desc : bool) (a b : JobRun) : Z :=
  if desc then localeCompare (key_of by_ b) (key_of by_ a) else localeCompare (key_of by_ a) (key_of by_ b).

Definition sortRuns (runs : list JobRun) (by_ : sort_key) (desc : bool) : list JobRun :=
  js_sort (compare_runs by_ desc) runs.

(** ** RunQueryService *)

Context {RS : Type} `{RunStore RS}.

Definition search (jobId : string) (filter : RunFilter) (req : PageRequest) (runs : RS) : PageResult JobRun :=
  let all := run_listByJob jobId runs in
  let filtered := sortRuns (filterRuns all filter) ByStartedAt true in
  paginate filtered req.

Definition listActive (runs : RS) : list JobRun := run_listActive runs.

(** ** Lemmas on pages *)

Lemma js_slice_start {T} (l : list T) n : js_slice l 0 (Z.of_nat n) = take n l.
Proof. unfold js_slice. rewrite Z.sub_0_r, Nat2Z.id. done. Qed.

Lemma js_slice_next {T} (l : list T) a b c : 0 ≤ a ≤ b → b ≤ c → js_slice l a b ++ js_slice l b c = js_slice l a c.
Proof.
  intros Hab Hbc. unfold js_slice.
  replace (Z.to_nat b) with (Z.to_nat a + Z.to_nat (b - a))%nat by lia. rewrite <-drop_drop.
  replace (Z.to_nat (c - a)) with (Z.to_nat (b - a) + Z.to_nat (c - b))%nat by lia.
  by rewrite take_take_drop.
Qed.

Lemma js_slice_all {T} (l : list T) c : Z.of_nat (length l) ≤ c → js_slice l 0 c = l.
Proof. intros Hc. unfold js_slice. rewrite drop_0. apply take_ge. lia. Qed.

Lemma pages_prefix {T} (l : list T) size k :
  0 < size →
  concat ((λ p, js_slice l ((p - 1) * size) ((p - 1) * size + size)) <$> (Z.of_nat <$> seq 1 k))
  = js_slice l 0 (Z.of_nat k * size).
Proof.
  intros Hs. induction k as [|k IH]; [done|].
  rewrite seq_S, !fmap_app, concat_app, IH. cbn [fmap list_fmap concat]. rewrite app_nil_r.
  replace (Z.of_nat (1 + k) - 1) with (Z.of_nat k) by lia. rewrite js_slice_next by lia. f_equal. lia.
Qed.

Lemma page_count_covers total size : 0 ≤ total → 0 < size → 1 ≤ page_count total size ∧ total ≤ page_count total size * size.
Proof.
  intros Ht Hs. unfold page_count. pose proof (Z.div_mod (total + size - 1) size ltac:(lia)) as Hd.
  pose proof (Z.mod_pos_bound (total + size - 1) size Hs). destruct (_ =? 0) eqn:E.
  - apply Z.eqb_eq in E. nia.
  - apply Z.eqb_neq in E. assert (0 ≤ (total + size - 1) / size) by (apply Z.div_pos; lia). nia.
Qed.

Lemma page_count_tight total size : 0 < total → 0 < size → (page_count total size - 1) * size < total.
Proof.
  intros Ht Hs. unfold page_count. pose proof (Z.div_mod (total + size - 1) size ltac:(lia)) as Hd.
  pose proof (Z.mod_pos_bound (total + size - 1) size Hs). destruct (_ =? 0) eqn:E; nia.
Qed.

(** The pages of a list, one after the other. *)
Definition pages_of {T} (l : list T) (size : Z) : list (list T) :=
  (λ p, pg_items (paginate l (mkPageRequest p size))) <$> (Z.of_nat <$> seq 1 (Z.to_nat (pg_totalPages (paginate l (mkPageRequest 1 size))))).

Lemma pages_concat {T} (l : list T) size : concat (pages_of l size) = l.
Proof.
  unfold pages_of. cbn [paginate pg_totalPages]. set (sz := clamp_size (mkPageRequest 1 size)).
  assert (0 < sz) as Hsz by (unfold sz, clamp_size; lia).
  destruct (page_count_covers (Z.of_nat (length l)) sz ltac:(lia) Hsz) as [H1 Hc].
  set (k := Z.to_nat (page_count (Z.of_nat (length l)) sz)).
  assert (((λ p, pg_items (paginate l (mkPageRequest p size))) <$> (Z.of_nat <$> seq 1 k))
    = ((λ p, js_slice l ((p - 1) * sz) ((p - 1) * sz + sz)) <$> (Z.of_nat <$> seq 1 k))) as ->.
  { apply list_fmap_ext. intros i p Hp. apply list_lookup_fmap_Some in Hp as (j & -> & Hj%lookup_seq).
    unfold paginate, clamp_page. cbn [pg_items page]. by rewrite Z.max_r by lia. }
  rewrite pages_prefix by done. apply js_slice_all. lia.
Qed.

Lemma page_length {T} (l : list T) req :
  clamp_page req < pg_totalPages (paginate l req) → Z.of_nat (length (pg_items (paginate l req))) = clamp_size req.
Proof.
  cbn [paginate pg_totalPages pg_items]. set (p := clamp_page req). set (sz := clamp_size req). intros Hp.
  assert (0 < sz) by (unfold sz, clamp_size; lia). assert (1 ≤ p) by (unfold p, clamp_page; lia).
  destruct (decide (length l = 0%nat)) as [Hz|Hz].
  { rewrite Hz in Hp. unfold page_count in Hp. rewrite Z.div_small in Hp by lia. simpl in Hp. lia. }
  pose proof (page_count_tight (Z.of_nat (length l)) sz ltac:(lia) ltac:(lia)).
  unfold js_slice. rewrite length_take, length_drop. nia.
Qed.

Lemma page_beyond {T} (l : list T) req :
  pg_totalPages (paginate l req) < clamp_page req → pg_items (paginate l req) = [].
Proof.
  cbn [paginate pg_totalPages pg_items]. set (p := clamp_page req). set (sz := clamp_size req). intros Hp.
  assert (0 < sz) as Hsz by (unfold sz, clamp_size; lia).
  destruct (page_count_covers (Z.of_nat (length l)) sz ltac:(lia) Hsz).
  unfold js_slice. rewrite drop_ge by nia. apply take_nil.
Qed.

Lemma page_length_le {T} (l : list T) req : Z.of_nat (length (pg_items (paginate l req))) ≤ clamp_size req.
Proof.
  cbn [paginate pg_items]. assert (0 < clamp_size req) by (unfold clamp_size; lia).
  unfold js_slice. rewrite length_take. lia.
Qed.

Lemma last_page_length {T} (l : list T) req :
  clamp_page req = pg_totalPages (paginate l req) →
  Z.of_nat (length (pg_items (paginate l req)))
  = Z.of_nat (length l) - (pg_totalPages (paginate l req) - 1) * clamp_size req.
Proof.
  cbn [paginate pg_totalPages pg_items]. set (p := clamp_page req). set (sz := clamp_size req). intros ->.
  assert (0 < sz) as Hsz by (unfold sz, clamp_size; lia).
  destruct (page_count_covers (Z.of_nat (length l)) sz ltac:(lia) Hsz) as [H1 Hc].
  set (n := page_count (Z.of_nat (length l)) sz) in *. unfold js_slice. rewrite length_take, length_drop.
  destruct (decide (length l = 0%nat)) as [Hz|Hz].
  - assert (n = 1) as -> by (unfold n; rewrite Hz; unfold page_count; rewrite Z.div_small by lia; done). lia.
  - pose proof (page_count_tight (Z.of_nat (length l)) sz ltac:(lia) Hsz) as Ht. fold n in Ht. nia.
Qed.

(** ** Lemmas on filters *)

(** The declared meaning of a filter. *)
Record matches_filter (filter : RunFilter) (r : JobRun) : Prop := {
  mf_status : ∀ ss, f_status filter = Some ss → ss ≠ [] → run_status r ∈ ss;
  mf_job : ∀ j, f_jobId filter = Some j → j ≠ "" → run_jobId r = j;
  mf_trigger : ∀ p, f_triggerPrefix filter = Some p → p ≠ "" → starts_with (trigger r) p = true;
  mf_since : ∀ s, f_since filter = Some s → s ≠ "" → string_leb s (run_startedAt r) = true;
  mf_until : ∀ u f, f_until filter = Some u → u ≠ "" → run_finishedAt r = Some f → f ≠ "" → string_leb f u = true;
}.

Lemma refuses_false x test : refuses x test = false ↔ ∀ s, x = Some s → s ≠ "" → test s = false.
Proof.
  unfold refuses. destruct x as [s|]; [|naive_solver]. rewrite andb_false_iff. split.
  - intros [Hs|Ht] s' [= <-] Hne; [|done]. apply truthy_string_true in Hne. congruence.
  - intros Hx. destruct (truthy_string s) eqn:E; [right|by left]. apply (Hx s eq_refl). by apply truthy_string_true.
Qed.

Lemma run_passes_spec filter r : run_passes filter r = true ↔ matches_filter filter r.
Proof.
  unfold run_passes. rewrite !andb_true_iff, !negb_true_iff, !refuses_false. split.
  - intros ((((Hs & Hj) & Ht) & Hsi) & Hu). split.
    + intros ss Heq Hne. rewrite Heq in Hs. destruct ss; [done|]. by apply negb_false_iff, bool_decide_eq_true in Hs.
    + intros j Heq Hne. by apply Hj, negb_false_iff, bool_decide_eq_true in Heq.
    + intros p Heq Hne. apply Ht in Heq; [|done]. by apply negb_false_iff in Heq.
    + intros s Heq Hne. unfold string_leb. rewrite (Hsi s); done.
    + intros u f Heq Hne Hf Hne'. specialize (Hu u Heq Hne). rewrite Hf in Hu.
      rewrite (proj2 (truthy_string_true f) Hne') in Hu. unfold string_leb. simpl in Hu. by rewrite Hu.
  - intros [Hs Hj Ht Hsi Hu]. unfold string_leb in *. repeat split.
    + destruct (f_status filter) as [[|s ss]|]; [done| |done]. apply negb_false_iff, bool_decide_eq_true. by apply Hs.
    + intros j Heq Hne. apply negb_false_iff, bool_decide_eq_true. by apply Hj.
    + intros p Heq Hne. apply negb_false_iff. by apply Ht.
    + intros s Heq Hne. apply negb_true_iff. by apply Hsi.
    + intros u Heq Hne. destruct (run_finishedAt r) as [f|]; [|done].
      destruct (truthy_string f) eqn:E; [|done]. apply negb_true_iff. apply (Hu u f); [done..|]. by apply truthy_string_true.
Qed.

(** What ECMA-402 promises of a collation: it orders the strings. *)
Record collation : Prop := {
  co_total : ∀ a b, localeCompare a b ≤ 0 ∨ localeCompare b a ≤ 0;
  co_trans : ∀ a b c, localeCompare a b ≤ 0 → localeCompare b c ≤ 0 → localeCompare a c ≤ 0;
}.

Lemma sortRuns_sorted runs by_ desc :
  collation → StronglySorted (λ a b, compare_runs by_ desc a b ≤ 0) (sortRuns runs by_ desc).
Proof.
  intros [Htot Htr]. apply js_sort_strongly_sorted; unfold cmp_le, compare_runs.
  - intros a b. destruct desc; apply Htot.
  - intros a b c. destruct desc; eauto.
Qed.

(** ** Properties *)

(** C28: the pages of a search, for any page size, list every run of the job that
    matches the filter exactly once, from the latest start to the earliest; runs
    with the same start keep the order of the store.  Every page states its own
    number and its size, which is the one asked for brought between 1 and 100,
    and the number of all matching runs; it holds no more runs than its size.
    All pages but the last are full, the last one holds what the others leave,
    pages past the last are empty, and a page number below 1 is the first page. *)
Theorem search_correct (Hc : collation) (jobId : string) (filter : RunFilter) (size : Z) (runs : RS) :
  let page_at p := search jobId filter (mkPageRequest p size) runs in
  let page_items p := pg_items (page_at p) in
  let n := pg_totalPages (page_at 1) in
  let sz := Z.min 100 (Z.max 1 size) in
  let matching := List.filter (run_passes filter) (run_listByJob jobId runs) in
  let all := concat (page_items <$> (Z.of_nat <$> seq 1 (Z.to_nat n))) in
  all ≡ₚ matching
  ∧ StronglySorted (λ a b, localeCompare (run_startedAt b) (run_startedAt a) ≤ 0) all
  ∧ (∀ at_, List.filter (λ r, bool_decide (run_startedAt r = at_)) all
       = List.filter (λ r, bool_decide (run_startedAt r = at_)) matching)
  ∧ (∀ r, run_passes filter r = true ↔ matches_filter filter r)
  ∧ (∀ p, pg_total (page_at p) = Z.of_nat (length matching) ∧ pg_totalPages (page_at p) = n
       ∧ pg_page (page_at p) = Z.max 1 p ∧ pg_pageSize (page_at p) = sz)
  ∧ (∀ p, Z.of_nat (length (page_items p)) ≤ sz)
  ∧ (∀ p, 1 ≤ p < n → Z.of_nat (length (page_items p)) = sz)
  ∧ Z.of_nat (length (page_items n)) = Z.of_nat (length matching) - (n - 1) * sz
  ∧ (∀ p, n < p → page_items p = [])
  ∧ (∀ p, p ≤ 1 → page_items p = page_items 1).
Proof.
  cbv zeta. set (l := sortRuns (filterRuns (run_listByJob jobId runs) filter) ByStartedAt true).
  assert (length l = length (List.filter (run_passes filter) (run_listByJob jobId runs))) as Hlen by apply js_sort_length.
  destruct (page_count_covers (Z.of_nat (length l)) (clamp_size (mkPageRequest 1 size))) as [H1 _]; [lia|unfold clamp_size; lia|].
  assert (concat ((λ p, pg_items (search jobId filter (mkPageRequest p size) runs)) <$>
    (Z.of_nat <$> seq 1 (Z.to_nat (pg_totalPages (search jobId filter (mkPageRequest 1 size) runs))))) = l)
    as -> by exact (pages_concat l size).
  split; [apply js_sort_perm|]. split; [by apply (sortRuns_sorted _ ByStartedAt true)|].
  split; [|split; [apply run_passes_spec|split; [|split; [|split; [|split; [|split]]]]]].
  - intros at_. apply js_sort_stable. intros a b Ha%bool_decide_unpack Hb%bool_decide_unpack.
    unfold cmp_le, compare_runs, key_of. rewrite Ha, Hb. by destruct (co_total Hc at_ at_).
  - intros p. rewrite <-Hlen. done.
  - intros p. apply page_length_le.
  - intros p Hp. apply page_length. unfold clamp_page. cbn [page]. rewrite Z.max_r by lia. apply Hp.
  - rewrite <-Hlen. apply (last_page_length l). unfold clamp_page. cbn [page]. by apply Z.max_r.
  - intros p Hp. apply page_beyond. unfold clamp_page. cbn [page]. rewrite Z.max_r; [exact Hp|].
    change (pg_totalPages _) with (page_count (Z.of_nat (length l)) (clamp_size (mkPageRequest 1 size))) in Hp. lia.
  - intros p Hp. unfold search, paginate, clamp_page. cbn [page pg_items]. by rewrite Z.max_l by lia.
Qed.
End queries.

(** ** The dead-letter page of the administration routes (api/admin-routes.ts) *)

Definition admin_dead_letter (limit : Z) (entries : list DeadLetterEntry) : PageResult DeadLetterEntry :=
  let items := dead_letter_list limit entries in
  paginate items (mkPageRequest 1 (Z.of_nat (length items))).

(** Of more than a hundred entries it shows the oldest hundred. *)
Lemma admin_dead_letter_capped limit entries :
  pg_items (admin_dead_letter limit entries) = take 100 (dead_letter_list limit entries).
Proof.
  unfold admin_dead_letter, paginate, clamp_page, clamp_size. cbn [pg_items page pageSize].
  set (l := dead_letter_list limit entries). rewrite Z.max_l by lia. replace ((1 - 1) * _) with 0 by lia.
  unfold js_slice. rewrite drop_0. destruct (decide (length l ≤ 100)%nat) as [Hl|Hl].
  - rewrite (take_ge l 100) by done. apply take_ge. lia.
  - f_equal. lia.
Qed.

Section witnesses.
(** The code units as a collation. *)
Definition by_code_units (a b : string) : Z := if string_ltb a b then -1 else if string_ltb b a then 1 else 0.

Lemma chars_ltb_asym s t : chars_ltb s t = true → chars_ltb t s = false.
Proof.
  revert t. induction s as [|a s IH]; intros [|b t]; try done. cbn [chars_ltb].
  destruct (char_code a <? char_code b)%N eqn:E1, (char_code b <? char_code a)%N eqn:E2; try done.
  - apply N.ltb_lt in E1, E2. lia.
  - apply IH.
Qed.

Lemma chars_leb_trans s t u : chars_ltb t s = false → chars_ltb u t = false → chars_ltb u s = false.
Proof.
  revert t u. induction s as [|a s IH]; intros [|b t] [|c u]; try done. cbn [chars_ltb].
  destruct (char_code b <? char_code a)%N eqn:E1, (char_code a <? char_code b)%N eqn:E2,
    (char_code c <? char_code b)%N eqn:E3, (char_code b <? char_code c)%N eqn:E4,
    (char_code c <? char_code a)%N eqn:E5, (char_code a <? char_code c)%N eqn:E6;
    rewrite ?N.ltb_lt, ?N.ltb_ge in *; try done; try lia. apply IH.
Qed.

Lemma by_code_units_le a b : by_code_units a b ≤ 0 ↔ string_ltb b a = false.
Proof.
  unfold by_code_units, string_ltb. destruct (chars_ltb (chars a) (chars b)) eqn:E.
  - apply chars_ltb_asym in E. rewrite E. split; [done|lia].
  - destruct (chars_ltb (chars b) (chars a)); split; try done; lia.
Qed.

Lemma by_code_units_collation : collation by_code_units.
Proof.
  split; [intros a b|intros a b c]; rewrite !by_code_units_le; unfold string_ltb.
  - destruct (chars_ltb (chars b) (chars a)) eqn:E; [right; by apply chars_ltb_asym|by left].
  - apply chars_leb_trans.
Qed.

Definition demo_run (id at_ : string) (st : WorkflowState) : JobRun :=
  mkJobRun id "job_demo" "wf" st at_ None "manual" [].

Definition demo_runs : InMemoryRunStore :=
  [("a", demo_run "a" "2026-01-01" Completed); ("b", demo_run "b" "2026-01-03" Failed);
   ("c", demo_run "c" "2026-01-02" Completed); ("d", demo_run "d" "2026-01-04" Completed)].

Definition completed_only : RunFilter := mkRunFilter (Some [Completed]) None None None None.

Lemma search_correct_witness :
  (run_id <$> pg_items (search by_code_units "job_demo" completed_only (mkPageRequest 1 2) demo_runs)) = ["d"; "c"]
  ∧ (run_id <$> pg_items (search by_code_units "job_demo" completed_only (mkPageRequest 2 2) demo_runs)) = ["a"]
  ∧ pg_items (search by_code_units "job_demo" completed_only (mkPageRequest 7 2) demo_runs) = [].
Proof.
  destruct (search_correct by_code_units by_code_units_collation "job_demo" completed_only 2 demo_runs)
    as (_ & _ & _ & _ & _ & _ & _ & _ & Hbeyond & _).
  split; [vm_compute; reflexivity|]. split; [vm_compute; reflexivity|]. apply Hbeyond. vm_compute. reflexivity.
Defined.
End witnesses.
