(* ===== verification/Sql.v ===== *)
(** * The query builder of the SQL repositories (storage/sql/query-builder.ts)

    [build] numbers the placeholders while it collects the parameters.  A query
    as a list of pieces, literal text and bound values, specifies it. *)

From S2P Require Import Prelude JsString JsNum DomainTypes JsValue.
Open Scope Z_scope.

Inductive SqlOp : Type := OpEq | OpNe | OpGt | OpLt | OpGe | OpLe | OpIn | OpLike.

(** [c.op === "like" ? "LIKE" : c.op]. *)
Definition SqlOp_text (op : SqlOp) : string :=
  match op with
  | OpEq => "=" | OpNe => "!=" | OpGt => ">" | OpLt => "<" | OpGe => ">=" | OpLe => "<="
  | OpIn => "in" | OpLike => "LIKE"
  end.

Record SqlCondition : Type := mkCondition { c_column : string; c_op : SqlOp; c_value : jsval }.

Record SqlQuery : Type := mkQuery {
  q_table : string;
  q_columns : list string;
  q_conditions : list SqlCondition;
  q_orderBy : option (string * bool);
  q_limit : option Z;
  q_offset : option Z;
}.

(** The builder's methods, each returning the builder. *)
Definition new_query (table : string) : SqlQuery := mkQuery table ["*"] [] None None None.
Definition select (columns : list string) (q : SqlQuery) : SqlQuery :=
  mkQuery (q_table q) (match columns with [] => ["*"] | _ => columns end) (q_conditions q) (q_orderBy q) (q_limit q) (q_offset q).
Definition where_ (column : string) (op : SqlOp) (value : jsval) (q : SqlQuery) : SqlQuery :=
  mkQuery (q_table q) (q_columns q) (q_conditions q ++ [mkCondition column op value]) (q_orderBy q) (q_limit q) (q_offset q).
Definition orderBy (column : string) (desc : bool) (q : SqlQuery) : SqlQuery :=
  mkQuery (q_table q) (q_columns q) (q_conditions q) (Some (column, desc)) (q_limit q) (q_offset q).
Definition limit (n : Z) (q : SqlQuery) : SqlQuery :=
  mkQuery (q_table q) (q_columns q) (q_conditions q) (q_orderBy q) (Some n) (q_offset q).
Definition offset (n : Z) (q : SqlQuery) : SqlQuery :=
  mkQuery (q_table q) (q_columns q) (q_conditions q) (q_orderBy q) (q_limit q) (Some n).

Definition placeholder (n : nat) : string := "$" +:+ pretty (Z.of_nat n).

(** [params.push(v); return `$${params.length}`]. *)
Definition bind_param (v : jsval) (params : list jsval) : string * list jsval :=
  let params := params ++ [v] in (placeholder (length params), params).

Fixpoint bind_all (vs : list jsval) (params : list jsval) : list string * list jsval :=
  match vs with
  | [] => ([], params)
  | v :: vs =>
      let '(p, params) := bind_param v params in
      let '(ps, params) := bind_all vs params in
      (p :: ps, params)
  end.

Definition build_condition (c : SqlCondition) (params : list jsval) : res (string * list jsval) :=
  match c_op c with
  | OpIn =>
      arr ← array_elements "arr" (c_value c);
      let '(placeholders, params) := bind_all arr params in
      Ok (c_column c +:+ " IN (" +:+ join ", " placeholders +:+ ")", params)
  | op =>
      let '(p, params) := bind_param (c_value c) params in
      Ok (c_column c +:+ " " +:+ SqlOp_text op +:+ " " +:+ p, params)
  end.

Fixpoint build_conditions (cs : list SqlCondition) (params : list jsval) : res (list string * list jsval) :=
  match cs with
  | [] => Ok ([], params)
  | c :: cs =>
      '(part, params) ← build_condition c params;
      '(parts, params) ← build_conditions cs params;
      Ok (part :: parts, params)
  end.

Definition build (q : SqlQuery) : res (string * list jsval) :=
  let sql := "SELECT " +:+ join ", " (q_columns q) +:+ " FROM " +:+ q_table q in
  '(sql, params) ← match q_conditions q with
                   | [] => Ok (sql, [])
                   | cs => '(parts, params) ← build_conditions cs [];
                           Ok (sql +:+ " WHERE " +:+ join " AND " parts, params)
                   end;
  let sql := match q_orderBy q with
             | Some (column, desc) => sql +:+ " ORDER BY " +:+ column +:+ " " +:+ (if (desc : bool) then "DESC" else "ASC")
             | None => sql
             end in
  let '(sql, params) := match q_limit q with
                        | Some n => let '(p, params) := bind_param (JNum (num_of_Z n)) params in (sql +:+ " LIMIT " +:+ p, params)
                        | None => (sql, params)
                        end in
  let '(sql, params) := match q_offset q with
                        | Some n => let '(p, params) := bind_param (JNum (num_of_Z n)) params in (sql +:+ " OFFSET " +:+ p, params)
                        | None => (sql, params)
                        end in
  Ok (sql, params).

(** ** Queries as pieces *)

Inductive piece : Type := Lit (s : string) | Bind (v : jsval).

(** The values in the order of their places. *)
Definition binds (ps : list piece) : list jsval :=
  omap (λ p, match p with Bind v => Some v | Lit _ => None end) ps.

(** The text: the first place after [n] others is [$n+1]. *)
Fixpoint render (n : nat) (ps : list piece) : string :=
  match ps with
  | [] => ""
  | Lit s :: ps => s +:+ render n ps
  | Bind _ :: ps => placeholder (S n) +:+ render (S n) ps
  end.

(** Pieces between separators. *)
Fixpoint separated (sep : string) (pss : list (list piece)) : list piece :=
  match pss with
  | [] => []
  | [ps] => ps
  | ps :: pss => ps ++ Lit sep :: separated sep pss
  end.

Definition condition_pieces (c : SqlCondition) : res (list piece) :=
  match c_op c with
  | OpIn => arr ← array_elements "arr" (c_value c);
            Ok (Lit (c_column c +:+ " IN (") :: separated ", " ((λ v, [Bind v]) <$> arr) ++ [Lit ")"])
  | op => Ok [Lit (c_column c +:+ " " +:+ SqlOp_text op +:+ " "); Bind (c_value c)]
  end.

Fixpoint conditions_pieces (cs : list SqlCondition) : res (list (list piece)) :=
  match cs with
  | [] => Ok []
  | c :: cs => ps ← condition_pieces c; pss ← conditions_pieces cs; Ok (ps :: pss)
  end.

Definition query_pieces (q : SqlQuery) : res (list piece) :=
  cs ← conditions_pieces (q_conditions q);
  Ok (Lit ("SELECT " +:+ join ", " (q_columns q) +:+ " FROM " +:+ q_table q)
      :: (match cs with [] => [] | _ => Lit " WHERE " :: separated " AND " cs end)
      ++ (match q_orderBy q with
          | Some (column, desc) => [Lit (" ORDER BY " +:+ column +:+ " " +:+ (if (desc : bool) then "DESC" else "ASC"))]
          | None => [] end)
      ++ (match q_limit q with Some n => [Lit " LIMIT "; Bind (JNum (num_of_Z n))] | None => [] end)
      ++ (match q_offset q with Some n => [Lit " OFFSET "; Bind (JNum (num_of_Z n))] | None => [] end)).

(** The query with its values forgotten. *)
Definition erase_value (v : jsval) : jsval :=
  match v with JArr i l => JArr i ((λ _, JNull) <$> l) | JProto true => JArr 0 [] | _ => JUndefined end.
Definition erase_condition (c : SqlCondition) : SqlCondition :=
  mkCondition (c_column c) (c_op c) (match c_op c with OpIn => erase_value (c_value c) | _ => JNull end).
Definition erase (q : SqlQuery) : SqlQuery :=
  mkQuery (q_table q) (q_columns q) (erase_condition <$> q_conditions q) (q_orderBy q)
    ((λ _, 0) <$> q_limit q) ((λ _, 0) <$> q_offset q).

(** ** Lemmas *)

Lemma string_app_assoc (a b c : string) : (a +:+ b) +:+ c = a +:+ b +:+ c.
Proof. induction a as [|x a IH]; [done|]. change (String x ((a +:+ b) +:+ c) = String x (a +:+ b +:+ c)). by rewrite IH. Qed.

Lemma string_app_nil (a : string) : a +:+ "" = a.
Proof. induction a as [|x a IH]; [done|]. change (String x (a +:+ "") = String x a). by rewrite IH. Qed.

Lemma binds_app ps qs : binds (ps ++ qs) = binds ps ++ binds qs.
Proof. apply omap_app. Qed.

Lemma binds_lit s ps : binds (Lit s :: ps) = binds ps.
Proof. done. Qed.

Lemma render_app n ps qs : render n (ps ++ qs) = render n ps +:+ render (n + length (binds ps)) qs.
Proof.
  revert n. induction ps as [|[s|v] ps IH]; intros n; [by rewrite Nat.add_0_r| |].
  - cbn [app render]. rewrite IH. cbn [binds omap list_omap]. by rewrite string_app_assoc.
  - cbn [app render]. rewrite IH. cbn [binds omap list_omap length]. rewrite string_app_assoc.
    by rewrite Nat.add_succ_r.
Qed.

Lemma placeholders_shift n j k :
  (λ i, placeholder (S n + i)) <$> seq j k = ((λ i, placeholder (n + i)) <$> seq (S j) k).
Proof.
  rewrite <-(fmap_S_seq j), <-list_fmap_compose. apply list_fmap_ext. intros i x _. unfold compose. f_equal. lia.
Qed.

(** What a step of [build] does: it appends the text of some pieces and their
    values. *)
Lemma bind_all_pieces vs params :
  bind_all vs params = ((λ k, placeholder (length params + k)) <$> seq 1 (length vs), params ++ vs).
Proof.
  revert params. induction vs as [|v vs IH]; intros params; [by rewrite app_nil_r|].
  cbn [bind_all bind_param]. rewrite IH. cbn [length seq fmap list_fmap]. rewrite length_app, <-(assoc_L (++)).
  cbn [length app]. by rewrite Nat.add_1_r, placeholders_shift.
Qed.

Lemma join_placeholders n vs :
  join ", " ((λ k, placeholder (n + k)) <$> seq 1 (length vs)) = render n (separated ", " ((λ v, [Bind v]) <$> vs)).
Proof.
  revert n. induction vs as [|v [|v' vs] IH]; intros n; [done| |].
  { cbn -[placeholder]. by rewrite Nat.add_1_r, string_app_nil. }
  specialize (IH (S n)). cbn [length seq fmap list_fmap join separated app render] in *.
  rewrite <-IH, placeholders_shift, Nat.add_1_r. by replace (n + 2)%nat with (S n + 1)%nat by lia.
Qed.

Lemma binds_separated sep pss : binds (separated sep pss) = concat (binds <$> pss).
Proof.
  induction pss as [|ps [|ps' pss] IH]; [done|by simpl; rewrite app_nil_r|].
  change (separated sep (ps :: ps' :: pss)) with (ps ++ Lit sep :: separated sep (ps' :: pss)).
  rewrite binds_app. change (binds (Lit sep :: ?x)) with (binds x). by rewrite IH.
Qed.

Lemma build_condition_pieces c params :
  build_condition c params = (ps ← condition_pieces c; Ok (render (length params) ps, params ++ binds ps)).
Proof.
  unfold build_condition, condition_pieces. destruct (c_op c); try (by cbn; rewrite length_app, Nat.add_1_r, !string_app_assoc, string_app_nil).
  destruct (array_elements "arr" (c_value c)) as [arr| |]; try done. cbn [mbind outcome_bind].
  rewrite bind_all_pieces, join_placeholders. f_equal. f_equal.
  - cbn [app render]. rewrite render_app. cbn [render]. by rewrite string_app_nil, string_app_assoc.
  - f_equal. rewrite binds_lit, binds_app, binds_separated, app_nil_r.
    clear. induction arr as [|v arr IH]; [done|]. cbn. by rewrite <-IH.
Qed.

(** The texts of lists of pieces, numbered one after the other. *)
Fixpoint texts (n : nat) (pss : list (list piece)) : list string :=
  match pss with [] => [] | ps :: pss => render n ps :: texts (n + length (binds ps)) pss end.

Lemma join_texts sep n pss : join sep (texts n pss) = render n (separated sep pss).
Proof.
  revert n. induction pss as [|ps [|ps' pss] IH]; intros n; [done..|].
  change (separated sep (ps :: ps' :: pss)) with (ps ++ Lit sep :: separated sep (ps' :: pss)).
  rewrite render_app. cbn [render]. by rewrite <-IH.
Qed.

Lemma build_conditions_pieces cs params :
  build_conditions cs params =
    (pss ← conditions_pieces cs; Ok (texts (length params) pss, params ++ concat (binds <$> pss))).
Proof.
  revert params. induction cs as [|c cs IH]; intros params; [cbn; by rewrite app_nil_r|].
  cbn [build_conditions conditions_pieces]. rewrite build_condition_pieces.
  destruct (condition_pieces c) as [ps| |]; try done. cbn [mbind outcome_bind]. rewrite IH.
  destruct (conditions_pieces cs) as [pss| |]; try done. cbn. by rewrite length_app, <-(assoc_L (++)).
Qed.

Lemma conditions_pieces_nil cs : conditions_pieces cs = Ok [] → cs = [].
Proof. destruct cs as [|c cs]; [done|]. cbn. intros H. inv_bind H. by inv_bind H. Qed.

Lemma build_pieces q : build q = (ps ← query_pieces q; Ok (render 0 ps, binds ps)).
Proof.
  unfold build, query_pieces. set (head := "SELECT " +:+ _).
  assert (match q_conditions q with
          | [] => Ok (head, [])
          | cs => '(parts, params) ← build_conditions cs []; Ok (head +:+ " WHERE " +:+ join " AND " parts, params)
          end = (pss ← conditions_pieces (q_conditions q);
                 let ps := Lit head :: match pss with [] => [] | _ => Lit " WHERE " :: separated " AND " pss end in
                 Ok (render 0 ps, binds ps))) as ->.
  { destruct (q_conditions q) as [|c cs]; [by cbn; rewrite string_app_nil|]. rewrite build_conditions_pieces.
    destruct (conditions_pieces (c :: cs)) as [[|ps pss]| |] eqn:E; [by apply conditions_pieces_nil in E| |done..].
    cbn [mbind outcome_bind length app]. rewrite join_texts. cbv zeta.
    by rewrite !binds_lit, binds_separated. }
  destruct (conditions_pieces (q_conditions q)) as [pss| |]; [|done..]. cbn [mbind outcome_bind]. cbv zeta.
  set (ps := match pss with [] => [] | _ => _ end).
  change (Lit head :: ps ++ ?x) with ((Lit head :: ps) ++ x). generalize (Lit head :: ps). intros qs. clear.
  destruct (q_orderBy q) as [[column desc]|], (q_limit q) as [l|], (q_offset q) as [o|]; cbn [app bind_param];
    rewrite ?app_nil_r, ?render_app, ?binds_app; cbn -[placeholder];
    rewrite ?app_nil_r, ?length_app, ?Nat.add_1_r, ?string_app_nil, ?string_app_assoc, ?string_app_nil, <-?(assoc_L (++)); done.
Qed.

(** ** Values and text *)

Definition shape (p : piece) : option string := match p with Lit s => Some s | Bind _ => None end.

Definition shapes (ps : list piece) : list (option string) := shape <$> ps.

Lemma render_shape n ps ps' :
  shape <$> ps = shape <$> ps' → render n ps = render n ps' ∧ length (binds ps) = length (binds ps').
Proof.
  revert n ps'. induction ps as [|p ps IH]; intros n [|p' ps'] Heq; try done.
  injection Heq as Hp Hps. destruct p as [s|v], p' as [s'|v']; simplify_eq/=.
  - by destruct (IH n ps' Hps) as [-> ->].
  - by destruct (IH (S n) ps' Hps) as [-> ->].
Qed.

Lemma shape_separated sep pss pss' :
  shapes <$> pss = shapes <$> pss' → shape <$> separated sep pss = shape <$> separated sep pss'.
Proof.
  revert pss'. induction pss as [|ps pss IH]; intros [|ps' pss'] Heq; try done.
  injection Heq as Hp Hpss. specialize (IH pss' Hpss). unfold shapes in Hp.
  destruct pss as [|ps1 pss], pss' as [|ps1' pss']; try done.
  change (separated sep (ps :: ps1 :: pss)) with (ps ++ Lit sep :: separated sep (ps1 :: pss)).
  change (separated sep (ps' :: ps1' :: pss')) with (ps' ++ Lit sep :: separated sep (ps1' :: pss')).
  by rewrite !fmap_app, !fmap_cons, Hp, IH.
Qed.

Lemma condition_pieces_erase c ps :
  condition_pieces c = Ok ps → ∃ ps', condition_pieces (erase_condition c) = Ok ps' ∧ shape <$> ps' = shape <$> ps.
Proof.
  unfold condition_pieces, erase_condition. cbn [c_op c_column c_value].
  destruct (c_op c); try (by intros [= <-]; eexists).
  assert (∀ l : list jsval, shape <$> separated ", " ((λ v, [Bind v]) <$> ((λ _ : jsval, JNull) <$> l))
    = shape <$> separated ", " ((λ v, [Bind v]) <$> l)) as Hl.
  { intros l. apply shape_separated. rewrite <-!list_fmap_compose. by apply list_fmap_ext. }
  destruct (c_value c) as [| | | | |i l| |[]|]; try done; cbn [array_elements erase_value mbind outcome_bind].
  - intros [= <-]. eexists. split; [done|]. by rewrite !fmap_cons, !fmap_app, Hl.
  - intros [= <-]. by eexists.
Qed.

Lemma conditions_pieces_erase cs pss :
  conditions_pieces cs = Ok pss →
  ∃ pss', conditions_pieces (erase_condition <$> cs) = Ok pss' ∧ shapes <$> pss' = shapes <$> pss.
Proof.
  revert pss. induction cs as [|c cs IH]; intros pss; [intros [= <-]; by exists []|].
  cbn [conditions_pieces]. destruct (condition_pieces c) as [ps| |] eqn:Ec; try done. cbn [mbind outcome_bind].
  destruct (conditions_pieces cs) as [pss1| |]; try done. intros [= <-].
  destruct (condition_pieces_erase c ps Ec) as (ps' & Hps' & Hs), (IH _ eq_refl) as (pss' & Hpss' & Hss).
  exists (ps' :: pss'). rewrite fmap_cons. cbn [conditions_pieces]. rewrite Hps', Hpss'. split; [done|].
  unfold shapes in *. by rewrite !fmap_cons, Hs, Hss.
Qed.

Lemma query_pieces_erase q ps :
  query_pieces q = Ok ps → ∃ ps', query_pieces (erase q) = Ok ps' ∧ shape <$> ps' = shape <$> ps.
Proof.
  unfold query_pieces, erase. cbn [q_conditions q_columns q_table q_orderBy q_limit q_offset].
  destruct (conditions_pieces (q_conditions q)) as [pss| |] eqn:Ec; try done. intros [= <-].
  destruct (conditions_pieces_erase _ _ Ec) as (pss' & -> & Hs). eexists. split; [reflexivity|].
  assert (shape <$> (match pss' with [] => [] | _ => Lit " WHERE " :: separated " AND " pss' end)
    = shape <$> (match pss with [] => [] | _ => Lit " WHERE " :: separated " AND " pss end)) as Hw.
  { pose proof (shape_separated " AND " _ _ Hs) as Hsep. destruct pss, pss'; try done. by rewrite !fmap_cons, Hsep. }
  rewrite !fmap_cons, !fmap_app, Hw. by destruct (q_limit q), (q_offset q).
Qed.

(** Whether [build] throws. *)
Definition is_array (v : jsval) : bool := match v with JArr _ _ | JProto true => true | _ => false end.

Lemma condition_pieces_ok c :
  (∃ ps, condition_pieces c = Ok ps) ↔ (c_op c = OpIn → is_array (c_value c) = true).
Proof.
  unfold condition_pieces. destruct (c_op c); try (split; [done|by eexists]).
  destruct (c_value c) as [| | | | | | |[]|]; cbn; split; try (by intros [? ?]); try (by eexists); try done;
    intros Hx; by specialize (Hx eq_refl).
Qed.

Lemma conditions_pieces_ok cs :
  (∃ pss, conditions_pieces cs = Ok pss) ↔ Forall (λ c, c_op c = OpIn → is_array (c_value c) = true) cs.
Proof.
  induction cs as [|c cs IH]; [split; [done|by eexists]|]. rewrite Forall_cons, <-IH, <-condition_pieces_ok.
  cbn [conditions_pieces]. split.
  - intros [pss H]. inv_bind H. inv_bind H. eauto.
  - intros [[ps ->] [pss ->]]. by eexists.
Qed.

(** ** Properties *)

(** C24: [build] joins literal pieces and bound values: the [k]-th placeholder of
    the text is [$k] and the [k]-th parameter is its value; the text depends only
    on tables, columns, operators and the number of values of each [IN], never on
    a value; and it throws exactly when the value of an [IN] is not an array. *)
Theorem build_correct (q : SqlQuery) :
  build q = (ps ← query_pieces q; Ok (render 0 ps, binds ps))
  ∧ (∀ sql params, build q = Ok (sql, params) →
       ∃ params', build (erase q) = Ok (sql, params') ∧ length params' = length params)
  ∧ ((∃ r, build q = Ok r) ↔ Forall (λ c, c_op c = OpIn → is_array (c_value c) = true) (q_conditions q)).
Proof.
  split; [apply build_pieces|]. split.
  - intros sql params. rewrite !build_pieces. destruct (query_pieces q) as [ps| |] eqn:E; try done.
    intros [= <- <-]. destruct (query_pieces_erase _ _ E) as (ps' & -> & Hs).
    destruct (render_shape 0 ps' ps Hs) as [Hr Hb]. cbn [mbind outcome_bind]. rewrite Hr. eauto.
  - rewrite build_pieces, <-conditions_pieces_ok. unfold query_pieces. split.
    + intros [r H]. inv_bind H. inv_bind E. eauto.
    + intros [pss ->]. by eexists.
Qed.

(** The queries of run-repository.ts, and an empty [IN], which is no SQL. *)
Example build_listByJob :
  build (orderBy "started_at" true (where_ "job_id" OpEq (JStr "j1") (new_query "job_runs")))
  = Ok ("SELECT * FROM job_runs WHERE job_id = $1 ORDER BY started_at DESC", [JStr "j1"]).
Proof. reflexivity. Qed.

Example build_empty_in :
  build (where_ "status" OpIn (JArr 0 []) (new_query "job_runs")) = Ok ("SELECT * FROM job_runs WHERE status IN ()", []).
Proof. reflexivity. Qed.
