(* ===== verification/Replay.v ===== *)
(** * Replay, checkpoints and recovery (replay/, persistence/)

    The comparison of two workflows, the replay of a run, and the checkpoints a
    run's workflow can be restored from. *)

From S2P Require Import Prelude JsMap JsString JsNum DomainTypes JsValue Domain Retry Transitions Locks Stores Metrics Validator Expressions Constraints Engine ExecInv Execution EngineProps.
Open Scope Z_scope.

(** ** Comparison (replay/diff.ts) *)

Record TaskDiff : Type := mkTaskDiff { df_taskId : string; df_field : string; df_before : string; df_after : string }.

Record WorkflowDiff : Type := mkWorkflowDiff {
  wd_runId : string;
  stateChanged : bool;
  fromState : WorkflowState;
  toState : WorkflowState;
  taskDiffs : list TaskDiff;
}.

(** One turn of the loop over the tasks of [after]. *)
Definition diff_task (beforeById : jsmap string TaskRun) (t : TaskRun) : list TaskDiff :=
  let id := definitionTaskId t in
  match map_get beforeById id with
  | None => [mkTaskDiff id "status" "missing" (TaskStatus_string (status t))]
  | Some prev =>
      (if bool_decide (status prev = status t) then []
       else [mkTaskDiff id "status" (TaskStatus_string (status prev)) (TaskStatus_string (status t))])
      ++ (if bool_decide (attempt prev = attempt t) then []
          else [mkTaskDiff id "attempt" (pretty (attempt prev)) (pretty (attempt t))])
      ++ (if bool_decide (errorMessage prev = errorMessage t) then []
          else [mkTaskDiff id "error" (default "" (errorMessage prev)) (default "" (errorMessage t))])
  end.

Definition diffWorkflows (before after : WorkflowInstance) : WorkflowDiff :=
  let beforeById := map_of_entries ((λ t, (definitionTaskId t, t)) <$> wf_tasks before) in
  mkWorkflowDiff (wf_runId after) (negb (bool_decide (state before = state after))) (state before) (state after)
    (wf_tasks after ≫= diff_task beforeById).

Definition countFailedTasks (wf : WorkflowInstance) : nat :=
  length (List.filter (λ t, bool_decide (status t = TaskFailed)) (wf_tasks wf)).

(** ** Snapshots (persistence/run-snapshot.ts, persistence/checkpoint-store.ts) *)

Record RunSnapshot : Type := mkSnapshot {
  sn_runId : string;
  sn_version : Z;
  sn_workflow : WorkflowInstance;
  capturedAt : string;
  sn_label : option string;
}.

Definition CheckpointStore : Type := jsmap string (list RunSnapshot).

Definition checkpoint_save (snapshot : RunSnapshot) (s : CheckpointStore) : CheckpointStore :=
  let key := sn_runId snapshot in
  map_set s key (default [] (map_get s key) ++ [snapshot]).
Definition checkpoint_list (runId : string) (s : CheckpointStore) : list RunSnapshot :=
  default [] (map_get s runId).
Definition checkpoint_latest (runId : string) (s : CheckpointStore) : option RunSnapshot :=
  l ← map_get s runId; last l.

(** [{ ...workflow, updatedAt }]. *)
Definition set_updatedAt (w : WorkflowInstance) (at_ : string) : WorkflowInstance := set_tasks w (wf_tasks w) at_.

Section replay.
Context {JS WS RS : Type} `{JobDefinitionStore JS} `{WorkflowStore WS} `{RunStore RS} `{Environment}.
Notation world := (world JS WS RS).

(** ** RunReplayer (replay/replayer.ts) *)

Definition replay (fuel : nat) (runId : string) : eff world WorkflowDiff :=
  before ← getWorkflowByRun runId;
  _ ← executeRun fuel runId;
  after ← getWorkflowByRun runId;
  mret (diffWorkflows before after).

(** [snapshot] saves the stored workflow over itself. *)
Definition snapshot (runId : string) : eff world WorkflowInstance :=
  wf ← getWorkflowByRun runId;
  _ ← modify (λ w, with_workflows (workflow_save wf (w_workflows w)) w);
  mret wf.

(** ** RecoveryService (persistence/recovery-service.ts)

    Its state is the engine's world and the checkpoints. *)
Notation rstate := (world * CheckpointStore)%type.

Definition captureCheckpoint (runId : string) (workflow : WorkflowInstance) (label : option string) : eff rstate unit := λ s,
  let snaps := checkpoint_list runId s.2 in
  (Ok tt, (with_ticks (S (w_ticks s.1)) s.1,
    checkpoint_save (mkSnapshot runId (Z.of_nat (length snaps) + 1) workflow (nowIso (w_ticks s.1)) label) s.2)).

Definition restore_target (version : option Z) (snaps : list RunSnapshot) : option RunSnapshot :=
  match version with
  | Some v => List.find (λ sn, bool_decide (sn_version sn = v)) snaps
  | None => last snaps
  end.

Definition restoreToCheckpoint (runId : string) (version : option Z) : eff rstate bool := λ s,
  let snaps := checkpoint_list runId s.2 in
  match snaps with
  | [] => (Ok false, s)
  | _ =>
      match restore_target version snaps with
      | None => (Ok false, s)
      | Some target =>
          let restored := set_updatedAt (sn_workflow target) (nowIso (w_ticks s.1)) in
          (Ok true, (with_workflows (workflow_save restored (w_workflows s.1)) (with_ticks (S (w_ticks s.1)) s.1), s.2))
      end
  end.
End replay.

(** ** Lemmas on comparisons *)

Lemma index_tasks_get ts t :
  NoDup (definitionTaskId <$> ts) → t ∈ ts →
  map_get (map_of_entries ((λ t, (definitionTaskId t, t)) <$> ts)) (definitionTaskId t) = Some t.
Proof.
  intros Hnd Ht.
  assert (map_ok ((λ t, (definitionTaskId t, t)) <$> ts)) as Hok.
  { unfold map_ok, map_keys. rewrite <-list_fmap_compose. exact Hnd. }
  rewrite map_of_entries_id by done. apply map_get_in; [done|]. apply list_elem_of_fmap. by exists t.
Qed.

Lemma diff_task_same m t : map_get m (definitionTaskId t) = Some t → diff_task m t = [].
Proof. intros Hg. unfold diff_task. rewrite Hg. by rewrite !bool_decide_eq_true_2. Qed.

Lemma diffWorkflows_same wf :
  NoDup (definitionTaskId <$> wf_tasks wf) →
  diffWorkflows wf wf = mkWorkflowDiff (wf_runId wf) false (state wf) (state wf) [].
Proof.
  intros Hnd. unfold diffWorkflows. rewrite bool_decide_eq_true_2 by done. cbn [negb]. f_equal.
  assert (∀ ts, ts ⊆ wf_tasks wf →
    ts ≫= diff_task (map_of_entries ((λ t, (definitionTaskId t, t)) <$> wf_tasks wf)) = []) as Hts; [|by apply Hts].
  induction ts as [|t ts IH]; intros Hsub; [done|]. cbn [mbind list_bind].
  rewrite diff_task_same by (apply index_tasks_get; [done|apply Hsub; by left]).
  apply IH. intros x Hx. apply Hsub. by right.
Qed.

(** What a difference says of a task and its namesake before. *)
Inductive task_change (before : WorkflowInstance) (t : TaskRun) : TaskDiff → Prop :=
| change_new : definitionTaskId t ∉ definitionTaskId <$> wf_tasks before →
    task_change before t (mkTaskDiff (definitionTaskId t) "status" "missing" (TaskStatus_string (status t)))
| change_status prev : prev ∈ wf_tasks before → definitionTaskId prev = definitionTaskId t → status prev ≠ status t →
    task_change before t (mkTaskDiff (definitionTaskId t) "status" (TaskStatus_string (status prev)) (TaskStatus_string (status t)))
| change_attempt prev : prev ∈ wf_tasks before → definitionTaskId prev = definitionTaskId t → attempt prev ≠ attempt t →
    task_change before t (mkTaskDiff (definitionTaskId t) "attempt" (pretty (attempt prev)) (pretty (attempt t)))
| change_error prev : prev ∈ wf_tasks before → definitionTaskId prev = definitionTaskId t → errorMessage prev ≠ errorMessage t →
    task_change before t (mkTaskDiff (definitionTaskId t) "error" (default "" (errorMessage prev)) (default "" (errorMessage t))).

Lemma index_tasks_none ts id :
  map_get (map_of_entries ((λ t, (definitionTaskId t, t)) <$> ts)) id = None → NoDup (definitionTaskId <$> ts) →
  id ∉ definitionTaskId <$> ts.
Proof.
  intros Hn Hnd (t & -> & Ht)%list_elem_of_fmap. by rewrite index_tasks_get in Hn.
Qed.

(** The differences are exactly the changes of the tasks of [after]; a task that
    only [before] has is not reported. *)
Lemma diffWorkflows_elem before after d :
  NoDup (definitionTaskId <$> wf_tasks before) →
  d ∈ taskDiffs (diffWorkflows before after) ↔ ∃ t, t ∈ wf_tasks after ∧ task_change before t d.
Proof.
  intros Hnd. unfold diffWorkflows. cbn [taskDiffs]. rewrite list_elem_of_bind.
  apply exist_proper. intros t. rewrite (and_comm (t ∈ _)). apply and_iff_compat_r.
  set (m := map_of_entries _). unfold diff_task.
  assert (∀ prev, prev ∈ wf_tasks before → definitionTaskId prev = definitionTaskId t →
    map_get m (definitionTaskId t) = Some prev) as Hprev.
  { intros prev Hp <-. by apply index_tasks_get. }
  destruct (map_get m (definitionTaskId t)) as [prev|] eqn:Hg.
  - assert (prev ∈ wf_tasks before ∧ definitionTaskId prev = definitionTaskId t) as [Hp Hid].
    { unfold m in Hg. rewrite map_of_entries_id in Hg
        by (unfold map_ok, map_keys; by rewrite <-list_fmap_compose).
      apply map_get_Some_in, list_elem_of_fmap in Hg as (x & [= Hi ->] & Hx). done. }
    rewrite !elem_of_app. split.
    + intros [Hd|[Hd|Hd]]; case_bool_decide; try set_solver; apply list_elem_of_singleton in Hd as ->; by econstructor.
    + intros [Hn|q Hq Hqi Hc|q Hq Hqi Hc|q Hq Hqi Hc].
      * destruct Hn. rewrite <-Hid. by apply list_elem_of_fmap_2.
      * specialize (Hprev q Hq Hqi). injection Hprev as ->. rewrite bool_decide_eq_false_2 by done. set_solver.
      * specialize (Hprev q Hq Hqi). injection Hprev as ->. right. left. rewrite bool_decide_eq_false_2 by done. set_solver.
      * specialize (Hprev q Hq Hqi). injection Hprev as ->. right. right. rewrite bool_decide_eq_false_2 by done. set_solver.
  - split.
    + intros ->%list_elem_of_singleton. apply change_new. by apply index_tasks_none.
    + intros [Hn|q Hq Hqi Hc|q Hq Hqi Hc|q Hq Hqi Hc]; [set_solver|..]; by specialize (Hprev q Hq Hqi).
Qed.

Section properties.
Context {JS WS RS : Type} `{JobDefinitionStore JS} `{WorkflowStore WS} `{RunStore RS} `{Environment}.
Notation world := (world JS WS RS).

(** ** Runs that are at rest *)

(** Neither pending nor running, and not failed with attempts enough to be
    dead-lettered. *)
Record settled_run (rid : string) (r : JobRun) (def : JobDefinition) (wf : WorkflowInstance) (w : world) : Prop := {
  sr_run : run_get rid (w_runs w) = Some r;
  sr_job : job_get (run_jobId r) (w_jobs w) = Some def;
  sr_workflow : workflow_getByRunId rid (w_workflows w) = Some wf;
  sr_state : state wf ≠ Pending ∧ state wf ≠ Running;
  sr_failed : state wf = Failed →
    total_attempts (wf_tasks wf) < maxAttempts (retryPolicy def) * Z.of_nat (length (tasks def));
}.

Lemma execute_body_settled fuel rid r def wf (w : world) :
  settled_run rid r def wf w → execute_body (S fuel) rid w = (Ok tt, w).
Proof.
  intros [Hr Hj Hw [Hp Hru] Hf]. unfold execute_body.
  rewrite (M_bind_eq_Ok _ _ w r w) by (unfold require; by rewrite Hr).
  rewrite (M_bind_eq_Ok _ _ w def w) by (unfold require; by rewrite Hj).
  rewrite (M_bind_eq_Ok _ _ w wf w) by (unfold require; by rewrite Hw).
  rewrite (M_bind_eq_Ok _ _ w wf w) by (unfold startRun; by rewrite bool_decide_eq_false_2).
  rewrite (M_bind_eq_Ok _ _ w wf w) by (cbn; by rewrite (bool_decide_eq_false_2 (state wf = Running))).
  unfold dead_letter. case_bool_decide as Hs; [|done]. cbn [andb].
  rewrite (proj2 (Z.leb_gt _ _)) by auto. done.
Qed.

Lemma executeRun_settled fuel rid r def wf (w : world) :
  settled_run rid r def wf w → unlocked rid w →
  executeRun (S fuel) rid w = (Ok tt, unlock rid (entered rid w)).
Proof.
  intros Hs Hl. rewrite executeRun_enter by done.
  rewrite (execute_body_settled fuel rid r def wf); [done|]. by destruct Hs.
Qed.

(** Leaving a run that was only entered. *)
Lemma unlock_entered rid (w : world) : unlocked rid w → unlock rid (entered rid w) = w.
Proof.
  intros (Hl & Hk & Hok).
  assert (List.filter (λ r, negb (bool_decide (r = rid))) (w_localLocks w ++ [rid]) = w_localLocks w) as Hloc.
  { rewrite List.filter_app. cbn. rewrite bool_decide_eq_true_2 by done. cbn. rewrite app_nil_r.
    clear -Hl. induction (w_localLocks w) as [|x l IH]; [done|]. cbn.
    rewrite bool_decide_eq_false_2 by set_solver. cbn. f_equal. apply IH. set_solver. }
  assert (release (map_set (w_locks w) rid execution_owner) rid execution_owner = w_locks w) as Hlocks.
  { unfold release. rewrite bool_decide_eq_true_2 by apply map_get_set_eq.
    apply map_get_None in Hk. by rewrite map_set_new, map_delete_new. }
  destruct w. unfold unlock, entered, with_locks, with_localLocks in *. cbn in *. by rewrite Hloc, Hlocks.
Qed.

(** ** Checkpoints *)

(** The checkpoints after captures of [cs], each in any world. *)
Inductive captured : list (string * WorkflowInstance) → CheckpointStore → Prop :=
| captured_none : captured [] []
| captured_next cs c c' rid wf label (w w' : world) :
    captured cs c → captureCheckpoint rid wf label (w, c) = (Ok tt, (w', c')) → captured (cs ++ [(rid, wf)]) c'.

Lemma captured_step cs rid wf label (s : world * CheckpointStore) :
  captured cs s.2 → captured (cs ++ [(rid, wf)]) (captureCheckpoint rid wf label s).2.2.
Proof. intros Hc. destruct s as [w c]. by eapply (captured_next cs c _ rid wf label w). Qed.

(** The workflows captured for a run. *)
Definition own_captures (rid : string) (cs : list (string * WorkflowInstance)) : list WorkflowInstance :=
  omap (λ '(r, wf), if decide (r = rid) then Some wf else None) cs.

Lemma own_captures_snoc rid cs r wf :
  own_captures rid (cs ++ [(r, wf)]) = own_captures rid cs ++ (if decide (r = rid) then [wf] else []).
Proof. unfold own_captures. rewrite omap_app. cbn. by case_decide. Qed.

Lemma captured_list cs c rid :
  captured cs c →
  sn_workflow <$> checkpoint_list rid c = own_captures rid cs
  ∧ sn_version <$> checkpoint_list rid c = Z.of_nat <$> seq 1 (length (own_captures rid cs)).
Proof.
  induction 1 as [|cs c c' r wf label w w' _ [IHw IHv] Hc]; [done|].
  injection Hc as _ <-. rewrite own_captures_snoc. unfold checkpoint_list, checkpoint_save. cbn [sn_runId].
  rewrite map_get_set. case_decide as Hr; [subst r|by rewrite app_nil_r].
  cbn [default from_option id]. fold (checkpoint_list rid c). rewrite !fmap_app, IHw, IHv. split; [done|].
  rewrite length_app, Nat.add_1_r, seq_S, fmap_app. cbn. f_equal. f_equal.
  rewrite <-IHw, length_fmap. lia.
Qed.

Lemma find_version snaps (wfs : list WorkflowInstance) k n :
  sn_workflow <$> snaps = wfs → sn_version <$> snaps = Z.of_nat <$> seq k (length wfs) →
  sn_workflow <$> List.find (λ sn, bool_decide (sn_version sn = n)) snaps
  = if decide (Z.of_nat k ≤ n) then wfs !! Z.to_nat (n - Z.of_nat k) else None.
Proof.
  revert k wfs. induction snaps as [|sn snaps IH]; intros k [|wf wfs]; try done; intros Hw Hv.
  { case_decide; [|done]. by rewrite lookup_nil. }
  injection Hw as <- Hw. injection Hv as Hk Hv. cbn [List.find]. case_bool_decide as Hn.
  - rewrite decide_True by lia. by replace (Z.to_nat (n - Z.of_nat k)) with O by lia.
  - rewrite (IH (S k) wfs Hw Hv). repeat case_decide; try lia; [|done].
    by replace (Z.to_nat (n - Z.of_nat k)) with (S (Z.to_nat (n - Z.of_nat (S k)))) by lia.
Qed.

(** ** Properties *)

(** Replaying a run that is at rest - completed, cancelled, waiting, or
    failed without being dead-lettered - executes nothing: it ends, the whole
    world, locks and number of handler calls included, is as before, and the diff
    is empty. *)
Theorem replay_settled (fuel : nat) (rid : string) (r : JobRun) (def : JobDefinition) (wf : WorkflowInstance)
    (w : world) (Hs : settled_run rid r def wf w) (Hl : unlocked rid w)
    (Hnd : NoDup (definitionTaskId <$> wf_tasks wf)) :
  replay (S fuel) rid w = (Ok (mkWorkflowDiff (wf_runId wf) false (state wf) (state wf) []), w).
Proof.
  unfold replay, getWorkflowByRun.
  rewrite (M_bind_eq_Ok _ _ w wf w) by (unfold require; by rewrite (sr_workflow _ _ _ _ _ Hs)).
  rewrite (M_bind_eq_Ok _ _ _ _ _ (executeRun_settled fuel rid r def wf w Hs Hl)).
  rewrite unlock_entered by done.
  rewrite (M_bind_eq_Ok _ _ _ wf w) by (unfold require; by rewrite (sr_workflow _ _ _ _ _ Hs)).
  by rewrite diffWorkflows_same.
Qed.

(** C29: whatever checkpoints of whatever runs were captured before, restoring
    version [v] of a run saves the [v]-th workflow captured for it, restoring
    without a version the last one, each with only its update time changed; it
    answers [false] and changes nothing when there is no such checkpoint.  The
    run's own record is not restored. *)
Theorem restore_correct (cs : list (string * WorkflowInstance)) (c : CheckpointStore) (rid : string)
    (version : option Z) (w : world) (Hc : captured cs c) :
  let own := own_captures rid cs in
  restoreToCheckpoint rid version (w, c) =
    match match version with Some v => if decide (1 ≤ v) then own !! Z.to_nat (v - 1) else None | None => last own end with
    | Some wf => (Ok true, (with_workflows (workflow_save (set_updatedAt wf (nowIso (w_ticks w))) (w_workflows w))
                              (with_ticks (S (w_ticks w)) w), c))
    | None => (Ok false, (w, c))
    end.
Proof.
  destruct (captured_list cs c rid Hc) as [Hw Hv]. cbv zeta. unfold restoreToCheckpoint. cbn [fst snd].
  assert (sn_workflow <$> restore_target version (checkpoint_list rid c)
    = match version with
      | Some v => if decide (1 ≤ v) then own_captures rid cs !! Z.to_nat (v - 1) else None
      | None => last (own_captures rid cs)
      end) as Ht.
  { destruct version as [v|]; cbn [restore_target]; [by apply (find_version _ _ 1)|]. by rewrite <-Hw, fmap_last. }
  rewrite <-Ht. destruct (checkpoint_list rid c) as [|sn snaps]; [by destruct version|].
  by destruct (restore_target version (sn :: snaps)).
Qed.
End properties.

(** ** A run replayed and restored *)

Section witnesses.
#[local] Instance all_succeed : Environment := scripted (λ _, true).

Definition executed : demo_world :=
  (executeRun 20 "run_0" (createRun "job_demo" "manual" [] (demo_registered demo_definition)).2).2.

Lemma replay_settled_witness :
  ∃ wf, workflow_getByRunId "run_0" (w_workflows executed) = Some wf ∧ state wf = Completed
    ∧ replay 20 "run_0" executed = (Ok (mkWorkflowDiff "run_0" false Completed Completed []), executed).
Proof.
  assert (run_jobId <$> run_get "run_0" (w_runs executed) = Some "job_demo") as Hj by (vm_compute; reflexivity).
  assert (state <$> workflow_getByRunId "run_0" (w_workflows executed) = Some Completed) as Hst by (vm_compute; reflexivity).
  assert (wf_runId <$> workflow_getByRunId "run_0" (w_workflows executed) = Some "run_0") as Hid by (vm_compute; reflexivity).
  assert ((λ wf, bool_decide (NoDup (definitionTaskId <$> wf_tasks wf)))
    <$> workflow_getByRunId "run_0" (w_workflows executed) = Some true) as Hnd by (vm_compute; reflexivity).
  destruct (run_get "run_0" (w_runs executed)) as [r|] eqn:Hr; [|discriminate Hj].
  destruct (workflow_getByRunId "run_0" (w_workflows executed)) as [wf|] eqn:Hw; [|discriminate Hst].
  injection Hj as Hj. injection Hst as Hst. injection Hid as Hid. injection Hnd as Hnd.
  exists wf. split; [reflexivity|]. split; [exact Hst|]. rewrite <-Hst. rewrite <-Hid at 2.
  apply (replay_settled 19 "run_0" r demo_definition wf executed).
  - split; [exact Hr| |exact Hw|rewrite Hst; split; discriminate|rewrite Hst; discriminate]. rewrite Hj. vm_compute. reflexivity.
  - split; [|split]; [apply (bool_decide_unpack _); vm_compute; exact I|vm_compute; reflexivity|].
    apply (bool_decide_unpack _). vm_compute. exact I.
  - apply (bool_decide_unpack _). rewrite Hnd. exact I.
Defined.

Definition checkpoint_of (at_ : string) : WorkflowInstance :=
  mkWorkflow "wf_0" "job_demo" "run_0" Running None [] [] [] 1 at_ at_.

Definition three_captures : demo_world * CheckpointStore :=
  (captureCheckpoint "run_0" (checkpoint_of "c") (Some "last")
    (captureCheckpoint "run_1" (checkpoint_of "b") None
      (captureCheckpoint "run_0" (checkpoint_of "a") None (demo_empty, [])).2).2).2.

Lemma restore_correct_witness :
  (restoreToCheckpoint (JS := InMemoryJobStore) (RS := InMemoryRunStore) "run_0" (Some 2) three_captures).1 = Ok true
  ∧ (restoreToCheckpoint (JS := InMemoryJobStore) (RS := InMemoryRunStore) "run_0" (Some 3) three_captures).1 = Ok false.
Proof.
  assert (captured (JS := InMemoryJobStore) (WS := InMemoryWorkflowStore) (RS := InMemoryRunStore)
    [("run_0", checkpoint_of "a"); ("run_1", checkpoint_of "b"); ("run_0", checkpoint_of "c")] three_captures.2) as Hc.
  { apply (captured_step [_; _]), (captured_step [_]), (captured_step []). constructor. }
  destruct three_captures as [w c].
  rewrite (restore_correct _ c "run_0" (Some 2) w Hc), (restore_correct _ c "run_0" (Some 3) w Hc). split; reflexivity.
Defined.
End witnesses.
