(* ===== verification/EventBus.v ===== *)
(** * The event bus (services/event-bus.ts)

    [publish] walks the array of listeners while listeners run, and these may
    subscribe, unsubscribe, publish and throw.  [subscribe] extends the array in
    place; [unsubscribe] puts a filtered copy in its place.  So the arrays are a
    heap, and a publication goes on over the array it began with.

    A machine runs the loop frame by frame; the functions [deliver] and
    [effects] say what a publication does without the heap. *)

From S2P Require Import Prelude.

Section bus.
(** Listeners are compared by identity. *)
Context {listener event : Type} `{EqDecision listener}.

Record EventBus : Type := mkBus { arrays : list (list listener); current : nat }.

Definition new_bus : EventBus := mkBus [[]] 0.

Definition array_at (b : EventBus) (a : nat) : list listener := default [] (arrays b !! a).
Definition listeners (b : EventBus) : list listener := array_at b (current b).

(** [this.listeners.push(listener)]. *)
Definition subscribe (l : listener) (b : EventBus) : EventBus :=
  mkBus (<[current b := listeners b ++ [l]]> (arrays b)) (current b).

Definition without (l : listener) (ls : list listener) : list listener :=
  List.filter (λ x, negb (bool_decide (x = l))) ls.

(** The function [subscribe] returns: a new array without the listener. *)
Definition unsubscribe (l : listener) (b : EventBus) : EventBus :=
  mkBus (arrays b ++ [without l (listeners b)]) (length (arrays b)).

(** What the code of a listener does to the bus, up to its end or a throw. *)
Inductive action : Type :=
| Subscribe (l : listener)
| Unsubscribe (l : listener)
| Publish (e : event)
| ThrowError.

Context (body : listener → event → list action).

(** A call of a listener, with what is left of it, and a [for] loop over an array
    with its next index. *)
Inductive frame : Type :=
| Call (acts : list action)
| Loop (a i : nat) (e : event).

Record bus_state : Type := mkBusState {
  bus : EventBus;
  frames : list frame;
  calls : list (listener * event);
}.

(** A throw ends the call; the [catch] in the loop swallows it. *)
Definition bus_step (s : bus_state) : option bus_state :=
  match frames s with
  | [] => None
  | Call [] :: fs => Some (mkBusState (bus s) fs (calls s))
  | Call (Subscribe l :: acts) :: fs => Some (mkBusState (subscribe l (bus s)) (Call acts :: fs) (calls s))
  | Call (Unsubscribe l :: acts) :: fs => Some (mkBusState (unsubscribe l (bus s)) (Call acts :: fs) (calls s))
  | Call (Publish e :: acts) :: fs =>
      Some (mkBusState (bus s) (Loop (current (bus s)) 0 e :: Call acts :: fs) (calls s))
  | Call (ThrowError :: _) :: fs => Some (mkBusState (bus s) fs (calls s))
  | Loop a i e :: fs =>
      match array_at (bus s) a !! i with
      | Some l => Some (mkBusState (bus s) (Call (body l e) :: Loop a (S i) e :: fs) (calls s ++ [(l, e)]))
      | None => Some (mkBusState (bus s) fs (calls s))
      end
  end.

Fixpoint bus_run (fuel : nat) (s : bus_state) : bus_state :=
  match fuel with
  | O => s
  | S fuel => match bus_step s with Some s => bus_run fuel s | None => s end
  end.

(** [publish(event)] from outside. *)
Definition publish (fuel : nat) (e : event) (b : EventBus) : bus_state :=
  bus_run fuel (mkBusState b [Loop (current b) 0 e] []).

(** ** A publication without the heap *)

(** The effect of one call: the listeners it adds to the loop, which it does
    until somebody unsubscribes, whether the loop is still over the current
    array, and the listeners. *)
Fixpoint effects (acts : list action) (attached : bool) (ls : list listener) : list listener * bool * list listener :=
  match acts with
  | Subscribe l :: acts =>
      let '(new, at', ls') := effects acts attached (ls ++ [l]) in
      ((if attached then l :: new else new), at', ls')
  | Unsubscribe l :: acts =>
      let '(new, at', ls') := effects acts false (without l ls) in (new, at', ls')
  | [] | Publish _ :: _ | ThrowError :: _ => ([], attached, ls)
  end.

Fixpoint deliver (fuel : nat) (e : event) (queue : list listener) (attached : bool) (ls : list listener)
    : option (list listener * list listener) :=
  match queue with
  | [] => Some ([], ls)
  | l :: queue =>
      match fuel with
      | O => None
      | S fuel =>
          let '(new, at', ls') := effects (body l e) attached ls in
          '(ds, ls'') ← deliver fuel e (queue ++ new) at' ls';
          Some (l :: ds, ls'')
      end
  end.

Definition publishes (a : action) : bool := match a with Publish _ => true | _ => false end.
Definition subscribes (a : action) : bool := match a with Subscribe _ => true | _ => false end.

(** ** Lemmas *)

Lemma bus_run_add n m s : bus_run (n + m) s = bus_run m (bus_run n s).
Proof.
  revert s. induction n as [|n IH]; intros s; [done|]. cbn [Nat.add bus_run].
  destruct (bus_step s) eqn:E; [apply IH|]. destruct m; [done|]. cbn [bus_run]. by rewrite E.
Qed.

Definition bus_ok (b : EventBus) : Prop := current b < length (arrays b).

Lemma listeners_subscribe l b : bus_ok b → listeners (subscribe l b) = listeners b ++ [l].
Proof. intros Hok. unfold listeners at 1, array_at. cbn. by rewrite list_lookup_insert_eq. Qed.

Lemma listeners_unsubscribe l b : listeners (unsubscribe l b) = without l (listeners b).
Proof. unfold listeners at 1, array_at. cbn. by rewrite list_lookup_middle. Qed.

Lemma array_unsubscribe l b a : a < length (arrays b) → array_at (unsubscribe l b) a = array_at b a.
Proof. intros Ha. unfold array_at. cbn. by rewrite lookup_app_l. Qed.

(** How the array of a running loop changes with the call of a listener. *)
Record loop_ok (b : EventBus) (a : nat) (attached : bool) : Prop := {
  lk_bus : bus_ok b;
  lk_array : a < length (arrays b);
  lk_attached : attached = true ↔ current b = a;
}.

Lemma call_run acts b a attached fs cs :
  loop_ok b a attached → Forall (λ x, publishes x = false) acts →
  ∃ k b', bus_run k (mkBusState b (Call acts :: fs) cs) = mkBusState b' fs cs
    ∧ loop_ok b' a (effects acts attached (listeners b)).1.2
    ∧ array_at b' a = array_at b a ++ (effects acts attached (listeners b)).1.1
    ∧ listeners b' = (effects acts attached (listeners b)).2.
Proof.
  intros Hok Hp. revert b attached Hok. induction Hp as [|x acts Hx Hp IH]; intros b attached Hok.
  { exists 1, b. by rewrite app_nil_r. }
  destruct Hok as [Hb Ha Hat]. destruct x as [l|l|e|]; [| |done|exists 1, b; by rewrite app_nil_r].
  - destruct (IH (subscribe l b) attached) as (k & b' & Hr & Hok' & Harr & Hls).
    { split; unfold bus_ok; cbn; rewrite ?length_insert; done. }
    rewrite listeners_subscribe in * by done. exists (S k), b'. split; [exact Hr|].
    cbn [effects]. destruct (effects acts attached (listeners b ++ [l])) as [[new at'] ls']. cbn [fst snd] in *.
    split; [done|]. split; [|done]. rewrite Harr. destruct attached.
    + pose proof (proj1 Hat eq_refl) as <-. change (array_at ?x (current b)) with (array_at x (current x)) at 1.
      fold (listeners (subscribe l b)). rewrite listeners_subscribe by done. fold (listeners b). by rewrite <-(assoc_L (++)).
    + unfold array_at. cbn. rewrite list_lookup_insert_ne; [done|]. intros Hc. by apply Hat in Hc.
  - destruct (IH (unsubscribe l b) false) as (k & b' & Hr & Hok' & Harr & Hls).
    { split; unfold bus_ok; cbn; rewrite ?length_app; cbn; [lia|lia|]. split; [done|lia]. }
    rewrite listeners_unsubscribe in *. exists (S k), b'. split; [exact Hr|].
    cbn [effects]. destruct (effects acts false (without l (listeners b))) as [[new at'] ls']. cbn [fst snd] in *.
    split; [done|]. split; [|done]. by rewrite Harr, array_unsubscribe.
Qed.

Lemma loop_run fuel e a i queue b attached fs cs ds ls :
  (∀ l, Forall (λ x, publishes x = false) (body l e)) →
  loop_ok b a attached → drop i (array_at b a) = queue →
  deliver fuel e queue attached (listeners b) = Some (ds, ls) →
  ∃ k b', bus_run k (mkBusState b (Loop a i e :: fs) cs) = mkBusState b' fs (cs ++ ((λ l, (l, e)) <$> ds))
    ∧ bus_ok b' ∧ listeners b' = ls.
Proof.
  intros Hp. revert i queue b attached cs ds. induction fuel as [|fuel IH]; intros i queue b attached cs ds Hok Hq Hd;
    (destruct queue as [|l queue];
     [injection Hd as <- <-; exists 1, b; cbn; apply (f_equal length) in Hq; rewrite length_drop in Hq; simpl in Hq;
      rewrite (lookup_ge_None_2 (array_at b a) i) by lia; rewrite app_nil_r; by destruct Hok|]); [done|].
  cbn [deliver] in Hd. assert (array_at b a !! i = Some l) as Hl by (rewrite <-(Nat.add_0_r i), <-lookup_drop, Hq; done).
  destruct (call_run (body l e) b a attached (Loop a (S i) e :: fs) (cs ++ [(l, e)]) Hok (Hp l))
    as (k & b' & Hr & Hok' & Harr & Hls).
  destruct (effects (body l e) attached (listeners b)) as [[new at'] ls']. cbn [fst snd] in *.
  destruct (deliver fuel e (queue ++ new) at' ls') as [[ds1 ls1]|] eqn:Hd1; [|done]. injection Hd as <- <-.
  assert (i < length (array_at b a)) as Hi by by eapply lookup_lt_Some.
  destruct (IH (S i) (queue ++ new) b' at' (cs ++ [(l, e)]) ds1 Hok') as (k' & b'' & Hr' & Hb'' & Hls'').
  { rewrite Harr, drop_app_le by lia. f_equal. rewrite <-Nat.add_1_r, <-drop_drop, Hq. done. }
  { by rewrite Hls. }
  exists (S (k + k')), b''. split; [|done]. cbn [bus_run bus_step frames bus calls]. rewrite Hl, bus_run_add, Hr, Hr'.
  by rewrite <-(assoc_L (++)).
Qed.

(** Listeners that do not subscribe: the queue only shrinks. *)
Lemma effects_no_new acts attached ls :
  Forall (λ x, subscribes x = false) acts → (effects acts attached ls).1.1 = [].
Proof.
  intros Hs. revert attached ls. induction Hs as [|x acts Hx Hs IH]; intros attached ls; [done|].
  destruct x; try done. cbn [effects]. specialize (IH false (without l ls)). by destruct (effects _ _ _) as [[? ?] ?].
Qed.

Lemma deliver_no_new e queue attached ls :
  (∀ l, Forall (λ x, subscribes x = false) (body l e)) →
  ∃ ls', deliver (length queue) e queue attached ls = Some (queue, ls').
Proof.
  intros Hs. revert attached ls. induction queue as [|l queue IH]; intros attached ls; [by eexists|]. cbn [deliver length].
  pose proof (effects_no_new (body l e) attached ls (Hs l)) as Hn.
  destruct (effects _ _ _) as [[new at'] ls1]. cbn in Hn. subst new. rewrite app_nil_r.
  destruct (IH at' ls1) as (ls' & ->). by eexists.
Qed.

(** A listener that subscribes itself again when called: the loop finds the new
    entry, and so on without end. *)
Lemma resubscribe_never_ends l e fuel :
  body l e = [Subscribe l] → frames (publish fuel e (subscribe l new_bus)) ≠ [].
Proof.
  intros Hb. unfold publish.
  assert (∀ fuel i ls cs f, length ls = S i → ls !! i = Some l →
    f = [Loop 0 i e] ∨ f = [Call [Subscribe l]; Loop 0 (S i) e] →
    frames (bus_run fuel (mkBusState (mkBus [ls] 0) f cs)) ≠ []) as Hloop; [|by apply (Hloop fuel 0); [..|left]].
  clear fuel. intros fuel. induction (lt_wf fuel) as [fuel _ IH]; intros i ls cs f Hlen Hls Hf.
  destruct fuel as [|fuel]; [by destruct Hf as [->| ->]|]. destruct Hf as [->| ->].
  - cbn. rewrite Hls, Hb. by apply (IH fuel ltac:(lia) i); [..|right].
  - cbn. destruct fuel as [|fuel]; [done|]. cbn. apply (IH fuel ltac:(lia) (S i)); [| |by left].
    + rewrite length_app. cbn. lia.
    + by rewrite <-Hlen, list_lookup_middle.
Qed.

(** ** Properties *)

(** If no listener publishes in turn, a publication over the heap of arrays
    calls the listeners that [deliver] says, in its order, and leaves the listeners
    it says: a listener added while the loop runs is called too, unless somebody
    has unsubscribed before.  If no listener subscribes either, the publication
    ends and every listener of its beginning is called exactly once and in order,
    whoever throws or is unsubscribed meanwhile. *)
Theorem publish_correct (e : event) (b : EventBus) (Hb : bus_ok b)
    (Hp : ∀ l, Forall (λ x, publishes x = false) (body l e)) :
  (∀ fuel ds ls, deliver fuel e (listeners b) true (listeners b) = Some (ds, ls) →
     ∃ k b', publish k e b = mkBusState b' [] ((λ l, (l, e)) <$> ds) ∧ bus_ok b' ∧ listeners b' = ls)
  ∧ ((∀ l, Forall (λ x, subscribes x = false) (body l e)) →
     ∃ k b', publish k e b = mkBusState b' [] ((λ l, (l, e)) <$> listeners b) ∧ bus_ok b').
Proof.
  assert (∀ fuel ds ls, deliver fuel e (listeners b) true (listeners b) = Some (ds, ls) →
     ∃ k b', publish k e b = mkBusState b' [] ((λ l, (l, e)) <$> ds) ∧ bus_ok b' ∧ listeners b' = ls) as Hall.
  { intros fuel ds ls Hd. apply (loop_run fuel e (current b) 0 (listeners b) b true [] []); try done. }
  split; [exact Hall|]. intros Hs.
  destruct (deliver_no_new e (listeners b) true (listeners b) Hs) as (ls' & Hd).
  destruct (Hall _ _ _ Hd) as (k & b' & Hr & Hb' & _). by exists k, b'.
Qed.
End bus.

Arguments Subscribe {listener event}.
Arguments Unsubscribe {listener event}.
Arguments Publish {listener event}.
Arguments ThrowError {listener event}.

Section witnesses.
(** Listener 1 unsubscribes 2, then throws; 2 does nothing; 3 subscribes 4. *)
Definition demo_body (l : nat) (e : string) : list (action (listener := nat) (event := string)) :=
  match l with 1 => [Unsubscribe 2; ThrowError] | 3 => [Subscribe 4] | _ => [] end.

Definition demo_bus : EventBus := subscribe 3 (subscribe 2 (subscribe 1 new_bus)).
Definition subscribing_first : EventBus := subscribe 1 (subscribe 3 new_bus).

Lemma publish_correct_witness :
  calls (publish demo_body 20 "e" demo_bus) = [(1, "e"); (2, "e"); (3, "e")]
  ∧ listeners (bus (publish demo_body 20 "e" demo_bus)) = [1; 3; 4]
  ∧ ∃ k b', publish demo_body k "e" subscribing_first = mkBusState b' [] [(3, "e"); (1, "e"); (4, "e")]
      ∧ listeners b' = [3; 1; 4].
Proof.
  split; [reflexivity|]. split; [reflexivity|].
  destruct (publish_correct demo_body "e" subscribing_first) as [Hall _].
  - vm_compute. lia.
  - intros [|[|[|[|l]]]]; apply (bool_decide_unpack _); reflexivity.
  - destruct (Hall 5 [3; 1; 4] [3; 1; 4] eq_refl) as (k & b' & Hr & _ & Hl). exists k, b'. split; [exact Hr|exact Hl].
Defined.
End witnesses.
