(* ===== verification/Webhooks.v ===== *)
(** * Webhooks (webhooks/, services/webhook-service.ts, storage/memory/webhook-store.ts)

    Endpoints, the delivery of events with a bounded number of attempts, the
    deliveries kept, and signatures.  The answers of the endpoints, the clocks and
    the keyed hash are arbitrary. *)

From S2P Require Import Prelude JsMap JsString JsNum DomainTypes JsValue Domain Stores.
From Stdlib Require Import Ascii.
Open Scope Z_scope.

Inductive WebhookEvent : Type := EvRunStarted | EvRunCompleted | EvRunFailed | EvRunDeadLettered | EvTaskFailed.
#[export] Instance WebhookEvent_eq_dec : EqDecision WebhookEvent.
Proof. solve_decision. Defined.

Record WebhookEndpoint : Type := mkEndpoint {
  we_id : string;
  we_tenantId : string;
  we_url : string;
  we_secret : string;
  we_events : list WebhookEvent;
  we_enabled : bool;
  we_createdAt : string;
}.

Inductive DeliveryStatus : Type := DeliveryPending | Delivered | DeliveryFailed.

Record WebhookDelivery : Type := mkDelivery {
  wd_id : string;
  wd_endpointId : string;
  wd_event : WebhookEvent;
  wd_payload : jsrecord;
  wd_status : DeliveryStatus;
  wd_attempts : Z;
  wd_lastAttemptAt : option string;
  wd_responseStatus : option Z;
}.

(** ** Stores *)

Definition webhook_save (e : WebhookEndpoint) (s : jsmap string WebhookEndpoint) : jsmap string WebhookEndpoint :=
  map_set s (we_id e) e.
Definition listByTenant (tenantId : string) (s : jsmap string WebhookEndpoint) : list WebhookEndpoint :=
  List.filter (λ e, bool_decide (we_tenantId e = tenantId)) (map_values s).
Definition listForEvent (tenantId : string) (event : WebhookEvent) (s : jsmap string WebhookEndpoint) : list WebhookEndpoint :=
  List.filter (λ e, bool_decide (we_tenantId e = tenantId) && we_enabled e && bool_decide (event ∈ we_events e)) (map_values s).

Definition delivery_save (d : WebhookDelivery) (s : jsmap string WebhookDelivery) : jsmap string WebhookDelivery :=
  map_set s (wd_id d) d.
Definition delivery_list (limit : Z) (s : jsmap string WebhookDelivery) : list WebhookDelivery :=
  slice_last (map_values s) limit.

(** ** Signatures (webhooks/signer.ts) *)

Section signer.
(** [createHmac("sha256", secret).update(payload).digest("hex")]. *)
Context (hmac : string → string → string).

Definition signPayload (secret body timestamp : string) : string := hmac secret (timestamp +:+ "." +:+ body).

(** [Buffer.from(s)]: the UTF-8 bytes of a Latin-1 string. *)
Definition utf8_char (c : ascii) : list N :=
  let n := char_code c in
  if (n <? 128)%N then [n] else [(192 + n / 64)%N; (128 + n `mod` 64)%N].
Definition utf8 (s : string) : list N := chars s ≫= utf8_char.

(** [timingSafeEqual] throws on buffers of different lengths, which is caught. *)
Definition timingSafeEqual (a b : list N) : res bool :=
  if negb (bool_decide (length a = length b)) then Throw (PlainError "Input buffers must have the same byte length")
  else Ok (bool_decide (a = b)).

Definition verifySignature (secret body timestamp signature : string) : bool :=
  match timingSafeEqual (utf8 (signPayload secret body timestamp)) (utf8 signature) with
  | Ok r => r
  | _ => false
  end.

Lemma utf8_char_head c d l k : utf8_char c ++ l = utf8_char d ++ k → c = d ∧ l = k.
Proof.
  unfold utf8_char, char_code. pose proof (N_ascii_bounded c). pose proof (N_ascii_bounded d).
  intros Heq. assert (N_of_ascii c = N_of_ascii d ∧ l = k) as [Hn ->].
  { destruct (N_of_ascii c <? 128)%N eqn:E1, (N_of_ascii d <? 128)%N eqn:E2; cbn in Heq;
      rewrite ?N.ltb_lt, ?N.ltb_ge in *.
    - by injection Heq.
    - exfalso. injection Heq; intros _ Hh. revert Hh. generalize (N_of_ascii d / 64)%N. lia.
    - exfalso. injection Heq; intros _ Hh. revert Hh. generalize (N_of_ascii c / 64)%N. lia.
    - injection Heq; intros -> Hm Hh. split; [|done].
      rewrite (N.div_mod (N_of_ascii c) 64), (N.div_mod (N_of_ascii d) 64) by done.
      apply N.add_cancel_l in Hh. apply N.add_cancel_l in Hm. by rewrite Hh, Hm. }
  split; [|done]. by rewrite <-(ascii_N_embedding c), <-(ascii_N_embedding d), Hn.
Qed.

Lemma utf8_inj s t : utf8 s = utf8 t → s = t.
Proof.
  unfold utf8. intros Heq. rewrite <-(of_chars_chars s), <-(of_chars_chars t). f_equal. revert Heq.
  generalize (chars s) (chars t). intros l. induction l as [|c l IH]; intros [|d k] Heq; try done; cbn in Heq.
  - unfold utf8_char in Heq. by destruct (_ <? _)%N.
  - unfold utf8_char in Heq. by destruct (_ <? _)%N.
  - apply utf8_char_head in Heq as [-> Heq]. by rewrite (IH k).
Qed.

(** A signature is accepted exactly when it is the right one. *)
Lemma verifySignature_spec secret body timestamp signature :
  verifySignature secret body timestamp signature = true ↔ signature = signPayload secret body timestamp.
Proof.
  unfold verifySignature, timingSafeEqual. case_bool_decide as Hlen; cbn.
  - rewrite bool_decide_eq_true. split; [intros Heq; symmetry; by apply utf8_inj|by intros ->].
  - split; [done|]. intros ->. done.
Qed.
End signer.

(** ** Deliveries (webhooks/dispatcher.ts, services/webhook-service.ts) *)

Section dispatcher.
(** Whether the [k]-th request was answered with success, the [k]-th reading of
    [Date.now()] and of the clock. *)
Context (answered : nat → bool) (dateNow : nat → Z) (isoNow : nat → string) (maxAttempts : nat).

Record webhook_state : Type := mkWebhookState {
  endpoints : jsmap string WebhookEndpoint;
  deliveries : jsmap string WebhookDelivery;
  requests : nat;
  dates : nat;
  ticks : nat;
}.
Notation weff := (eff webhook_state).

Definition read_date : weff Z := λ s,
  (Ok (dateNow (dates s)), mkWebhookState (endpoints s) (deliveries s) (requests s) (S (dates s)) (ticks s)).
Definition read_clock : weff string := λ s,
  (Ok (isoNow (ticks s)), mkWebhookState (endpoints s) (deliveries s) (requests s) (dates s) (S (ticks s))).

(** The request itself; a [fetch] that throws counts as refused. *)
Definition fetch_ok : weff bool := λ s,
  (Ok (answered (requests s)), mkWebhookState (endpoints s) (deliveries s) (S (requests s)) (dates s) (ticks s)).

(** [post] dates and signs the body, then asks the endpoint. *)
Definition post : weff bool :=
  sentAt ← read_clock;
  timestamp ← read_date;
  fetch_ok.

Definition with_attempt (n : Z) (at_ : string) (d : WebhookDelivery) : WebhookDelivery :=
  mkDelivery (wd_id d) (wd_endpointId d) (wd_event d) (wd_payload d) (wd_status d) n (Some at_) (wd_responseStatus d).
Definition with_delivery_status (st : DeliveryStatus) (code : option Z) (d : WebhookDelivery) : WebhookDelivery :=
  mkDelivery (wd_id d) (wd_endpointId d) (wd_event d) (wd_payload d) st (wd_attempts d) (wd_lastAttemptAt d) code.

(** The [for] loop, [remaining] turns before its end. *)
Fixpoint dispatch_loop (remaining : nat) (attempt : Z) (delivery : WebhookDelivery) : weff (WebhookDelivery * bool) :=
  match remaining with
  | O => mret (with_delivery_status DeliveryFailed (wd_responseStatus delivery) delivery, false)
  | S remaining =>
      at_ ← read_clock;
      let delivery := with_attempt attempt at_ delivery in
      ok ← post;
      if (ok : bool) then mret (with_delivery_status Delivered (Some 200) delivery, true)
      else dispatch_loop remaining (attempt + 1) delivery
  end.

Definition dispatch (endpoint : WebhookEndpoint) (event : WebhookEvent) (payload : jsrecord) : weff (WebhookDelivery * bool) :=
  date ← read_date;
  let delivery := mkDelivery ("whd_" +:+ pretty date) (we_id endpoint) event payload DeliveryPending 0 None None in
  dispatch_loop maxAttempts 1 delivery.

Fixpoint emit_all (eps : list WebhookEndpoint) (event : WebhookEvent) (payload : jsrecord) : weff unit :=
  match eps with
  | [] => mret tt
  | ep :: eps =>
      result ← dispatch ep event payload;
      _ ← modify (λ s, mkWebhookState (endpoints s) (delivery_save result.1 (deliveries s)) (requests s) (dates s) (ticks s));
      emit_all eps event payload
  end.

Definition emit (tenantId : string) (event : WebhookEvent) (payload : jsrecord) : weff unit :=
  eps ← gets (λ s, listForEvent tenantId event (endpoints s));
  emit_all eps event payload.

(** [register]: the new endpoint's id and secret come from the random source. *)
Definition register (uuid secret tenantId url : string) (events : list WebhookEvent) : weff WebhookEndpoint :=
  createdAt ← read_clock;
  let endpoint := mkEndpoint ("wh_" +:+ slice_to uuid 10) tenantId url secret events true createdAt in
  _ ← modify (λ s, mkWebhookState (webhook_save endpoint (endpoints s)) (deliveries s) (requests s) (dates s) (ticks s));
  mret endpoint.

(** ** Lemmas *)

(** The first success among [n] requests from the [r]-th. *)
Fixpoint first_success (r n : nat) : option nat :=
  match n with
  | O => None
  | S n => if answered r then Some O else S <$> first_success (S r) n
  end.

Lemma first_success_Some r n k :
  first_success r n = Some k ↔ (k < n)%nat ∧ answered (r + k) = true ∧ ∀ j, (j < k)%nat → answered (r + j) = false.
Proof.
  revert r k. induction n as [|n IH]; intros r k; cbn; [naive_solver lia|].
  destruct (answered r) eqn:E.
  - split; [intros [= <-]; rewrite Nat.add_0_r; split; [lia|split; [done|lia]]|].
    intros (_ & _ & Hj). destruct k; [done|]. specialize (Hj O ltac:(lia)). rewrite Nat.add_0_r in Hj. congruence.
  - destruct k as [|k].
    + rewrite Nat.add_0_r. split; [|intros (_ & ? & _); congruence]. by destruct (first_success (S r) n).
    + assert ((S <$> first_success (S r) n = Some (S k)) ↔ first_success (S r) n = Some k) as ->
        by (destruct (first_success (S r) n); cbn; naive_solver).
      rewrite IH, Nat.add_succ_r. cbn [Nat.add]. split; intros (? & ? & Hj); (split; [lia|]); (split; [done|]).
      * intros [|j] Hjk; [by rewrite Nat.add_0_r|]. rewrite Nat.add_succ_r. apply Hj. lia.
      * intros j Hjk. specialize (Hj (S j) ltac:(lia)). by rewrite Nat.add_succ_r in Hj.
Qed.

Lemma first_success_None r n : first_success r n = None ↔ ∀ j, (j < n)%nat → answered (r + j) = false.
Proof.
  revert r. induction n as [|n IH]; intros r; cbn; [split; [lia|done]|]. destruct (answered r) eqn:E.
  - split; [done|]. intros Hj. specialize (Hj O ltac:(lia)). rewrite Nat.add_0_r in Hj. congruence.
  - assert ((S <$> first_success (S r) n = None) ↔ first_success (S r) n = None) as ->
      by (by destruct (first_success (S r) n)).
    rewrite IH. split; intros Hj.
    + intros [|j] Hjn; [by rewrite Nat.add_0_r|]. rewrite Nat.add_succ_r. apply Hj. lia.
    + intros j Hjn. specialize (Hj (S j) ltac:(lia)). by rewrite Nat.add_succ_r in Hj.
Qed.

(** What a dispatch leaves: the stores as they were and the requests counted. *)
Record dispatched (remaining : nat) (attempt : Z) (d0 : WebhookDelivery) (s : webhook_state)
    (d : WebhookDelivery) (ok : bool) (s' : webhook_state) : Prop := {
  di_result : match first_success (requests s) remaining with
              | Some k => ok = true ∧ wd_status d = Delivered ∧ wd_attempts d = attempt + Z.of_nat k
                          ∧ wd_responseStatus d = Some 200 ∧ requests s' = (requests s + S k)%nat
              | None => ok = false ∧ wd_status d = DeliveryFailed ∧ requests s' = (requests s + remaining)%nat
                        ∧ wd_attempts d = (if decide (remaining = O) then wd_attempts d0 else attempt + Z.of_nat remaining - 1)
              end;
  di_same : wd_id d = wd_id d0 ∧ wd_endpointId d = wd_endpointId d0 ∧ wd_event d = wd_event d0 ∧ wd_payload d = wd_payload d0;
  di_stores : endpoints s' = endpoints s ∧ deliveries s' = deliveries s;
  di_dates : (dates s ≤ dates s')%nat;
}.

Lemma dispatch_loop_spec remaining attempt d0 s :
  ∃ d ok s', dispatch_loop remaining attempt d0 s = (Ok (d, ok), s') ∧ dispatched remaining attempt d0 s d ok s'.
Proof.
  revert attempt d0 s. induction remaining as [|remaining IH]; intros attempt d0 s.
  { eexists _, _, _. split; [reflexivity|]. split; try done. }
  cbn [dispatch_loop]. unfold post, fetch_ok, read_clock, read_date, mbind, M_bind. cbn.
  destruct (answered (requests s)) eqn:E.
  { eexists _, _, _. split; [reflexivity|]. split; try done; cbn; [|lia]. rewrite E. cbn.
    repeat split; try done; lia. }
  set (d1 := with_attempt _ _ _). set (s1 := mkWebhookState _ _ _ _ _).
  destruct (IH (attempt + 1) d1 s1) as (d & ok & s' & Hd & [Hr Hsame [He Hdl] Hdt]).
  exists d, ok, s'. split; [exact Hd|]. split; [|done|done|cbn in Hdt; lia].
  cbn [first_success]. rewrite E. unfold s1 in Hr. cbn [requests] in Hr.
  destruct (first_success (S (requests s)) remaining) as [k|]; cbn [fmap option_fmap option_map].
  - destruct Hr as (? & ? & ? & ? & ?). repeat split; try done; lia.
  - destruct Hr as (Hok & Hst & Hreq & Ha). split; [done|]. split; [done|]. split; [lia|]. rewrite Ha.
    rewrite (decide_False (P := S remaining = O)) by done. destruct remaining; [rewrite decide_True by done; unfold d1; cbn [with_attempt wd_attempts]; lia|]. rewrite decide_False by done. lia.
Qed.

Lemma dispatch_spec endpoint event payload s :
  ∃ d ok s', dispatch endpoint event payload s = (Ok (d, ok), s')
    ∧ dispatched maxAttempts 1
        (mkDelivery ("whd_" +:+ pretty (dateNow (dates s))) (we_id endpoint) event payload DeliveryPending 0 None None) s d ok s'
    ∧ (dates s < dates s')%nat.
Proof.
  unfold dispatch, read_date, mbind, M_bind. cbn. set (d0 := mkDelivery _ _ _ _ _ _ _ _). set (s1 := mkWebhookState _ _ _ _ _).
  destruct (dispatch_loop_spec maxAttempts 1 d0 s1) as (d & ok & s' & Hd & [Hr Hsame Hst Hdt]).
  exists d, ok, s'. split; [exact Hd|]. split; [split; try done; cbn in Hdt; lia|]. cbn in Hdt. lia.
Qed.

(** What became of the delivery to an endpoint. *)
Record delivered_to (event : WebhookEvent) (payload : jsrecord) (ep : WebhookEndpoint) (d : WebhookDelivery) : Prop := {
  dt_endpoint : wd_endpointId d = we_id ep;
  dt_event : wd_event d = event ∧ wd_payload d = payload;
  dt_attempts : 1 ≤ wd_attempts d ≤ Z.of_nat maxAttempts;
  dt_status : (wd_status d = Delivered ∧ wd_responseStatus d = Some 200)
              ∨ (wd_status d = DeliveryFailed ∧ wd_attempts d = Z.of_nat maxAttempts);
}.

Lemma dispatched_to endpoint event payload s d ok s' :
  (0 < maxAttempts)%nat →
  dispatched maxAttempts 1
    (mkDelivery ("whd_" +:+ pretty (dateNow (dates s))) (we_id endpoint) event payload DeliveryPending 0 None None) s d ok s' →
  delivered_to event payload endpoint d ∧ Z.of_nat (requests s') = Z.of_nat (requests s) + wd_attempts d.
Proof.
  intros Hmax [Hr (Hid & Hep & Hev & Hpl) _ _].
  destruct (first_success (requests s) maxAttempts) as [k|] eqn:Ek.
  - apply first_success_Some in Ek as (Hk & _ & _). destruct Hr as (_ & Hst & Hat & Hc & Hrq).
    split; [split; [done|done|lia|by left]|lia].
  - destruct Hr as (_ & Hst & Hrq & Hat). rewrite decide_False in Hat by lia.
    split; [split; [done|done|lia|right; split; [done|lia]]|lia].
Qed.

Lemma emit_all_spec eps event payload s :
  (0 < maxAttempts)%nat →
  (∀ i j, (dates s ≤ i < j)%nat → dateNow i ≠ dateNow j) →
  ∃ ds s', emit_all eps event payload s = (Ok tt, s')
    ∧ endpoints s' = endpoints s
    ∧ Forall2 (λ ep d, delivered_to event payload ep d ∧ map_get (deliveries s') (wd_id d) = Some d) eps ds
    ∧ Forall (λ d, ∃ j, (dates s ≤ j)%nat ∧ wd_id d = "whd_" +:+ pretty (dateNow j)) ds
    ∧ (∀ id, id ∉ wd_id <$> ds → map_get (deliveries s') id = map_get (deliveries s) id)
    ∧ Z.of_nat (requests s') = Z.of_nat (requests s) + foldr Z.add 0 (wd_attempts <$> ds).
Proof.
  intros Hmax. revert s. induction eps as [|ep eps IH]; intros s Hdist.
  { exists [], s. repeat split; try constructor. simpl. lia. }
  cbn [emit_all]. destruct (dispatch_spec ep event payload s) as (d & ok & s1 & Hd & Hdi & Hlt).
  rewrite (M_bind_eq_Ok _ _ _ _ _ Hd). cbn [fst].
  set (s2 := mkWebhookState (endpoints s1) (delivery_save d (deliveries s1)) (requests s1) (dates s1) (ticks s1)).
  rewrite (M_bind_eq_Ok _ _ s1 tt s2) by done.
  destruct (dispatched_to _ _ _ _ _ _ _ Hmax Hdi) as [Hto Hreq].
  destruct Hdi as [_ (Hid & _) [Hep Hdl] _].
  destruct (IH s2) as (ds & s' & He & Hep' & Hds & Hids & Hoth & Hreq').
  { intros i j Hij. apply Hdist. simpl in Hij. lia. }
  assert (wd_id d ∉ wd_id <$> ds) as Hfresh.
  { intros (d' & Heq & Hd')%list_elem_of_fmap. rewrite Forall_forall in Hids.
    destruct (Hids d' Hd') as (j & Hj & Hid'). rewrite Hid' in Heq. rewrite Hid in Heq. cbn [wd_id] in Heq.
    apply (inj (String.append "whd_")), (inj pretty) in Heq. simpl in Hj. by apply (Hdist (dates s) j ltac:(lia)). }
  exists (d :: ds), s'. split; [done|]. split; [by rewrite Hep', <-Hep|]. split; [|split; [|split]].
  - constructor; [|done]. split; [done|]. rewrite Hoth by done. cbn. unfold delivery_save. apply map_get_set_eq.
  - constructor; [exists (dates s); by split|]. eapply Forall_impl; [exact Hids|].
    intros d' (j & Hj & ?). exists j. split; [simpl in Hj; lia|done].
  - intros id Hn. rewrite fmap_cons, not_elem_of_cons in Hn. destruct Hn as [Hn Hn'].
    rewrite Hoth by done. cbn. unfold delivery_save. rewrite map_get_set_ne by congruence. by rewrite Hdl.
  - cbn. simpl in Hreq'. lia.
Qed.

(** When the clock stands still, all dispatches share one id: of the deliveries
    of an event only the last is kept. *)
Lemma emit_all_collision eps event payload s o s' c :
  (∀ k, dateNow k = c) → emit_all eps event payload s = (o, s') →
  ∀ id, id ≠ "whd_" +:+ pretty c → map_get (deliveries s') id = map_get (deliveries s) id.
Proof.
  intros Hc. revert s. induction eps as [|ep eps IH]; intros s He id Hid; [by injection He as _ <-|].
  cbn [emit_all] in He. destruct (dispatch_spec ep event payload s) as (d & ok & s1 & Hd & [_ (Hdid & _) [_ Hdl] _] & _).
  rewrite (M_bind_eq_Ok _ _ _ _ _ Hd) in He. cbn [fst] in He.
  erewrite M_bind_eq_Ok in He by done. rewrite (IH _ He id Hid). cbn. unfold delivery_save.
  rewrite Hdid. cbn [wd_id]. rewrite Hc, map_get_set_ne by congruence. by rewrite Hdl.
Qed.

(** ** Properties *)

(** Emitting an event sends it to exactly the enabled endpoints of the tenant
    that listen to it, each at most [maxAttempts] times: until the first success,
    or all of them.  If [Date.now()] gives no value twice, every one of these
    deliveries is kept under an id of its own with its number of attempts and how
    it ended, other deliveries are kept as they were, and the requests made are
    the attempts recorded. *)
Theorem emit_delivers (tenantId : string) (event : WebhookEvent) (payload : jsrecord) (s : webhook_state)
    (Hmax : (0 < maxAttempts)%nat) (Hdates : ∀ i j, (dates s ≤ i < j)%nat → dateNow i ≠ dateNow j) :
  ∃ ds s', emit tenantId event payload s = (Ok tt, s') ∧ endpoints s' = endpoints s
    ∧ Forall2 (λ ep d, delivered_to event payload ep d ∧ map_get (deliveries s') (wd_id d) = Some d)
        (listForEvent tenantId event (endpoints s)) ds
    ∧ (∀ id, id ∉ wd_id <$> ds → map_get (deliveries s') id = map_get (deliveries s) id)
    ∧ Z.of_nat (requests s') = Z.of_nat (requests s) + foldr Z.add 0 (wd_attempts <$> ds)
    ∧ ∀ ep, ep ∈ listForEvent tenantId event (endpoints s) ↔
        ep ∈ map_values (endpoints s) ∧ we_tenantId ep = tenantId ∧ we_enabled ep = true ∧ event ∈ we_events ep.
Proof.
  destruct (emit_all_spec (listForEvent tenantId event (endpoints s)) event payload s Hmax Hdates)
    as (ds & s' & He & Hep & Hds & _ & Hoth & Hreq).
  exists ds, s'. split; [exact He|]. split; [done|]. split; [done|]. split; [done|]. split; [done|].
  intros ep. unfold listForEvent. rewrite list_elem_of_In, List.filter_In, <-list_elem_of_In, !andb_true_iff,
    !bool_decide_eq_true. tauto.
Qed.
End dispatcher.

Section witnesses.
(** The first request fails; the clock advances. *)
Definition demo_answers (k : nat) : bool := negb (k =? 0)%nat.
Definition demo_endpoint (id tenant : string) (on : bool) : WebhookEndpoint :=
  mkEndpoint id tenant "https://example.org" "secret" [EvRunFailed] on "".
Definition demo_webhooks : webhook_state :=
  mkWebhookState [("a", demo_endpoint "a" "t" true); ("b", demo_endpoint "b" "t" false);
                  ("c", demo_endpoint "c" "u" true); ("d", demo_endpoint "d" "t" true)] [] 0 0 0.

Lemma emit_delivers_witness :
  ∃ s', emit demo_answers Z.of_nat pretty 3 "t" EvRunFailed [] demo_webhooks = (Ok tt, s')
    ∧ (wd_endpointId <$> map_values (deliveries s')) = ["a"; "d"]
    ∧ (wd_attempts <$> map_values (deliveries s')) = [2; 1] ∧ requests s' = 3%nat.
Proof.
  destruct (emit_delivers demo_answers Z.of_nat pretty 3 "t" EvRunFailed [] demo_webhooks) as (ds & s' & He & _).
  - lia.
  - intros i j Hij. simpl in Hij. lia.
  - exists s'. split; [exact He|]. vm_compute in He. injection He as <-. repeat split; reflexivity.
Defined.
End witnesses.
