(* ===== verification/Connectors.v ===== *)
(** * Connectors and notifications (connectors/, notifications/, integrations/)

    The requests the connectors make and what they make of the answers, and the
    channels a notification goes through.  The remote service is any function
    from requests to answers; a request may also be rejected (no connection, the
    time limit). *)

From S2P Require Import Prelude JsMap JsString JsNum DomainTypes JsValue Json JsonFiles Webhooks HttpInvoker.
From Stdlib Require Import Ascii.
Open Scope Z_scope.

(** ** BaseConnector *)

Record ConnectorConfig : Type := mkConfig {
  baseUrl : string;
  apiKey : option string;
  timeoutMs : option Z;
  maxRetries : option Z;
}.

(** [data] and [error] are [undefined] when absent. *)
Record ConnectorResponse : Type := mkConnectorResponse {
  cr_ok : bool;
  cr_status : Z;
  cr_data : jsval;
  cr_error : option string;
  cr_latencyMs : Z;
}.

(** The arguments of [fetch]; [abortAfter] is the time limit of its signal. *)
Record FetchRequest : Type := mkFetch {
  fr_url : string;
  fr_method : string;
  fr_headers : list (string * string);
  fr_body : option string;
  abortAfter : Z;
}.

(** An answer; reading its text may fail. *)
Record FetchAnswer : Type := mkAnswer {
  fa_status : Z;
  fa_statusText : string;
  fa_text : settled string;
}.

(** [baseUrl.replace(/\/$/, "")]. *)
Definition trim_slash (s : string) : string :=
  if ends_with s "/" then slice_to s (String.length s - 1) else s.

Section connector.
Context (config : ConnectorConfig).
Context (server : FetchRequest → settled FetchAnswer).
(** [Date.now()] before and after the request, and the number of the first object
    an answer's text denotes. *)
Context (started ended : Z) (next : N).

Definition fetch_request (method path : string) (body : option jsval) : FetchRequest :=
  mkFetch (trim_slash (baseUrl config) +:+ path) method
    (("content-type", "application/json") ::
     (if truthy_opt (apiKey config) then [("authorization", "Bearer " +:+ default "" (apiKey config))] else []))
    (body ≫= stringify 0) (default 30000 (timeoutMs config)).

(** [text ? JSON.parse(text) : undefined], an error of the parser caught. *)
Definition parse_data (text : string) : jsval :=
  if truthy_string text
  then match json_parse text with Some j => (of_json next j).1 | None => JUndefined end
  else JUndefined.

Definition request (method path : string) (body : option jsval) : ConnectorResponse :=
  let latencyMs := ended - started in
  let failed e := mkConnectorResponse false 0 JUndefined (Some (error_message e)) latencyMs in
  match server (fetch_request method path body) with
  | Rejected e => failed e
  | Resolved res =>
      match fa_text res with
      | Rejected e => failed e
      | Resolved text =>
          if negb (status_ok (fa_status res)) then
            mkConnectorResponse false (fa_status res) JUndefined
              (Some (if truthy_string text then text else fa_statusText res)) latencyMs
          else mkConnectorResponse true (fa_status res) (parse_data text) None latencyMs
      end
  end.

(** [data?.field ?? []]. *)
Definition data_field (data : jsval) (field : string) : jsval :=
  if is_nullish data then JUndefined else get_property data field.
Definition or_empty (v : jsval) : jsval := if is_nullish v then JArr next [] else v.

(** ** NetSuite *)

Definition netsuite_healthCheck : bool :=
  cr_ok (request "GET" "/services/rest/record/v1/metadata-catalog" None).

Definition open_invoices_path (subsidiaryId : string) (since : option string) : string :=
  let q := if truthy_opt since
    then "?q=lastModifiedDate ON OR AFTER " +:+ of_chars [json_quote] +:+ default "" since +:+ of_chars [json_quote]
    else "" in
  "/services/rest/record/v1/invoice" +:+ q +:+ "&subsidiary=" +:+ subsidiaryId.

Definition listOpenInvoices (subsidiaryId : string) (since : option string) : jsval :=
  let res := request "GET" (open_invoices_path subsidiaryId since) None in
  if negb (cr_ok res) || negb (to_boolean (cr_data res)) then JArr next []
  else or_empty (get_property (cr_data res) "items").

Definition postJournalEntry (entry : jsval) : jsval :=
  cr_data (request "POST" "/services/rest/record/v1/journalEntry" (Some entry)).

Definition getVendor (vendorId : string) : ConnectorResponse :=
  request "GET" ("/services/rest/record/v1/vendor/" +:+ vendorId) None.

(** ** encodeURIComponent *)

Definition is_unreserved (c : ascii) : bool :=
  is_digit c || is_lower c || is_upper c
  || bool_decide (c ∈ ["-"; "_"; "."; "!"; "~"; "*"; "'"; "("; ")"]%char).

Definition hex_upper (n : N) : ascii := ascii_of_N (if (n <? 10)%N then 48 + n else 55 + n).

Definition percent_byte (b : N) : list ascii := ["%"%char; hex_upper (b / 16); hex_upper (b mod 16)].

Definition encode_char (c : ascii) : list ascii :=
  if is_unreserved c then [c] else utf8_char c ≫= percent_byte.

Definition encodeURIComponent (s : string) : string := of_chars (chars s ≫= encode_char).

(** ** Salesforce *)

Definition salesforce_healthCheck : bool := cr_ok (request "GET" "/services/data/v58.0/limits" None).

Definition accounts_soql (industry : option string) : string :=
  if truthy_opt industry
  then "SELECT Id,Name,Industry,AnnualRevenue FROM Account WHERE Industry='" +:+ default "" industry +:+ "' LIMIT 200"
  else "SELECT Id,Name,Industry,AnnualRevenue FROM Account LIMIT 200".

Definition accounts_path (industry : option string) : string :=
  "/services/data/v58.0/query?q=" +:+ encodeURIComponent (accounts_soql industry).

Definition queryAccounts (industry : option string) : jsval :=
  or_empty (data_field (cr_data (request "GET" (accounts_path industry) None)) "records").

Definition upsertOpportunity (payload : jsval) : ConnectorResponse :=
  request "POST" "/services/data/v58.0/sobjects/Opportunity" (Some payload).

(** ** SAP *)

Definition sap_healthCheck : bool :=
  cr_ok (request "GET" "/sap/opu/odata/sap/API_BUSINESS_PARTNER/$metadata" None).

Definition documents_filter (companyCode fromDate toDate : string) : string :=
  "CompanyCode eq '" +:+ companyCode +:+ "' and PostingDate ge datetime'" +:+ fromDate
  +:+ "' and PostingDate le datetime'" +:+ toDate +:+ "'".

Definition documents_path (companyCode fromDate toDate : string) : string :=
  "/sap/opu/odata/sap/API_JOURNALENTRY_SRV/A_JournalEntryItem?" +:+ encodeURIComponent "$filter" +:+ "="
  +:+ encodeURIComponent (documents_filter companyCode fromDate toDate).

Definition fetchAccountingDocuments (companyCode fromDate toDate : string) : jsval :=
  or_empty (data_field (cr_data (request "GET" (documents_path companyCode fromDate toDate) None)) "value").

Record ConnectorPostResult : Type := mkPostResult { success : bool; documentNumber : jsval; pr_error : option string }.

Definition postClearing (document : jsval) : ConnectorPostResult :=
  let res := request "POST" "/sap/opu/odata/sap/API_JOURNALENTRY_SRV/A_JournalEntry" (Some document) in
  mkPostResult (cr_ok res) (data_field (cr_data res) "DocumentNumber") (cr_error res).

(** ** Stripe *)

Definition stripe_healthCheck : bool := cr_ok (request "GET" "/v1/balance" None).

Definition charges_path (sinceUnix : num) (limit : option num) : string :=
  "/v1/charges?created[gte]=" +:+ num_to_string sinceUnix +:+ "&limit=" +:+ num_to_string (default (num_of_Z 100) limit).

Definition listCharges (sinceUnix : num) (limit : option num) : jsval :=
  or_empty (data_field (cr_data (request "GET" (charges_path sinceUnix limit) None)) "data").

Definition refund_body (ident : N) (chargeId : string) (amount : option num) : jsval :=
  JObj ident (("charge", JStr chargeId) :: match amount with Some a => [("amount", JNum a)] | None => [] end).

Definition createRefund (ident : N) (chargeId : string) (amount : option num) : jsval :=
  cr_data (request "POST" "/v1/refunds" (Some (refund_body ident chargeId amount))).

Definition getCustomer (customerId : string) : ConnectorResponse :=
  request "GET" ("/v1/customers/" +:+ customerId) None.
End connector.

(** ** Notifications *)

Inductive Severity : Type := SevInfo | SevWarning | SevCritical.

Record NotificationMessage : Type := mkMessage {
  subject : string;
  nm_body : string;
  severity : Severity;
  nm_metadata : jsrecord;
}.

(** A channel: whether it took the message; it may reject. *)
Record NotificationChannel : Type := mkChannel { ch_name : string; send : NotificationMessage → res bool }.

Record EmailChannelConfig : Type := mkEmail { em_from : string; em_smtpHost : string; em_enabled : bool }.

Definition email_channel (config : EmailChannelConfig) : NotificationChannel :=
  mkChannel "email" (λ _, Ok (em_enabled config)).

(** The mark in front of a line: U+2022 is not a Latin-1 character, so its text is
    an argument. *)
Definition failure_text (bullet runId jobName reason : string) : string :=
  let newline := of_chars [line_feed] in
  "*Job run failed*" +:+ newline +:+ bullet +:+ " Run: `" +:+ runId +:+ "`" +:+ newline +:+ bullet +:+ " Job: "
  +:+ jobName +:+ newline +:+ bullet +:+ " Reason: " +:+ reason.

(** [formatRunFailureMessage], as the value that is sent. *)
Definition formatRunFailureMessage (bullet runId jobName reason : string) : jsval :=
  JArr 0 [JObj 1 [("type", JStr "section");
                  ("text", JObj 2 [("type", JStr "mrkdwn"); ("text", JStr (failure_text bullet runId jobName reason))])]].

Definition metadata_text (metadata : jsrecord) (key other : string) : res string :=
  let v := get_property (JObj 0 metadata) key in to_string (if is_nullish v then JStr other else v).

Definition slack_channel (bullet webhookUrl : string) (server : FetchRequest → settled FetchAnswer) : NotificationChannel :=
  mkChannel "slack" (λ message,
    runId ← metadata_text (nm_metadata message) "runId" "unknown";
    jobName ← metadata_text (nm_metadata message) "jobName" "job";
    let blocks := formatRunFailureMessage bullet runId jobName (nm_body message) in
    match server (mkFetch webhookUrl "POST" [("content-type", "application/json")]
                    (stringify 0 (JObj 3 [("blocks", blocks)])) 5000) with
    | Resolved res => Ok (status_ok (fa_status res))
    | Rejected _ => Ok false
    end).

(** The channels in turn; a rejection ends the loop. *)
Fixpoint broadcast (channels : list NotificationChannel) (message : NotificationMessage) (sent : Z) : res Z :=
  match channels with
  | [] => Ok sent
  | ch :: channels =>
      ok ← send ch message;
      broadcast channels message (if ok : bool then sent + 1 else sent)
  end.

Definition notifyRunFailure (channels : list NotificationChannel) (runId jobName reason : string) : res Z :=
  broadcast channels
    (mkMessage ("Run " +:+ runId +:+ " failed") reason SevCritical [("runId", JStr runId); ("jobName", JStr jobName)]) 0.

(** [buildFailureEvent]. *)
Definition buildFailureEvent (runId jobId reason : string) : jsval :=
  JObj 0 [("routing_key", JStr "placeholder"); ("event_action", JStr "trigger");
          ("payload", JObj 1 [("summary", JStr ("Jobflow run " +:+ runId +:+ " failed")); ("severity", JStr "error");
                              ("source", JStr "jobflow-engine");
                              ("custom_details", JObj 2 [("runId", JStr runId); ("jobId", JStr jobId); ("reason", JStr reason)])])].

(** ** The text of a query *)

(** What a server makes of a parameter: the bytes it encodes. *)
Fixpoint percent_decode (s : list ascii) : option (list N) :=
  match s with
  | [] => Some []
  | "%"%char :: h :: l :: r =>
      h ← hex_val h; l ← hex_val l; bytes ← percent_decode r; Some (Z.to_N (h * 16 + l) :: bytes)
  | c :: r => if is_unreserved c then cons (char_code c) <$> percent_decode r else None
  end.

Lemma percent_decode_byte n k :
  (n < 256)%N → percent_decode (percent_byte n ++ k) = cons n <$> percent_decode k.
Proof.
  intros Hn. assert (hex_val (hex_upper (n / 16)) = Some (Z.of_N (n / 16))
    ∧ hex_val (hex_upper (n mod 16)) = Some (Z.of_N (n mod 16))) as [Hh Hl].
  { assert (∀ d, (d < 16)%N → hex_val (hex_upper d) = Some (Z.of_N d)) as Hd.
    { intros d Hd. rewrite <-(N2Nat.id d). assert (N.to_nat d < 16)%nat as Hd' by lia. revert Hd'.
      generalize (N.to_nat d). intros n'. do 16 (destruct n' as [|n']; [reflexivity|]). lia. }
    split; apply Hd; [apply N.Div0.div_lt_upper_bound; lia|by apply N.mod_lt]. }
  unfold percent_byte. cbn [app percent_decode]. rewrite Hh, Hl. cbn [mbind option_bind].
  destruct (percent_decode k) as [bytes|]; [|done]. cbn. do 2 f_equal.
  pose proof (N.div_mod n 16 ltac:(done)) as Hdm. revert Hdm. generalize (n / 16)%N (n mod 16)%N. intros a b ->. lia.
Qed.

Lemma percent_decode_char c k :
  percent_decode (encode_char c ++ k) = (λ bytes, utf8_char c ++ bytes) <$> percent_decode k.
Proof.
  unfold encode_char. destruct (is_unreserved c) eqn:Hc.
  - cbn [app]. trans (if is_unreserved c then cons (char_code c) <$> percent_decode k else None).
    + by destruct c as [[] [] [] [] [] [] [] []].
    + rewrite Hc. f_equal. by destruct c as [[] [] [] [] [] [] [] []].
  - pose proof (N_ascii_bounded c) as Hb. unfold utf8_char, char_code in *.
    destruct (N_of_ascii c <? 128)%N eqn:E; cbn [mbind list_bind app]; rewrite <-!(assoc_L (++)); cbn [app].
    + by rewrite percent_decode_byte.
    + apply N.ltb_ge in E. rewrite !percent_decode_byte.
      * by destruct (percent_decode k).
      * pose proof (N.mod_lt (N_of_ascii c) 64). lia.
      * assert (N_of_ascii c / 64 < 4)%N by (apply N.Div0.div_lt_upper_bound; lia). lia.
Qed.

Lemma percent_decode_encode s : percent_decode (chars (encodeURIComponent s)) = Some (utf8 s).
Proof.
  unfold encodeURIComponent, utf8. rewrite chars_of_chars. induction (chars s) as [|c l IH]; [done|].
  cbn [mbind list_bind]. by rewrite percent_decode_char, IH.
Qed.

(** The encoded text has no character that ends a parameter. *)
Lemma encodeURIComponent_inert s :
  Forall (λ c, c ∉ ["&"; "="; "#"; "?"; "+"; "/"; " "]%char) (chars (encodeURIComponent s)).
Proof.
  unfold encodeURIComponent. rewrite chars_of_chars. induction (chars s) as [|c l IH]; [constructor|].
  cbn [mbind list_bind]. apply Forall_app. split; [|done].
  apply (bool_decide_unpack _). destruct c as [[] [] [] [] [] [] [] []]; vm_compute; exact I.
Qed.

(** A quote in the industry leaves the string literal of the query. *)
Lemma accounts_soql_injection :
  accounts_soql (Some "x' OR Name != '")
  = "SELECT Id,Name,Industry,AnnualRevenue FROM Account WHERE Industry='x' OR Name != '' LIMIT 200".
Proof. reflexivity. Qed.

(** Without a date the path of the invoices has no question mark: what follows is
    part of the path. *)
Lemma open_invoices_path_no_query subsidiaryId :
  open_invoices_path subsidiaryId None = "/services/rest/record/v1/invoice&subsidiary=" +:+ subsidiaryId.
Proof. reflexivity. Qed.

(** ** Requests *)

Lemma request_absent config server started ended next method path body :
  cr_ok (request config server started ended next method path body) = false →
  cr_data (request config server started ended next method path body) = JUndefined.
Proof. unfold request. by repeat case_match. Qed.

(** A request never fails for the caller: no connection, a time limit or an
    unreadable answer have status 0 and the text of the error. *)
Lemma request_rejected config server started ended next method path body e :
  (server (fetch_request config method path body) = Rejected e
   ∨ ∃ st stx, server (fetch_request config method path body) = Resolved (mkAnswer st stx (Rejected e))) →
  request config server started ended next method path body
  = mkConnectorResponse false 0 JUndefined (Some (error_message e)) (ended - started).
Proof. unfold request. intros [->|(st & stx & ->)]; done. Qed.

Lemma parse_data_json next gap j :
  printable j = true → to_json (parse_data next (of_chars (print_json gap 0 j))) = Some j.
Proof.
  intros Hj. unfold parse_data. destruct (print_opens gap 0 j Hj) as (c & l & E & _).
  assert (truthy_string (of_chars (print_json gap 0 j)) = true) as -> by by rewrite E.
  rewrite json_round_trip by done. by apply to_json_of_json.
Qed.

(** ** Operations *)

Lemma of_json_field n fs k j :
  NoDup fs.*1 → (k, j) ∈ fs →
  ∃ n', get_property (of_json n (JsonObj fs)).1 k = (of_json n' j).1.
Proof.
  intros Hnd Hin. cbn [of_json]. generalize (N.succ n). intros m.
  match goal with |- context [?g m fs] => set (go := g) end.
  enough (∃ n', record_get (go m fs).1 k = Some (of_json n' j).1) as (n' & Hg).
  { exists n'. destruct (go m fs) as [vs m']. cbn in *. by rewrite Hg. }
  revert m. induction fs as [|[k' j'] fs IH]; intros m; [by apply elem_of_nil in Hin|].
  cbn in Hnd. apply NoDup_cons in Hnd as [Hk Hnd]. cbn. destruct (of_json m j') as [v m'] eqn:Ev.
  destruct (go m' fs) as [vs m''] eqn:Eg. cbn. case_decide as Hd.
  - subst k'. apply elem_of_cons in Hin as [[= ->]|Hin]; [exists m; by rewrite Ev|].
    destruct Hk. apply list_elem_of_fmap. by exists (k, j).
  - apply elem_of_cons in Hin as [[= -> ->]|Hin]; [done|]. destruct (IH Hnd Hin m') as (n' & Hn').
    rewrite Eg in Hn'. by exists n'.
Qed.

Lemma of_json_not_nullish n fs : is_nullish (of_json n (JsonObj fs)).1 = false.
Proof. cbn [of_json]. by match goal with |- context [?g (N.succ n) fs] => destruct (g (N.succ n) fs) end. Qed.

(** What a service answers with success. *)
Definition answers (server : FetchRequest → settled FetchAnswer) (rq : FetchRequest) (fs : list (string * json)) : Prop :=
  ∃ st stx gap, status_ok st = true
    ∧ server rq = Resolved (mkAnswer st stx (Resolved (of_chars (print_json gap 0 (JsonObj fs))))).

Lemma request_answered config server started ended next method path body fs :
  answers server (fetch_request config method path body) fs → printable (JsonObj fs) = true →
  cr_ok (request config server started ended next method path body) = true
  ∧ cr_data (request config server started ended next method path body) = (of_json next (JsonObj fs)).1.
Proof.
  intros (st & stx & gap & Hst & Hs) Hp. unfold request. rewrite Hs. cbn [fa_text fa_status]. rewrite Hst. cbn [negb].
  split; [done|]. cbn [cr_data]. unfold parse_data. destruct (print_opens gap 0 _ Hp) as (c & l & E & _).
  assert (truthy_string (of_chars (print_json gap 0 (JsonObj fs))) = true) as -> by by rewrite E.
  by rewrite json_round_trip.
Qed.

(** The array in a field of the answer, and nothing when the request failed. *)
Definition listing (config : ConnectorConfig) (server : FetchRequest → settled FetchAnswer) (started ended : Z) (next : N)
    (path field : string) : jsval :=
  or_empty next (data_field (cr_data (request config server started ended next "GET" path None)) field).

Lemma listing_reads config server started ended next path field fs l :
  answers server (fetch_request config "GET" path None) fs → printable (JsonObj fs) = true → (field, JsonArr l) ∈ fs →
  to_json (listing config server started ended next path field) = Some (JsonArr l).
Proof.
  intros Ha Hp Hin. destruct (request_answered config server started ended next _ _ _ _ Ha Hp) as [_ Hd].
  unfold listing, data_field. rewrite Hd, of_json_not_nullish. pose proof Hp as Hp'. cbn [printable] in Hp'.
  apply andb_true_iff in Hp' as [[Hnd _]%bool_decide_eq_true Hall]. destruct (of_json_field next fs field (JsonArr l) Hnd Hin) as (n' & ->).
  rewrite List.forallb_forall in Hall. pose proof (Hall _ (proj1 (list_elem_of_In _ _) Hin)) as Hl.
  pose proof (to_json_of_json _ n' Hl) as Hj. unfold or_empty.
  assert (is_nullish (of_json n' (JsonArr l)).1 = false) as ->; [|done].
  cbn [of_json]. by match goal with |- context [?g (N.succ n') l] => destruct (g (N.succ n') l) end.
Qed.

Lemma listing_failed config server started ended next path field :
  cr_ok (request config server started ended next "GET" path None) = false →
  listing config server started ended next path field = JArr next [].
Proof. intros Hr. unfold listing. by rewrite (request_absent _ _ _ _ _ _ _ _ Hr). Qed.

(** A document posted arrives as it is. *)
Lemma posted_document config method path doc j :
  to_json doc = Some j → printable j = true →
  ∃ text, fr_body (fetch_request config method path (Some doc)) = Some text ∧ json_parse text = Some j.
Proof.
  intros Hd Hj. cbn. unfold stringify. rewrite Hd. cbn. eexists. split; [done|]. by apply json_round_trip.
Qed.

(** ** Notifications *)

Lemma broadcast_counts channels message oks sent :
  Forall2 (λ ch ok, send ch message = Ok ok) channels oks →
  broadcast channels message sent = Ok (sent + Z.of_nat (length (List.filter id oks))).
Proof.
  intros Hc. revert sent. induction Hc as [|ch ok channels oks Hch _ IH]; intros sent; cbn; [f_equal; lia|].
  rewrite Hch. cbn. rewrite IH. destruct ok; cbn; f_equal; lia.
Qed.

(** The channel the container sets up takes every message. *)
Lemma notifyRunFailure_email config runId jobName reason :
  notifyRunFailure [email_channel config] runId jobName reason = Ok (if em_enabled config then 1 else 0).
Proof. cbn. by destruct (em_enabled config). Qed.

Lemma formatRunFailureMessage_printable bullet runId jobName reason :
  ∃ j, to_json (formatRunFailureMessage bullet runId jobName reason) = Some j ∧ printable j = true.
Proof. eexists. split; [reflexivity|]. by vm_compute. Qed.

(** ** Properties *)

(** An account query reaches Salesforce as the SOQL text, percent-encoded in one
    parameter; a list of records answered with success is the result, whatever
    it holds, and a request that fails gives the empty list.  The text of the
    query is the caller's: a quote in the industry ends its literal. *)
Theorem queryAccounts_correct (config : ConnectorConfig) (server : FetchRequest → settled FetchAnswer)
    (started ended : Z) (next : N) (industry : option string) :
  let rq := fetch_request config "GET" (accounts_path industry) None in
  let result := queryAccounts config server started ended next industry in
  (∃ param, fr_url rq = trim_slash (baseUrl config) +:+ "/services/data/v58.0/query?q=" +:+ param
     ∧ percent_decode (chars param) = Some (utf8 (accounts_soql industry))
     ∧ Forall (λ c, c ∉ ["&"; "="; "#"; "?"; "+"; "/"; " "]%char) (chars param))
  ∧ (∀ fs l, answers server rq fs → printable (JsonObj fs) = true → ("records", JsonArr l) ∈ fs →
       to_json result = Some (JsonArr l))
  ∧ (cr_ok (request config server started ended next "GET" (accounts_path industry) None) = false →
       result = JArr next [])
  ∧ accounts_soql (Some "x' OR Name != '")
    = "SELECT Id,Name,Industry,AnnualRevenue FROM Account WHERE Industry='x' OR Name != '' LIMIT 200".
Proof.
  cbv zeta. split_and!.
  - exists (encodeURIComponent (accounts_soql industry)). split; [done|].
    split; [apply percent_decode_encode|apply encodeURIComponent_inert].
  - intros fs l Ha Hp Hin. by apply (listing_reads config server started ended next _ "records" fs l).
  - apply listing_failed.
  - reflexivity.
Qed.
