(* ===== verification/Config.v ===== *)
(** * Configuration and loaded files (config/, batch/loader.ts, plugins/)

    The schemas of the engine configuration, of job definitions, of batch
    manifests and of plugin manifests, what a value they accept is read as, and
    the loaders.  A file is the text it holds, or the error of reading it. *)

From Stdlib Require Import QArith.
From S2P Require Import Prelude JsMap JsString JsNum DomainTypes JsValue Json Schema Domain Retry Handlers Validator Registration Pool Batch Simulator JsonFiles.
Open Scope Z_scope.

(** ** config/schema.ts *)

Definition retryPolicySchema : schema := ZObject [
  ("maxAttempts", ZNumber [IsInt; AtLeast 1; AtMost 20]);
  ("initialDelayMs", ZNumber [IsInt; AtLeast 0]);
  ("backoffMultiplier", ZNumber [AtLeast 1]);
  ("maxDelayMs", ZNumber [IsInt; AtLeast 0])].

Definition number_of (z : Z) : json := JsonNum (num_of_Z z).

Definition engineConfigSchema : schema := ZObject [
  ("port", ZDefault (number_of 4100) (ZNumber [IsInt; AtLeast 1; AtMost 65535]));
  ("workerConcurrency", ZDefault (number_of 4) (ZNumber [IsInt; AtLeast 1; AtMost 64]));
  ("defaultTaskTimeoutMs", ZDefault (number_of 30000) (ZNumber [IsInt; AtLeast 100]));
  ("defaultRetryPolicy", retryPolicySchema);
  ("transitionRulesPath", ZOptional (ZString 0));
  ("logLevel", ZDefault (JsonStr "info") (ZEnum ["debug"; "info"; "warn"; "error"]));
  ("simulateLatencyMs", ZObject [
    ("min", ZNumber [IsInt; AtLeast 0]);
    ("max", ZNumber [IsInt; AtLeast 0])]);
  ("failRatePercent", ZDefault (number_of 0) (ZNumber [AtLeast 0; AtMost 100]))].

Definition taskInputSchema : schema := ZObject [
  ("id", ZString 1);
  ("name", ZString 1);
  ("handler", ZString 1);
  ("timeoutMs", ZNumber [IsInt; IsPositive]);
  ("optional", ZOptional ZBoolean);
  ("dependsOn", ZOptional (ZArray 0 (ZString 0)))].

Definition constraintInputSchema : schema := ZObject [
  ("id", ZString 0);
  ("expression", ZString 0);
  ("severity", ZEnum ["warn"; "block"])].

Definition jobDefinitionInputSchema : schema := ZObject [
  ("id", ZString 1);
  ("name", ZString 1);
  ("version", ZNumber [IsInt; IsPositive]);
  ("description", ZOptional (ZString 0));
  ("tasks", ZArray 1 taskInputSchema);
  ("constraints", ZDefault (JsonArr []) (ZArray 0 constraintInputSchema));
  ("retryPolicy", ZOptional retryPolicySchema);
  ("allowedTransitions", ZDefault (JsonArr []) (ZArray 0 (ZString 0)));
  ("metadata", ZDefault (JsonObj []) (ZRecord (ZString 0)))].

(** ** What is read of a parsed value *)

Definition retry_of (j : json) : option RetryPolicy :=
  fs ← as_fields j;
  a ← req_field as_int fs "maxAttempts"; b ← req_field as_int fs "initialDelayMs";
  c ← req_field as_value fs "backoffMultiplier"; d ← req_field as_int fs "maxDelayMs";
  Some (mkRetryPolicy a b c d).

Definition task_of (j : json) : option TaskDefinition :=
  fs ← as_fields j;
  a ← req_field as_string fs "id"; b ← req_field as_string fs "name"; c ← req_field as_string fs "handler";
  d ← req_field as_int fs "timeoutMs"; e ← opt_field as_bool fs "optional";
  f ← opt_field (as_list as_string) fs "dependsOn";
  Some (mkTaskDefinition a b c d e f).

Definition severity_of (s : string) : option Severity :=
  if decide (s = "warn") then Some SeverityWarn else if decide (s = "block") then Some SeverityBlock else None.

Definition constraint_of (j : json) : option JobConstraint :=
  fs ← as_fields j;
  a ← req_field as_string fs "id"; b ← req_field as_string fs "expression"; c ← req_field (as_enum severity_of) fs "severity";
  Some (mkConstraint a b c).

(** The input as the registration takes it: every default is there. *)
Definition job_input_of (j : json) : option JobDefinitionInput :=
  fs ← as_fields j;
  a ← req_field as_string fs "id"; b ← req_field as_string fs "name"; c ← req_field as_int fs "version";
  d ← opt_field as_string fs "description"; e ← req_field (as_list task_of) fs "tasks";
  f ← req_field (as_list constraint_of) fs "constraints"; g ← opt_field retry_of fs "retryPolicy";
  h ← req_field (as_list as_string) fs "allowedTransitions"; i ← req_field (as_record as_string) fs "metadata";
  Some (mkInput a b c d e (Some f) g (Some h) (Some i)).

(** ** config/defaults.ts *)

Inductive LogLevel : Type := LogDebug | LogInfo | LogWarn | LogError.
#[export] Instance LogLevel_eq_dec : EqDecision LogLevel.
Proof. solve_decision. Defined.

Record EngineConfig : Type := mkEngineConfig {
  port : Z;
  workerConcurrency : Z;
  defaultTaskTimeoutMs : Z;
  defaultRetryPolicy : RetryPolicy;
  transitionRulesPath : option string;
  logLevel : LogLevel;
  simulateLatencyMs : Z * Z;
  config_failRatePercent : num;
}.

Definition DEFAULT_CONFIG : EngineConfig :=
  mkEngineConfig 4100 4 30000 (mkRetryPolicy 3 500 (2 # 1) 30000) None LogInfo (10, 120) num_zero.

Definition level_of (s : string) : option LogLevel :=
  if decide (s = "debug") then Some LogDebug else if decide (s = "info") then Some LogInfo
  else if decide (s = "warn") then Some LogWarn else if decide (s = "error") then Some LogError else None.

Definition latency_of (j : json) : option (Z * Z) :=
  fs ← as_fields j; a ← req_field as_int fs "min"; b ← req_field as_int fs "max"; Some (a, b).

(** [{ ...DEFAULT_CONFIG, ...data }]: the schema gives every field but the path of
    the rules, which the default lacks. *)
Definition config_of (j : json) : option EngineConfig :=
  fs ← as_fields j;
  a ← req_field as_int fs "port"; b ← req_field as_int fs "workerConcurrency"; c ← req_field as_int fs "defaultTaskTimeoutMs";
  d ← req_field retry_of fs "defaultRetryPolicy"; e ← opt_field as_string fs "transitionRulesPath";
  f ← req_field (as_enum level_of) fs "logLevel"; g ← req_field latency_of fs "simulateLatencyMs";
  h ← req_field as_num fs "failRatePercent";
  Some (mkEngineConfig a b c d e f g h).

(** ** config/loader.ts *)

Section loader.
Context `{Zod} {F : Type} `{FileSystem F}.
(** The [SyntaxError] of [JSON.parse], and the message of a [ZodError]. *)
Context (syntax_error : string → JsError) (zod_message : schema → json → string).

(** A loader's outcome is [None] when a number it read overflowed or is not an
    integer where the model has one. *)
Definition read_json (fs : F) (path : string) : res json :=
  match readFile fs (resolve path) with
  | Rejected e => Throw e
  | Resolved raw => match json_parse raw with Some j => Ok j | None => Throw (syntax_error raw) end
  end.

Definition loadConfig (fs : F) (path : option string) : option (res EngineConfig) :=
  if negb (truthy_opt path) then Some (Ok DEFAULT_CONFIG)
  else match read_json fs (default "" path) with
       | Ok parsed =>
           match zod_parse engineConfigSchema (Some parsed) with
           | Some data => j ← data; c ← config_of j; Some (Ok c)
           | None => Some (Throw (PlainError ("invalid config: " +:+ zod_message engineConfigSchema parsed)))
           end
       | Throw e => Some (Throw e)
       | OutOfFuel => None
       end.

(** ** batch/loader.ts *)

Definition itemSchema : schema := ZObject [
  ("jobId", ZString 0);
  ("label", ZString 0);
  ("input", ZDefault (JsonObj []) (ZRecord ZUnknown));
  ("priority", ZOptional (ZNumber []));
  ("continueOnError", ZOptional ZBoolean)].

Definition manifestSchema : schema := ZObject [
  ("id", ZString 0);
  ("name", ZString 0);
  ("tenantId", ZString 0);
  ("maxParallel", ZOptional (ZNumber [IsInt; IsPositive]));
  ("items", ZArray 1 itemSchema)].

Record ParsedItem : Type := mkParsedItem {
  pi_jobId : string;
  pi_label : string;
  pi_input : list (string * json);
  pi_priority : option num;
  pi_continueOnError : option bool;
}.

Record ParsedManifest : Type := mkParsedManifest {
  pm_id : string;
  pm_name : string;
  pm_tenantId : string;
  pm_maxParallel : option Z;
  pm_items : list ParsedItem;
}.

Definition item_of (j : json) : option ParsedItem :=
  fs ← as_fields j;
  a ← req_field as_string fs "jobId"; b ← req_field as_string fs "label"; c ← req_field as_fields fs "input";
  d ← opt_field as_num fs "priority"; e ← opt_field as_bool fs "continueOnError";
  Some (mkParsedItem a b c d e).

Definition manifest_of (j : json) : option ParsedManifest :=
  fs ← as_fields j;
  a ← req_field as_string fs "id"; b ← req_field as_string fs "name"; c ← req_field as_string fs "tenantId";
  d ← opt_field as_int fs "maxParallel"; e ← req_field (as_list item_of) fs "items";
  Some (mkParsedManifest a b c d e).

(** The input of an item is a new object; the model's priorities are integers. *)
Definition input_record (next : N) (fs : list (string * json)) : jsrecord * N :=
  let '(v, next) := of_json next (JsonObj fs) in (match v with JObj _ r => r | _ => [] end, next).

Definition priority_of (p : option num) : option (option RunPriority) :=
  match p with Some n => Some <$> num_int n | None => Some None end.

Fixpoint batch_items (next : N) (l : list ParsedItem) : option (list BatchJobItem) :=
  match l with
  | [] => Some []
  | i :: l =>
      p ← priority_of (pi_priority i);
      let '(input, next) := input_record next (pi_input i) in
      rest ← batch_items next l;
      Some (mkItem (pi_jobId i) (pi_label i) input p (pi_continueOnError i) :: rest)
  end.

Definition batch_manifest (next : N) (now_ : string) (parsed : ParsedManifest) : option BatchManifest :=
  items ← batch_items next (pm_items parsed);
  Some (mkBatch (pm_id parsed) (pm_name parsed) (pm_tenantId parsed) items (pm_maxParallel parsed) now_).

Definition loadBatchManifest (next : N) (now_ : string) (fs : F) (path : string) : option (res BatchManifest) :=
  match read_json fs path with
  | Ok raw =>
      match zod_parse manifestSchema (Some raw) with
      | Some parsed => j ← parsed; p ← manifest_of j; m ← batch_manifest next now_ p; Some (Ok m)
      | None => Some (Throw (ZodError (zod_message manifestSchema raw)))
      end
  | Throw e => Some (Throw e)
  | OutOfFuel => None
  end.

(** ** plugins/loader.ts *)

Inductive PluginHook : Type := BeforeRun | AfterTask | OnFailure.

Record PluginManifest : Type := mkPlugin {
  plugin_id : string;
  plugin_name : string;
  plugin_version : string;
  entry : string;
  hooks : list PluginHook;
}.

Definition pluginSchema : schema := ZObject [
  ("id", ZString 0);
  ("name", ZString 0);
  ("version", ZString 0);
  ("entry", ZString 0);
  ("hooks", ZArray 0 (ZEnum ["before_run"; "after_task"; "on_failure"]))].

Definition hook_of (s : string) : option PluginHook :=
  if decide (s = "before_run") then Some BeforeRun else if decide (s = "after_task") then Some AfterTask
  else if decide (s = "on_failure") then Some OnFailure else None.

Definition plugin_of (j : json) : option PluginManifest :=
  fs ← as_fields j;
  a ← req_field as_string fs "id"; b ← req_field as_string fs "name"; c ← req_field as_string fs "version";
  d ← req_field as_string fs "entry"; e ← req_field (as_list (as_enum hook_of)) fs "hooks";
  Some (mkPlugin a b c d e).

Definition PluginLoader : Type := jsmap string PluginManifest.

Definition loadFromFile (fs : F) (path : string) (loaded : PluginLoader) : option (res PluginManifest * PluginLoader) :=
  match read_json fs path with
  | Ok raw =>
      match zod_parse pluginSchema (Some raw) with
      | Some parsed =>
          p ← parsed ≫= plugin_of;
          if map_has loaded (plugin_id p)
          then Some (Throw (ValidationError ("plugin already loaded: " +:+ plugin_id p) []), loaded)
          else Some (Ok p, map_set loaded (plugin_id p) p)
      | None => Some (Throw (ZodError (zod_message pluginSchema raw)), loaded)
      end
  | Throw e => Some (Throw e, loaded)
  | OutOfFuel => None
  end.

Definition list_plugins (loaded : PluginLoader) : list PluginManifest := map_values loaded.
End loader.

(** ** Accepted values are read *)

Section reads.
Context `{ZodLaws}.

Lemma reads_retry : reads retryPolicySchema retry_of (λ p, retryPolicySchema_ok p = true).
Proof.
  read_object. unfold retry_of. cbn [as_fields mbind option_bind].
  read_req "maxAttempts" (reads_int [AtLeast 1; AtMost 20]). read_req "initialDelayMs" (reads_int [AtLeast 0]).
  read_req "backoffMultiplier" (reads_value [AtLeast 1]). read_req "maxDelayMs" (reads_int [AtLeast 0]).
  object_read. unfold retryPolicySchema_ok. cbn in *.
  match goal with Hq : Forall _ _ |- _ => rewrite Forall_singleton in Hq; change (1 <= a1)%Q in Hq; apply Qle_bool_iff in Hq; rewrite Hq end.
  repeat match goal with Hb : _ = true |- _ => apply andb_true_iff in Hb as [? ?] end.
  repeat match goal with Hb : _ = true |- _ => rewrite Hb end. done.
Qed.

(** A string of at least one character is truthy. *)
Lemma nonempty_truthy t : (1 ≤ String.length t)%nat → truthy_string t = true.
Proof. intros Ht. apply truthy_string_true. intros ->. cbn in Ht. lia. Qed.

Lemma positive_int z : forallb (int_check z) [IsPositive] = true → (0 <? z) = true.
Proof. cbn. by rewrite andb_true_r. Qed.

Lemma reads_task : reads taskInputSchema task_of (λ t, task_schema_ok t = true).
Proof.
  read_object. unfold task_of. cbn [as_fields mbind option_bind].
  read_req "id" (reads_string 1). read_req "name" (reads_string 1). read_req "handler" (reads_string 1).
  read_req "timeoutMs" (reads_int [IsPositive]). read_opt "optional" reads_boolean.
  read_opt "dependsOn" (reads_array 0 _ _ _ (reads_string 0)).
  object_read. unfold task_schema_ok. cbn [td_id td_name handler timeoutMs].
  rewrite !nonempty_truthy by done. by apply positive_int.
Qed.

Lemma reads_constraint : reads constraintInputSchema constraint_of (λ _, True).
Proof.
  read_object. unfold constraint_of. cbn [as_fields mbind option_bind].
  read_req "id" (reads_string 0). read_req "expression" (reads_string 0).
  read_req "severity" (reads_enum ["warn"; "block"] severity_of ltac:(repeat constructor; by eexists)).
  by eexists.
Qed.

Lemma reads_job_input : reads jobDefinitionInputSchema job_input_of (λ i, jobDefinitionInputSchema_ok i = true).
Proof.
  read_object. unfold job_input_of. cbn [as_fields mbind option_bind].
  read_req "id" (reads_string 1). read_req "name" (reads_string 1). read_req "version" (reads_int [IsPositive]).
  read_opt "description" (reads_string 0). read_req "tasks" (reads_array 1 _ _ _ reads_task).
  read_req "constraints" (reads_default (JsonArr []) _ _ _ eq_refl (reads_array 0 _ _ _ reads_constraint)).
  read_opt "retryPolicy" reads_retry.
  read_req "allowedTransitions" (reads_default (JsonArr []) _ _ _ eq_refl (reads_array 0 _ _ _ (reads_string 0))).
  read_req "metadata" (reads_default (JsonObj []) _ _ _ eq_refl (reads_record _ _ _ (reads_string 0))).
  object_read. unfold jobDefinitionInputSchema_ok.
  cbn [in_id in_name in_version in_tasks in_retryPolicy]. rewrite !nonempty_truthy, positive_int by done.
  match goal with Ht : (1 ≤ length ?l)%nat ∧ Forall _ ?l |- _ => destruct Ht as [Hlen Hall] end.
  rewrite bool_decide_eq_false_2 by (intros ->; cbn in Hlen; lia). cbn.
  rewrite (proj2 (List.forallb_forall _ _)); [by destruct a5|].
  intros t Ht%list_elem_of_In. rewrite Forall_forall in Hall. by apply Hall.
Qed.

(** *** The engine configuration *)

Record config_valid (c : EngineConfig) : Prop := {
  cv_port : 1 ≤ port c ≤ 65535;
  cv_workers : 1 ≤ workerConcurrency c ≤ 64;
  cv_timeout : 100 ≤ defaultTaskTimeoutMs c;
  cv_policy : policy_valid (defaultRetryPolicy c);
  cv_latency : 0 ≤ (simulateLatencyMs c).1 ∧ 0 ≤ (simulateLatencyMs c).2;
  cv_rate : check_num (config_failRatePercent c) (AtLeast 0) = true ∧ check_num (config_failRatePercent c) (AtMost 100) = true;
}.

Lemma int_check_between z a b : forallb (int_check z) [AtLeast a; AtMost b] = true → a ≤ z ≤ b.
Proof. cbn. rewrite !andb_true_iff. lia. Qed.
Lemma int_check_least z a : forallb (int_check z) [AtLeast a] = true → a ≤ z.
Proof. cbn. rewrite !andb_true_iff. lia. Qed.

Lemma reads_latency :
  reads (ZObject [("min", ZNumber [IsInt; AtLeast 0]); ("max", ZNumber [IsInt; AtLeast 0])]) latency_of (λ l, 0 ≤ l.1 ∧ 0 ≤ l.2).
Proof.
  read_object. unfold latency_of. cbn [as_fields mbind option_bind].
  read_req "min" (reads_int [AtLeast 0]). read_req "max" (reads_int [AtLeast 0]).
  object_read. split; by apply int_check_least.
Qed.

Lemma reads_config : reads engineConfigSchema config_of config_valid.
Proof.
  read_object. unfold config_of. cbn [as_fields mbind option_bind].
  read_req "port" (reads_default (number_of 4100) _ _ _ eq_refl (reads_int [AtLeast 1; AtMost 65535])).
  read_req "workerConcurrency" (reads_default (number_of 4) _ _ _ eq_refl (reads_int [AtLeast 1; AtMost 64])).
  read_req "defaultTaskTimeoutMs" (reads_default (number_of 30000) _ _ _ eq_refl (reads_int [AtLeast 100])).
  read_req "defaultRetryPolicy" reads_retry. read_opt "transitionRulesPath" (reads_string 0).
  read_req "logLevel" (reads_default (JsonStr "info") _ _ _ eq_refl
    (reads_enum ["debug"; "info"; "warn"; "error"] level_of ltac:(repeat constructor; by eexists))).
  read_req "simulateLatencyMs" reads_latency.
  read_req "failRatePercent" (reads_default (number_of 0) _ _ _ eq_refl (reads_num [AtLeast 0; AtMost 100])).
  object_read. split; cbn.
  - by apply int_check_between.
  - by apply int_check_between.
  - by apply int_check_least.
  - by apply retryPolicySchema_valid.
  - done.
  - match goal with Hq : Forall _ [_; _] |- _ => by inversion Hq as [|? ? ? Hq']; inversion Hq' end.
Qed.

Lemma DEFAULT_CONFIG_valid : config_valid DEFAULT_CONFIG.
Proof. split; cbn; try lia; [|done]. by apply retryPolicySchema_valid. Qed.

(** *** Batch manifests *)

Lemma reads_unknown_record : reads (ZRecord ZUnknown) as_fields (λ _, True).
Proof.
  intros v w _. rewrite zod_documented. destruct v as [[| | | | |fs]|]; try done. cbn.
  assert (parse_values zod_parse ZUnknown fs = Some fs) as ->; [|intros [= <-]; by eexists _, _].
  induction fs as [|[k j] fs IH]; [done|]. cbn. rewrite zod_documented. cbn. by rewrite IH.
Qed.

Lemma reads_item : reads itemSchema item_of (λ _, True).
Proof.
  read_object. unfold item_of. cbn [as_fields mbind option_bind].
  read_req "jobId" (reads_string 0). read_req "label" (reads_string 0).
  read_req "input" (reads_default (JsonObj []) _ _ _ eq_refl reads_unknown_record).
  read_opt "priority" (reads_num []). read_opt "continueOnError" reads_boolean.
  by object_read.
Qed.

Lemma reads_manifest :
  reads manifestSchema manifest_of (λ m, (1 ≤ length (pm_items m))%nat ∧ 0 < default 4 (pm_maxParallel m)).
Proof.
  read_object. unfold manifest_of. cbn [as_fields mbind option_bind].
  read_req "id" (reads_string 0). read_req "name" (reads_string 0). read_req "tenantId" (reads_string 0).
  read_opt "maxParallel" (reads_int [IsPositive]). read_req "items" (reads_array 1 _ _ _ reads_item).
  object_read. cbn. split; [tauto|].
  match goal with o : option Z |- _ => destruct o; cbn; [|lia] end.
  match goal with Hq : forallb _ _ = true |- _ => apply positive_int, Z.ltb_lt in Hq; lia end.
Qed.

Lemma reads_plugin : reads pluginSchema plugin_of (λ _, True).
Proof.
  read_object. unfold plugin_of. cbn [as_fields mbind option_bind].
  read_req "id" (reads_string 0). read_req "name" (reads_string 0). read_req "version" (reads_string 0).
  read_req "entry" (reads_string 0).
  read_req "hooks" (reads_array 0 _ _ _ (reads_enum ["before_run"; "after_task"; "on_failure"] hook_of
    ltac:(repeat constructor; by eexists))).
  by object_read.
Qed.
End reads.

(** ** Loading *)

Section loading.
Context `{ZodLaws} {F : Type} `{FileSystem F}.
Context (syntax_error : string → JsError) (zod_message : schema → json → string).

(** A body of the registration is refused by its schema, or is an input that the
    registration takes. *)
Definition read_input (j : json) : option (res JobDefinitionInput) :=
  match zod_parse jobDefinitionInputSchema (Some j) with
  | Some parsed => p ← parsed; i ← job_input_of p; Some (Ok i)
  | None => Some (Throw (ZodError (zod_message jobDefinitionInputSchema j)))
  end.

Lemma read_input_outcome j :
  json_finite j = true →
  read_input j = Some (Throw (ZodError (zod_message jobDefinitionInputSchema j)))
  ∨ ∃ i, read_input j = Some (Ok i) ∧ jobDefinitionInputSchema_ok i = true.
Proof.
  intros Hf. unfold read_input. destruct (zod_parse _ (Some j)) as [w|] eqn:E; [right|by left].
  destruct (reads_job_input (Some j) w Hf E) as (p & i & -> & Hi & Hok). exists i. cbn. by rewrite Hi.
Qed.

Lemma loadConfig_outcome fs path j :
  truthy_string path = true → read_json syntax_error fs path = Ok j → json_finite j = true →
  loadConfig syntax_error zod_message fs (Some path)
    = Some (Throw (PlainError ("invalid config: " +:+ zod_message engineConfigSchema j)))
  ∨ ∃ c, loadConfig syntax_error zod_message fs (Some path) = Some (Ok c) ∧ config_valid c.
Proof.
  intros Hp Hr Hf. unfold loadConfig. cbn [truthy_opt]. change (default "" (Some path)) with path. rewrite Hp, Hr. cbn [negb].
  destruct (zod_parse _ (Some j)) as [w|] eqn:E; [right|by left].
  destruct (reads_config (Some j) w Hf E) as (p & c & -> & Hc & Hok). exists c. cbn. by rewrite Hc.
Qed.

Definition whole_priority (i : ParsedItem) : Prop := ∀ n, pi_priority i = Some n → is_Some (num_int n).

(** The item of a manifest that stands for an item of the file. *)
Definition same_item (i : ParsedItem) (b : BatchJobItem) : Prop :=
  item_jobId b = pi_jobId i ∧ item_label b = pi_label i ∧ continueOnError b = pi_continueOnError i
  ∧ item_priority b = (pi_priority i ≫= num_int)
  ∧ (printable (JsonObj (pi_input i)) = true → ∃ n, to_json (JObj n (item_input b)) = Some (JsonObj (pi_input i))).

Lemma input_record_json next fs :
  printable (JsonObj fs) = true → ∃ n, to_json (JObj n (input_record next fs).1) = Some (JsonObj fs).
Proof.
  intros Hp. pose proof (to_json_of_json (JsonObj fs) next Hp) as Hj. unfold input_record. revert Hj. cbn [of_json].
  match goal with |- context [?g (N.succ next) fs] => destruct (g (N.succ next) fs) as [r next'] end.
  cbn [fst]. intros Hj. by exists next.
Qed.

Lemma batch_items_read next l :
  Forall whole_priority l → ∃ bs, batch_items next l = Some bs ∧ Forall2 same_item l bs.
Proof.
  intros Hl. revert next. induction Hl as [|i l Hi _ IH]; intros next; [by exists []|]. cbn.
  assert (priority_of (pi_priority i) = Some (pi_priority i ≫= num_int)) as ->.
  { unfold priority_of. destruct (pi_priority i) as [n|] eqn:E; [|done]. destruct (Hi n E) as [z Hz]. cbn. by rewrite Hz. }
  cbn [mbind option_bind]. pose proof (input_record_json next (pi_input i)) as Hj.
  destruct (input_record next (pi_input i)) as [r next']. destruct (IH next') as (bs & -> & Hbs).
  eexists. split; [done|]. constructor; [|done]. split_and!; [done..|exact Hj].
Qed.

(** ** Properties *)

(** C26: A batch file whose JSON its schema accepts, the priorities being whole
    numbers, is loaded as a manifest with the items of the file in order, at
    least one, and at least one worker.  Whatever the interleaving of the workers,
    when the batch it starts has finished and every item that failed is one the
    file marks to continue on error, every item has been taken, in the order of
    the file, and counted once as completed or failed. *)
Theorem loaded_batch (fs : F) (path : string) (raw : json) (w : option json) (next : N) (now_ : string) (pool : WorkerPool)
    (Hread : read_json syntax_error fs path = Ok raw) (Hfinite : json_finite raw = true)
    (Haccepted : zod_parse manifestSchema (Some raw) = Some w) :
  ∃ parsed, (w ≫= manifest_of) = Some parsed
    ∧ (Forall whole_priority (pm_items parsed) →
       ∃ m, loadBatchManifest syntax_error zod_message next now_ fs path = Some (Ok m)
         ∧ Forall2 same_item (pm_items parsed) (items m) ∧ items m ≠ [] ∧ 0 < parallel m
         ∧ ∀ es s, batch_run (init_batch m pool) es = Some s → batch_done s →
             (∀ it, (it, false) ∈ bt_ended (batch_trace m pool es) → continueOnError it = Some true) →
             bt_taken (batch_trace m pool es) = items m
             ∧ (bt_ended (batch_trace m pool es)).*1 ≡ₚ items m
             ∧ completed (b_progress s) + failed (b_progress s) = Z.of_nat (length (pm_items parsed))).
Proof.
  destruct (reads_manifest (Some raw) w Hfinite Haccepted) as (j & parsed & -> & Hj & Hlen & Hpar).
  exists parsed. split; [done|]. intros Hprio. destruct (batch_items_read next (pm_items parsed) Hprio) as (bs & Hbs & Hsame).
  pose proof (Forall2_length _ _ _ Hsame) as Hl. eexists. split.
  { unfold loadBatchManifest. rewrite Hread, Haccepted. cbn. rewrite Hj. cbn. unfold batch_manifest. by rewrite Hbs. }
  cbn [items maxParallel]. split; [done|].
  split; [intros ->; cbn in Hl; lia|]. split; [done|]. intros es s Hrun Hdone Hcont.
  destruct (finished_batch _ _ _ _ Hrun Hdone) as (_ & Hends & Hsum & Hall).
  match type of Hrun with batch_run (init_batch ?m0 _) _ = _ => set (m := m0) in * end.
  assert (bt_taken (batch_trace m pool es) = bs) as Ht.
  { apply Hall; [exact Hpar|]. intros (it & Hin & Hno). unfold continues in Hno. by rewrite (Hcont it Hin) in Hno. }
  split; [exact Ht|]. rewrite Ht in Hends, Hsum. split; [exact Hends|]. by rewrite Hsum, Hl.
Qed.
End loading.

(** ** The files of the repository (config/engine.default.json,
    config/batch/finance-daily.json) *)

Definition engine_default : json := JsonObj [
  ("port", number_of 4100); ("workerConcurrency", number_of 4); ("defaultTaskTimeoutMs", number_of 30000);
  ("defaultRetryPolicy", JsonObj [("maxAttempts", number_of 3); ("initialDelayMs", number_of 500);
                                  ("backoffMultiplier", number_of 2); ("maxDelayMs", number_of 30000)]);
  ("logLevel", JsonStr "info");
  ("simulateLatencyMs", JsonObj [("min", number_of 5); ("max", number_of 80)]);
  ("failRatePercent", number_of 0)].

Definition finance_daily : json := JsonObj [
  ("id", JsonStr "finance_daily_batch"); ("name", JsonStr "Finance daily batch"); ("tenantId", JsonStr "tenant_dev");
  ("maxParallel", number_of 3);
  ("items", JsonArr [
    JsonObj [("jobId", JsonStr "invoice_sync"); ("label", JsonStr "invoice-sync");
             ("input", JsonObj [("tenantId", JsonStr "acme")])];
    JsonObj [("jobId", JsonStr "nightly_reconcile"); ("label", JsonStr "reconcile");
             ("input", JsonObj [("ledger", JsonStr "US")]); ("continueOnError", JsonBool true)]])].

(** A file system with one file, of which the text is that of [j]. *)
Definition one_file (path : string) (j : json) : string → option string :=
  λ p, if decide (p = path) then Some (of_chars (print_json 2 0 j)) else None.

Lemma read_one_file syntax_error path j :
  printable j = true → read_json syntax_error (one_file path j) path = Ok j.
Proof.
  intros Hj. unfold read_json, one_file. cbn [readFile resolve plain_files]. rewrite decide_True by done.
  by rewrite json_round_trip.
Qed.

Section witness.
#[local] Existing Instance plain_zod.
#[local] Existing Instance plain_zod_laws.

Lemma engine_default_loaded :
  ∃ c, loadConfig (λ _, PlainError "syntax") (λ _ _, "invalid") (one_file "engine.json" engine_default) (Some "engine.json")
      = Some (Ok c)
    ∧ (port c, workerConcurrency c, logLevel c, simulateLatencyMs c) = (4100, 4, LogInfo, (5, 80)).
Proof.
  eexists. unfold loadConfig. change (default "" (Some "engine.json")) with "engine.json".
  rewrite read_one_file by by vm_compute. split; [vm_compute; reflexivity|done].
Qed.

(** The second item of the file fails. *)
Definition daily_events : list BatchEvent :=
  [Resume 0; Resume 1; Resume 2; Created 1 "run_b" "t"; Created 0 "run_a" "t"; ExecuteFailed 1; Executed 0; Resume 0; Resume 1].

Lemma loaded_batch_witness :
  ∃ m s, loadBatchManifest (λ _, PlainError "syntax") (λ _ _, "invalid") 0 "now" (one_file "daily.json" finance_daily) "daily.json"
      = Some (Ok m)
    ∧ (item_jobId <$> items m) = ["invoice_sync"; "nightly_reconcile"]
    ∧ batch_run (init_batch m (mkPool [] 0 4)) daily_events = Some s
    ∧ completed (b_progress s) + failed (b_progress s) = 2.
Proof.
  destruct (loaded_batch (λ _, PlainError "syntax") (λ _ _, "invalid") (one_file "daily.json" finance_daily) "daily.json"
    finance_daily (default None (zod_parse manifestSchema (Some finance_daily))) 0 "now" (mkPool [] 0 4))
    as (parsed & Hparsed & Hload).
  - apply read_one_file. by vm_compute.
  - by vm_compute.
  - by vm_compute.
  - vm_compute in Hparsed. injection Hparsed as <-. destruct Hload as (m & Hm & Hsame & _ & _ & Hrun).
    { repeat constructor; intros n; discriminate. }
    assert ((item_jobId <$> items m) = ["invoice_sync"; "nightly_reconcile"]) as Hids.
    { inversion Hsame as [|? ? ? ? (E1 & _) Hrest]; subst. inversion Hrest as [|? ? ? ? (E2 & _) Hnil]; subst.
      inversion Hnil; subst. cbn in *. by rewrite E1, E2. }
    vm_compute in Hm. injection Hm as <-.
    edestruct (Hrun daily_events) as (_ & _ & Hsum).
    + vm_compute. reflexivity.
    + repeat constructor.
    + intros it Hin. vm_compute in Hin. apply elem_of_cons in Hin as [Heq|Hin]; [injection Heq as ->; reflexivity|].
      apply elem_of_cons in Hin as [Heq|Hin]; [discriminate Heq|]. by apply elem_of_nil in Hin.
    + eexists _, _. split; [vm_compute; reflexivity|]. split; [exact Hids|]. split; [vm_compute; reflexivity|exact Hsum].
Defined.
End witness.
