(* ===== verification/Diagnostics.v ===== *)
(** * Diagnostics (utils/logger.ts, health/dependency-check.ts, lib/object-diff.ts)

    Log lines, the health of the stores, and the comparison of two objects. *)

From S2P Require Import Prelude JsMap JsString JsNum JsObject DomainTypes JsValue Json Domain Stores Retry Schema Config Simulator Connectors.
From Stdlib Require Import Ascii.
Open Scope Z_scope.

(** ** The logger *)

Definition LEVEL_ORDER (l : LogLevel) : Z :=
  match l with LogDebug => 10 | LogInfo => 20 | LogWarn => 30 | LogError => 40 end.

Definition level_text (l : LogLevel) : string :=
  match l with LogDebug => "debug" | LogInfo => "info" | LogWarn => "warn" | LogError => "error" end.

(** [{ ...a, ...b }]. *)
Definition record_assign (a b : jsrecord) : jsrecord := foldl (λ r kv, record_set kv.1 kv.2 r) a b.

Record Logger : Type := mkLogger { minLevel : Z; bindings : jsrecord }.

Definition createLogger (config : EngineConfig) (bs : jsrecord) : Logger := mkLogger (LEVEL_ORDER (logLevel config)) bs.

(** Where a line goes. *)
Inductive console : Type := ConsoleError | ConsoleLog.

(** The object of a line. *)
Definition log_record (lg : Logger) (level : LogLevel) (ts msg : string) (meta : jsrecord) : jsrecord :=
  record_assign (record_assign [("ts", JStr ts); ("level", JStr (level_text level)); ("msg", JStr msg)] (bindings lg)) meta.

Definition log (lg : Logger) (level : LogLevel) (ts msg : string) (meta : jsrecord) : option (console * string) :=
  if LEVEL_ORDER level <? minLevel lg then None
  else Some (if decide (level = LogError) then ConsoleError else ConsoleLog,
             default "" (stringify 0 (JObj 0 (log_record lg level ts msg meta)))).

Definition child (lg : Logger) (b : jsrecord) : Logger := mkLogger (minLevel lg) (record_assign (bindings lg) b).

(** ** DependencyHealthCheck *)

Record Check : Type := mkCheck { chk_ok : bool; chk_latencyMs : Z }.
Record HealthCheckResult : Type := mkHealth { health_status : string; health_checks : list (string * Check) }.

(** [timed(fn)]: [r] is what the call gave, between the two readings of the clock. *)
Definition timed {A} (r : res A) (started ended : Z) : Check :=
  mkCheck (match r with Ok _ => true | _ => false end) (ended - started).

Section health.
Context {JS RS : Type} `{JobDefinitionStore JS} `{RunStore RS}.

Definition run_checks (jobs : JS) (runs : RS) (t : nat → Z) : HealthCheckResult :=
  let jobs_check := timed (Ok (job_list jobs) : res _) (t 0%nat) (t 1%nat) in
  let runs_check := timed (Ok (run_listActive runs) : res _) (t 2%nat) (t 3%nat) in
  let checks := [("storage_jobs", jobs_check); ("storage_runs", runs_check); ("clock", mkCheck true 0)] in
  mkHealth (if forallb (λ c : string * Check, chk_ok c.2) checks then "ok" else "degraded") checks.

(** A store in memory cannot fail: the service is never reported as degraded. *)
Lemma run_checks_ok jobs runs t : health_status (run_checks jobs runs t) = "ok".
Proof. done. Qed.
End health.

(** ** diffObjects *)

Inductive DiffOp : Type := DiffAdd | DiffRemove | DiffChange.

(** [before] and [after] are [None] where the entry lacks them. *)
Record DiffEntry : Type := mkDiffEntry {
  de_path : string;
  de_op : DiffOp;
  de_before : option jsval;
  de_after : option jsval;
}.

Definition object_keys (v : jsval) : list string := match v with JObj _ fs => (own_fields fs).*1 | _ => [] end.

(** [key in v], which holds of inherited names. *)
Definition has_property (v : jsval) (key : string) : bool :=
  bool_decide (key ∈ object_keys v) || bool_decide (key = "__proto__") || bool_decide (key ∈ object_prototype_names).

Definition isPlainObject (v : jsval) : bool :=
  match v with JObj _ _ | JProto false => true | _ => false end.

Definition deepEqual (a b : jsval) : bool := bool_decide (stringify 0 a = stringify 0 b).

(** [new Set([...Object.keys(before), ...Object.keys(after)])]. *)
Definition all_keys (before after : jsval) : list string :=
  object_keys before ++ List.filter (λ k, negb (bool_decide (k ∈ object_keys before))) (object_keys after).

Definition diff_path (prefix key : string) : string :=
  if truthy_string prefix then prefix +:+ "." +:+ key else key.

Definition diff_key (rec : jsval → jsval → string → option (list DiffEntry)) (before after : jsval) (prefix key : string)
    : option (list DiffEntry) :=
  let path := diff_path prefix key in
  let a := get_property before key in
  let b := get_property after key in
  if negb (has_property before key) then Some [mkDiffEntry path DiffAdd None (Some b)]
  else if negb (has_property after key) then Some [mkDiffEntry path DiffRemove (Some a) None]
  else if isPlainObject a && isPlainObject b then rec a b path
  else Some (if deepEqual a b then [] else [mkDiffEntry path DiffChange (Some a) (Some b)]).

Fixpoint diffObjects (fuel : nat) (before after : jsval) (prefix : string) : option (list DiffEntry) :=
  match fuel with
  | O => None
  | S fuel => (λ l, concat l) <$> mapM (diff_key (diffObjects fuel) before after prefix) (all_keys before after)
  end.

(** ** Log lines *)

Lemma record_get_assign a b k : record_get (record_assign a b) k = 
  match record_get (rev b) k with Some v => Some v | None => record_get a k end.
Proof.
  unfold record_assign. revert a. induction b as [|[k' v] b IH] using rev_ind; intros a; [done|].
  rewrite foldl_app, rev_app_distr. cbn. rewrite record_get_set. case_decide as Hd; [done|]. apply IH.
Qed.

(** A line is written from the logger's level on; it is the JSON of its fields,
    those of the call over those of the logger over the logger's own. *)
Lemma log_line lg level ts msg meta :
  match log lg level ts msg meta with
  | None => LEVEL_ORDER level < minLevel lg
  | Some (c, text) =>
      minLevel lg ≤ LEVEL_ORDER level ∧ (c = ConsoleError ↔ level = LogError)
      ∧ ∀ j, to_json (JObj 0 (log_record lg level ts msg meta)) = Some j → printable j = true → json_parse text = Some j
  end.
Proof.
  unfold log. destruct (_ <? _) eqn:E; [by apply Z.ltb_lt|]. apply Z.ltb_ge in E. split; [done|]. split.
  - by case_decide.
  - intros j Hj Hp. unfold stringify. rewrite Hj. by apply json_round_trip.
Qed.

Lemma log_field lg level ts msg meta k :
  record_get (log_record lg level ts msg meta) k =
    match record_get (rev meta) k with
    | Some v => Some v
    | None =>
        match record_get (rev (bindings lg)) k with
        | Some v => Some v
        | None => record_get [("ts", JStr ts); ("level", JStr (level_text level)); ("msg", JStr msg)] k
        end
    end.
Proof. unfold log_record. by rewrite !record_get_assign. Qed.

(** ** The comparison of JSON objects *)

Definition is_object (j : json) : bool := match j with JsonObj _ => true | _ => false end.

(** No name of a field is one every object inherits. *)
Fixpoint own_names (j : json) : bool :=
  match j with
  | JsonObj fs =>
      forallb (λ kv : string * json, negb (bool_decide (kv.1 ∈ "__proto__" :: object_prototype_names)) && own_names kv.2) fs
  | _ => true
  end.

Fixpoint object_depth (j : json) : nat :=
  match j with JsonObj fs => S (list_max (List.map (λ kv : string * json, object_depth kv.2) fs)) | _ => 0 end.

(** Two values agree when they are the same up to the order of the fields of
    objects that are not inside an array. *)
Inductive agree : json → json → Prop :=
| agree_leaf j : is_object j = false → agree j j
| agree_object fs gs :
    (∀ k, k ∈ fs.*1 ↔ k ∈ gs.*1) →
    (∀ k a b, (k, a) ∈ fs → (k, b) ∈ gs → agree a b) →
    agree (JsonObj fs) (JsonObj gs).

Lemma deepEqual_json n m a b :
  printable a = true → printable b = true → deepEqual (of_json n a).1 (of_json m b).1 = true ↔ a = b.
Proof.
  intros Ha Hb. unfold deepEqual, stringify. rewrite bool_decide_eq_true, !to_json_of_json by done. cbn. split; [|by intros ->].
  intros [= Heq]. pose proof (json_round_trip 0 a Ha) as E. rewrite Heq, json_round_trip in E by done. by injection E.
Qed.

Lemma of_json_object n fs : ∃ i r, (of_json n (JsonObj fs)).1 = JObj i r ∧ r.*1 = fs.*1.
Proof.
  cbn [of_json]. generalize (N.succ n). intros m. match goal with |- context [?g m fs] => set (go := g) end.
  enough ((go m fs).1.*1 = fs.*1) as Hk by (destruct (go m fs) as [r m']; by exists n, r).
  revert m. induction fs as [|[k j] fs IH]; intros m; [done|]. cbn. destruct (of_json m j) as [v m'].
  specialize (IH m'). destruct (go m' fs) as [vs m'']. cbn in *. by rewrite IH.
Qed.

Lemma isPlainObject_json n j : isPlainObject (of_json n j).1 = is_object j.
Proof.
  destruct j; try done; [|by destruct (of_json_object n fs) as (i & r & -> & _)].
  cbn [of_json]. by match goal with |- context [?g (N.succ n) l] => destruct (g (N.succ n) l) end.
Qed.

Lemma mapM_concat {A B} (f : A → option (list B)) (P : A → Prop) l :
  (∀ a, a ∈ l → ∃ bs, f a = Some bs ∧ (bs = [] ↔ P a)) →
  ∃ bss, mapM f l = Some bss ∧ (concat bss = [] ↔ ∀ a, a ∈ l → P a).
Proof.
  induction l as [|a l IH]; intros Hf; [exists []; split; [done|]; set_solver|].
  destruct (Hf a) as (bs & Ha & Hbs); [by left|]. destruct IH as (bss & Hl & Hbss); [intros x Hx; apply Hf; by right|].
  exists (bs :: bss). cbn. rewrite Ha. cbn. rewrite Hl. split; [done|]. rewrite app_nil, Hbs, Hbss. set_solver.
Qed.

Lemma list_max_in {A} (f : A → nat) l a : a ∈ l → (f a ≤ list_max (List.map f l))%nat.
Proof. unfold list_max. induction 1; cbn; lia. Qed.

(** The entries for one key, of two objects whose fields are their own. *)
Lemma own_names_field fs k j : own_names (JsonObj fs) = true → (k, j) ∈ fs → k ∉ "__proto__" :: object_prototype_names ∧ own_names j = true.
Proof.
  cbn [own_names]. rewrite List.forallb_forall. intros Hall Hin%list_elem_of_In. apply Hall in Hin.
  apply andb_true_iff in Hin as [Hk%negb_true_iff Hj]. by apply bool_decide_eq_false in Hk.
Qed.

Lemma has_property_json n fs k :
  k ∉ "__proto__" :: object_prototype_names → has_property (of_json n (JsonObj fs)).1 k = bool_decide (k ∈ fs.*1).
Proof.
  intros Hk. destruct (of_json_object n fs) as (i & r & -> & Hr). unfold has_property. cbn [object_keys].
  rewrite (bool_decide_ext (k ∈ (own_fields r).*1) (k ∈ fs.*1)) by by rewrite own_fields_keys_in, Hr.
  rewrite (bool_decide_eq_false_2 (k = _)), (bool_decide_eq_false_2 (k ∈ object_prototype_names)); [by rewrite !orb_false_r|..];
    set_solver.
Qed.

Lemma printable_fields fs k j : printable (JsonObj fs) = true → (k, j) ∈ fs → printable j = true.
Proof.
  cbn [printable]. intros [_ Hall]%andb_true_iff Hin. rewrite List.forallb_forall in Hall.
  by apply (Hall (k, j)), list_elem_of_In.
Qed.
Lemma printable_names fs : printable (JsonObj fs) = true → NoDup fs.*1 ∧ in_own_order fs.*1 = true.
Proof. cbn [printable]. by intros [Hnd%bool_decide_eq_true _]%andb_true_iff. Qed.

Lemma field_unique {A} (fs : list (string * A)) k a b : NoDup fs.*1 → (k, a) ∈ fs → (k, b) ∈ fs → a = b.
Proof.
  intros Hnd (i & Hi)%list_elem_of_lookup (j & Hj)%list_elem_of_lookup.
  assert (i = j) as ->; [|congruence]. eapply (NoDup_lookup fs.*1); [done|..]; rewrite list_lookup_fmap;
    [rewrite Hi|rewrite Hj]; done.
Qed.

Lemma name_of_field {A} (fs : list (string * A)) k : k ∈ fs.*1 ↔ ∃ a, (k, a) ∈ fs.
Proof.
  rewrite list_elem_of_fmap. split; [intros ([? a] & -> & Hin); by exists a|intros [a Hin]; by exists (k, a)].
Qed.

Definition agree_at (fs gs : list (string * json)) (k : string) : Prop :=
  ∃ a b, (k, a) ∈ fs ∧ (k, b) ∈ gs ∧ agree a b.

Lemma agree_objects fs gs :
  NoDup fs.*1 → NoDup gs.*1 →
  agree (JsonObj fs) (JsonObj gs) ↔ ∀ k, k ∈ fs.*1 ∨ k ∈ gs.*1 → agree_at fs gs k.
Proof.
  intros Hf Hg. split.
  - intros Ha k Hk. inversion Ha as [? Hno|? ? Hkeys Hall]; subst; [done|].
    assert (k ∈ fs.*1 ∧ k ∈ gs.*1) as [H1 H2] by (specialize (Hkeys k); tauto).
    apply list_elem_of_fmap in H1 as ([? a] & -> & Hin1). apply list_elem_of_fmap in H2 as ([? b] & Heq & Hin2). cbn in *. subst.
    exists a, b. eauto.
  - intros Hall. apply agree_object.
    + intros k. split; intros Hk.
      * destruct (Hall k (or_introl Hk)) as (a & b & _ & Hin & _). apply list_elem_of_fmap. by exists (k, b).
      * destruct (Hall k (or_intror Hk)) as (a & b & Hin & _ & _). apply list_elem_of_fmap. by exists (k, a).
    + intros k a b Ha Hb. destruct (Hall k) as (a' & b' & Ha' & Hb' & Hab).
      { left. apply list_elem_of_fmap. by exists (k, a). }
      by rewrite (field_unique _ _ _ _ Hf Ha Ha'), (field_unique _ _ _ _ Hg Hb Hb').
Qed.

Lemma agree_at_fields fs gs k a b :
  NoDup fs.*1 → NoDup gs.*1 → (k, a) ∈ fs → (k, b) ∈ gs → agree_at fs gs k ↔ agree a b.
Proof.
  intros Hf Hg Ha Hb. split; [|by exists a, b]. intros (a' & b' & Ha' & Hb' & Hab).
  by rewrite (field_unique _ _ _ _ Hf Ha Ha'), (field_unique _ _ _ _ Hg Hb Hb').
Qed.

Lemma agree_unlike a b : is_object a && is_object b = false → agree a b ↔ a = b.
Proof.
  intros Hu. split; [inversion 1; subst; done|]. intros ->. apply agree_leaf. by destruct (is_object b).
Qed.

Lemma all_keys_in before after k : k ∈ all_keys before after ↔ k ∈ object_keys before ∨ k ∈ object_keys after.
Proof.
  unfold all_keys. rewrite elem_of_app, !list_elem_of_In, List.filter_In, <-!list_elem_of_In, negb_true_iff, bool_decide_eq_false.
  destruct (decide (k ∈ object_keys before)); tauto.
Qed.

Lemma diff_json fuel fs gs n m prefix :
  printable (JsonObj fs) = true → printable (JsonObj gs) = true →
  own_names (JsonObj fs) = true → own_names (JsonObj gs) = true →
  (object_depth (JsonObj fs) ≤ fuel)%nat →
  ∃ es, diffObjects fuel (of_json n (JsonObj fs)).1 (of_json m (JsonObj gs)).1 prefix = Some es
    ∧ (es = [] ↔ agree (JsonObj fs) (JsonObj gs)).
Proof.
  revert fs gs n m prefix. induction fuel as [|fuel IH]; intros fs gs n m prefix Hpf Hpg Hof Hog Hd; [cbn in Hd; lia|].
  destruct (printable_names _ Hpf) as [Hnf Hof']. destruct (printable_names _ Hpg) as [Hng Hog'].
  set (before := (of_json n (JsonObj fs)).1) in *. set (after := (of_json m (JsonObj gs)).1) in *.
  assert (object_keys before = fs.*1 ∧ object_keys after = gs.*1) as [Hkb Hka].
  { unfold before, after. destruct (of_json_object n fs) as (i & r & -> & Hr), (of_json_object m gs) as (i' & r' & -> & Hr').
    cbn [object_keys]. by rewrite !own_fields_ordered by (rewrite ?Hr, ?Hr'; done). }
  destruct (mapM_concat (diff_key (diffObjects fuel) before after prefix) (agree_at fs gs) (all_keys before after)) as (bss & Hm & Hbss).
  2: { exists (concat bss). cbn [diffObjects]. rewrite Hm. split; [done|]. rewrite Hbss, agree_objects by done.
       setoid_rewrite all_keys_in. by rewrite Hkb, Hka. }
  intros k Hor. rewrite all_keys_in, Hkb, Hka in Hor.
  assert (k ∉ "__proto__" :: object_prototype_names) as Hown.
  { destruct Hor as [[a Ha]%name_of_field|[b Hb]%name_of_field];
      [by apply (own_names_field fs k a)|by apply (own_names_field gs k b)]. }
  unfold diff_key. assert (has_property before k = bool_decide (k ∈ fs.*1)) as -> by by apply has_property_json.
  assert (has_property after k = bool_decide (k ∈ gs.*1)) as -> by by apply has_property_json.
  case_bool_decide as Hkf; cbn [negb]; [case_bool_decide as Hkg; cbn [negb]|].
  - apply name_of_field in Hkf as [a Ha]. apply name_of_field in Hkg as [b Hb].
    destruct (of_json_field n fs k a Hnf Ha) as (n' & Hn'). destruct (of_json_field m gs k b Hng Hb) as (m' & Hm').
    fold before in Hn'. fold after in Hm'. rewrite Hn', Hm', !isPlainObject_json.
    pose proof (printable_fields _ _ _ Hpf Ha) as Hpa. pose proof (printable_fields _ _ _ Hpg Hb) as Hpb.
    destruct (is_object a && is_object b) eqn:Eo.
    + destruct a as [| | | | |fa]; try done. destruct b as [| | | | |fb]; try done.
      destruct (IH fa fb n' m' (diff_path prefix k) Hpa Hpb) as (es & Hes & Hiff).
      * by apply (own_names_field fs k).
      * by apply (own_names_field gs k).
      * pose proof (list_max_in (λ kv : string * json, object_depth kv.2) fs (k, JsonObj fa) Ha) as Hle.
        cbn [object_depth snd] in Hle, Hd |- *. lia.
      * exists es. split; [done|]. by rewrite Hiff, (agree_at_fields _ _ _ _ _ Hnf Hng Ha Hb).
    + eexists. split; [done|]. rewrite (agree_at_fields _ _ _ _ _ Hnf Hng Ha Hb), (agree_unlike _ _ Eo).
      rewrite <-(deepEqual_json n' m' a b Hpa Hpb). by destruct (deepEqual _ _).
  - eexists. split; [done|]. split; [done|]. intros (a & b & _ & Hb & _). destruct Hkg. apply name_of_field. by exists b.
  - eexists. split; [done|]. split; [done|]. intros (a & b & Ha & _ & _). destruct Hkf. apply name_of_field. by exists a.
Qed.

(** A name every object inherits is never new: adding such a field is a change
    from the inherited function. *)
Lemma diff_inherited_name v :
  diffObjects 2 (JObj 0 []) (JObj 1 [("toString", JNum v)]) ""
  = Some [mkDiffEntry "toString" DiffChange (Some (JMethod false "toString")) (Some (JNum v))].
Proof.
  trans (Some (if deepEqual (JMethod false "toString") (JNum v) then []
    else [mkDiffEntry "toString" DiffChange (Some (JMethod false "toString")) (Some (JNum v))])); [done|].
  unfold deepEqual. by rewrite bool_decide_eq_false_2.
Qed.

(** ** Properties *)

(** Inside an array the texts are compared; they list the names that are array
    indices first, wherever the objects had them. *)
Definition quoted (s : string) : string := of_chars ((λ c, if decide (c = "'"%char) then json_quote else c) <$> chars s).

Example diff_index_names :
  ∃ a b, json_parse (quoted "{'x':[{'b':1,'1':2}]}") = Some a ∧ json_parse (quoted "{'x':[{'1':2,'b':1}]}") = Some b
    ∧ diffObjects 1 (of_json 0 a).1 (of_json 9 b).1 "" = Some [].
Proof. eexists _, _. split; [vm_compute; reflexivity|]. split; [vm_compute; reflexivity|]. by vm_compute. Qed.

(** C32: Of two JSON objects as they are parsed - the fields of every object have
    different names and stand in the object's own order, array indices first -,
    of which the numbers are finite and not [-0] and no field has a name that every
    object inherits, [diffObjects] reports no difference exactly when they are the
    same up to the order of the fields of objects outside arrays; it always ends. *)
Theorem diff_empty_iff (fs gs : list (string * json)) (n m : N) (prefix : string)
    (Hfs : printable (JsonObj fs) = true ∧ own_names (JsonObj fs) = true)
    (Hgs : printable (JsonObj gs) = true ∧ own_names (JsonObj gs) = true) :
  ∃ es, diffObjects (object_depth (JsonObj fs)) (of_json n (JsonObj fs)).1 (of_json m (JsonObj gs)).1 prefix = Some es
    ∧ (es = [] ↔ agree (JsonObj fs) (JsonObj gs)).
Proof. destruct Hfs, Hgs. by apply diff_json. Qed.

Lemma diff_empty_iff_witness :
  let one := JsonNum (num_of_Z 1) in
  diffObjects 2 (of_json 0 (JsonObj [("a", one); ("b", JsonObj [("x", one); ("y", JsonNull)])])).1
    (of_json 9 (JsonObj [("b", JsonObj [("y", JsonNull); ("x", one)]); ("a", one)])).1 "" = Some []
  ∧ agree (JsonObj [("a", one); ("b", JsonObj [("x", one); ("y", JsonNull)])])
      (JsonObj [("b", JsonObj [("y", JsonNull); ("x", one)]); ("a", one)]).
Proof.
  intros one. assert (diffObjects 2 (of_json 0 (JsonObj [("a", one); ("b", JsonObj [("x", one); ("y", JsonNull)])])).1
    (of_json 9 (JsonObj [("b", JsonObj [("y", JsonNull); ("x", one)]); ("a", one)])).1 "" = Some []) as Hd by by vm_compute.
  split; [exact Hd|].
  destruct (diff_empty_iff [("a", one); ("b", JsonObj [("x", one); ("y", JsonNull)])]
    [("b", JsonObj [("y", JsonNull); ("x", one)]); ("a", one)] 0 9 "") as (es & He & Hiff); [split; by vm_compute..|].
  apply Hiff. change (diffObjects 2 (of_json 0 (JsonObj [("a", one); ("b", JsonObj [("x", one); ("y", JsonNull)])])).1
    (of_json 9 (JsonObj [("b", JsonObj [("y", JsonNull); ("x", one)]); ("a", one)])).1 "" = Some es) in He. congruence.
Defined.
