(* ===== verification/OpenApi.v ===== *)
(** * The OpenAPI document (openapi/)

    The document and the component schemas as JSON values, the text that is
    served, and the routes the application registers, to compare them with. *)

From Stdlib Require Import Ascii QArith.
From S2P Require Import Prelude JsString JsNum DomainTypes JsValue Json Schema Domain Config.
Open Scope Z_scope.

Definition OPENAPI_SPEC : json := JsonObj [
    ("openapi", JsonStr "3.0.3");
    ("info", JsonObj [
      ("title", JsonStr "Jobflow Engine API");
      ("version", JsonStr "2.0.0");
      ("description", JsonStr "Enterprise job processing and workflow orchestration HTTP API")]);
    ("servers", JsonArr [JsonObj [("url", JsonStr "http://localhost:4100")]]);
    ("paths", JsonObj [
      ("/health", JsonObj [
        ("get", JsonObj [
          ("summary", JsonStr "Liveness probe");
          ("responses", JsonObj [("200", JsonObj [("description", JsonStr "OK")])])])]);
      ("/metrics", JsonObj [
        ("get", JsonObj [
          ("summary", JsonStr "Prometheus metrics");
          ("responses", JsonObj [("200", JsonObj [("description", JsonStr "text/plain")])])])]);
      ("/jobs", JsonObj [
        ("get", JsonObj [("summary", JsonStr "List job definitions")]);
        ("post", JsonObj [("summary", JsonStr "Register job definition")])]);
      ("/jobs/{jobId}", JsonObj [("get", JsonObj [("summary", JsonStr "Get job definition")])]);
      ("/jobs/{jobId}/runs", JsonObj [("post", JsonObj [("summary", JsonStr "Start asynchronous run")])]);
      ("/runs/{runId}", JsonObj [("get", JsonObj [("summary", JsonStr "Get workflow instance state")])]);
      ("/runs/{runId}/execute", JsonObj [("post", JsonObj [("summary", JsonStr "Drive execution to completion")])]);
      ("/runs/{runId}/export.csv", JsonObj [("get", JsonObj [("summary", JsonStr "Export run task grid as CSV")])]);
      ("/schedules", JsonObj [
        ("get", JsonObj [("summary", JsonStr "List cron schedules")]);
        ("post", JsonObj [("summary", JsonStr "Create schedule")])]);
      ("/webhooks", JsonObj [("post", JsonObj [("summary", JsonStr "Register webhook endpoint")])]);
      ("/v2/templates", JsonObj [("get", JsonObj [("summary", JsonStr "List workflow templates")])]);
      ("/v2/templates/{id}/instantiate", JsonObj [("post", JsonObj [("summary", JsonStr "Instantiate template as job")])]);
      ("/v2/batch", JsonObj [("post", JsonObj [("summary", JsonStr "Execute batch manifest")])]);
      ("/admin/dead-letter", JsonObj [("get", JsonObj [("summary", JsonStr "List dead letter queue")])]);
      ("/admin/audit", JsonObj [("get", JsonObj [("summary", JsonStr "Query audit trail")])])]);
    ("components", JsonObj [
      ("securitySchemes", JsonObj [
        ("bearerAuth", JsonObj [
          ("type", JsonStr "http");
          ("scheme", JsonStr "bearer");
          ("bearerFormat", JsonStr "API key")])])])].

Definition JOB_DEFINITION_SCHEMA : json := JsonObj [
    ("type", JsonStr "object");
    ("required", JsonArr [JsonStr "id"; JsonStr "name"; JsonStr "version"; JsonStr "tasks"]);
    ("properties", JsonObj [
      ("id", JsonObj [("type", JsonStr "string")]);
      ("name", JsonObj [("type", JsonStr "string")]);
      ("version", JsonObj [("type", JsonStr "integer"); ("minimum", JsonNum (num_of_Z 1))]);
      ("description", JsonObj [("type", JsonStr "string")]);
      ("tasks", JsonObj [
        ("type", JsonStr "array");
        ("items", JsonObj [
          ("type", JsonStr "object");
          ("required", JsonArr [JsonStr "id"; JsonStr "name"; JsonStr "handler"; JsonStr "timeoutMs"]);
          ("properties", JsonObj [
            ("id", JsonObj [("type", JsonStr "string")]);
            ("name", JsonObj [("type", JsonStr "string")]);
            ("handler", JsonObj [("type", JsonStr "string")]);
            ("timeoutMs", JsonObj [("type", JsonStr "integer")]);
            ("optional", JsonObj [("type", JsonStr "boolean")]);
            ("dependsOn", JsonObj [("type", JsonStr "array"); ("items", JsonObj [("type", JsonStr "string")])])])])]);
      ("constraints", JsonObj [
        ("type", JsonStr "array");
        ("items", JsonObj [
          ("type", JsonStr "object");
          ("properties", JsonObj [
            ("id", JsonObj [("type", JsonStr "string")]);
            ("expression", JsonObj [("type", JsonStr "string")]);
            ("severity", JsonObj [("type", JsonStr "string"); ("enum", JsonArr [JsonStr "warn"; JsonStr "block"])])])])]);
      ("retryPolicy", JsonObj [
        ("type", JsonStr "object");
        ("properties", JsonObj [
          ("maxAttempts", JsonObj [("type", JsonStr "integer")]);
          ("initialDelayMs", JsonObj [("type", JsonStr "integer")]);
          ("backoffMultiplier", JsonObj [("type", JsonStr "number")]);
          ("maxDelayMs", JsonObj [("type", JsonStr "integer")])])]);
      ("metadata", JsonObj [
        ("type", JsonStr "object");
        ("additionalProperties", JsonObj [("type", JsonStr "string")])])])].

Definition WORKFLOW_INSTANCE_SCHEMA : json := JsonObj [
    ("type", JsonStr "object");
    ("properties", JsonObj [
      ("id", JsonObj [("type", JsonStr "string")]);
      ("jobId", JsonObj [("type", JsonStr "string")]);
      ("runId", JsonObj [("type", JsonStr "string")]);
      ("state", JsonObj [
        ("type", JsonStr "string");
        ("enum", JsonArr [JsonStr "draft"; JsonStr "pending"; JsonStr "running"; JsonStr "waiting"; JsonStr "completed"; JsonStr "failed"; JsonStr "cancelled"; JsonStr "dead_lettered"])]);
      ("tasks", JsonObj [("type", JsonStr "array")]);
      ("history", JsonObj [("type", JsonStr "array")]);
      ("version", JsonObj [("type", JsonStr "integer")])])].

Definition ERROR_RESPONSE_SCHEMA : json := JsonObj [
    ("type", JsonStr "object");
    ("properties", JsonObj [
      ("error", JsonObj [("type", JsonStr "string")]);
      ("code", JsonObj [("type", JsonStr "string")])])].

Definition ALL_SCHEMAS : json := JsonObj [
  ("JobDefinition", JOB_DEFINITION_SCHEMA);
  ("WorkflowInstance", WORKFLOW_INSTANCE_SCHEMA);
  ("ErrorResponse", ERROR_RESPONSE_SCHEMA)].

(** [JSON.stringify(OPENAPI_SPEC, null, 2)]. *)
Definition openApiJson : string := of_chars (print_json 2 0 OPENAPI_SPEC).

(** ** Operations *)

Definition json_fields (j : json) : list (string * json) := match j with JsonObj fs => fs | _ => [] end.

(** The path of an OpenAPI document in the notation of the router: a parameter is
    [{name}] in the one and [:name] in the other. *)
Definition router_path (p : string) : string :=
  of_chars (chars p ≫= λ c, if decide (c = "{"%char) then [":"%char] else if decide (c = "}"%char) then [] else [c]).

Definition documented_routes : list (string * string) :=
  json_fields (default JsonNull (json_get (json_fields OPENAPI_SPEC) "paths")) ≫= λ path,
    (λ operation, (operation.1, router_path path.1)) <$> json_fields path.2.

(** What [buildApp] registers, file by file (api/). *)
Definition core_routes : list (string * string) := [
  ("get", "/health"); ("get", "/jobs"); ("post", "/jobs"); ("get", "/jobs/:jobId"); ("post", "/jobs/:jobId/runs");
  ("get", "/runs/:runId"); ("post", "/runs/:runId/execute"); ("get", "/runs/:runId/export.csv")].
Definition schedule_routes : list (string * string) := [("get", "/schedules"); ("post", "/schedules")].
Definition webhook_routes : list (string * string) := [("post", "/webhooks")].
Definition admin_routes : list (string * string) := [
  ("get", "/openapi.json"); ("get", "/metrics"); ("get", "/admin/dead-letter"); ("get", "/admin/webhook-deliveries");
  ("get", "/admin/audit"); ("get", "/admin/handlers")].
Definition dsl_routes : list (string * string) := [("post", "/api/v1/dsl/compile")].
Definition analytics_routes : list (string * string) := [
  ("get", "/api/v1/runs/:runId/analytics"); ("get", "/api/v1/metrics/series")].
Definition v2_routes : list (string * string) := [
  ("get", "/v2/templates"); ("post", "/v2/templates/:id/instantiate"); ("post", "/v2/batch");
  ("get", "/v2/jobs/:jobId/runs"); ("post", "/v2/runs/:runId/replay"); ("post", "/v2/import/jobs")].

Definition registered_routes : list (string * string) :=
  core_routes ++ schedule_routes ++ webhook_routes ++ admin_routes ++ dsl_routes ++ analytics_routes ++ v2_routes.

(** ** JSON Schema

    The keywords the component schemas use; a keyword that is not known is
    ignored, and one for another type of value does not constrain it. *)

Definition json_type (t : string) (j : json) : bool :=
  match j with
  | JsonNull => bool_decide (t = "null")
  | JsonBool _ => bool_decide (t = "boolean")
  | JsonNum n => bool_decide (t = "number") || bool_decide (t = "integer") && bool_decide (is_Some (num_int n))
  | JsonStr _ => bool_decide (t = "string")
  | JsonArr _ => bool_decide (t = "array")
  | JsonObj _ => bool_decide (t = "object")
  end.

(** One keyword, given the validity of the schemas in it. *)
Definition keyword_valid (valid : json → json → bool) (k : string) (a v : json) : bool :=
  if decide (k = "type") then match a with JsonStr t => json_type t v | _ => true end
  else if decide (k = "required") then
    match a, v with
    | JsonArr names, JsonObj fs =>
        forallb (λ n, match n with JsonStr n => bool_decide (is_Some (json_get fs n)) | _ => true end) names
    | _, _ => true
    end
  else if decide (k = "properties") then
    match a, v with
    | JsonObj ps, JsonObj fs =>
        forallb (λ p : string * json, match json_get fs p.1 with Some w => valid p.2 w | None => true end) ps
    | _, _ => true
    end
  else if decide (k = "items") then match v with JsonArr l => forallb (valid a) l | _ => true end
  else if decide (k = "enum") then
    match a, v with
    | JsonArr vs, JsonStr t => existsb (λ w, match w with JsonStr u => bool_decide (u = t) | _ => false end) vs
    | _, _ => false
    end
  else if decide (k = "minimum") then
    match a, v with
    | JsonNum m, JsonNum n => match num_int m with Some z => check_num n (AtLeast z) | None => true end
    | _, _ => true
    end
  else if decide (k = "additionalProperties") then
    match v with JsonObj fs => forallb (λ kv : string * json, valid a kv.2) fs | _ => true end
  else true.

Fixpoint json_valid (s v : json) {struct s} : bool :=
  match s with
  | JsonObj kws => forallb (λ ka : string * json, keyword_valid json_valid ka.1 ka.2 v) kws
  | _ => true
  end.

(** ** What a schema of the program implies *)

Definition bare (z : schema) : schema := match z with ZOptional z | ZDefault _ z => z | _ => z end.
Definition mandatory (z : schema) : bool := match z with ZOptional _ | ZDefault _ _ | ZUnknown => false | _ => true end.
Definition is_int_check (c : num_check) : bool := match c with IsInt => true | _ => false end.
Definition is_positive_check (c : num_check) : bool := match c with IsPositive => true | _ => false end.
Definition at_least (m : Z) (c : num_check) : bool := match c with AtLeast z => m <=? z | _ => false end.

Definition implies_type (z : schema) (t : string) : bool :=
  match z with
  | ZString _ | ZEnum _ => bool_decide (t = "string")
  | ZNumber checks => bool_decide (t = "number") || bool_decide (t = "integer") && existsb is_int_check checks
  | ZBoolean => bool_decide (t = "boolean")
  | ZArray _ _ => bool_decide (t = "array")
  | ZObject _ | ZRecord _ => bool_decide (t = "object")
  | _ => false
  end.

Definition find_shape (k : string) (shape : list (string * schema)) : option schema :=
  snd <$> List.find (λ kv, bool_decide (kv.1 = k)) shape.

Definition keyword_covers (cov : json → schema → bool) (k : string) (a : json) (z : schema) : bool :=
  if decide (k = "type") then match a with JsonStr t => implies_type z t | _ => true end
  else if decide (k = "required") then
    match a, z with
    | JsonArr names, ZObject shape =>
        forallb (λ n, match n with
          | JsonStr n => match find_shape n shape with Some z => mandatory z | None => false end
          | _ => true
          end) names
    | _, _ => false
    end
  else if decide (k = "properties") then
    match a, z with
    | JsonObj ps, ZObject shape =>
        forallb (λ p : string * json, match find_shape p.1 shape with Some z => cov p.2 (bare z) | None => false end) ps
    | _, _ => false
    end
  else if decide (k = "items") then match z with ZArray _ z => cov a z | _ => false end
  else if decide (k = "enum") then
    match a, z with
    | JsonArr vs, ZEnum us =>
        forallb (λ u, existsb (λ w, match w with JsonStr t => bool_decide (t = u) | _ => false end) vs) us
    | _, _ => false
    end
  else if decide (k = "minimum") then
    match a, z with
    | JsonNum m, ZNumber checks =>
        match num_int m with
        | Some m => existsb (at_least m) checks || (m <=? 1) && existsb is_int_check checks && existsb is_positive_check checks
        | None => true
        end
    | _, _ => false
    end
  else if decide (k = "additionalProperties") then match z with ZRecord z => cov a z | _ => false end
  else true.

(** Every value that [z] accepts has the schema [s], by comparing the two. *)
Fixpoint covers (s : json) (z : schema) {struct s} : bool :=
  match s with
  | JsonObj kws => forallb (λ ka : string * json, keyword_covers covers ka.1 ka.2 z) kws
  | _ => true
  end.

Section covers.
Context `{ZodLaws}.

Lemma parse_shape_field shape fs out k s :
  parse_shape zod_parse shape fs = Some out → (k, s) ∈ shape → is_Some (zod_parse s (json_get fs k)).
Proof.
  revert out. induction shape as [|[k' s'] shape IH]; intros out; cbn; [by intros _ ?%elem_of_nil|].
  destruct (zod_parse s' _) as [v|] eqn:E; [|done]. cbn. destruct (parse_shape zod_parse shape fs) as [rest|]; [|done].
  intros _ [[= -> ->]|Hin]%elem_of_cons; [by rewrite E; eexists|]. by apply (IH rest).
Qed.

Lemma find_shape_in k shape z : find_shape k shape = Some z → (k, z) ∈ shape.
Proof.
  unfold find_shape. destruct (List.find _ shape) as [[k' z']|] eqn:E; [|done]. intros [= ->].
  apply List.find_some in E as [Hin Hk]. cbn in Hk. apply bool_decide_eq_true in Hk as ->. by apply list_elem_of_In.
Qed.

Lemma mandatory_present z : mandatory z = true → zod_parse z None = None.
Proof. rewrite zod_documented. by destruct z. Qed.

Lemma bare_accepts z v w : zod_parse z (Some v) = Some w → ∃ w', zod_parse (bare z) (Some v) = Some w'.
Proof. destruct z; cbn [bare]; try eauto; rewrite zod_documented; cbn; eauto. Qed.

Lemma zod_object_fields shape v w :
  zod_parse (ZObject shape) (Some v) = Some w →
  ∃ fs, v = JsonObj fs ∧ ∀ k z, find_shape k shape = Some z → is_Some (zod_parse z (json_get fs k)).
Proof.
  intros (fs & out & [= ->] & _ & Ho)%zod_object. exists fs. split; [done|]. intros k z Hz%find_shape_in.
  by eapply parse_shape_field.
Qed.

Lemma zod_array_elements n z v w :
  zod_parse (ZArray n z) (Some v) = Some w → ∃ l, v = JsonArr l ∧ ∀ j, j ∈ l → is_Some (zod_parse z (Some j)).
Proof.
  rewrite zod_documented. destruct v as [| | | |l|]; try done. cbn. destruct (_ <=? _)%nat; [|done].
  destruct (parse_all zod_parse z l) as [out|] eqn:E; [|done]. intros _. exists l. split; [done|].
  revert out E. induction l as [|j l IH]; intros out; cbn; [by intros _ ? ?%elem_of_nil|].
  destruct (zod_parse z (Some j)) as [x|] eqn:Ej; [|done]. cbn. destruct (parse_all zod_parse z l) as [rest|]; [|done].
  intros _ j' [->|Hin]%elem_of_cons; [by rewrite Ej; eexists|by apply (IH rest)].
Qed.

Lemma zod_record_values z v w :
  zod_parse (ZRecord z) (Some v) = Some w → ∃ fs, v = JsonObj fs ∧ ∀ k j, (k, j) ∈ fs → is_Some (zod_parse z (Some j)).
Proof.
  rewrite zod_documented. destruct v as [| | | | |fs]; try done. cbn.
  destruct (parse_values zod_parse z fs) as [out|] eqn:E; [|done]. intros _. exists fs. split; [done|].
  revert out E. induction fs as [|[k j] fs IH]; intros out; cbn; [by intros _ ? ? ?%elem_of_nil|].
  destruct (zod_parse z (Some j)) as [x|] eqn:Ej; [|done]. cbn. destruct (parse_values zod_parse z fs) as [rest|]; [|done].
  intros _ k' j' [[= -> ->]|Hin]%elem_of_cons; [by rewrite Ej; eexists|by apply (IH rest eq_refl k')].
Qed.

Lemma implies_type_sound z t v w : implies_type z t = true → zod_parse z (Some v) = Some w → json_type t v = true.
Proof.
  intros Hi Hz. destruct z as [|n|checks| |us|n z|shape|z|z|d z]; try done; cbn in Hi.
  - rewrite zod_documented in Hz. destruct v; try done.
  - apply zod_number in Hz as (n & [= ->] & _ & Hc). cbn. destruct (bool_decide (t = "number")); [done|]. cbn in *.
    apply andb_true_iff in Hi as [-> (c & Hin & Hc')%List.existsb_exists]. cbn. destruct c; try done.
    rewrite Forall_forall in Hc. apply (Hc IsInt). by apply list_elem_of_In.
  - rewrite zod_documented in Hz. destruct v; try done.
  - rewrite zod_documented in Hz. destruct v; try done.
  - by apply zod_array_elements in Hz as (l & -> & _).
  - by apply zod_object_fields in Hz as (fs & -> & _).
  - by apply zod_record_values in Hz as (fs & -> & _).
Qed.

Lemma check_num_weaken n a b : b ≤ a → check_num n (AtLeast a) = true → check_num n (AtLeast b) = true.
Proof.
  intros Hab. destruct n; try done; cbn; rewrite !Qle_bool_iff; intros Hq; (eapply Qle_trans; [|exact Hq]);
    by rewrite <-Zle_Qle.
Qed.

Lemma check_num_integer n z b : num_int n = Some z → b ≤ z → check_num n (AtLeast b) = true.
Proof.
  intros Hn Hb. destruct (num_int_value _ _ Hn) as (q & Hq & Hqz). destruct n; try done; cbn in *; injection Hq as <-;
    rewrite Qle_bool_iff, Hqz; by rewrite <-Zle_Qle.
Qed.

Lemma minimum_sound m n checks :
  Forall (λ c, check_num n c = true) checks →
  existsb (at_least m) checks || (m <=? 1) && existsb is_int_check checks && existsb is_positive_check checks = true →
  check_num n (AtLeast m) = true.
Proof.
  rewrite Forall_forall. setoid_rewrite list_elem_of_In. intros Hall [(c & Hin & Hc)%List.existsb_exists|Hip]%orb_true_iff.
  - destruct c as [|z| |]; try done. apply (check_num_weaken n z); [by apply Z.leb_le|by apply Hall].
  - apply andb_true_iff in Hip as [[Hm%Z.leb_le (c & Hin & Hc)%List.existsb_exists]%andb_true_iff (c' & Hin' & Hc')%List.existsb_exists].
    destruct c; try done. destruct c'; try done. apply Hall in Hin, Hin'. cbn in Hin. apply bool_decide_eq_true in Hin as [z Hz].
    pose proof (check_num_int _ _ _ Hz Hin') as Hp. cbn in Hp. apply (check_num_integer n z); [done|lia].
Qed.

Lemma weight_field k a kws : (k, a) ∈ kws → (weight a < weight (JsonObj kws))%nat.
Proof.
  cbn [weight]. intros Hin. apply list_elem_of_split in Hin as (l & l' & ->).
  rewrite List.map_app, list_sum_app. cbn. lia.
Qed.

(** What is to be shown of a schema: a value that the program accepts is valid. *)
Definition sound (s : json) : Prop :=
  ∀ z v w, covers s z = true → zod_parse z (Some v) = Some w → json_valid s v = true.

Lemma properties_sound ps z v w :
  (∀ k s, (k, s) ∈ ps → sound s) →
  keyword_covers covers "properties" (JsonObj ps) z = true → zod_parse z (Some v) = Some w →
  keyword_valid json_valid "properties" (JsonObj ps) v = true.
Proof.
  unfold keyword_covers, keyword_valid. repeat (case_decide; try done). intros Hps Hc Hz. destruct z as [| | | | | |shape| | |]; try done.
  destruct (zod_object_fields _ _ _ Hz) as (fs & -> & Hfs). rewrite List.forallb_forall in Hc |- *. intros [k s] Hin.
  specialize (Hc _ Hin). cbn in *. destruct (find_shape k shape) as [z|] eqn:Ek; [|done].
  destruct (json_get fs k) as [u|] eqn:Eu; [|done]. destruct (Hfs k z Ek) as [x Hx]. rewrite Eu in Hx.
  destruct (bare_accepts _ _ _ Hx) as [y Hy]. eapply Hps; [by apply list_elem_of_In|exact Hc|exact Hy].
Qed.

Lemma required_sound names z v w :
  keyword_covers covers "required" (JsonArr names) z = true → zod_parse z (Some v) = Some w →
  keyword_valid json_valid "required" (JsonArr names) v = true.
Proof.
  unfold keyword_covers, keyword_valid. repeat (case_decide; try done). intros Hc Hz. destruct z as [| | | | | |shape| | |]; try done.
  destruct (zod_object_fields _ _ _ Hz) as (fs & -> & Hfs). rewrite List.forallb_forall in Hc |- *. intros n Hin.
  specialize (Hc _ Hin). destruct n as [| | |n| |]; try done. destruct (find_shape n shape) as [z|] eqn:En; [|done].
  destruct (Hfs n z En) as [x Hx]. apply bool_decide_eq_true. destruct (json_get fs n); [by eexists|].
  by rewrite mandatory_present in Hx.
Qed.

Lemma enum_sound vs z v w :
  keyword_covers covers "enum" (JsonArr vs) z = true → zod_parse z (Some v) = Some w →
  keyword_valid json_valid "enum" (JsonArr vs) v = true.
Proof.
  unfold keyword_covers, keyword_valid. repeat (case_decide; try done). intros Hc Hz. destruct z as [| | | |us| | | | |]; try done.
  rewrite zod_documented in Hz. destruct v as [| | |t| |]; try done. cbn in Hz. case_bool_decide as Ht; [|done].
  rewrite List.forallb_forall in Hc. specialize (Hc t ltac:(by apply list_elem_of_In)).
  apply List.existsb_exists in Hc as (u & Hu & Hut). apply List.existsb_exists. exists u. split; [done|].
  by destruct u.
Qed.

Lemma keyword_sound k a z v w :
  sound a → (∀ ps, a = JsonObj ps → ∀ k s, (k, s) ∈ ps → sound s) →
  keyword_covers covers k a z = true → zod_parse z (Some v) = Some w → keyword_valid json_valid k a v = true.
Proof.
  intros Ha Hps Hc Hz.
  destruct (decide (k = "required")) as [->|H1].
  { destruct a; try done. by eapply required_sound. }
  destruct (decide (k = "properties")) as [->|H2].
  { destruct a; try done. eapply properties_sound; eauto. }
  destruct (decide (k = "enum")) as [->|H3].
  { destruct a; try done. by eapply enum_sound. }
  revert Hc. unfold keyword_covers, keyword_valid. repeat (case_decide; [done||subst k|]; try done).
  - destruct a; try done. by eauto using implies_type_sound.
  - destruct z as [| | | | |n z| | | |]; try done. intros Hc. destruct (zod_array_elements _ _ _ _ Hz) as (l & -> & Hl).
    apply List.forallb_forall. intros j Hj%list_elem_of_In. destruct (Hl j Hj) as [x Hx]. by eapply Ha.
  - destruct a as [| |m| | |]; try done. destruct z as [| |checks| | | | | | |]; try done. intros Hc.
    destruct (zod_number _ _ _ Hz) as (n & [= ->] & _ & Hn). destruct (num_int m) as [b|]; [|done]. by eapply minimum_sound.
  - destruct z as [| | | | | | |z| |]; try done. intros Hc. destruct (zod_record_values _ _ _ Hz) as (fs & -> & Hfs).
    apply List.forallb_forall. intros [n j] Hj%list_elem_of_In. destruct (Hfs n j Hj) as [x Hx]. by eapply Ha.
Qed.

Lemma covers_sound s : sound s.
Proof.
  induction s as [s IH] using (well_founded_induction (well_founded_ltof _ weight)). unfold ltof in IH.
  destruct s as [| | | | |kws]; try done. intros z v w Hc Hz. cbn in Hc |- *. rewrite List.forallb_forall in Hc |- *.
  intros [k a] Hin. specialize (Hc _ Hin). apply list_elem_of_In in Hin. pose proof (weight_field _ _ _ Hin) as Hw.
  apply (keyword_sound k a z v w); [by apply IH| |done|done].
  intros ps -> k' s Hin'. apply IH. pose proof (weight_field _ _ _ Hin'). lia.
Qed.
End covers.

(** C27: A body that the registration's schema accepts is one the published [JobDefinition] schema documents: every required field is there, and every field, task, constraint and retry policy has the documented type, enumeration and minimum. *)
Theorem accepted_body_documented `{ZodLaws} (v : json) (w : option json) :
  zod_parse jobDefinitionInputSchema (Some v) = Some w → json_valid JOB_DEFINITION_SCHEMA v = true.
Proof. by apply covers_sound. Qed.

Definition sample_task (id : string) (timeout : Z) : json :=
  JsonObj [("id", JsonStr id); ("name", JsonStr "Extract"); ("handler", JsonStr "csv"); ("timeoutMs", number_of timeout)].
Definition sample_body (tasks : list json) : json :=
  JsonObj [("id", JsonStr "job_1"); ("name", JsonStr "Nightly"); ("version", number_of 1); ("tasks", JsonArr tasks)].

Lemma accepted_body_documented_witness :
  ∃ w, zod_parse jobDefinitionInputSchema (Some (sample_body [sample_task "a" 1000])) = Some w ∧
    json_valid JOB_DEFINITION_SCHEMA (sample_body [sample_task "a" 1000]) = true.
Proof.
  eexists. split; [vm_compute; reflexivity|].
  eapply (accepted_body_documented (H := plain_zod) (H0 := plain_zod_laws)). vm_compute. reflexivity.
Defined.

(** The converse fails: the document allows bodies the service answers with an error. *)
Theorem documented_not_accepted :
  Forall (λ v, json_valid JOB_DEFINITION_SCHEMA v = true ∧ zod_eval jobDefinitionInputSchema (Some v) = None)
    [sample_body []; sample_body [sample_task "" 1000]; sample_body [sample_task "a" 0]].
Proof. by repeat constructor. Qed.

(** What is served at [/openapi.json] is the document. *)
Theorem served_document : json_parse openApiJson = Some OPENAPI_SPEC.
Proof. apply json_round_trip. by vm_compute. Qed.

(** Every documented route is registered, and these are the ones that are registered and not documented. *)
Theorem documented_routes_registered :
  Forall (λ r, r ∈ registered_routes) documented_routes ∧
  filter (λ r, r ∉ documented_routes) registered_routes =
    [("get", "/openapi.json"); ("get", "/admin/webhook-deliveries"); ("get", "/admin/handlers");
     ("post", "/api/v1/dsl/compile"); ("get", "/api/v1/runs/:runId/analytics"); ("get", "/api/v1/metrics/series");
     ("get", "/v2/jobs/:jobId/runs"); ("post", "/v2/runs/:runId/replay"); ("post", "/v2/import/jobs")].
Proof. split; [apply (bool_decide_unpack _)|]; by vm_compute. Qed.

(** The states of the published instance schema are the states of the state machine. *)
Theorem documented_states :
  ∃ l, (ps ← json_get (json_fields WORKFLOW_INSTANCE_SCHEMA) "properties";
        st ← json_get (json_fields ps) "state"; json_get (json_fields st) "enum") = Some (JsonArr l)
  ∧ (∀ state, JsonStr (WorkflowState_string state) ∈ l) ∧ ∀ j, j ∈ l → ∃ state, j = JsonStr (WorkflowState_string state).
Proof.
  eexists. split; [vm_compute; reflexivity|]. split; [intros []; in_shape|].
  intros j Hj. repeat (apply elem_of_cons in Hj as [->|Hj]; [|]); [..|by apply elem_of_nil in Hj];
    [by exists Draft|by exists Pending|by exists Running|by exists Waiting|by exists Completed|by exists Failed
    |by exists Cancelled|by exists DeadLettered].
Qed.

(** The document promises bearer authentication, but lists no component schema and no security requirement. *)
Theorem document_components :
  (json_get (json_fields OPENAPI_SPEC) "components" ≫= (λ c, json_get (json_fields c) "schemas")) = None ∧
  json_get (json_fields OPENAPI_SPEC) "security" = None.
Proof. done. Qed.
