(* ===== verification/Governance.v ===== *)
(** * Audit, retention and tenants (audit/, services/audit-service.ts, compliance/retention.ts,
    services/tenant-service.ts)

    The audit trail and its queries, the retention rules on the times they
    compare as strings, and the quotas of tenants. *)

From S2P Require Import Prelude JsMap JsString JsNum JsDate IsoOrder DomainTypes JsValue Domain Transitions Stores.
Open Scope Z_scope.

(** ** Audit *)

Record AuditRecord : Type := mkAudit {
  au_id : string;
  au_tenantId : string;
  au_actor : string;
  au_action : string;
  au_resourceType : string;
  au_resourceId : string;
  au_metadata : jsrecord;
  au_at : string;
}.

Record AuditQueryFilter : Type := mkAuditFilter {
  aq_tenantId : option string;
  aq_resourceType : option string;
  aq_resourceId : option string;
  aq_since : option string;
  aq_limit : option Z;
}.

(** audit/memory-sink.ts *)
Definition audit_write (r : AuditRecord) (records : list AuditRecord) : list AuditRecord := records ++ [r].

(** [if (x) result = result.filter(test(x))]. *)
Definition filter_if (x : option string) (test : string → AuditRecord → bool) (l : list AuditRecord) : list AuditRecord :=
  match x with
  | Some s => if truthy_string s then List.filter (test s) l else l
  | None => l
  end.

Definition audit_query (filter : AuditQueryFilter) (records : list AuditRecord) : list AuditRecord :=
  let result := filter_if (aq_tenantId filter) (λ s r, bool_decide (au_tenantId r = s)) records in
  let result := filter_if (aq_resourceType filter) (λ s r, bool_decide (au_resourceType r = s)) result in
  let result := filter_if (aq_resourceId filter) (λ s r, bool_decide (au_resourceId r = s)) result in
  let result := filter_if (aq_since filter) (λ s r, string_leb s (au_at r)) result in
  slice_last result (default 100 (aq_limit filter)).

(** audit/trail.ts: the id and the time are given to the entry. *)
Definition audit_record (uuid now_ tenantId actor action resourceType resourceId : string) (metadata : jsrecord)
    (records : list AuditRecord) : AuditRecord * list AuditRecord :=
  let entry := mkAudit uuid tenantId actor action resourceType resourceId metadata now_ in
  (entry, audit_write entry records).

(** ** Retention *)

Record RetentionPolicy : Type := mkRetention { auditDays : Z; workflowDays : Z; deadLetterDays : Z }.
Definition DEFAULT_RETENTION : RetentionPolicy := mkRetention 90 30 180.

Definition cutoffDate (now_ days : Z) : string := toISOString (setUTCDate now_ (getUTCDate now_ - days)).

Definition filterAudit (policy : RetentionPolicy) (records : list AuditRecord) (now_ : Z) : list AuditRecord :=
  let cutoff := cutoffDate now_ (auditDays policy) in
  List.filter (λ r, string_leb cutoff (au_at r)) records.

(** [isTerminal(state)] of the enforcer, on the state's string. *)
Definition retention_terminal (state : string) : bool :=
  bool_decide (state ∈ ["completed"; "failed"; "cancelled"; "dead_lettered"]).

Definition shouldPurgeWorkflow (policy : RetentionPolicy) (workflow : WorkflowInstance) (now_ : Z) : bool :=
  let cutoff := cutoffDate now_ (workflowDays policy) in
  string_ltb (wf_updatedAt workflow) cutoff && retention_terminal (WorkflowState_string (state workflow)).

(** ** Tenants *)

Definition tenant_register (id : string) (env : Domain.Environment) (s : jsmap string TenantContext)
    : TenantContext * jsmap string TenantContext :=
  let ctx := mkTenant id env DEFAULT_QUOTAS in (ctx, map_set s id ctx).
Definition tenant_get (id : string) (s : jsmap string TenantContext) : option TenantContext := map_get s id.

Definition quota_error (message : string) : JsError := JobflowError "QUOTA_EXCEEDED" message.

Definition assertCanStartRun {RS} `{RunStore RS} (id : string) (tenants : jsmap string TenantContext) (runs : RS) : res unit :=
  match tenant_get id tenants with
  | None => Ok tt
  | Some ctx =>
      let tenantActive := Z.of_nat (length (run_listActive runs)) in
      if maxConcurrentRuns (quotas ctx) <=? tenantActive then Throw (quota_error "max concurrent runs exceeded") else Ok tt
  end.

Definition assertCanRegisterJob {JS} `{JobDefinitionStore JS} (id : string) (tenants : jsmap string TenantContext) (jobs : JS) : res unit :=
  match tenant_get id tenants with
  | None => Ok tt
  | Some ctx =>
      if maxJobs (quotas ctx) <=? Z.of_nat (length (job_list jobs)) then Throw (quota_error "max jobs exceeded for tenant") else Ok tt
  end.

(** ** Lemmas *)

Definition asked (x : option string) (test : string → Prop) : Prop := ∀ s, x = Some s → s ≠ "" → test s.

(** What a record must satisfy to be in the answer of a query. *)
Record audit_match (f : AuditQueryFilter) (r : AuditRecord) : Prop := {
  am_tenant : asked (aq_tenantId f) (λ s, au_tenantId r = s);
  am_type : asked (aq_resourceType f) (λ s, au_resourceType r = s);
  am_id : asked (aq_resourceId f) (λ s, au_resourceId r = s);
  am_since : asked (aq_since f) (λ s, string_leb s (au_at r) = true);
}.

(** The four conditions as one filter. *)
Definition audit_passes (f : AuditQueryFilter) (r : AuditRecord) : bool :=
  let holds x (test : string → bool) := match x with Some s => if truthy_string s then test s else true | None => true end in
  holds (aq_tenantId f) (λ s, bool_decide (au_tenantId r = s))
  && holds (aq_resourceType f) (λ s, bool_decide (au_resourceType r = s))
  && holds (aq_resourceId f) (λ s, bool_decide (au_resourceId r = s))
  && holds (aq_since f) (λ s, string_leb s (au_at r)).

Lemma filter_if_spec x test (p : AuditRecord → bool) l :
  filter_if x test (List.filter p l)
  = List.filter (λ r, p r && match x with Some s => if truthy_string s then test s r else true | None => true end) l.
Proof.
  unfold filter_if. destruct x as [s|]; [destruct (truthy_string s)|].
  - induction l as [|r l IH]; [done|]. cbn [List.filter]. destruct (p r); cbn [List.filter andb]; [|done].
    destruct (test s r); by rewrite IH.
  - apply List.filter_ext. intros r. by rewrite andb_true_r.
  - apply List.filter_ext. intros r. by rewrite andb_true_r.
Qed.

Lemma audit_query_passes f records :
  audit_query f records = slice_last (List.filter (audit_passes f) records) (default 100 (aq_limit f)).
Proof.
  unfold audit_query. f_equal. assert (records = List.filter (λ _, true) records) as Hr.
  { induction records as [|r l IH]; [done|]. cbn. by f_equal. }
  rewrite Hr at 1. rewrite !filter_if_spec. done.
Qed.

Lemma asked_true x (test : string → bool) :
  (match x with Some s => if truthy_string s then test s else true | None => true end) = true
  ↔ asked x (λ s, test s = true).
Proof.
  unfold asked. destruct x as [s|]; [|by split]. destruct (truthy_string s) eqn:E.
  - apply truthy_string_true in E. split; [by intros ? s' [= <-] _|]. intros Hx. by apply Hx.
  - split; [|done]. intros _ s' [= <-] Hn%truthy_string_true. congruence.
Qed.

Lemma audit_passes_spec f r : audit_passes f r = true ↔ audit_match f r.
Proof.
  unfold audit_passes. rewrite !andb_true_iff, !asked_true. unfold asked. split.
  - intros [[[Ht Hy] Hi] Hs]. split; intros s Hx Hn; [by apply (bool_decide_eq_true_1 _ (Ht s Hx Hn))
      |by apply (bool_decide_eq_true_1 _ (Hy s Hx Hn))|by apply (bool_decide_eq_true_1 _ (Hi s Hx Hn))|by apply Hs].
  - intros [Ht Hy Hi Hs]. repeat split; intros s Hx Hn; try apply bool_decide_eq_true_2; unfold asked in *; auto.
Qed.

Lemma cutoffDate_eq now_ days : cutoffDate now_ days = toISOString (now_ - days * msPerDay).
Proof.
  unfold cutoffDate. pose proof (setUTCDate_add now_ (- days)) as Hs.
  replace (getUTCDate now_ + - days) with (getUTCDate now_ - days) in Hs by lia. rewrite Hs. f_equal. lia.
Qed.

(** The enforcer also counts a failed workflow, which the engine may still
    dead-letter. *)
Lemma retention_terminal_iff st : retention_terminal (WorkflowState_string st) = true ↔ isTerminal st = true ∨ st = Failed.
Proof.
  assert (retention_terminal (WorkflowState_string st) = isTerminal st || bool_decide (st = Failed)) as ->
    by (destruct st; vm_compute; reflexivity).
  by rewrite orb_true_iff, bool_decide_eq_true.
Qed.

(** ** Properties *)

(** An audit query answers with the latest records that match its filter, at
    most as many as its limit, in the order they were written: the matching
    records are those before the answer followed by the answer.  A limit of 0
    answers with all of them.  A record just written that matches is the last of
    the answer. *)
Theorem audit_query_correct (f : AuditQueryFilter) (records : list AuditRecord)
    (Hlimit : 0 ≤ default 100 (aq_limit f)) :
  (∃ older, List.filter (audit_passes f) records = older ++ audit_query f records
     ∧ (0 < default 100 (aq_limit f) →
          Z.of_nat (length (audit_query f records))
          = Z.min (default 100 (aq_limit f)) (Z.of_nat (length (List.filter (audit_passes f) records))))
     ∧ (default 100 (aq_limit f) = 0 → older = []))
  ∧ (∀ r, audit_passes f r = true ↔ audit_match f r)
  ∧ ∀ r, audit_match f r → last (audit_query f (audit_write r records)) = Some r.
Proof.
  split; [|split; [apply audit_passes_spec|]].
  - rewrite audit_query_passes. set (l := List.filter (audit_passes f) records). unfold slice_last.
    destruct (decide (default 100 (aq_limit f) < 0)) as [?|_]; [lia|].
    destruct (decide (default 100 (aq_limit f) = 0)) as [Hz|Hz].
    + exists []. split; [done|]. split; [lia|done].
    + exists (take (length l - Z.to_nat (default 100 (aq_limit f))) l). rewrite take_drop. split; [done|].
      split; [|lia]. intros _. rewrite length_drop. lia.
  - intros r Hr%audit_passes_spec. rewrite audit_query_passes. unfold audit_write.
    rewrite List.filter_app. cbn [List.filter]. rewrite Hr. set (l := List.filter (audit_passes f) records). unfold slice_last.
    destruct (decide (default 100 (aq_limit f) < 0)) as [?|_]; [lia|].
    destruct (decide (default 100 (aq_limit f) = 0)) as [Hz|Hz]; [by rewrite last_snoc|].
    rewrite drop_app_le by (rewrite length_app; cbn; lia). by rewrite last_snoc.
Qed.

(** On times printed as ISO dates of four-digit years, the retention rules,
    which compare strings, compare times: a record is kept exactly when it is at
    most [auditDays] days old, and a workflow is to be purged exactly when it was
    last updated more than [workflowDays] days ago and is in a terminal state or
    failed. *)
Theorem retention_correct (policy : RetentionPolicy) (now_ : Z) (records : list AuditRecord)
    (time : AuditRecord → Z) (wf : WorkflowInstance) (updated : Z)
    (Ha : four_digit_year (now_ - auditDays policy * msPerDay))
    (Hw : four_digit_year (now_ - workflowDays policy * msPerDay))
    (Hrecords : ∀ r, r ∈ records → au_at r = toISOString (time r) ∧ four_digit_year (time r))
    (Hwf : wf_updatedAt wf = toISOString updated ∧ four_digit_year updated) :
  (∀ r, r ∈ filterAudit policy records now_ ↔ r ∈ records ∧ now_ - time r ≤ auditDays policy * msPerDay)
  ∧ (shouldPurgeWorkflow policy wf now_ = true ↔
       workflowDays policy * msPerDay < now_ - updated ∧ (isTerminal (state wf) = true ∨ state wf = Failed)).
Proof.
  split.
  - intros r. unfold filterAudit. rewrite list_elem_of_In, List.filter_In, <-list_elem_of_In, cutoffDate_eq.
    split; intros [Hr Hc]; (split; [done|]); destruct (Hrecords r Hr) as [Hat Hy];
      rewrite Hat, toISOString_leb, Z.leb_le in * by done; lia.
  - destruct Hwf as [Hat Hy]. unfold shouldPurgeWorkflow.
    rewrite Hat, cutoffDate_eq, andb_true_iff, retention_terminal_iff, toISOString_ltb, Z.ltb_lt by done.
    split; intros [? ?]; (split; [lia|done]).
Qed.

(** The quota stops a registered tenant at its limit; others are not stopped. *)
Lemma assertCanStartRun_spec {RS} `{RunStore RS} id tenants (runs : RS) :
  assertCanStartRun id tenants runs = Ok tt ↔
  ∀ ctx, tenant_get id tenants = Some ctx → Z.of_nat (length (run_listActive runs)) < maxConcurrentRuns (quotas ctx).
Proof.
  unfold assertCanStartRun. destruct (tenant_get id tenants) as [ctx|]; [|naive_solver].
  destruct (Z.leb_spec (maxConcurrentRuns (quotas ctx)) (Z.of_nat (length (run_listActive runs)))); naive_solver lia.
Qed.

Section witnesses.
Definition demo_audit (id tenant : string) (t : Z) : AuditRecord :=
  mkAudit id tenant "admin" "run.started" "run" "r1" [] (toISOString t).

(** Three records of January 1st to 3rd, 2026. *)
Definition demo_day (n : Z) : Z := 1767225600000 + n * msPerDay.
Definition demo_records : list AuditRecord :=
  [demo_audit "a" "t" (demo_day 0); demo_audit "b" "u" (demo_day 1); demo_audit "c" "t" (demo_day 2)].

Definition last_of_tenant : AuditQueryFilter := mkAuditFilter (Some "t") None None None (Some 1).

Lemma audit_query_correct_witness :
  (au_id <$> audit_query last_of_tenant demo_records) = ["c"]
  ∧ last (audit_query last_of_tenant (audit_write (demo_audit "d" "t" (demo_day 3)) demo_records))
    = Some (demo_audit "d" "t" (demo_day 3)).
Proof.
  destruct (audit_query_correct last_of_tenant demo_records ltac:(vm_compute; discriminate)) as (_ & _ & Hlast).
  split; [vm_compute; reflexivity|]. apply Hlast. split; intros s Hx Hn; try discriminate Hx.
  injection Hx as <-. reflexivity.
Defined.

Lemma four_digit_demo n : bool_decide (0 ≤ getUTCFullYear (demo_day n) ≤ 9999) = true → four_digit_year (demo_day n).
Proof. intros Hb. unfold four_digit_year. by apply bool_decide_eq_true in Hb. Qed.

(** On March 31st, 2026 with 89 days: the first record goes. *)
Lemma retention_correct_witness :
  (demo_audit "a" "t" (demo_day 0) ∈ filterAudit (mkRetention 88 30 180) demo_records (demo_day 89) → False)
  ∧ demo_audit "b" "u" (demo_day 1) ∈ filterAudit (mkRetention 88 30 180) demo_records (demo_day 89)
  ∧ shouldPurgeWorkflow (mkRetention 88 30 180)
      (mkWorkflow "wf" "job" "run" Completed None [] [] [] 1 "" (toISOString (demo_day 5))) (demo_day 89) = true.
Proof.
  set (time := λ r, default 0 (parse_iso (au_at r))).
  destruct (retention_correct (mkRetention 88 30 180) (demo_day 89) demo_records time
    (mkWorkflow "wf" "job" "run" Completed None [] [] [] 1 "" (toISOString (demo_day 5))) (demo_day 5)) as [Hf Hp].
  - exact (four_digit_demo 1 eq_refl).
  - exact (four_digit_demo 59 eq_refl).
  - intros r Hr. assert (Forall (λ r, au_at r = toISOString (time r) ∧ 0 ≤ getUTCFullYear (time r) ≤ 9999) demo_records) as Hall
      by (apply (bool_decide_unpack _); vm_compute; exact I).
    rewrite Forall_forall in Hall. exact (Hall r Hr).
  - split; [reflexivity|exact (four_digit_demo 5 eq_refl)].
  - split; [|split].
    + intros [_ Hle]%Hf. vm_compute in Hle. by apply Hle.
    + apply Hf. split; [right; left|vm_compute; discriminate].
    + apply Hp. split; [vm_compute; reflexivity|left; reflexivity].
Defined.
End witnesses.
