(* ===== verification/Provisioning.v ===== *)
(** * Templates, imports and migrations (templates/, import/job-bundle-importer.ts, migrations/)

    Three ways to bring an engine up: definitions built from templates,
    definitions read from a directory, and the migrations of its store.  The
    directory's files and their contents are given; what they become is
    [Registration.register]'s. *)

From S2P Require Import Prelude JsMap JsString Graph JsNum DomainTypes JsValue Domain Retry Transitions Locks Stores Metrics Handlers Validator Expressions Constraints Engine ExecInv Execution Registration EngineProps JsSort DslLexer DslParser DslCompiler.
Open Scope Z_scope.

(** ** Templates (templates/catalog.ts) *)

(** [Record<string, string>]. *)
Notation params := (list (string * string)).

Record TemplateParameter : Type := mkParameter { tp_key : string; tp_required : bool; tp_description : string }.

Record WorkflowTemplate : Type := mkTemplate {
  wt_id : string;
  wt_name : string;
  wt_category : string;
  wt_description : string;
  wt_parameters : list TemplateParameter;
  wt_build : params → string → JobDefinition;
}.

(** [params[key]], and the same in a template literal. *)
Definition param (key : string) (ps : params) : option string := map_get ps key.
Definition param_text (key : string) (ps : params) : string := default "undefined" (param key ps).

(** A [build] leaves the dates to [instantiate], which gives both. *)
Definition WORKFLOW_TEMPLATES : list WorkflowTemplate := [
  mkTemplate "erp_invoice_sync" "ERP invoice synchronization" "finance"
    "Fetch, normalize, and post invoices from ERP export"
    [mkParameter "tenantId" true "Tenant identifier"; mkParameter "glAccount" false "Target GL account"]
    (λ ps now, mkJobDefinition ("invoice_sync_" +:+ param_text "tenantId" ps) "ERP invoice sync" 1 None
      [mkTaskDefinition "fetch" "Fetch" "invoice.fetch" 30000 None None;
       mkTaskDefinition "normalize" "Normalize" "invoice.normalize" 15000 None (Some ["fetch"]);
       mkTaskDefinition "post" "Post GL" "invoice.post_gl" 20000 None (Some ["normalize"])]
      [mkConstraint "tenant" ("ctx.tenantId != " +:+ of_chars [Ascii.ascii_of_N 34; Ascii.ascii_of_N 34]) SeverityBlock]
      DEFAULT_RETRY_POLICY [] [("glAccount", default "default" (param "glAccount" ps))] now now);
  mkTemplate "customer_onboarding" "Customer onboarding" "platform" "Validate and provision a new customer tenant"
    [mkParameter "customerId" true "Customer id"]
    (λ ps now, mkJobDefinition ("onboard_" +:+ param_text "customerId" ps) "Customer onboarding" 1 None
      [mkTaskDefinition "validate" "Validate" "onboard.validate" 20000 None None;
       mkTaskDefinition "provision" "Provision" "onboard.provision" 45000 None (Some ["validate"])]
      [] DEFAULT_RETRY_POLICY [] [("customerId", param_text "customerId" ps)] now now);
  mkTemplate "nightly_reconcile" "Nightly reconciliation" "finance" "Extract ledger data and match transactions"
    [mkParameter "ledger" true "Ledger code"]
    (λ ps now, mkJobDefinition ("reconcile_" +:+ param_text "ledger" ps) "Nightly reconcile" 1 None
      [mkTaskDefinition "extract" "Extract" "reconcile.extract" 120000 None None;
       mkTaskDefinition "match" "Match" "reconcile.match" 180000 None (Some ["extract"]);
       mkTaskDefinition "report" "Report" "report.aggregate" 60000 None (Some ["match"])]
      [] (mkRetryPolicy 2 (initialDelayMs DEFAULT_RETRY_POLICY) (backoffMultiplier DEFAULT_RETRY_POLICY) (maxDelayMs DEFAULT_RETRY_POLICY))
      [] [("ledger", param_text "ledger" ps)] now now)
].

Definition getTemplate (id : string) : option WorkflowTemplate :=
  List.find (λ t, bool_decide (wt_id t = id)) WORKFLOW_TEMPLATES.

(** The first required parameter without a value. *)
Definition missing_parameter (t : WorkflowTemplate) (ps : params) : option TemplateParameter :=
  List.find (λ p, tp_required p && negb (truthy_opt (param (tp_key p) ps))) (wt_parameters t).

(** ** Migrations (migrations/) *)

Record Migration : Type := mkMigration { mg_version : Z; mg_name : string }.

Definition ALL_MIGRATIONS : list Migration :=
  [mkMigration 1 "initial_schema"; mkMigration 2 "audit_log_table"; mkMigration 3 "webhook_endpoints"].

(** The [for] loop of [migrate] over the sorted migrations: [applied] and
    [count].  The [up] of each migration is empty. *)
Fixpoint migrate_loop (ms : list Migration) (target : option Z) (applied : list Z) (count : Z) : list Z * Z :=
  match ms with
  | [] => (applied, count)
  | m :: ms =>
      if match target with Some t => t <? mg_version m | None => false end then (applied, count)
      else if bool_decide (mg_version m ∈ applied) then migrate_loop ms target applied count
      else migrate_loop ms target (applied ++ [mg_version m]) (count + 1)
  end.

Definition migrate (all : list Migration) (target : option Z) (applied : list Z) : list Z * Z :=
  migrate_loop (js_sort (λ a b, mg_version a - mg_version b) all) target applied 0.

Definition currentVersion (applied : list Z) : Z := foldl Z.max 0 applied.

Section provisioning.
Context {JS WS RS : Type} `{JobDefinitionStoreLaws JS} `{!WorkflowStore WS} `{!WorkflowStoreLaws WS}
  `{!RunStore RS} `{!RunStoreLaws RS} `{Environment}.
Notation world := (world JS WS RS).
Context (zod_message : JobDefinitionInput → string) (reg : HandlerRegistry).

(** templates/instantiator.ts *)
Definition instantiate (templateId : string) (ps : params) : eff world JobDefinition :=
  match getTemplate templateId with
  | None => throw (ValidationError ("unknown template: " +:+ templateId) [])
  | Some template =>
      match missing_parameter template ps with
      | Some p => throw (ValidationError ("missing template parameter: " +:+ tp_key p) [])
      | None => now_ ← now; mret (wt_build template ps now_)
      end
  end.

(** POST /v2/templates/:id/instantiate (api/v2/routes.ts). *)
Definition instantiate_and_register (templateId : string) (ps : params) : eff world JobDefinition :=
  def ← instantiate templateId ps;
  register zod_message reg (input_of_definition def).

(** ** Imports (import/job-bundle-importer.ts) *)

Record ImportResult : Type := mkImportResult { imported : list string; failed : list (string * string) }.

(** A file of the directory: its parsed content, or the error of reading it. *)
Notation file := (string * (string + JobDefinitionInput))%type.

Fixpoint import_files (files : list file) (result : ImportResult) : eff world ImportResult :=
  match files with
  | [] => mret result
  | (name, content) :: files =>
      if negb (ends_with name ".json") then import_files files result
      else match content with
           | inl err => import_files files (mkImportResult (imported result) (failed result ++ [(name, err)]))
           | inr raw => λ w,
               match register zod_message reg raw w with
               | (Ok def, w') => import_files files (mkImportResult (imported result ++ [jd_id def]) (failed result)) w'
               | (Throw e, w') => import_files files (mkImportResult (imported result) (failed result ++ [(name, error_to_string e)])) w'
               | (OutOfFuel, w') => (OutOfFuel, w')
               end
           end
  end.

Definition importDirectory (files : list file) : eff world ImportResult := import_files files (mkImportResult [] []).

(** ** Lemmas *)

(** Whether the service accepts an input: its checks do not look at the clock. *)
Definition accepts (i : JobDefinitionInput) : bool :=
  jobDefinitionInputSchema_ok i && match registration_checks reg i (definition_of reg i (in_id i) "") with Ok _ => true | _ => false end.

Lemma register_accepts i (w : world) :
  if accepts i
  then register zod_message reg i w =
         (Ok (definition_of reg i (in_id i) (nowIso (w_ticks w))),
          with_jobs (job_save (definition_of reg i (in_id i) (nowIso (w_ticks w))) (w_jobs w)) (with_ticks (S (w_ticks w)) w))
  else ∃ e w', register zod_message reg i w = (Throw e, w') ∧ untouched w w'.
Proof.
  unfold accepts. rewrite register_eq.
  assert (registration_checks reg i (definition_of reg i (in_id i) "")
    = registration_checks reg i (definition_of reg i (in_id i) (nowIso (w_ticks w)))) as -> by done.
  pose proof (registration_checks_total reg i (definition_of reg i (in_id i) (nowIso (w_ticks w)))).
  destruct (jobDefinitionInputSchema_ok i); cbn [andb]; [|by eexists _, _].
  destruct (registration_checks _ _ _); [done| |done]. by eexists _, _.
Qed.

(** The contents of the JSON files, and those accepted. *)
Definition json_files (files : list file) : list file := List.filter (λ f, ends_with f.1 ".json") files.
Definition file_accepted (f : file) : bool := match f.2 with inr i => accepts i | inl _ => false end.
Definition accepted_inputs (files : list file) : list JobDefinitionInput :=
  omap (λ f, match f.2 with inr i => if accepts i then Some i else None | inl _ => None end) (json_files files).

(** The definition an input leaves in the store, at some time. *)
Definition stored_from (i : JobDefinitionInput) (d : JobDefinition) : Prop :=
  ∃ t, d = definition_of reg i (in_id i) t.

Lemma import_files_spec files result (w : world) :
  ∃ w' errors, import_files files result w
      = (Ok (mkImportResult (imported result ++ (in_id <$> accepted_inputs files)) (failed result ++ errors)), w')
    ∧ errors.*1 = (List.filter (λ f, negb (file_accepted f)) (json_files files)).*1
    ∧ w_workflows w' = w_workflows w ∧ w_runs w' = w_runs w
    ∧ ∀ id, match last (filter (λ i, in_id i = id) (accepted_inputs files)) with
            | Some i => ∃ d, job_get id (w_jobs w') = Some d ∧ stored_from i d
            | None => job_get id (w_jobs w') = job_get id (w_jobs w)
            end.
Proof.
  revert result w. induction files as [|[name content] files IH]; intros [im fa] w.
  { exists w, []. cbn. by rewrite !app_nil_r. }
  unfold accepted_inputs, json_files in *. cbn [import_files List.filter fst].
  destruct (ends_with name ".json") eqn:Hj; cbn [negb]; [|apply IH].
  destruct content as [err|i].
  { destruct (IH (mkImportResult im (fa ++ [(name, err)])) w) as (w' & errs & Hr & He & Hrest).
    exists w', ((name, err) :: errs). cbn [imported failed] in Hr. rewrite <-(assoc_L (++)) in Hr.
    split; [exact Hr|]. split; [|exact Hrest]. cbn. by rewrite He. }
  pose proof (register_accepts i w) as Hreg. cbn [omap list_omap snd]. unfold file_accepted at 1.
  cbn [List.filter snd]. destruct (accepts i) eqn:Ha; cbn [negb].
  - set (def := definition_of reg i (in_id i) (nowIso (w_ticks w))) in *.
    set (w1 := with_jobs (job_save def (w_jobs w)) (with_ticks (S (w_ticks w)) w)) in *.
    destruct (IH (mkImportResult (im ++ [jd_id def]) fa) w1) as (w' & errs & Hr & He & Hw & Hrs & Hids).
    exists w', errs. cbn [imported failed] in Hr. rewrite <-(assoc_L (++)) in Hr.
    split; [by rewrite Hreg|]. split; [exact He|]. split; [done|]. split; [done|]. intros id. specialize (Hids id).
    rewrite filter_cons. destruct (decide (in_id i = id)) as [Hid|Hid].
    + rewrite last_cons. destruct (last (filter _ _)) as [j|]; [done|]. exists def. split; [|by eexists].
      rewrite Hids. cbn. rewrite job_get_save, decide_True; done.
    + destruct (last (filter _ _)) as [j|]; [done|]. rewrite Hids. cbn. rewrite job_get_save, decide_False; done.
  - destruct Hreg as (e & w1 & Hreg & Hun).
    destruct (IH (mkImportResult im (fa ++ [(name, error_to_string e)])) w1) as (w' & errs & Hr & He & Hw & Hrs & Hids).
    exists w', ((name, error_to_string e) :: errs). cbn [imported failed] in Hr. rewrite <-(assoc_L (++)) in Hr.
    split; [by rewrite Hreg|]. split; [cbn; by rewrite He|]. destruct Hun as [Hu1 Hu2 _ Hu4 _ _ _ _].
    split; [congruence|]. split; [congruence|]. intros id. specialize (Hids id). by rewrite <-Hu4.
Qed.

(** ** Properties *)

(** Importing a directory never throws: the files whose name ends in
    [.json] and whose content the service accepts are imported in order, the other
    [.json] files are reported in order, and a file that fails does not stop the
    rest.  Afterwards the store holds, for every id, the last accepted definition
    with it, or what it held before; workflows and runs are as they were. *)
Theorem importDirectory_correct (files : list file) (w : world) :
  ∃ r w', importDirectory files w = (Ok r, w')
    ∧ imported r = in_id <$> accepted_inputs files
    ∧ (failed r).*1 = (List.filter (λ f, negb (file_accepted f)) (json_files files)).*1
    ∧ w_workflows w' = w_workflows w ∧ w_runs w' = w_runs w
    ∧ ∀ id, match last (filter (λ i, in_id i = id) (accepted_inputs files)) with
            | Some i => ∃ d, job_get id (w_jobs w') = Some d ∧ stored_from i d
            | None => job_get id (w_jobs w') = job_get id (w_jobs w)
            end.
Proof.
  destruct (import_files_spec files (mkImportResult [] []) w) as (w' & errs & Hr & He & Hrest).
  eexists _, w'. split; [exact Hr|]. split; [done|]. split; [exact He|exact Hrest].
Qed.
End provisioning.

Section templates.
Context {JS WS RS : Type} `{JobDefinitionStoreLaws JS} `{!WorkflowStore WS} `{!WorkflowStoreLaws WS}
  `{!RunStore RS} `{!RunStoreLaws RS} `{Environment}.
Notation world := (world JS WS RS).

Lemma templates_accepted t ps now_ :
  t ∈ WORKFLOW_TEMPLATES → accepts new_handler_registry (input_of_definition (wt_build t ps now_)) = true.
Proof.
  intros Ht%list_elem_of_In. destruct Ht as [<-|[<-|[<-|[]]]]; vm_compute; reflexivity.
Qed.

(** With the built-in handlers, a request to instantiate a template answers
    with an error that names the template when there is no such template, or the
    first required parameter that is missing or empty; otherwise, whatever the
    values of the parameters, the definition built passes every check of the
    registration and is stored under its id. *)
Theorem instantiate_registers (zod_message : JobDefinitionInput → string) (templateId : string) (ps : params) (w : world) :
  match getTemplate templateId with
  | None => instantiate_and_register zod_message new_handler_registry templateId ps w
            = (Throw (ValidationError ("unknown template: " +:+ templateId) []), w)
  | Some t =>
      match missing_parameter t ps with
      | Some p => instantiate_and_register zod_message new_handler_registry templateId ps w
                  = (Throw (ValidationError ("missing template parameter: " +:+ tp_key p) []), w)
      | None => ∃ def w', instantiate_and_register zod_message new_handler_registry templateId ps w = (Ok def, w')
                  ∧ jd_id def = jd_id (wt_build t ps (nowIso (w_ticks w)))
                  ∧ job_get (jd_id def) (w_jobs w') = Some def ∧ registered new_handler_registry def
                  ∧ w_workflows w' = w_workflows w ∧ w_runs w' = w_runs w
      end
  end.
Proof.
  unfold instantiate_and_register, instantiate. destruct (getTemplate templateId) as [t|] eqn:Ht; [|done].
  destruct (missing_parameter t ps) as [p|] eqn:Hm; [done|].
  assert (t ∈ WORKFLOW_TEMPLATES) as Hin by (apply List.find_some in Ht as [Ht _]; by apply list_elem_of_In).
  set (w1 := with_ticks (S (w_ticks w)) w). set (def := wt_build t ps (nowIso (w_ticks w))).
  pose proof (templates_accepted t ps (nowIso (w_ticks w)) Hin) as Ha. fold def in Ha.
  pose proof (register_accepts zod_message new_handler_registry (input_of_definition def) w1) as Hr.
  rewrite Ha in Hr. eexists _, _. split; [exact Hr|]. split; [done|].
  split; [by cbn; rewrite job_get_save, decide_True|]. split; [|done].
  unfold accepts in Ha. apply andb_true_iff in Ha as [Hs Hc].
  apply checks_registered; [exact Hs|].
  destruct (registration_checks _ _ _) as [[]| |] eqn:E in Hc; done.
Qed.
End templates.

(** ** Migrations *)

(** The migrations [migrate] applies, in their order. *)
Definition pending_migrations (all : list Migration) (target : option Z) (applied : list Z) : list Migration :=
  List.filter (λ m, match target with Some t => mg_version m <=? t | None => true end && negb (bool_decide (mg_version m ∈ applied)))
    (js_sort (λ a b, mg_version a - mg_version b) all).

Lemma migrate_loop_spec ms target applied count :
  StronglySorted (λ a b, mg_version a ≤ mg_version b) ms → NoDup (mg_version <$> ms) →
  let todo := List.filter (λ m, match target with Some t => mg_version m <=? t | None => true end
                                && negb (bool_decide (mg_version m ∈ applied))) ms in
  migrate_loop ms target applied count = (applied ++ (mg_version <$> todo), count + Z.of_nat (length todo)).
Proof.
  intros Hs. revert applied count. induction Hs as [|m ms Hs IH Hm]; intros applied count Hnd; cbv zeta.
  { cbn. rewrite app_nil_r. f_equal. lia. }
  rewrite fmap_cons, NoDup_cons in Hnd. destruct Hnd as [Hn Hnd]. cbn [migrate_loop List.filter].
  destruct (match target with Some t => t <? mg_version m | None => false end) eqn:Et.
  - destruct target as [t|]; [|done]. apply Z.ltb_lt in Et. rewrite (proj2 (Z.leb_gt _ _)) by done. cbn [andb].
    assert (List.filter (λ m0, (mg_version m0 <=? t) && negb (bool_decide (mg_version m0 ∈ applied))) ms = []) as ->.
    { apply elem_of_nil_inv. intros x Hx%list_elem_of_In%List.filter_In. destruct Hx as [Hx%list_elem_of_In Hb].
      rewrite Forall_forall in Hm. specialize (Hm x Hx). apply andb_true_iff in Hb as [Hb _]. apply Z.leb_le in Hb. lia. }
    cbn. rewrite app_nil_r. f_equal. lia.
  - assert ((match target with Some t => mg_version m <=? t | None => true end) = true) as ->.
    { destruct target as [t|]; [|done]. apply Z.ltb_ge in Et. by apply Z.leb_le. }
    cbn [andb]. case_bool_decide as Ha; cbn [negb]; [by apply IH|]. rewrite IH by done.
    assert (List.filter (λ m0, match target with Some t => mg_version m0 <=? t | None => true end
        && negb (bool_decide (mg_version m0 ∈ applied ++ [mg_version m]))) ms
      = List.filter (λ m0, match target with Some t => mg_version m0 <=? t | None => true end
        && negb (bool_decide (mg_version m0 ∈ applied))) ms) as ->.
    { apply List.filter_ext_in. intros x Hx%list_elem_of_In. f_equal. f_equal. apply bool_decide_ext.
      rewrite elem_of_app, list_elem_of_singleton. split; [|by left]. intros [?|Heq]; [done|].
      destruct Hn. rewrite <-Heq. by apply list_elem_of_fmap_2. }
    cbn. rewrite <-(assoc_L (++)). f_equal. lia.
Qed.

(** [migrate] applies, in the order of their versions and once each, the
    migrations up to the target that are not yet applied, and counts them; so a
    second call applies none. *)
Lemma migrate_spec all target applied :
  NoDup (mg_version <$> all) →
  migrate all target applied
    = (applied ++ (mg_version <$> pending_migrations all target applied), Z.of_nat (length (pending_migrations all target applied)))
  ∧ (migrate all target (migrate all target applied).1).2 = 0.
Proof.
  intros Hnd. set (cmp := λ a b, mg_version a - mg_version b).
  assert (∀ applied, migrate all target applied = (applied ++ (mg_version <$> pending_migrations all target applied),
    Z.of_nat (length (pending_migrations all target applied)))) as Hm.
  { intros ap. apply (migrate_loop_spec (js_sort cmp all) target ap 0).
    - eapply StronglySorted_mono; [|apply (js_sort_strongly_sorted cmp)]; unfold cmp_le, cmp; intros; lia.
    - by rewrite js_sort_perm. }
  split; [apply Hm|]. rewrite !Hm. cbn [fst snd].
  assert (pending_migrations all target (applied ++ (mg_version <$> pending_migrations all target applied)) = []) as ->; [|done].
  apply elem_of_nil_inv. intros m Hin%list_elem_of_In%List.filter_In.
  destruct Hin as [Hin Hb]. apply andb_true_iff in Hb as [Ht Hb%negb_true_iff%bool_decide_eq_false].
  apply Hb, elem_of_app. destruct (decide (mg_version m ∈ applied)) as [?|Hna]; [by left|right].
  apply list_elem_of_fmap. exists m. split; [done|]. apply list_elem_of_In, List.filter_In. split; [done|].
  by rewrite Ht, bool_decide_eq_false_2.
Qed.

Example migrate_all : migrate ALL_MIGRATIONS None [] = ([1; 2; 3], 3).
Proof. reflexivity. Qed.

(** ** An instance *)

Section witnesses.
#[local] Instance provisioning_environment : Environment := scripted (λ _, true).

Lemma instantiate_registers_witness :
  ∃ def (w' : demo_world),
    instantiate_and_register (λ _, "invalid") new_handler_registry "customer_onboarding" [("customerId", "acme")]
      (demo_empty : demo_world) = (Ok def, w')
    ∧ jd_id def = "onboard_acme" ∧ job_get "onboard_acme" (w_jobs w') = Some def.
Proof.
  pose proof (instantiate_registers (λ _, "invalid") "customer_onboarding" [("customerId", "acme")]
    (demo_empty : demo_world)) as Hi.
  change (getTemplate "customer_onboarding") with (WORKFLOW_TEMPLATES !! 1%nat) in Hi. cbn [lookup list_lookup WORKFLOW_TEMPLATES] in Hi.
  destruct Hi as (def & w' & Ha & Hid & Hg & _).
  exists def, w'. split; [exact Ha|]. split; [exact Hid|]. rewrite <-Hg. f_equal. symmetry. exact Hid.
Defined.
End witnesses.
