(* ===== verification/Api.v ===== *)
(** * The HTTP service (api/, middleware/, security/)

    A request passes the rate limiter and the check of its API key, reaches a
    handler, and is answered; an error of the handler becomes a status.  The
    router that maps a URL to a handler is the web framework's, so a request
    carries its route.  One request is handled without interruption; the
    executions it leaves behind are threads of the background. *)

From Stdlib Require Import Ascii.
From S2P Require Import Prelude Threads JsMap JsString Graph JsNum DomainTypes JsValue Domain Retry Transitions Locks Stores Metrics Handlers Validator Dag Expressions Constraints Engine EngineThreads ExecInv Execution Registration EngineProps JsSort DslLexer DslParser DslCompiler Guards Export Query Replay Provisioning.
Open Scope Z_scope.

(** ** API keys (security/) *)

Record ApiKeyRecord : Type := mkApiKey {
  ak_id : string;
  ak_tenantId : string;
  ak_prefix : string;
  ak_hash : string;
  ak_scopes : list string;
  ak_createdAt : string;
  ak_revokedAt : option string;
}.

Definition key_insert (record : ApiKeyRecord) (keys : list ApiKeyRecord) : list ApiKeyRecord := keys ++ [record].

Definition live (k : ApiKeyRecord) : bool := negb (truthy_opt (ak_revokedAt k)).

Definition findByPrefix (prefix : string) (keys : list ApiKeyRecord) : option ApiKeyRecord :=
  List.find (λ k, bool_decide (ak_prefix k = prefix) && live k) keys.

Section service.
(** [createHash("sha256").update(raw).digest("hex")]. *)
Context (hashKey : string → string).

(** The record of a key [generateApiKey] made from random text. *)
Definition key_record (id tenantId raw createdAt : string) (scopes : list string) : ApiKeyRecord :=
  mkApiKey id tenantId (slice_to raw 8) (hashKey raw) scopes createdAt None.

Definition unauthorized (message : string) : JsError := JobflowError "UNAUTHORIZED" message.

Definition authenticate (keys : list ApiKeyRecord) (header : option string) : res (string * list string) :=
  match header with
  | None => Throw (unauthorized "missing bearer token")
  | Some h =>
      if negb (starts_with h "Bearer ") then Throw (unauthorized "missing bearer token")
      else
        let raw := trim (slice_from h 7) in
        match findByPrefix (slice_to raw 8) keys with
        | Some record =>
            if negb (bool_decide (ak_hash record = hashKey raw)) then Throw (unauthorized "invalid api key")
            else Ok (ak_tenantId record, ak_scopes record)
        | None => Throw (unauthorized "invalid api key")
        end
  end.

(** ** Requests and answers *)

Inductive Route : Type :=
| GetHealth
| GetJobs
| PostJobs (body : JobDefinitionInput)
| GetJob (jobId : string)
| PostRun (jobId : string) (trigger : option string) (input : option jsrecord)
| GetRun (runId : string)
| ExecuteRun (runId : string)
| ExportRun (runId : string)
| CompileDsl (source : option string) (jobId : option string)
| InstantiateTemplate (templateId : string) (ps : list (string * string))
| ReplayRun (runId : string).

Record Request : Type := mkRequest {
  rq_ip : string;
  rq_at : Z;
  rq_url : string;
  rq_authorization : option string;
  rq_route : Route;
}.

Inductive Body : Type :=
| HealthBody
| JobsBody (jobs : list (string * string * Z))
| JobBody (def : JobDefinition)
| CompiledBody (job : JobDefinition)
| RunBody (run : JobRun) (workflowId : string)
| WorkflowBody (wf : WorkflowInstance)
| CsvBody (csv : string)
| DiffBody (diff : WorkflowDiff)
| ErrorBody (error : string) (code : option string).

Record Response : Type := mkResponse { rs_status : Z; rs_body : Body }.

(** The error handler (api/server.ts). *)
Definition error_status (e : JsError) : Z :=
  if bool_decide (error_name e = "ValidationError") then 400
  else if bool_decide (error_name e = "NotFoundError") then 404
  else if bool_decide (error_name e = "JobflowError") && bool_decide (error_code e = Some "UNAUTHORIZED") then 401
  else 500.

Definition error_response (e : JsError) : Response :=
  mkResponse (error_status e) (ErrorBody (error_message e) (Some (default "INTERNAL_ERROR" (error_code e)))).

(** [PUBLIC_PATHS.has(req.url.split("?")[0])]. *)
Definition PUBLIC_PATHS : list string := ["/health"; "/metrics"; "/openapi.json"].
Definition is_public (url : string) : bool :=
  bool_decide (default "" (head (split url "?"%char)) ∈ PUBLIC_PATHS).

Context {JS WS RS : Type} `{JobDefinitionStoreLaws JS} `{!WorkflowStore WS} `{!WorkflowStoreLaws WS}
  `{!RunStore RS} `{!RunStoreLaws RS} `{Environment}.
Notation world := (world JS WS RS).
Context (zod_message : JobDefinitionInput → string) (reg : HandlerRegistry).

Record server : Type := mkServer {
  sv_world : world;
  sv_keys : list ApiKeyRecord;
  sv_buckets : jsmap string Bucket;
  sv_background : list (thread JsError world unit);
}.

(** ** Handlers (api/routes.ts, api/dsl-routes.ts, api/v2/routes.ts)

    The answer and the executions started and not awaited. *)

Definition answer (status : Z) (b : Body) : Response * list string := (mkResponse status b, []).

Definition route_handler (fuel : nat) (route : Route) : eff world (Response * list string) :=
  match route with
  | GetHealth => mret (answer 200 HealthBody)
  | GetJobs =>
      list_ ← list_jobs;
      mret (answer 200 (JobsBody ((λ j, (jd_id j, jd_name j, jd_version j)) <$> list_)))
  | PostJobs body => def ← register zod_message reg body; mret (answer 201 (JobBody def))
  | GetJob jobId => def ← get_job jobId; mret (answer 200 (JobBody def))
  | PostRun jobId trig input =>
      '(run, workflow, _) ← createRun jobId (default "api" trig) (default [] input);
      mret (mkResponse 202 (RunBody run (wf_id workflow)), [run_id run])
  | GetRun runId => wf ← getWorkflowByRun runId; mret (answer 200 (WorkflowBody wf))
  | ExecuteRun runId =>
      _ ← executeRun fuel runId;
      wf ← getWorkflowByRun runId;
      mret (answer 200 (WorkflowBody wf))
  | ExportRun runId => wf ← getWorkflowByRun runId; mret (answer 200 (CsvBody (toCsv wf)))
  | CompileDsl source jobId =>
      match source with
      | Some s =>
          if truthy_string s
          then def ← compileAndRegister zod_message reg fuel s jobId; mret (answer 200 (CompiledBody def))
          else mret (answer 400 (ErrorBody "source required" None))
      | None => mret (answer 400 (ErrorBody "source required" None))
      end
  | InstantiateTemplate templateId ps =>
      def ← instantiate_and_register zod_message reg templateId ps; mret (answer 201 (JobBody def))
  | ReplayRun runId => diff ← replay fuel runId; mret (answer 200 (DiffBody diff))
  end.

(** [void execution.executeRun(id)]: the call runs to its first [await]. *)
Fixpoint start_background (fuel : nat) (ids : list string) (w : world) : list (thread JsError world unit) * world :=
  match ids with
  | [] => ([], w)
  | id :: ids =>
      let '(t, w) := run_block (executeRun_async fuel id) w in
      let '(ts, w) := start_background fuel ids w in
      (t :: ts, w)
  end.

(** The handler, its error mapped; no answer if it does not end. *)
Definition run_handler (fuel : nat) (route : Route) (s : server) : option Response * server :=
  match route_handler fuel route (sv_world s) with
  | (Ok (r, ids), w) =>
      let '(ts, w) := start_background fuel ids w in
      (Some r, mkServer w (sv_keys s) (sv_buckets s) (sv_background s ++ ts))
  | (Throw e, w) => (Some (error_response e), mkServer w (sv_keys s) (sv_buckets s) (sv_background s))
  | (OutOfFuel, w) => (None, mkServer w (sv_keys s) (sv_buckets s) (sv_background s))
  end.

(** The hooks in the order of their registration (middleware/rate-limit.ts,
    middleware/auth-hook.ts), then the handler.  [authDisabled] is
    [JOBFLOW_AUTH_DISABLED === "1"]. *)
Definition handle (authDisabled : bool) (fuel : nat) (rq : Request) (s : server) : option Response * server :=
  let '(ok, buckets) := rate_limit 120 (sv_buckets s) (rq_ip rq) (rq_at rq) in
  let s := mkServer (sv_world s) (sv_keys s) buckets (sv_background s) in
  if negb ok then (Some (mkResponse 429 (ErrorBody "rate limit exceeded" None)), s)
  else if is_public (rq_url rq) || authDisabled then run_handler fuel (rq_route rq) s
  else match authenticate (sv_keys s) (rq_authorization rq) with
       | Ok _ => run_handler fuel (rq_route rq) s
       | _ => (Some (mkResponse 401 (ErrorBody "unauthorized" None)), s)
       end.
End service.

(** ** The check of a key *)

Lemma starts_with_spec s p : starts_with s p = true ↔ ∃ t, s = p +:+ t.
Proof.
  unfold starts_with. revert s. induction p as [|c p IH]; intros s.
  { split; [by exists s|]. intros _. by destruct s. }
  destruct s as [|d s]; simpl; [split; [done|by intros [? ?]]|].
  destruct (Ascii.ascii_dec c d) as [->|Hne].
  - rewrite IH. split; intros [t Ht]; exists t; [by rewrite Ht|by injection Ht].
  - split; [done|]. intros [t Ht]. injection Ht as Hc _. by destruct Hne.
Qed.

Lemma slice_from_app p t : slice_from (p +:+ t) (String.length p) = t.
Proof. unfold slice_from. by rewrite chars_app, <-length_chars, drop_app_length, of_chars_chars. Qed.

Lemma bearer_inj a b : Some ("Bearer " +:+ a) = Some ("Bearer " +:+ b) → a = b.
Proof.
  intros H. assert ("Bearer " +:+ a = "Bearer " +:+ b) as Hab by congruence.
  apply (f_equal (λ s, slice_from s (String.length "Bearer "))) in Hab. by rewrite !slice_from_app in Hab.
Qed.

Section keys.
Context (hashKey : string → string).

(** A header is admitted when it carries the text of the first live key that has
    the first eight characters of that text as its prefix. *)
Definition admitted (keys : list ApiKeyRecord) (header : option string) (tenant : string) (scopes : list string) : Prop :=
  ∃ raw k before after,
    header = Some ("Bearer " +:+ raw) ∧ keys = before ++ k :: after
    ∧ ak_tenantId k = tenant ∧ ak_scopes k = scopes ∧ live k = true
    ∧ ak_prefix k = slice_to (trim raw) 8 ∧ ak_hash k = hashKey (trim raw)
    ∧ Forall (λ k', ak_prefix k' = ak_prefix k → live k' = false) before.

Lemma findByPrefix_spec prefix keys k :
  findByPrefix prefix keys = Some k ↔
  ∃ before after, keys = before ++ k :: after ∧ live k = true ∧ ak_prefix k = prefix
    ∧ Forall (λ k', ak_prefix k' = prefix → live k' = false) before.
Proof.
  unfold findByPrefix. induction keys as [|k' keys IH]; cbn [List.find].
  { split; [done|]. intros (before & after & Hk & _). by destruct before. }
  destruct (bool_decide (ak_prefix k' = prefix) && live k') eqn:Hm.
  - apply andb_true_iff in Hm as [Hp Hl]. apply bool_decide_eq_true in Hp. split.
    + intros [= <-]. exists [], keys. eauto.
    + intros (before & after & Hk & _ & _ & Hb). destruct before as [|k'' before]; [by injection Hk as ->|].
      injection Hk as -> _. inversion Hb as [|?? Hb' _]; subst. by rewrite Hb' in Hl.
  - rewrite IH. split; intros (before & after & Hk & Hl & Hp & Hb).
    + exists (k' :: before), after. rewrite Hk. split_and!; [done..|]. constructor; [|done].
      intros Hp'. by rewrite bool_decide_eq_true_2 in Hm.
    + destruct before as [|k'' before]; injection Hk as -> Hk.
      * rewrite Hl, bool_decide_eq_true_2 in Hm by done. done.
      * inversion Hb; subst. by exists before, after.
Qed.

Lemma authenticate_spec keys header tenant scopes :
  authenticate hashKey keys header = Ok (tenant, scopes) ↔ admitted keys header tenant scopes.
Proof.
  unfold authenticate, admitted. destruct header as [h|]; [|split; [done|naive_solver]].
  destruct (starts_with h "Bearer ") eqn:Hh; cbn [negb].
  2: { split; [done|]. intros (raw & k & b & a & [= ->] & _).
       rewrite (proj2 (starts_with_spec _ _)) in Hh by eauto. done. }
  apply starts_with_spec in Hh as [raw ->]. replace (slice_from ("Bearer " +:+ raw) 7) with raw by (symmetry; apply (slice_from_app "Bearer ")).
  destruct (findByPrefix _ keys) as [k|] eqn:Hf.
  - pose proof (proj1 (findByPrefix_spec _ _ _) Hf) as (before & after & Hk & Hl & Hp & Hb). split.
    + case_bool_decide; [|done]. intros [= <- <-]. exists raw, k, before, after. by rewrite Hp.
    + intros (raw' & k' & b' & a' & Hr & Hk' & <- & <- & Hl' & Hp' & Hh' & Hb').
      apply bearer_inj in Hr as <-. assert (findByPrefix (slice_to (trim raw) 8) keys = Some k') as Hf'.
      { apply findByPrefix_spec. exists b', a'. by rewrite <-Hp'. }
      rewrite Hf' in Hf. injection Hf as ->. by rewrite bool_decide_eq_true_2.
  - split; [done|]. intros (raw' & k' & b' & a' & Hr & Hk' & _ & _ & Hl' & Hp' & _ & Hb').
    apply bearer_inj in Hr as <-. assert (findByPrefix (slice_to (trim raw) 8) keys = Some k') as Hf'; [|congruence].
    apply findByPrefix_spec. exists b', a'. by rewrite <-Hp'.
Qed.

Lemma authenticate_total keys header : authenticate hashKey keys header ≠ OutOfFuel.
Proof. unfold authenticate. repeat case_match; done. Qed.
End keys.

Section properties.
Context {JS WS RS : Type} `{JobDefinitionStoreLaws JS} `{!WorkflowStore WS} `{!WorkflowStoreLaws WS}
  `{!RunStore RS} `{!RunStoreLaws RS} `{Environment}.
Context (hashKey : string → string) (zod_message : JobDefinitionInput → string) (reg : HandlerRegistry).
Notation server := (@server JS WS RS).
Notation handle := (handle hashKey zod_message reg).
Notation run_handler := (run_handler zod_message reg).

(** The server after the rate limiter has counted a request. *)
Definition counted (rq : Request) (s : server) : server :=
  mkServer (sv_world s) (sv_keys s) (rate_limit 120 (sv_buckets s) (rq_ip rq) (rq_at rq)).2 (sv_background s).

(** C33: A request reaches its handler exactly when the limiter lets it through
    and its path is public, the check is switched off, or its header is
    admitted: it carries the text of the first live key with that prefix.  Any
    other request is answered 429 or 401 and changes nothing but the limiter's
    bucket of its address; with no key stored, every such request is. *)
Theorem api_gate (authDisabled : bool) (fuel : nat) (rq : Request) (s : server) :
  let allowed := (rate_limit 120 (sv_buckets s) (rq_ip rq) (rq_at rq)).1 in
  let known := is_public (rq_url rq) = true ∨ authDisabled = true
               ∨ ∃ tenant scopes, admitted hashKey (sv_keys s) (rq_authorization rq) tenant scopes in
  (allowed = true ∧ known → handle authDisabled fuel rq s = run_handler fuel (rq_route rq) (counted rq s))
  ∧ (allowed = false → handle authDisabled fuel rq s
       = (Some (mkResponse 429 (ErrorBody "rate limit exceeded" None)), counted rq s))
  ∧ (allowed = true → ¬ known → handle authDisabled fuel rq s
       = (Some (mkResponse 401 (ErrorBody "unauthorized" None)), counted rq s))
  ∧ (sv_keys s = [] → is_public (rq_url rq) = false → authDisabled = false → ¬ known).
Proof.
  cbv zeta. unfold handle, counted. destruct (rate_limit _ _ _ _) as [ok buckets]. cbn [fst snd].
  pose proof (authenticate_spec hashKey (sv_keys s) (rq_authorization rq)) as Hspec.
  pose proof (authenticate_total hashKey (sv_keys s) (rq_authorization rq)) as Htot.
  split_and!.
  - intros [-> Hk]. cbn [negb]. destruct (is_public _ || authDisabled) eqn:Hp; [done|].
    apply orb_false_iff in Hp as [Hp Ha]. destruct Hk as [?|[?|(t & sc & Hk)]]; [congruence..|].
    apply Hspec in Hk. cbn [sv_keys]. by rewrite Hk.
  - by intros ->.
  - intros -> Hk. cbn [negb sv_keys]. destruct (is_public _ || authDisabled) eqn:Hp.
    { destruct Hk. apply orb_true_iff in Hp as [?|?]; auto. }
    destruct (authenticate _ _ _) as [[t sc]| |] eqn:Ha; [|done..].
    destruct Hk. right; right. exists t, sc. by apply Hspec.
  - intros Hnil Hp Ha [?|[?|(t & sc & raw & k & b & a & _ & Hk & _)]]; [congruence..|].
    rewrite Hnil in Hk. by destruct b.
Qed.

(** ** Registration *)

Lemma assertKnown_error r h e : assertKnown r h = Throw e → ∃ m ds, e = ValidationError m ds.
Proof. unfold assertKnown. destruct (map_has r h); [done|]. intros [= <-]. eauto. Qed.

Lemma registration_checks_errors r i def e :
  registration_checks r i def = Throw e → ∃ m ds, e = ValidationError m ds.
Proof.
  unfold registration_checks.
  assert (∀ ts e', ofold (λ t (_ : unit), assertKnown r (handler t)) ts tt = Throw e'
                   → ∃ m ds, e' = ValidationError m ds) as Hk.
  { induction ts as [|t ts IH]; cbn [ofold]; [done|]. intros e'.
    destruct (assertKnown r (handler t)) as [[]|e0|] eqn:Ha; cbn; [apply IH| |done].
    intros [= <-]. by eapply assertKnown_error. }
  specialize (Hk (in_tasks i)). destruct (ofold _ _ _) as [[]|e'|]; cbn; [|intros [= <-]; by apply Hk|done].
  unfold validate. destruct (validation_errors def); cbn; [|intros [= <-]; eauto].
  unfold validateDependencyOrder. case_match; [done|intros [= <-]; eauto|done].
Qed.

(** C34: [POST /jobs] answers 201 with the definition, which is then stored, when
    the input matches the schema and passes the checks of registration; 400 when
    it matches the schema and a check fails; and 500, as for a fault of the
    server, when it does not match the schema.  Nothing is stored in the last
    two cases. *)
Theorem post_job_status (fuel : nat) (body : JobDefinitionInput) (s : server) :
  let def := definition_of reg body (in_id body) (nowIso (w_ticks (sv_world s))) in
  let ans := run_handler fuel (PostJobs body) s in
  sv_background ans.2 = sv_background s ∧ sv_keys ans.2 = sv_keys s
  ∧ if jobDefinitionInputSchema_ok body
    then (registered reg def ∧ ans.1 = Some (mkResponse 201 (JobBody def))
            ∧ job_get (in_id body) (w_jobs (sv_world ans.2)) = Some def)
         ∨ (¬ registered reg def ∧ ∃ e, ans.1 = Some (mkResponse 400 (ErrorBody e (Some "VALIDATION_ERROR")))
            ∧ w_jobs (sv_world ans.2) = w_jobs (sv_world s))
    else ans = (Some (mkResponse 500 (ErrorBody (zod_message body) (Some "INTERNAL_ERROR"))), s).
Proof.
  intros def ans. subst ans. unfold run_handler, route_handler. unfold mbind, M_bind. rewrite register_eq.
  destruct (jobDefinitionInputSchema_ok body) eqn:Hs; [|by destruct s].
  cbv zeta. fold def.
  pose proof (checks_registered reg body (in_id body) (nowIso (w_ticks (sv_world s))) Hs) as Hiff. fold def in Hiff.
  pose proof (registration_checks_total reg body def) as Htot.
  pose proof (registration_checks_errors reg body def) as Herr.
  destruct (registration_checks reg body def) as [[]|e|]; [| |done]; cbn.
  - rewrite app_nil_r. split_and!; [done..|]. left. split_and!; [by apply Hiff|done|].
    by rewrite job_get_save, decide_True.
  - rewrite ?app_nil_r. split_and!; [done..|]. right. split; [intros Hr; by apply Hiff in Hr|].
    destruct (Herr e eq_refl) as (m & ds & ->). by exists m.
Qed.

(** ** A run, from the request that creates it *)

Lemma createRun_answer jobId trig input def run wf (w w' : world JS WS RS) :
  createRun jobId trig input w = (Ok (run, wf, def), w') →
  run_status run = Pending ∧ run_jobId run = jobId ∧ run_workflowId run = wf_id wf.
Proof.
  unfold createRun. intros (? & w1 & _ & Hc)%M_bind_Ok. do 4 apply M_bind_Ok in Hc as (? & ? & _ & Hc).
  apply M_bind_Ok in Hc as (? & ? & _ & Hc). apply M_bind_Ok in Hc as (? & ? & _ & Hc).
  by injection Hc as <- <- _ _.
Qed.

(** The life of a run, with what [executeRun_new] says of its execution. *)
Lemma post_run_lifecycle (fuel : nat) (jobId : string) (trig : option string) (input : option jsrecord)
    (def : JobDefinition) (s : server) :
  uuids_distinct (S (S (w_uuids (sv_world s)))) (length (tasks def)) →
  workflow_store_ok (w_workflows (sv_world s)) → ids_unused (sv_world s) →
  job_get jobId (w_jobs (sv_world s)) = Some def → NoDup (td_id <$> tasks def) → executable def →
  w_localLocks (sv_world s) = [] ∧ w_locks (sv_world s) = [] → enough_fuel def fuel →
  ∃ run t s1 o wf' w',
    run_handler fuel (PostRun jobId trig input) s = (Some (mkResponse 202 (RunBody run (run_workflowId run))), s1)
    ∧ run_status run = Pending ∧ run_jobId run = jobId
    ∧ sv_background s1 = sv_background s ++ [t]
    ∧ Threads.run t (sv_world s1) = (o, w') ∧ run_end def o wf'
    ∧ (run_handler fuel (GetRun (run_id run))
         (mkServer w' (sv_keys s1) (sv_buckets s1) (sv_background s1))).1 = Some (mkResponse 200 (WorkflowBody wf'))
    ∧ (tasks_succeed def (default [] input) (w_calls (sv_world s)) → state wf' ≠ Failed ∧ state wf' ≠ DeadLettered).
Proof.
  intros Hu Hok Hids Hget Hnd Hex Hfree Hf.
  destruct (createRun_spec jobId (default "api" trig) (default [] input) def (sv_world s) Hu Hok Hids Hget Hnd)
    as (run & wf & w1 & Hcr & _ & Hctx & Hp & Hl & Hk & _ & _ & Hcalls & _).
  destruct (createRun_answer _ _ _ _ _ _ _ _ Hcr) as (Hst & Hjob & Hwf).
  assert (unlocked (run_id run) w1) as Hun.
  { destruct Hfree as [Hl0 Hk0]. unfold unlocked. rewrite Hl, Hk, Hl0, Hk0.
    split; [set_solver|]. split; [done|apply NoDup_nil_2]. }
  destruct (executeRun_new (run_id run) def wf w1 fuel Hex Hp Hun Hf) as (o & wf' & w' & Hrun & Hend & Hwf' & _ & _ & _ & _ & _ & Hall & _).
  assert (route_handler zod_message reg fuel (PostRun jobId trig input) (sv_world s)
          = (Ok (mkResponse 202 (RunBody run (wf_id wf)), [run_id run]), w1)) as Hh.
  { unfold route_handler. by rewrite (M_bind_eq_Ok _ _ _ _ _ Hcr). }
  unfold run_handler at 1. rewrite Hh. cbn [start_background].
  pose proof (run_run_block (executeRun_async fuel (run_id run)) w1) as Hb.
  destruct (run_block _ w1) as [t w2]. cbn [fst snd] in Hb. rewrite run_executeRun, Hrun in Hb.
  eexists run, t, _, o, wf', w'. rewrite Hwf. do 6 (split; [done|]). split.
  2: { rewrite <-Hctx, <-Hcalls. intros Ha. destruct (Hall Ha) as (? & ? & _). done. }
  unfold run_handler, route_handler, getWorkflowByRun. cbn [sv_world].
  rewrite (M_bind_eq_Ok _ _ w' wf' w'); [done|]. unfold require. by rewrite Hwf'.
Qed.
End properties.

(** ** An instance *)

Section witnesses.
#[local] Instance api_environment : Environment := scripted (λ _, true).

Definition demo_server : @server InMemoryJobStore InMemoryWorkflowStore InMemoryRunStore :=
  mkServer (demo_registered demo_definition) [] [] [].


Lemma post_job_status_witness :
  ∃ def s', run_handler (λ _, "invalid") new_handler_registry 20 (PostJobs demo_input)
      (mkServer (demo_empty : demo_world) [] [] []) = (Some (mkResponse 201 (JobBody def)), s')
    ∧ job_get "job_demo" (w_jobs (sv_world s')) = Some def.
Proof.
  destruct (post_job_status (λ _, "invalid") new_handler_registry 20 demo_input
    (mkServer (demo_empty : demo_world) [] [] [])) as (_ & _ & H).
  assert (jobDefinitionInputSchema_ok demo_input = true) as Hs by (vm_compute; reflexivity).
  rewrite Hs in H. destruct H as [(_ & Ha & Hg)|(_ & e & Ha & _)].
  - eexists _, _. split; [|exact Hg]. rewrite <-Ha. apply surjective_pairing.
  - exfalso. vm_compute in Ha. discriminate Ha.
Defined.
End witnesses.
