(* ===== verification/ApiThreads.v ===== *)
(** * Requests at every await (api/routes.ts, api/dsl-routes.ts, api/v2/routes.ts)

    The handlers of Api.v as threads: between two of its [await]s a handler runs
    undisturbed, at an [await] the service takes up other requests and the
    executions that earlier ones left behind. *)

From S2P Require Import Prelude Threads JsMap JsString Graph JsNum DomainTypes JsValue Domain Retry Transitions Locks Stores Metrics Handlers Validator Dag Expressions Constraints Engine EngineThreads ExecInv Execution Registration Concurrency EngineProps RunThreads DslCompiler Export Replay Provisioning Api.
From stdpp Require Import relations.
Open Scope Z_scope.

Section requests.
Context {JS WS RS : Type} `{JobDefinitionStoreLaws JS} `{!WorkflowStore WS} `{!WorkflowStoreLaws WS}
  `{!RunStore RS} `{!RunStoreLaws RS} `{Environment} `{!FixedJobs}.
Notation world := (world JS WS RS).
Notation async := (thread JsError world).
Notation service := (world * list (option Response))%type.
Notation workflow_of rid w := (workflow_getByRunId rid (w_workflows w)).
Notation new := (JobRun * WorkflowInstance * JobDefinition)%type.
Notation answering := (Response * list string)%type.

Context (zod_message : JobDefinitionInput → string) (reg : HandlerRegistry).

(** ** The services' methods *)

Definition getWorkflowByRun_async (runId : string) : async WorkflowInstance :=
  wf ← awaiting (atomic (gets (λ w, workflow_of runId w)));
  atomic (lift_outcome (from_option Ok (Throw (NotFoundError "WorkflowInstance" runId)) wf)).

Definition get_job_async (id : string) : async JobDefinition :=
  def ← awaiting (atomic (gets (λ w, job_get id (w_jobs w))));
  atomic (lift_outcome (from_option Ok (Throw (NotFoundError "JobDefinition" id)) def)).

Definition list_jobs_async : async (list JobDefinition) := awaiting (atomic list_jobs).

(** A registration awaits only its last step, the [save]. *)
Definition saving (m : eff world JobDefinition) : async JobDefinition :=
  def ← atomic m; _ ← awaiting (mret tt); mret def.

Definition replay_async (fuel : nat) (runId : string) : async WorkflowDiff :=
  before ← awaiting (getWorkflowByRun_async runId);
  _ ← awaiting (executeRun_async fuel runId);
  after ← awaiting (getWorkflowByRun_async runId);
  mret (diffWorkflows before after).

(** ** The handlers

    Each with its answer and the execution it starts and does not await. *)

Definition post_answer (created : new) : async answering :=
  let '(run, workflow, _) := created in mret (mkResponse 202 (RunBody run (wf_id workflow)), [run_id run]).

Definition route_async (fuel : nat) (route : Route) : async answering :=
  match route with
  | GetHealth => mret (answer 200 HealthBody)
  | GetJobs =>
      list_ ← awaiting list_jobs_async;
      mret (answer 200 (JobsBody ((λ j, (jd_id j, jd_name j, jd_version j)) <$> list_)))
  | PostJobs body => def ← awaiting (saving (register zod_message reg body)); mret (answer 201 (JobBody def))
  | GetJob jobId => def ← awaiting (get_job_async jobId); mret (answer 200 (JobBody def))
  | PostRun jobId trig input =>
      awaiting (createRun_async jobId (default "api" trig) (default [] input)) ≫= post_answer
  | GetRun runId => wf ← awaiting (getWorkflowByRun_async runId); mret (answer 200 (WorkflowBody wf))
  | ExecuteRun runId =>
      _ ← awaiting (executeRun_async fuel runId);
      wf ← awaiting (getWorkflowByRun_async runId);
      mret (answer 200 (WorkflowBody wf))
  | ExportRun runId => wf ← awaiting (getWorkflowByRun_async runId); mret (answer 200 (CsvBody (toCsv wf)))
  | CompileDsl source jobId =>
      match source with
      | Some s =>
          if truthy_string s
          then def ← awaiting (saving (compileAndRegister zod_message reg fuel s jobId)); mret (answer 200 (CompiledBody def))
          else mret (answer 400 (ErrorBody "source required" None))
      | None => mret (answer 400 (ErrorBody "source required" None))
      end
  | InstantiateTemplate templateId ps =>
      def ← awaiting (saving (instantiate_and_register zod_message reg templateId ps)); mret (answer 201 (JobBody def))
  | ReplayRun runId => diff ← awaiting (replay_async fuel runId); mret (answer 200 (DiffBody diff))
  end.

(** ** Requests

    The state is the engine's world and the answers sent so far. *)

Definition send (i : nat) (r : Response) : thread JsError service unit :=
  atomic (λ '(w, rs), (Ok tt, (w, <[i := Some r]> rs))).

(** [void execution.executeRun(id)] starts in the block that sends the answer. *)
Definition background (fuel : nat) (ids : list string) : thread JsError service unit :=
  match ids with
  | [] => mret tt
  | id :: _ => framed (executeRun_async fuel id)
  end.

(** The error handler, the answer, and what goes on after it. *)
Definition finish (i fuel : nat) (t : async answering) : thread JsError service unit :=
  ans ← catch_thread (framed t) (λ e, mret (error_response e, []));
  _ ← send i ans.1;
  background fuel ans.2.

Definition request_async (fuel i : nat) (route : Route) : thread JsError service unit :=
  finish i fuel (route_async fuel route).

(** ** Without interruption *)

Lemma run_lookup {A} e (f : world → option A) w :
  run (wf ← awaiting (atomic (gets f)); atomic (lift_outcome (from_option Ok (Throw e) wf))) w = require e f w.
Proof. rewrite run_bind. unfold mbind, M_bind, require. cbn. by destruct (f w). Qed.

Lemma run_saving m w : run (saving m) w = m w.
Proof. unfold saving. rewrite run_bind. unfold mbind, M_bind. rewrite run_atomic. by destruct (m w) as [[] ?]. Qed.

Lemma run_awaited_bind {A B} (t : async A) (m : eff world A) (f : A → async B) (g : A → eff world B) w :
  (∀ w, run t w = m w) → (∀ a w, run (f a) w = g a w) → run (awaiting t ≫= f) w = (m ≫= g) w.
Proof. intros Ht Hf. apply run_bind_ext; [|done]. intros w'. by rewrite run_awaiting. Qed.

Lemma run_replay fuel runId w : run (replay_async fuel runId) w = replay fuel runId w.
Proof.
  unfold replay_async, replay. apply run_awaited_bind; [intros; apply run_lookup|]. intros before w1.
  apply run_awaited_bind; [intros; apply run_executeRun|]. intros _ w2.
  by apply run_awaited_bind; [intros; apply run_lookup|].
Qed.

(** Run without interruption, a handler is that of Api.v. *)
Lemma run_route fuel route w : run (route_async fuel route) w = route_handler zod_message reg fuel route w.
Proof.
  destruct route; cbn [route_async route_handler]; try done.
  - by apply run_awaited_bind; [intros; apply run_saving|].
  - by apply run_awaited_bind; [intros; apply run_lookup|].
  - apply run_awaited_bind; [intros; apply run_createRun|]. by intros [[run wf] def].
  - by apply run_awaited_bind; [intros; apply run_lookup|].
  - apply run_awaited_bind; [intros; apply run_executeRun|]. intros _ w1.
    by apply run_awaited_bind; [intros; apply run_lookup|].
  - by apply run_awaited_bind; [intros; apply run_lookup|].
  - destruct source as [s|]; [|done]. destruct (truthy_string s); [|done].
    by apply run_awaited_bind; [intros; apply run_saving|].
  - by apply run_awaited_bind; [intros; apply run_saving|].
  - by apply run_awaited_bind; [intros; apply run_replay|].
Qed.

(** ** The stages of a request *)

Inductive client : Type :=
| Arrived
| Posting (mk : making)
| Working (n : nat) (t : async answering)
| Executing (rid : string) (def : JobDefinition) (n : nat) (t : async unit)
| Served.

(** The run a request works on from the start. *)
Definition own_run (route : Route) : option string :=
  match route with ExecuteRun rid | ReplayRun rid => Some rid | _ => None end.

(** The registration a request asks for. *)
Definition registration_of (fuel : nat) (route : Route) : option (eff world JobDefinition) :=
  match route with
  | PostJobs body => Some (register zod_message reg body)
  | CompileDsl (Some s) jobId => if truthy_string s then Some (compileAndRegister zod_message reg fuel s jobId) else None
  | InstantiateTemplate templateId ps => Some (instantiate_and_register zod_message reg templateId ps)
  | _ => None
  end.

Definition registered_answer (route : Route) (def : JobDefinition) : answering :=
  match route with CompileDsl _ _ => answer 200 (CompiledBody def) | _ => answer 201 (JobBody def) end.

Lemma route_registers fuel route m :
  registration_of fuel route = Some m →
  route_async fuel route = (def ← awaiting (saving m); mret (registered_answer route def)).
Proof.
  destruct route; try done; cbn [registration_of route_async]; [by intros [= <-]| |by intros [= <-]].
  destruct source as [s|]; [|done]. destruct (truthy_string s); [by intros [= <-]|done].
Qed.

(** What a registration changes: the clock and the definition it stores. *)
Record registering (o : res JobDefinition) (w w' : world) : Prop := {
  rg_quiet : quiet (with_jobs (w_jobs w') w) w';
  rg_jobs : match o with Ok def => w_jobs w' = job_save def (w_jobs w) | _ => w_jobs w' = w_jobs w end;
}.

Lemma registering_later o w w' : registering o (with_ticks (S (w_ticks w)) w) w' → registering o w w'.
Proof. intros [[] ?]. split; [by split|done]. Qed.

Lemma register_registering i w : registering (register zod_message reg i w).1 w (register zod_message reg i w).2.
Proof.
  rewrite (register_eq zod_message reg i w). destruct (jobDefinitionInputSchema_ok i); [|done].
  cbv zeta. by destruct (registration_checks _ _ _).
Qed.

Lemma registration_registering fuel route m w :
  registration_of fuel route = Some m → registering (m w).1 w (m w).2.
Proof.
  destruct route; try done; cbn [registration_of].
  - intros [= <-]. apply register_registering.
  - destruct source as [s|]; [|done]. destruct (truthy_string s); [|done]. intros [= <-].
    apply registering_later. unfold compileAndRegister. rewrite (M_bind_eq_Ok _ _ w (nowIso (w_ticks w)) (with_ticks (S (w_ticks w)) w)) by done.
    unfold mbind, M_bind, lift_outcome. destruct (compile _ _ _ _); [apply register_registering|done..].
  - intros [= <-]. unfold instantiate_and_register, instantiate. destruct (getTemplate templateId) as [t|]; [|done].
    destruct (missing_parameter t ps); [done|]. apply registering_later.
    unfold mbind, M_bind, now, mret, M_ret. apply register_registering.
Qed.

Section clients.
(** The definitions of the pending runs that requests execute. *)
Context (fuel : nat) (def_of : string → JobDefinition).

(** The blocks of a handler that does not create a run. *)
Definition work_blocks (route : Route) : nat :=
  match route with
  | GetJobs | GetJob _ | GetRun _ | ExportRun _ => 2
  | ExecuteRun rid => 3 + run_blocks (def_of rid)
  | ReplayRun rid => 6 + run_blocks (def_of rid)
  | _ => 0
  end.

Definition start_of (route : Route) : client :=
  match route, registration_of fuel route with
  | PostRun _ _ _, _ | _, Some _ => Arrived
  | _, None => Working (work_blocks route) (route_async fuel route)
  end.

Definition posts (route : Route) : bool := match route with PostRun _ _ _ => true | _ => false end.

Definition posting (i : nat) (t : async new) : thread JsError service unit := finish i fuel (t ≫= post_answer).

Definition thread_of (i : nat) (c : Route * client) : thread JsError service unit :=
  match c.2 with
  | Arrived => request_async fuel i c.1
  | Posting mk =>
      match c.1 with
      | PostRun jobId trig input =>
          posting i (making_thread jobId (default "api" trig) (default [] input) mk)
      | _ => Done (Ok tt)
      end
  | Working n t => finish i fuel t
  | Executing rid def n t => framed t
  | Served => Done (Ok tt)
  end.

Definition client_rid (c : Route * client) : option string :=
  match c.2 with
  | Posting mk => making_rid mk
  | Executing rid _ _ _ => Some rid
  | Arrived | Working _ _ | Served => own_run c.1
  end.

(** ** The blocks *)

Lemma finish_block i t (w : world) rs :
  run_block (finish i fuel t) (w, rs) = (finish i fuel (run_block t w).1, ((run_block t w).2, rs))
  ∨ (is_done (run_block t w).1 = true
     ∧ run_block (finish i fuel t) (w, rs) = run_block (finish i fuel (run_block t w).1) ((run_block t w).2, rs)).
Proof. apply (run_block_around (finish i fuel)); [done|]. intros f w' rs'. cbn. by destruct (f w'). Qed.

Lemma posting_block i jobId trig input mk (w : world) rs :
  made mk = false →
  run_block (posting i (making_thread jobId trig input mk)) (w, rs)
  = (posting i (run_block (making_thread jobId trig input mk) w).1,
     ((run_block (making_thread jobId trig input mk) w).2, rs)).
Proof.
  apply (making_block_around _ _ _ (posting i)); [done|]. intros f w' rs'. cbn. by destruct (f w').
Qed.

Lemma block_answered i r (w : world) rs :
  run_block (finish i fuel (Done (Ok (r, [])))) (w, rs) = (Done (Ok tt), (w, <[i := Some r]> rs)).
Proof. done. Qed.

Lemma block_refused i e (w : world) rs :
  run_block (finish i fuel (Done (Throw e))) (w, rs) = (Done (Ok tt), (w, <[i := Some (error_response e)]> rs)).
Proof. done. Qed.

Lemma block_not_posted i e (w : world) rs :
  run_block (posting i (Done (Throw e))) (w, rs) = (Done (Ok tt), (w, <[i := Some (error_response e)]> rs)).
Proof. done. Qed.

Lemma block_posted i run wf def (w : world) rs :
  run_block (posting i (mret (run, wf, def))) (w, rs)
  = run_block (framed (executeRun_async fuel (run_id run)))
      (w, <[i := Some (mkResponse 202 (RunBody run (wf_id wf)))]> rs).
Proof. done. Qed.

Lemma block_arrived i jobId trig input (w : world) rs :
  run_block (request_async fuel i (PostRun jobId trig input)) (w, rs)
  = (posting i (making_thread jobId (default "api" trig) (default [] input) (JobRead (job_get jobId (w_jobs w)))), (w, rs)).
Proof. done. Qed.

Lemma block_registers i route m (w : world) rs :
  registration_of fuel route = Some m →
  run_block (request_async fuel i route) (w, rs)
  = (finish i fuel match (m w).1 with
                   | Ok def => Await (mret (registered_answer route def))
                   | Throw e => Done (Throw e)
                   | OutOfFuel => Done OutOfFuel
                   end, ((m w).2, rs)).
Proof.
  intros Hm. unfold request_async. rewrite (route_registers _ _ _ Hm). cbn. by destruct (m w) as [[] w'].
Qed.

(** ** What a request learns *)

Section knowledge.
Context (jobs : JS).

(** The definitions that are fixed are those of [jobs]. *)
Definition agrees (js : JS) : Prop := ∀ id, fixed_job id → job_get id js = job_get id jobs.

(** The answer after an execution: its error, or [b]. *)
Definition executed_response (o : res unit) (b : Body) : Response :=
  match o with Throw e => error_response e | _ => mkResponse 200 b end.

(** The answers a request can get: where definitions are read or registered, the
    answer at some instant. *)
Definition response_ok (route : Route) (r : Response) : Prop :=
  match route with
  | GetHealth => r = mkResponse 200 HealthBody
  | GetJobs =>
      ∃ js, agrees js ∧ r = mkResponse 200 (JobsBody ((λ j, (jd_id j, jd_name j, jd_version j)) <$> job_list js))
  | GetJob id =>
      ∃ js, agrees js ∧
      r = match job_get id js with
          | Some def => mkResponse 200 (JobBody def)
          | None => error_response (NotFoundError "JobDefinition" id)
          end
  | PostRun jobId _ _ =>
      match job_get jobId jobs with
      | Some _ => ∃ run x, r = mkResponse 202 (RunBody run x) ∧ run_jobId run = jobId ∧ run_status run = Pending
      | None => r = error_response (NotFoundError "JobDefinition" jobId)
      end
  | GetRun rid =>
      r = error_response (NotFoundError "WorkflowInstance" rid)
      ∨ ∃ wf, r = mkResponse 200 (WorkflowBody wf) ∧ legal rid wf
  | ExportRun rid =>
      r = error_response (NotFoundError "WorkflowInstance" rid)
      ∨ ∃ wf, r = mkResponse 200 (CsvBody (toCsv wf)) ∧ legal rid wf
  | ExecuteRun rid =>
      ∃ o wf, run_end (def_of rid) o wf ∧ legal rid wf ∧ r = executed_response o (WorkflowBody wf)
  | ReplayRun rid =>
      ∃ o before wf, run_end (def_of rid) o wf ∧ legal rid before ∧ state before = Pending ∧ legal rid wf
        ∧ r = executed_response o (DiffBody (diffWorkflows before wf))
  | PostJobs _ | CompileDsl _ _ | InstantiateTemplate _ _ =>
      match registration_of fuel route with
      | Some m => ∃ w, match (m w).1 with
                       | Ok def => r = (registered_answer route def).1
                       | Throw e => r = error_response e
                       | OutOfFuel => False
                       end
      | None => r = mkResponse 400 (ErrorBody "source required" None)
      end
  end.

(** The outcome of a handler that leaves nothing behind. *)
Definition answered (route : Route) (o : res answering) : Prop :=
  match o with
  | Ok (r, ids) => ids = [] ∧ response_ok route r
  | Throw e => response_ok route (error_response e)
  | OutOfFuel => False
  end.

(** What the blocks of every request keep. *)
Record kept (w w' : world) : Prop := {
  kp_sound : sound w → sound w';
  kp_jobs : agrees (w_jobs w) → agrees (w_jobs w');
}.

#[export] Instance kept_preorder : PreOrder kept.
Proof. split; [by split|]. intros w1 w2 w3 [] []. split; auto. Qed.

Notation reading := (wp kept eq (λ _, True)).

(** A lookup in a store. *)
Lemma wp_reading {A B} (Q : res B → world → Prop) n e (f : world → option A) (g : A → async B) w :
  sound w →
  match f w with
  | Some a => ∀ w', reading Q n (g a) w'
  | None => ∀ w', Q (Throw e) w'
  end →
  reading Q (S (S n)) (awaiting (o ← awaiting (atomic (gets f)); atomic (lift_outcome (from_option Ok (Throw e) o))) ≫= g) w.
Proof.
  intros Hs Hf. split; [done|]. split; [done|]. intros w1 _. split; [done|].
  destruct (f w) as [a|]; cbn; (split; [done|]); intros w2 _; cbn; by apply Hf.
Qed.

(** The requests that only read. *)
Lemma wp_read_route route w :
  posts route = false → own_run route = None → registration_of fuel route = None → sound w → agrees (w_jobs w) →
  reading (λ o _, answered route o) (work_blocks route) (route_async fuel route) w.
Proof.
  intros Ha Ho Hg Hs Hj. destruct route; try done; cbn [route_async work_blocks].
  - repeat split; try done. by exists (w_jobs w).
  - apply wp_reading; [done|]. destruct (job_get jobId (w_jobs w)) as [def|] eqn:Hd; intros w'; cbn;
      [split; [done|]|]; exists (w_jobs w); by rewrite Hd.
  - apply wp_reading; [done|]. destruct (workflow_of runId w) as [wf|] eqn:Hwf; intros w'; cbn; [|by left].
    split; [done|]. right. exists wf. split; [done|]. by apply Hs.
  - apply wp_reading; [done|]. destruct (workflow_of runId w) as [wf|] eqn:Hwf; intros w'; cbn; [|by left].
    split; [done|]. right. exists wf. split; [done|]. by apply Hs.
  - cbn in Hg. destruct source as [s|]; [|by split; [|cbn]]. destruct (truthy_string s) eqn:Ht; [done|].
    split; [done|]. cbn. by rewrite Ht.
Qed.

(** The requests that execute a pending run. *)
Notation owning rid := (wp (rely rid) (guar rid) (run_legal rid)).

Definition executed (route : Route) (rid : string) (o : res answering) (w : world) : Prop :=
  answered route o ∧ ∃ o' wf, run_end (def_of rid) o' wf ∧ resting rid wf w.

Lemma wp_owned_lookup {B} rid wf (Q : res B → world → Prop) n (g : WorkflowInstance → async B) w :
  resting rid wf w → (∀ w', rely rid w w' → owning rid Q n (g wf) w') →
  owning rid Q (S (S n)) (awaiting (getWorkflowByRun_async rid) ≫= g) w.
Proof.
  intros Hr Hk. split; [done|]. split; [by eapply resting_legal|]. intros w1 Hw1.
  rewrite (rs_get _ _ _ Hr). cbn. split; [done|]. split; [by eapply resting_legal, resting_stable|].
  intros w2 Hw2. apply Hk. by etrans.
Qed.

Lemma wp_owned_execution {B} rid wf (Q : res B → world → Prop) n (g : unit → async B) w :
  executable (def_of rid) → (attempts_of (def_of rid) < fuel)%nat → ready rid (def_of rid) wf w →
  (∀ o wf' w', run_end (def_of rid) o wf' → resting rid wf' w' →
     match o with Ok _ => owning rid Q n (g tt) w' | Throw e => Q (Throw e) w' | OutOfFuel => True end) →
  owning rid Q (S (run_blocks (def_of rid) + n)) (awaiting (executeRun_async fuel rid) ≫= g) w.
Proof.
  intros Hex Hf Hr Hk. apply (wp_await_bind _ _ _ _ _ (run_blocks (def_of rid)) n); [done|].
  apply (wp_weaken _ _ (holding rid)); [apply holding_legal|].
  eapply wp_mono; [|done|by apply (wp_executeRun_end rid fuel (def_of rid) wf)].
  intros o w' (wf' & Hrest & Hend). split; [by eapply resting_legal|]. intros w'' Hw''.
  pose proof (resting_stable _ _ _ _ Hrest Hw'') as Hrest'. specialize (Hk o wf' w'' Hend Hrest').
  inversion Hend; subst; exact Hk.
Qed.

Lemma resting_is_legal rid wf (w : world) : resting rid wf w → legal rid wf.
Proof. by intros []. Qed.

(** An execution and the lookup of its workflow. *)
Lemma wp_execute_route route rid wf (f : WorkflowInstance → Body) w :
  executable (def_of rid) → (attempts_of (def_of rid) < fuel)%nat → ready rid (def_of rid) wf w →
  (∀ o wf', run_end (def_of rid) o wf' → legal rid wf' → response_ok route (executed_response o (f wf'))) →
  owning rid (executed route rid) (3 + run_blocks (def_of rid))
    (_ ← awaiting (executeRun_async fuel rid); wf ← awaiting (getWorkflowByRun_async rid); mret (answer 200 (f wf))) w.
Proof.
  intros Hex Hf Hr Hok. apply (wp_mono _ _ _ (executed route rid) _ (S (run_blocks (def_of rid) + 2))); [done|lia|].
  apply (wp_owned_execution rid wf); [done|done|done|].
  intros o wf' w' Hend Hrest. pose proof (Hok o wf' Hend (resting_is_legal _ _ _ Hrest)) as Hans.
  destruct o as [[]|e|]; [|split; [done|by exists (Throw e), wf']|done].
  apply (wp_owned_lookup rid wf'); [done|]. intros w2 Hw2. split; [done|]. exists (Ok tt), wf'.
  split; [done|]. by eapply resting_stable.
Qed.

Lemma wp_own_route route rid wf w :
  own_run route = Some rid → executable (def_of rid) → (attempts_of (def_of rid) < fuel)%nat →
  ready rid (def_of rid) wf w → owning rid (executed route rid) (work_blocks route) (route_async fuel route) w.
Proof.
  intros Ho Hex Hf Hr. pose proof (resting_is_legal _ _ _ (rd_resting _ _ _ _ Hr)) as Hl.
  destruct route; try done; injection Ho as ->; cbn [route_async work_blocks].
  - apply (wp_execute_route (ExecuteRun rid) rid wf WorkflowBody); [done..|]. intros o wf' Hend Hl'. by exists o, wf'.
  - apply (wp_await_bind _ _ _ _ _ (2 + (S (run_blocks (def_of rid) + 2))) 0); [lia|]. unfold replay_async.
    apply (wp_owned_lookup rid wf); [apply Hr|]. intros w1 Hw1.
    apply (wp_owned_execution rid wf); [done|done|by eapply ready_stable|].
    intros o wf' w2 Hend Hrest. pose proof (resting_is_legal _ _ _ Hrest) as Hl'.
    assert (response_ok (ReplayRun rid) (executed_response o (DiffBody (diffWorkflows wf wf')))) as Hans
      by (exists o, wf, wf'; split_and!; [done|done|apply Hr|done|done]).
    assert (∀ w3, rely rid w2 w3 → ∃ o' wf', run_end (def_of rid) o' wf' ∧ resting rid wf' w3) as Hover
      by (intros w3 Hw3; exists o, wf'; split; [done|by eapply resting_stable]).
    destruct o as [[]|e|]; [|split; [by eapply resting_legal|]; intros w3 Hw3; split; [done|by apply Hover]|done].
    apply (wp_owned_lookup rid wf'); [done|]. intros w3 Hw3. split; [by eapply resting_legal, resting_stable|].
    intros w4 Hw4. split; [done|]. apply Hover. by etrans.
Qed.

(** ** The invariant of the service *)

Definition client_ok (c : Route * client) (w : world) : Prop :=
  match c.2 with
  | Arrived => posts c.1 = true ∨ is_Some (registration_of fuel c.1)
  | Posting mk =>
      match c.1 with
      | PostRun jobId trig input => making_ok jobs jobId (default "api" trig) (default [] input) mk w
      | _ => False
      end
  | Working n t =>
      posts c.1 = false ∧
      match own_run c.1 with
      | Some rid => parked (rely rid) (guar rid) (run_legal rid) (executed c.1 rid) n t w
      | None => parked kept eq (λ _, True) (λ o _, answered c.1 o) n t w
      end
  | Executing rid def n t =>
      match c.1 with
      | PostRun jobId _ _ =>
          job_get jobId jobs = Some def ∧ parked (rely rid) (guar rid) (run_legal rid) (run_over rid def) n t w
      | _ => False
      end
  | Served =>
      match own_run c.1 with
      | Some rid => ∃ o wf, run_end (def_of rid) o wf ∧ resting rid wf w
      | None => True
      end
  end.

Lemma client_ok_stable c w w' :
  client_ok c w → kept w w' → (∀ rid, client_rid c = Some rid → rely rid w w') → client_ok c w'.
Proof.
  destruct c as [route c]. intros Hc Hk Hr. destruct c as [|mk|n t|rid def n t|]; unfold client_ok, client_rid in *; cbn [fst snd] in *.
  - done.
  - destruct route; try done. by eapply making_ok_stable.
  - destruct Hc as (Hs & Hc). split; [done|].
    destruct (own_run route) as [rid|]; (eapply parked_stable; [apply _|exact Hc|]); [by apply Hr|done].
  - destruct route; try done. destruct Hc as [Hj Hc]. split; [done|]. eapply parked_stable; [apply _|exact Hc|by apply Hr].
  - destruct (own_run route) as [rid|]; [|done]. destruct Hc as (o & wf & He & Hrest). exists o, wf.
    split; [done|]. by eapply resting_stable, Hr.
Qed.

Definition is_run_response (r : Response) : Prop := ∃ run x, rs_body r = RunBody run x.

(** The answer sent so far. *)
Definition reply_ok (c : Route * client) (slot : option Response) : Prop :=
  match c.2 with
  | Arrived | Posting _ | Working _ _ => slot = None
  | Executing rid _ _ _ =>
      ∃ run x, slot = Some (mkResponse 202 (RunBody run x)) ∧ run_id run = rid
        ∧ response_ok c.1 (mkResponse 202 (RunBody run x))
  | Served => ∃ r, slot = Some r ∧ response_ok c.1 r ∧ ¬ is_run_response r
  end.

Lemma error_not_run e : ¬ is_run_response (error_response e).
Proof. by intros (run & x & ?). Qed.

Lemma only_posts_answer_runs route r :
  posts route = false → response_ok route r → ¬ is_run_response r.
Proof.
  intros Ha Hr (run & x & Hb).
  destruct (registration_of fuel route) as [m|] eqn:Hm.
  { assert (∃ w, match (m w).1 with Ok def => r = (registered_answer route def).1 | Throw e => r = error_response e | OutOfFuel => False end)
      as [w Hw] by (destruct route; try done; cbn in Hm, Hr; first [injection Hm as <-; exact Hr|by rewrite Hm in Hr]).
    destruct (m w).1; [|by subst r|done]. subst r. by destruct route. }
  destruct route; try done; cbn in Hr, Hm; rewrite ?Hm in Hr.
  - by subst r.
  - destruct Hr as (js & _ & ->); done.
  - destruct Hr as (js & _ & ->). by destruct (job_get jobId js).
  - destruct Hr as [->|(wf & -> & _)]; done.
  - destruct Hr as ([] & wf & _ & _ & ->); done.
  - destruct Hr as [->|(wf & -> & _)]; done.
  - by subst r.
  - destruct Hr as ([] & b & wf & _ & _ & _ & _ & ->); done.
Qed.

(** The block that answers. *)
Lemma block_finished i route o (w : world) rs :
  posts route = false → answered route o →
  ∃ r, run_block (finish i fuel (Done o)) (w, rs) = (Done (Ok tt), (w, <[i := Some r]> rs))
    ∧ reply_ok (route, Served) (Some r).
Proof.
  intros Ha Ho. destruct o as [[r ids]|e|]; [|..|done].
  - destruct Ho as [-> Hr]. exists r. split; [apply block_answered|]. exists r.
    split; [done|]. split; [done|]. by eapply only_posts_answer_runs.
  - exists (error_response e). split; [apply block_refused|]. exists (error_response e).
    split; [done|]. split; [done|]. apply error_not_run.
Qed.

Definition after_post (found : option JobDefinition) : nat :=
  match found with Some def => S (run_blocks def) | None => 1 end.

Definition client_blocks (c : Route * client) : nat :=
  match c with
  | (PostRun jobId _ _, Arrived) =>
      1 + (making_blocks (JobRead (job_get jobId jobs)) + after_post (job_get jobId jobs))
  | (_, Arrived) => 4
  | (PostRun jobId _ _, Posting mk) => making_blocks mk + after_post (job_get jobId jobs)
  | (_, Working n t) => 1 + Threads.blocks n t
  | (_, Executing _ _ n t) => Threads.blocks n t
  | _ => 0
  end.

Definition client_uuids (c : Route * client) : nat :=
  match c with
  | (PostRun jobId _ _, Arrived) => making_uuids (JobRead (job_get jobId jobs))
  | (_, Posting mk) => making_uuids mk
  | _ => 0
  end.

Lemma blocks_working route n t : client_blocks (route, Working n t) = (1 + Threads.blocks n t)%nat.
Proof. by destruct route. Qed.

Lemma uuids_served route c :
  match c with Arrived | Posting _ => False | _ => True end → client_uuids (route, c) = 0%nat.
Proof. by destruct route, c. Qed.

(** ** The simulation *)

Section simulation.
Context (base N : nat) (Hids : uuids_distinct base N) (routes : list Route).
Context (Hposts : ∀ jobId trig input, PostRun jobId trig input ∈ routes → fixed_job jobId ∧
  ∀ def, job_get jobId jobs = Some def →
    executable def ∧ (attempts_of def < fuel)%nat ∧ NoDup (td_id <$> tasks def)).
(** A registration ends, and not under a fixed id. *)
Context (Hregs : ∀ route m, route ∈ routes → registration_of fuel route = Some m → ∀ w,
  match (m w).1 with Ok def => ¬ fixed_job (jd_id def) | Throw _ => True | OutOfFuel => False end).
Notation known := (known base N).
Notation runs_ok := (runs_ok base N client_rid client_ok (λ _ _ _, False)).
Notation runs_move := (runs_ok_move base N client_rid client_ok kept client_ok_stable (λ _ _ _, False) (λ _ _ _ _ H _, H)).

Record service_sim (cs : list (Route * client)) (w : world) (rs : list (option Response)) : Prop := {
  ss_routes : cs.*1 = routes;
  ss_world : fresh_world jobs base N w;
  ss_sound : sound w;
  ss_runs : runs_ok cs [] w;
  ss_uuids : (w_uuids w + sum_list_with client_uuids cs ≤ base + N)%nat;
  ss_replies : length rs = length cs ∧ ∀ i c slot, cs !! i = Some c → rs !! i = Some slot → reply_ok c slot;
}.

Lemma service_slot cs w rs i c :
  service_sim cs w rs → cs !! i = Some c → ∃ slot, rs !! i = Some slot ∧ reply_ok c slot.
Proof.
  intros Hs Hi. destruct (ss_replies _ _ _ Hs) as [Hl Hr].
  destruct (lookup_lt_is_Some_2 rs i) as [slot Hslot]; [rewrite Hl; by eapply lookup_lt_Some|]. eauto.
Qed.

Lemma service_route cs w rs i route c : service_sim cs w rs → cs !! i = Some (route, c) → route ∈ routes.
Proof.
  intros Hs Hi. rewrite <-(ss_routes _ _ _ Hs). apply (list_elem_of_fmap_2 fst cs (route, c)).
  by eapply list_elem_of_lookup_2.
Qed.

(** One client moves on, with or without an answer. *)
Lemma service_move cs w rs i route c c' w' rs' :
  service_sim cs w rs → cs !! i = Some (route, c) → client_ok (route, c') w' →
  fresh_world jobs base N w' → sound w' →
  (∀ r, client_rid (route, c') ≠ Some r → rely r w w') → (w_uuids w ≤ w_uuids w')%nat →
  (∀ rid, client_rid (route, c') = Some rid → client_rid (route, c) = Some rid ∨ (known w' rid ∧ ¬ known w rid)) →
  (w_uuids w' + client_uuids (route, c') ≤ w_uuids w + client_uuids (route, c))%nat →
  (rs' = rs ∧ (∀ slot, reply_ok (route, c) slot → reply_ok (route, c') slot))
    ∨ (∃ r, rs' = <[i := Some r]> rs ∧ reply_ok (route, c') (Some r)) →
  service_sim (<[i := (route, c')]> cs) w' rs'.
Proof.
  intros Hs Hi Hok Hw' Hso Hr Hu Hrid Hb Hrs. pose proof Hs as [Hro Hw Hs0 Hruns Huu [Hl Hrep]]. split.
  - rewrite list_fmap_insert, Hro. apply list_insert_id. rewrite <-Hro, list_lookup_fmap, Hi. done.
  - done.
  - done.
  - eapply runs_move; [exact Hruns|exact Hi|done| |done|done|done]. split; [done|]. intros _. exact (fw_jobs _ _ _ _ Hw').
  - pose proof (sum_list_with_insert client_uuids cs i _ (route, c') Hi). lia.
  - rewrite length_insert. split; [by destruct Hrs as [[-> _]|(r & -> & _)]; rewrite ?length_insert|].
    intros j cj slot Hj Hslot. destruct (lookup_insert_cases _ _ _ _ _ _ Hi Hj) as [[-> ->]|[Hne Hj']].
    + destruct Hrs as [[-> Hk]|(r & -> & Hk)]; [by apply Hk, (Hrep i (route, c))|].
      rewrite list_lookup_insert_eq in Hslot by (rewrite Hl; by eapply lookup_lt_Some). by injection Hslot as <-.
    + apply (Hrep j); [done|]. destruct Hrs as [[-> _]|(r & -> & _)]; [done|]. by rewrite list_lookup_insert_ne in Hslot.
Qed.

(** What a block of client [i] does. *)
Definition block_served (cs : list (Route * client)) (w : world) (rs : list (option Response)) (i : nat)
    (route : Route) (c : client) : Prop :=
  ∃ c' w' rs', run_block (thread_of i (route, c)) (w, rs) = (thread_of i (route, c'), (w', rs'))
    ∧ service_sim (<[i := (route, c')]> cs) w' rs'
    ∧ (client_blocks (route, c') < client_blocks (route, c))%nat.

(** A block of the request's own run [rid] within [guar]. *)
Lemma service_guar cs w rs rid w' :
  service_sim cs w rs → known w rid → guar rid w w' → run_legal rid w' →
  fresh_world jobs base N w' ∧ sound w' ∧ (∀ r, Some rid ≠ Some r → rely r w w') ∧ w_uuids w' = w_uuids w.
Proof.
  intros Hs Hk HG Hl. split; [by eapply fresh_world_guar; [apply Hs|..]|]. split; [|split; [|apply HG]].
  - apply (sound_step rid w); [apply Hs| |done]. intros r Hr. by apply (gu_others _ _ _ HG).
  - intros r Hr. apply (gu_others _ _ _ HG). congruence.
Qed.

Lemma service_post cs w rs i route mk jobId trig input :
  service_sim cs w rs → cs !! i = Some (route, Posting mk) → route = PostRun jobId trig input → made mk = false →
  block_served cs w rs i route (Posting mk).
Proof.
  intros Hs Hi -> Hmd. pose proof (ss_runs _ _ _ Hs) as Hruns.
  pose proof (ro_ok _ _ _ _ _ _ _ _ Hruns _ _ Hi) as Hmk. cbn in Hmk.
  destruct (Hposts _ _ _ (service_route _ _ _ _ _ _ Hs Hi)) as [Hfix Hdef].
  destruct (making_step jobs base N Hids jobId (default "api" trig) (default [] input) Hfix
    (λ def Hget, proj2 (proj2 (Hdef def Hget))) mk w) as (mk' & w' & Hb & [Hok' Hf' Ho Hu Hr Hbu Hbl Hso]);
    [apply Hs|done|..|done|].
  { intros rid Hr. by eapply (ro_known _ _ _ _ _ _ _ _ Hruns). }
  { pose proof (ss_uuids _ _ _ Hs). pose proof (sum_list_with_insert client_uuids cs i _ (GetHealth, Arrived) Hi) as Hsum.
    cbn -[making_uuids] in Hsum. lia. }
  exists (Posting mk'), w', rs. split; [|split].
  - cbn [thread_of fst snd]. by rewrite posting_block, Hb.
  - eapply service_move; [exact Hs|exact Hi|done|done|by apply Hso, Hs|done|done|done|exact Hbu|by left].
  - cbn [client_blocks]. lia.
Qed.

Lemma service_arrive cs w rs i route :
  service_sim cs w rs → cs !! i = Some (route, Arrived) → posts route = true → block_served cs w rs i route Arrived.
Proof.
  intros Hs Hi Hp. destruct route as [| | | |jobId trig input| | | | | |]; try done.
  destruct (Hposts _ _ _ (service_route _ _ _ _ _ _ Hs Hi)) as [Hfix _].
  exists (Posting (JobRead (job_get jobId jobs))), w, rs. split; [|split].
  - cbn [thread_of fst snd]. rewrite block_arrived, (fw_jobs _ _ _ _ (ss_world _ _ _ Hs)) by done. done.
  - eapply service_move; [exact Hs|exact Hi|done|apply Hs|apply Hs|done|done|done|done|by left].
  - cbn [client_blocks]. lia.
Qed.

(** The block that registers a definition. *)
Lemma registering_stays route m w :
  route ∈ routes → registration_of fuel route = Some m → let w' := (m w).2 in
  (∀ r, rely r w w') ∧ (fresh_world jobs base N w → fresh_world jobs base N w') ∧ (sound w → sound w')
  ∧ w_uuids w' = w_uuids w.
Proof.
  intros Hin Hm. destruct (registration_registering _ _ _ w Hm) as [[Hw Hr _ Hl Hk Hu] Hj].
  pose proof (Hregs _ _ Hin Hm w) as Hid. cbn [with_jobs w_workflows w_runs w_localLocks w_locks w_uuids] in *.
  assert (∀ id, fixed_job id → job_get id (w_jobs (m w).2) = job_get id (w_jobs w)) as Hjobs.
  { intros id Hf. destruct (m w).1 as [def|e|]; rewrite Hj; [|done..]. rewrite job_get_save, decide_False; [done|congruence]. }
  split; [|split; [|split; [|done]]].
  - intros r. split; unfold ids_apart; rewrite ?Hw, ?Hr, ?Hl, ?Hk; try done.
  - intros [Hok Hkm Hjb Hba Hun Huw]. unfold unlocked in *. split; unfold unlocked; rewrite ?Hw, ?Hl, ?Hk, ?Hu; try done.
    intros id Hf. rewrite Hjobs by done. by apply Hjb.
  - intros Hs r wf Hwf. rewrite Hw in Hwf. by apply Hs.
Qed.

Lemma service_register cs w rs i route m :
  service_sim cs w rs → cs !! i = Some (route, Arrived) → registration_of fuel route = Some m →
  block_served cs w rs i route Arrived.
Proof.
  intros Hs Hi Hm. pose proof (service_route _ _ _ _ _ _ Hs Hi) as Hin.
  destruct (registering_stays route m w Hin Hm) as (Hr & Hf & Hso & Hu).
  pose proof (block_registers i route m w rs Hm) as Hb. pose proof (Hregs _ _ Hin Hm w) as Hend.
  assert (posts route = false ∧ own_run route = None) as [Hp Ho] by by destruct route.
  assert (∀ r, (match (m w).1 with Ok def => r = (registered_answer route def).1 | Throw e => r = error_response e | OutOfFuel => False end) →
    response_ok route r) as Hans.
  { intros r Hr'. assert (∃ w, match (m w).1 with Ok def => r = (registered_answer route def).1 | Throw e => r = error_response e | OutOfFuel => False end)
      as Hex by by exists w. destruct route; try done; cbn in Hm |- *; first [injection Hm as <-; exact Hex|by rewrite Hm]. }
  assert (∀ n t, client_ok (route, Working n t) (m w).2 → (Threads.blocks n t ≤ 2)%nat →
    run_block (request_async fuel i route) (w, rs) = (finish i fuel t, ((m w).2, rs)) → block_served cs w rs i route Arrived) as Hgoal.
  { intros n t Hok Hn Heq. exists (Working n t), (m w).2, rs. split; [exact Heq|]. split.
    - eapply service_move; [exact Hs|exact Hi|done|by apply Hf, Hs|by apply Hso, Hs|done|by rewrite Hu| | |by left].
      + unfold client_rid. cbn [fst snd]. by rewrite Ho.
      + rewrite Hu. rewrite uuids_served by done. lia.
    - rewrite blocks_working. destruct route; try done; cbn [client_blocks]; lia. }
  destruct (m w).1 as [def|e|] eqn:Hres; [..|done].
  - refine (Hgoal 1%nat _ _ _ Hb); [|cbn; lia]. split; [done|]. cbn [fst]. rewrite Ho. intros w' _.
    split; [done|]. intros w'' _. cbn. unfold registered_answer. destruct route; try done; (split; [done|by apply Hans]).
  - refine (Hgoal 0%nat _ _ _ Hb); [|cbn; lia]. split; [done|]. cbn [fst]. rewrite Ho. intros w' _. by apply Hans.
Qed.

(** The answer to a [POST] of a run, and the first block of its execution. *)
Lemma service_made cs w rs i route mk jobId trig input :
  service_sim cs w rs → cs !! i = Some (route, Posting mk) → route = PostRun jobId trig input → made mk = true →
  block_served cs w rs i route (Posting mk).
Proof.
  intros Hs Hi -> Hmd. pose proof (ss_runs _ _ _ Hs) as Hruns.
  pose proof (ro_ok _ _ _ _ _ _ _ _ Hruns _ _ Hi) as Hmk. cbn in Hmk.
  destruct mk as [| | |run wf def|e]; [done..| |].
  - destruct Hmk as [[Hget (x & Hdr)] Hready].
    destruct (proj2 (Hposts _ _ _ (service_route _ _ _ _ _ _ Hs Hi)) def Hget) as (Hex & Hfuel & _).
    destruct (wp_run_block (rely (run_id run)) (guar (run_id run)) (run_legal (run_id run)) (run_over (run_id run) def)
      (run_blocks def) (executeRun_async fuel (run_id run)) w) as (n' & HG & Hpk & Hlt & HJ); [..|done|].
    { intros o w1 w2 (wf' & Hrest & Hend) Hr. exists wf'. split; [by eapply resting_stable|done]. }
    { apply (wp_weaken _ _ (holding (run_id run))); [apply holding_legal|]. by apply (wp_executeRun_end _ fuel def wf). }
    pose proof (run_block_framed (executeRun_async fuel (run_id run)) w
      (<[i := Some (mkResponse 202 (RunBody run (wf_id wf)))]> rs)) as Hb.
    destruct (run_block (executeRun_async fuel (run_id run)) w) as [t' w'] eqn:Ht. cbn [fst snd] in *.
    assert (run_legal (run_id run) w') as Hl.
    { destruct (is_done t') eqn:Hd; [|by apply HJ]. destruct t' as [o| |]; [|done..].
      destruct (Hpk w') as (wf' & Hrest & _); [done|]. by eapply resting_legal. }
    destruct (service_guar cs w rs (run_id run) w' Hs) as (Hf' & Hs' & Ho & Hu);
      [by eapply (ro_known _ _ _ _ _ _ _ _ Hruns)|done|done|].
    exists (Executing (run_id run) def n' t'), w'. eexists. split; [|split].
    + cbn [thread_of fst snd making_thread]. rewrite block_posted. exact Hb.
    + eapply service_move; [exact Hs|exact Hi|done|done|done|exact Ho|by rewrite Hu|by left|rewrite Hu; cbn; lia|].
      right. eexists. split; [done|]. exists run, (wf_id wf). split; [done|]. split; [done|]. cbn. rewrite Hget.
      destruct Hdr as [(_ & Hj & Hst) _ _ _ _]. eauto.
    + cbn [client_blocks making_blocks]. rewrite Hget. cbn [after_post]. unfold Threads.blocks at 2 in Hlt.
      cbn [is_done executeRun_async] in Hlt. cbn -[run_blocks] in Hlt. lia.
  - destruct Hmk as [Hget ->]. exists Served, w. eexists. split; [|split].
    + cbn [thread_of fst snd making_thread]. apply block_not_posted.
    + eapply service_move; [exact Hs|exact Hi|done|apply Hs|apply Hs|done|done|done|cbn; lia|].
      right. eexists. split; [done|]. eexists. split; [done|]. split; [cbn; by rewrite Hget|apply error_not_run].
    + cbn [client_blocks making_blocks]. rewrite Hget. cbn. lia.
Qed.

(** A handler that has its result is answered. *)
Lemma service_done cs w rs i route n o :
  service_sim cs w rs → cs !! i = Some (route, Working n (Done o)) → block_served cs w rs i route (Working n (Done o)).
Proof.
  intros Hs Hi. destruct (ro_ok _ _ _ _ _ _ _ _ (ss_runs _ _ _ Hs) _ _ Hi) as (Ha & Hpk). cbn [fst snd] in *.
  assert (answered route o ∧ client_ok (route, Served) w) as [Hans Hok].
  { unfold client_ok. cbn [fst snd]. destruct (own_run route) as [rid|]; [|by split; [apply (Hpk w)|]].
    by apply (Hpk w). }
  destruct (block_finished i route o w rs Ha Hans) as (r & Hb & Hr).
  exists Served, w, (<[i := Some r]> rs). split; [exact Hb|]. split; [|rewrite blocks_working; destruct route; cbn; lia].
  eapply service_move; [exact Hs|exact Hi|done|apply Hs|apply Hs|done|done|by left| |by right; exists r].
  by rewrite !uuids_served.
Qed.

(** A block of a handler before it has its result. *)
Lemma working_block cs w rs i route n t :
  service_sim cs w rs → cs !! i = Some (route, Working n t) → is_done t = false →
  ∃ n' t' w', run_block t w = (t', w') ∧ client_ok (route, Working n' t') w'
    ∧ fresh_world jobs base N w' ∧ sound w' ∧ (∀ r, own_run route ≠ Some r → rely r w w') ∧ w_uuids w' = w_uuids w
    ∧ (Threads.blocks n' t' < Threads.blocks n t)%nat.
Proof.
  intros Hs Hi Hd. pose proof (λ rid, ro_known _ _ _ _ _ _ _ _ (ss_runs _ _ _ Hs) _ _ rid Hi) as Hkn.
  destruct (ro_ok _ _ _ _ _ _ _ _ (ss_runs _ _ _ Hs) _ _ Hi) as (Ha & Hpk). cbn [fst snd] in *.
  unfold client_ok. cbn [fst snd].
  destruct (own_run route) as [rid|] eqn:Ho.
  - destruct (wp_run_block (rely rid) (guar rid) (run_legal rid) (executed route rid) n t w)
      as (n' & HG & Hpk' & Hlt & HJ); [|by apply Hpk|done|].
    { intros o w1 w2 (Hans & o' & wf & He & Hr) Hw. split; [done|]. exists o', wf. split; [done|by eapply resting_stable]. }
    destruct (run_block t w) as [t' w'] eqn:Hb. cbn [fst snd] in *.
    assert (run_legal rid w') as Hl.
    { destruct (is_done t') eqn:Hd'; [|by apply HJ]. destruct t' as [o| |]; [|done..].
      destruct (Hpk' w') as (_ & o' & wf & _ & Hr); [done|]. by eapply resting_legal. }
    destruct (service_guar cs w rs rid w' Hs) as (Hf & Hso & Hr & Hu); [by apply Hkn|done|done|].
    by exists n', t', w'.
  - destruct (wp_run_block kept eq (λ _, True) (λ o _, answered route o) n t w)
      as (n' & HG & Hpk' & Hlt & _); [done|by apply Hpk|done|].
    destruct (run_block t w) as [t' w'] eqn:Hb. cbn [fst snd] in *. subst w'.
    exists n', t', w. split_and!; try done; apply Hs.
Qed.

Lemma service_work cs w rs i route n t :
  service_sim cs w rs → cs !! i = Some (route, Working n t) → block_served cs w rs i route (Working n t).
Proof.
  intros Hs Hi. destruct (is_done t) eqn:Hd; [destruct t; [by apply service_done|done..]|].
  destruct (working_block _ _ _ _ _ _ _ Hs Hi Hd) as (n' & t' & w' & Hb & Hok & Hf & Hso & Ho & Hu & Hlt).
  assert (service_sim (<[i := (route, Working n' t')]> cs) w' rs) as Hs'.
  { eapply service_move; [exact Hs|exact Hi|done|done|done|exact Ho|by rewrite Hu|by left| |by left].
    by rewrite Hu, !uuids_served. }
  unfold block_served. rewrite blocks_working.
  destruct (finish_block i t w rs) as [Hfb|[Hd' Hfb]]; rewrite Hb in *; cbn [fst snd] in *.
  - exists (Working n' t'), w', rs. split; [exact Hfb|]. split; [done|]. rewrite blocks_working. lia.
  - destruct t' as [o| |]; [|done..].
    destruct (service_done _ _ _ i route n' o Hs') as (c' & w2 & rs2 & Hb2 & Hs2 & Hlt2); [by eapply lookup_insert_here|].
    exists c', w2, rs2. split; [etrans; [exact Hfb|exact Hb2]|].
    rewrite list_insert_insert_eq in Hs2. split; [done|]. rewrite blocks_working in Hlt2. lia.
Qed.

(** A block of an execution that was not awaited. *)
Lemma service_execute cs w rs i route rid def n t :
  service_sim cs w rs → cs !! i = Some (route, Executing rid def n t) → is_done t = false →
  block_served cs w rs i route (Executing rid def n t).
Proof.
  intros Hs Hi Hd. pose proof (ro_ok _ _ _ _ _ _ _ _ (ss_runs _ _ _ Hs) _ _ Hi) as Hok.
  cbn in Hok. destruct route as [| | | |jobId trig input| | | | | |]; try done. destruct Hok as [Hget Hpk].
  destruct (wp_run_block (rely rid) (guar rid) (run_legal rid) (run_over rid def) n t w)
    as (n' & HG & Hpk' & Hlt & HJ); [|by apply Hpk|done|].
  { intros o w1 w2 (wf' & Hrest & Hend) Hr. exists wf'. split; [by eapply resting_stable|done]. }
  pose proof (run_block_framed t w rs) as Hb.
  destruct (run_block t w) as [t' w'] eqn:Ht. cbn [fst snd] in *.
  assert (run_legal rid w') as Hl.
  { destruct (is_done t') eqn:Hd'; [|by apply HJ]. destruct t' as [o| |]; [|done..].
    destruct (Hpk' w') as (wf' & Hrest & _); [done|]. by eapply resting_legal. }
  destruct (service_guar cs w rs rid w' Hs) as (Hf' & Hs' & Ho & Hu);
    [by eapply (ro_known _ _ _ _ _ _ _ _ (ss_runs _ _ _ Hs))|done|done|].
  exists (Executing rid def n' t'), w', rs. split; [exact Hb|]. split; [|done].
  eapply service_move; [exact Hs|exact Hi|done|done|done|exact Ho|by rewrite Hu|by left|by rewrite Hu|by left].
Qed.

(** Every block of every request. *)
Lemma service_block cs w rs i route c :
  service_sim cs w rs → cs !! i = Some (route, c) → is_done (thread_of i (route, c)) = false →
  block_served cs w rs i route c.
Proof.
  intros Hs Hi Hd. destruct c as [|mk|n t|rid def n t|].
  - destruct (ro_ok _ _ _ _ _ _ _ _ (ss_runs _ _ _ Hs) _ _ Hi) as [Hp|[m Hm]];
      [by apply service_arrive|by eapply service_register].
  - pose proof (ro_ok _ _ _ _ _ _ _ _ (ss_runs _ _ _ Hs) _ _ Hi) as Hok. cbn in Hok.
    destruct route as [| | | |jobId trig input| | | | | |] eqn:Hr; try done.
    destruct (made mk) eqn:Hmd; [by eapply service_made|by eapply service_post].
  - by apply service_work.
  - apply service_execute; [done|done|]. by destruct t.
  - done.
Qed.

Lemma service_steps k cs w rs p :
  service_sim cs w rs → nsteps pool_step k (imap thread_of cs, (w, rs)) p →
  ∃ cs' w' rs', p = (imap thread_of cs', (w', rs')) ∧ service_sim cs' w' rs'
    ∧ (k + sum_list_with client_blocks cs' ≤ sum_list_with client_blocks cs)%nat.
Proof.
  intros Hs Hk. remember (imap thread_of cs, (w, rs)) as p0 eqn:Hp0. revert cs w rs Hs Hp0.
  induction Hk as [p0|k p0 p1 p Hstep Hk IH]; intros cs w rs Hs ->; [by exists cs, w, rs|].
  inversion Hstep as [ts i t x Ht Hd]; subst.
  rewrite list_lookup_imap in Ht. destruct (cs !! i) as [[route c]|] eqn:Hi; [|done].
  assert (t = thread_of i (route, c)) as -> by by injection Ht.
  destruct (service_block _ _ _ _ _ _ Hs Hi Hd) as (c1 & w1 & rs1 & Hb & Hs1 & Hlt).
  destruct (IH (<[i := (route, c1)]> cs) w1 rs1) as (cs' & w' & rs' & -> & Hs' & Hle); [done| |].
  - rewrite Hb. cbn [fst snd]. by rewrite imap_insert.
  - exists cs', w', rs'. split; [done|]. split; [done|].
    pose proof (sum_list_with_insert client_blocks cs i _ (route, c1) Hi). lia.
Qed.

(** The answers in a reachable state. *)
Lemma reply_response c r : reply_ok c (Some r) → response_ok c.1 r.
Proof.
  destruct c as [route [| |n t|rid def n t|]]; cbn; try done.
  - by intros (run & x & [= ->] & _ & Hr).
  - by intros (r' & [= ->] & Hr & _).
Qed.

Lemma reply_run c s run x : reply_ok c (Some (mkResponse s (RunBody run x))) → client_rid c = Some (run_id run).
Proof.
  destruct c as [route [| |n t|rid def n t|]]; cbn; try done.
  - by intros (run' & x' & [= -> -> ->] & <- & _).
  - intros (r' & [= <-] & _ & Hno). destruct Hno. by exists run, x.
Qed.

Lemma service_reply cs w rs i route :
  service_sim cs w rs → routes !! i = Some route →
  ∃ c slot, cs !! i = Some (route, c) ∧ rs !! i = Some slot ∧ client_ok (route, c) w ∧ reply_ok (route, c) slot.
Proof.
  intros Hs Hi. rewrite <-(ss_routes _ _ _ Hs), list_lookup_fmap in Hi.
  destruct (cs !! i) as [[route' c]|] eqn:Hc; [|done]. injection Hi as ->.
  destruct (service_slot _ _ _ _ _ Hs Hc) as (slot & Hslot & Hr).
  exists c, slot. split_and!; [done|done|by apply (ro_ok _ _ _ _ _ _ _ _ (ss_runs _ _ _ Hs) _ _ Hc)|done].
Qed.

Lemma service_distinct cs w rs i j s1 s2 r1 r2 x1 x2 :
  service_sim cs w rs → rs !! i = Some (Some (mkResponse s1 (RunBody r1 x1))) →
  rs !! j = Some (Some (mkResponse s2 (RunBody r2 x2))) → run_id r1 = run_id r2 → i = j.
Proof.
  intros Hs Hi Hj Heq. destruct (ss_replies _ _ _ Hs) as [Hl Hr].
  destruct (lookup_lt_is_Some_2 cs i) as [c1 Hc1]; [rewrite <-Hl; by eapply lookup_lt_Some|].
  destruct (lookup_lt_is_Some_2 cs j) as [c2 Hc2]; [rewrite <-Hl; by eapply lookup_lt_Some|].
  eapply (ro_apart _ _ _ _ _ _ _ _ (ss_runs _ _ _ Hs)); [exact Hc1|exact Hc2|by eapply reply_run, Hr|].
  rewrite Heq. by eapply reply_run, Hr.
Qed.
End simulation.

(** ** From the start to the end *)

Definition start_client (route : Route) : Route * client := (route, start_of route).

Lemma start_of_cases route :
  (start_of route = Arrived ∧ (posts route = true ∨ is_Some (registration_of fuel route)))
  ∨ (start_of route = Working (work_blocks route) (route_async fuel route)
     ∧ posts route = false ∧ registration_of fuel route = None).
Proof.
  unfold start_of. destruct route; cbn [registration_of posts]; try by (right + (left; split; [|eauto])).
  destruct source as [s|]; [|by right]. destruct (truthy_string s); [left; eauto|by right].
Qed.

Lemma start_thread i route : thread_of i (start_client route) = request_async fuel i route.
Proof. unfold start_client, thread_of. cbn [fst snd]. by destruct (start_of_cases route) as [[-> _]|[-> _]]. Qed.

Lemma start_rid route : client_rid (start_client route) = own_run route.
Proof. unfold start_client, client_rid. cbn [fst snd]. by destruct (start_of_cases route) as [[-> _]|[-> _]]. Qed.

(** The run a request has left behind, or works on, has ended. *)
Definition settled (route : Route) (r : Response) (w : world) : Prop :=
  match route, rs_body r with
  | PostRun jobId _ _, RunBody run _ =>
      ∃ def o wf, job_get jobId jobs = Some def ∧ run_end def o wf ∧ resting (run_id run) wf w
  | _, _ =>
      match own_run route with
      | Some rid => ∃ o wf, run_end (def_of rid) o wf ∧ resting rid wf w
      | None => True
      end
  end.

Lemma finish_not_done i (t : async answering) : t ≠ Done OutOfFuel → is_done (finish i fuel t) = false.
Proof. by destruct t as [[]| |]. Qed.

(** When its thread is done, a request is answered and its run has ended. *)
Lemma client_settled i c slot w :
  client_ok c w → reply_ok c slot → is_done (thread_of i c) = true → ∃ r, slot = Some r ∧ settled c.1 r w.
Proof.
  destruct c as [route c]. intros Hok Hr Hd. unfold client_ok, reply_ok, thread_of in *.
  destruct c as [|mk|n t|rid def n t|]; cbn [fst snd] in *.
  - destruct Hok as [Hp|[m Hm]]; [by destruct route|]. unfold request_async in Hd.
    by rewrite (route_registers _ _ _ Hm) in Hd.
  - destruct route as [| | | |jobId trig input| | | | | |]; try done. exfalso. unfold posting in Hd.
    rewrite finish_not_done in Hd; [done|]. by destruct mk.
  - destruct Hok as (_ & Hok). rewrite finish_not_done in Hd; [done|]. intros ->.
    destruct (own_run route); by destruct (Hok w).
  - destruct route as [| | | |jobId trig input| | | | | |]; try done. destruct Hok as [Hget Hok].
    destruct Hr as (run & x & -> & Hid & _). eexists. split; [done|]. destruct t as [o| |]; [|done..].
    destruct (Hok w) as (wf & Hrest & Hend); [done|]. exists def, o, wf. by rewrite Hid.
  - destruct Hr as (r & -> & _ & Hno). exists r. split; [done|]. destruct route; try exact Hok.
    unfold settled. destruct (rs_body r) eqn:Hb; try done. destruct Hno. by do 2 eexists.
Qed.
End knowledge.

(** What the requests need of the world they arrive in: a run is only asked for
    of a job that no request registers, and its definition, if there is one, is
    executable; registrations end; the runs to be executed are pending, one
    request each; none of the UUIDs the requests will draw, at most [N], is in
    use; and every stored history is legal. *)
Record requests_ready (N : nat) (routes : list Route) (w : world) : Prop := {
  rq_registers : ∀ route m, route ∈ routes → registration_of fuel route = Some m → ∀ w,
    match (m w).1 with Ok def => ¬ fixed_job (jd_id def) | Throw _ => True | OutOfFuel => False end;
  rq_posts : ∀ jobId trig input, PostRun jobId trig input ∈ routes → fixed_job jobId ∧
    ∀ def, job_get jobId (w_jobs w) = Some def →
      executable def ∧ (attempts_of def < fuel)%nat ∧ NoDup (td_id <$> tasks def);
  rq_own : ∀ route rid, route ∈ routes → own_run route = Some rid →
    known (w_uuids w) N w rid ∧ executable (def_of rid) ∧ (attempts_of (def_of rid) < fuel)%nat
    ∧ ∃ wf, ready rid (def_of rid) wf w;
  rq_apart : ∀ i j ri rj rid, routes !! i = Some ri → routes !! j = Some rj →
    own_run ri = Some rid → own_run rj = Some rid → i = j;
  rq_uuids : uuids_distinct (w_uuids w) N;
  rq_enough : (sum_list_with (λ route, client_uuids (w_jobs w) (start_client route)) routes ≤ N)%nat;
  rq_world : fresh_world (w_jobs w) (w_uuids w) N w;
  rq_sound : sound w;
}.

(** Every request starts in its first stage. *)
Lemma client_start N routes w route :
  requests_ready N routes w → route ∈ routes → client_ok (w_jobs w) (start_client route) w.
Proof.
  intros Hq Hin. unfold client_ok, start_client. cbn [fst snd].
  destruct (start_of_cases route) as [[-> Ha]|(-> & Hp & Hg)]; [done|]. split; [done|].
  destruct (own_run route) as [rid|] eqn:Ho; intros w' Hw'.
  - destruct (rq_own _ _ _ Hq route rid Hin Ho) as (_ & Hex & Hf & wf & Hr).
    apply (wp_own_route (w_jobs w) route rid wf); [done..|]. by eapply ready_stable.
  - apply wp_read_route; [done|done|done|by apply Hw', Hq|by apply Hw'].
Qed.

Lemma service_start N routes w :
  requests_ready N routes w →
  service_sim (w_jobs w) (w_uuids w) N routes (start_client <$> routes) w (replicate (length routes) None).
Proof.
  intros Hq.
  assert (∀ i c, (start_client <$> routes) !! i = Some c →
    ∃ route, routes !! i = Some route ∧ route ∈ routes ∧ c = start_client route ∧ client_rid c = own_run route) as Hat.
  { intros i c Hi. rewrite list_lookup_fmap in Hi. destruct (routes !! i) as [route|] eqn:Hr; [|done].
    injection Hi as <-. exists route. split; [done|]. split; [by eapply list_elem_of_lookup_2|]. split; [done|apply start_rid]. }
  split.
  - rewrite <-list_fmap_compose. apply list_fmap_id.
  - apply Hq.
  - apply Hq.
  - split; [..|set_solver|set_solver].
    + intros i c (route & Hr & Hin & -> & _)%Hat. by eapply client_start.
    + intros i c rid (route & Hr & Hin & _ & ->)%Hat Ho. by eapply rq_own.
    + intros i j c c' rid (ri & Hri & _ & _ & ->)%Hat (rj & Hrj & _ & _ & ->)%Hat Hi Hj. by eapply (rq_apart _ _ _ Hq).
  - pose proof (rq_enough _ _ _ Hq). rewrite sum_list_with_fmap. unfold compose. lia.
  - split; [by rewrite length_replicate, length_fmap|]. intros i c slot (route & _ & _ & -> & _)%Hat [-> _]%lookup_replicate_1.
    unfold reply_ok, start_client. cbn [fst snd]. by destruct (start_of_cases route) as [[-> _]|[-> _]].
Qed.

(** ** Properties *)

End clients.
End requests.

(** ** Nine requests over two new runs and one that was there before *)

Section witnesses.
(** The second call of the simulator fails. *)
#[local] Instance second_simulation_fails : Environment := scripted (λ k, negb (bool_decide (k = 1%nat))).

(** The jobs that are run. *)
#[local] Instance run_jobs : FixedJobs := λ id, id ∈ ["job_demo"; "missing"].
#[local] Instance run_jobs_dec id : Decision (fixed_job id).
Proof. unfold fixed_job, run_jobs. apply _. Defined.

Definition demo_other : JobDefinitionInput := mkInput "job_other" "Other" 1 None example_tasks None None None None.

Definition demo_service : demo_world := (createRun "job_demo" "manual" [] (demo_registered demo_definition)).2.

Definition demo_requests : list Route :=
  [PostRun "job_demo" None None; ExecuteRun "run_0"; PostRun "missing" None None; GetRun "run_0"; GetJobs;
   PostRun "job_demo" (Some "nightly") None; PostJobs demo_other; CompileDsl None None; GetJob "job_other"].

Notation demo_request := (request_async (λ _, "invalid") new_handler_registry 20).
Notation demo_ready := (requests_ready (λ _, "invalid") new_handler_registry 20 (λ _, demo_definition)).

(** The blocks of the requests in turn, to the end. *)
Definition requests_in_turn : nat * pool JsError (demo_world * list (option Response)) unit :=
  run_schedule (mjoin (replicate 80 (seq 0 9)))
    (imap demo_request demo_requests, (demo_service, replicate (length demo_requests) None)).

Lemma demo_job_only jobId def : job_get jobId (w_jobs demo_service) = Some def → def = demo_definition.
Proof.
  change (w_jobs demo_service) with (job_save demo_definition (w_jobs demo_empty)).
  rewrite job_get_save. case_decide; [congruence|done].
Qed.

Lemma demo_service_start : fresh_world (w_jobs demo_service) 0 60 (demo_registered demo_definition).
Proof.
  assert (w_locks (demo_registered demo_definition) = [] ∧ w_localLocks (demo_registered demo_definition) = []) as [Hk Hl] by done.
  split; [exact empty_workflow_store_ok|rewrite Hk; constructor|done|done|..].
  - intros j _. split; [rewrite Hl; set_solver|]. rewrite Hk. split; [done|constructor].
  - intros j r wf _ Hwf. discriminate Hwf.
Qed.

(** The run of [demo_service] is pending, and no id still to be drawn is in use. *)
Lemma demo_service_ready :
  (∃ wf, ready "run_0" demo_definition wf demo_service) ∧ sound demo_service
  ∧ fresh_world (w_jobs demo_service) (w_uuids demo_service) 30 demo_service
  ∧ known (w_uuids demo_service) 30 demo_service "run_0".
Proof.
  destruct (created_world (w_jobs demo_service) 0 60 "job_demo" "manual" [] demo_definition (demo_registered demo_definition))
    as (run & wf & w' & Hc & Hr & Hw & Hs & Hk & Hid & _).
  - apply (bool_decide_unpack _). by vm_compute.
  - by left.
  - intros def ->%demo_job_only. apply (bool_decide_unpack _). by vm_compute.
  - exact demo_service_start.
  - intros r wf Hwf. discriminate Hwf.
  - by vm_compute.
  - apply (bool_decide_unpack _). by vm_compute.
  - assert (w' = demo_service) as -> by (unfold demo_service; by rewrite Hc).
    assert (run_id run = "run_0") as Hrun by (rewrite Hid; by vm_compute). rewrite Hrun in *.
    assert (w_uuids demo_service + 30 ≤ 60)%nat as Hle by (apply (bool_decide_unpack _); by vm_compute).
    split; [by exists wf|]. split; [done|]. split.
    + apply (fresh_world_sub _ 0 60); [done|lia|lia|lia].
    + intros j Hj. apply Hk. lia.
Qed.

Lemma demo_own_run i route rid : demo_requests !! i = Some route → own_run route = Some rid → i = 1%nat ∧ rid = "run_0".
Proof.
  intros Hi Ho. do 9 (destruct i as [|i]; [injection Hi as <-; first [discriminate Ho|injection Ho as <-; done]|]). done.
Qed.

Lemma demo_registers i route (m : eff demo_world JobDefinition) :
  demo_requests !! i = Some route → registration_of (λ _, "invalid") new_handler_registry 20 route = Some m →
  route = PostJobs demo_other ∧ m = register (λ _, "invalid") new_handler_registry demo_other.
Proof.
  intros Hi Hm. do 9 (destruct i as [|i]; [injection Hi as <-; first [discriminate Hm|injection Hm as <-; done]|]). done.
Qed.

Lemma demo_requests_ready : demo_ready 30 demo_requests demo_service.
Proof.
  destruct demo_service_ready as (Hr & Hs & Hw & Hk). split; [..|exact Hw|exact Hs].
  - intros route m (i & Hi)%list_elem_of_lookup Hm w. destruct (demo_registers _ _ _ Hi Hm) as [-> ->].
    pose proof (register_id (λ _, "invalid") new_handler_registry demo_other w) as Hid.
    destruct (register _ _ _ _).1 as [def|e|]; [|done..]. rewrite Hid. apply (bool_decide_unpack _). by vm_compute.
  - intros jobId trig input Hin. split.
    + assert (Forall (λ route, match route with PostRun id _ _ => fixed_job id | _ => True end) demo_requests) as Hf
        by (repeat constructor; apply (bool_decide_unpack _); by vm_compute).
      rewrite Forall_forall in Hf. exact (Hf _ Hin).
    + intros def ->%demo_job_only. split; [by apply demo_executable|].
      split; apply (bool_decide_unpack _); by vm_compute.
  - intros route rid (i & Hi)%list_elem_of_lookup Ho. destruct (demo_own_run _ _ _ Hi Ho) as [_ ->].
    split; [exact Hk|]. split; [by apply demo_executable|]. split; [apply (bool_decide_unpack _); by vm_compute|exact Hr].
  - intros i j ri rj rid Hi Hj Hoi Hoj.
    destruct (demo_own_run _ _ _ Hi Hoi) as [-> _], (demo_own_run _ _ _ Hj Hoj) as [-> _]. done.
  - apply (bool_decide_unpack _). by vm_compute.
  - apply (bool_decide_unpack _). by vm_compute.
Qed.

End witnesses.
