(* ===== verification/Container.v ===== *)
(** * The container (container.ts, app.ts, index.ts)

    The wiring of the services: the state a new container starts from, field by
    field, with the configuration it is given; the way of an event from the
    orchestrator over the bus to its two subscribers, the metrics collector and
    the one that forwards to webhooks and notifications; and the start of the
    service from a configuration file. *)

From S2P Require Import Prelude Threads JsMap JsString JsNum DomainTypes JsValue Json Schema Connectors Domain Stores Metrics Handlers Validator Engine EngineThreads ExecInv Execution Registration EngineProps Guards HttpInvoker EventBus Webhooks Governance Replay Analytics Provisioning EnterpriseJobs Catalog Simulator JsonFiles Pool Batch Config Diagnostics Schedule Api.
Open Scope Z_scope.

(** ** Events *)

Inductive container_listener : Type := CollectMetrics | Forward.

#[export] Instance container_listener_eq_dec : EqDecision container_listener.
Proof. solve_decision. Defined.

(** Neither listener touches the bus. *)
Definition container_body (l : container_listener) (e : DomainEvent)
    : list (action (listener := container_listener) (event := DomainEvent)) := [].

Definition container_bus : EventBus := subscribe Forward (subscribe CollectMetrics new_bus).

Inductive Outgoing : Type :=
| EmitWebhook (tenantId : string) (event : WebhookEvent) (payload : jsrecord)
| NotifyRunFailure (runId jobName : string) (reason : FailureReason).

Definition forward (e : DomainEvent) : list Outgoing :=
  match e with
  | RunFailed runId reason _ =>
      [EmitWebhook "tenant_dev" EvRunFailed [("runId", JStr runId)]; NotifyRunFailure runId "workflow" reason]
  | RunCompleted runId _ => [EmitWebhook "tenant_dev" EvRunCompleted [("runId", JStr runId)]]
  | _ => []
  end.

(** What the subscribers keep: the metrics, and the calls of the services. *)
Record Observers : Type := mkObservers { ob_metrics : MetricsRegistry; ob_out : list Outgoing }.

Definition observe (o : Observers) (c : container_listener * DomainEvent) : Observers :=
  match c with
  | (CollectMetrics, e) => mkObservers (onDomainEvent e (ob_metrics o)) (ob_out o)
  | (Forward, e) => mkObservers (ob_metrics o) (ob_out o ++ forward e)
  end.

(** [orchestrator.onEvent((e) => eventBus.publish(e))]. *)
Definition on_event (s : EventBus * Observers) (e : DomainEvent) : EventBus * Observers :=
  let r := publish container_body 8 e s.1 in (bus r, foldl observe s.2 (calls r)).

(** ** The state of a new container *)

Notation service_world := (world (SqlJobRepository InMemoryJobStore) InMemoryWorkflowStore (SqlRunRepository InMemoryRunStore)).

(** The stores, the lock table and the metrics are in [ct_world]; a service whose
    only state is that of its stores has no field. *)
Record Container : Type := mkContainer {
  ct_config : EngineConfig;
  ct_log : Logger;
  ct_world : service_world;
  ct_bus : EventBus (listener := container_listener);
  ct_handlers : HandlerRegistry;
  ct_implementations : jsmap string implementation;
  ct_tenants : jsmap string TenantContext;
  ct_keys : list ApiKeyRecord;
  ct_schedules : Scheduler;
  ct_ticker : CronTimer;
  ct_webhooks : webhook_state;
  ct_channels : list NotificationChannel;
  ct_audit : list AuditRecord;
  ct_checkpoints : CheckpointStore;
  ct_series : TimeSeriesBuffer;
  ct_pool : WorkerPool;
  ct_batches : jsmap string BatchProgress;
  ct_breakers : jsmap string CircuitBreaker;
  ct_plugins : PluginLoader;
  ct_migrations : list Z;
}.

Definition new_world : service_world :=
  mkWorld (mkSqlJob []) empty_workflow_store (mkSqlRun []) [] [] [] [] empty_registry 0 0 0.

Definition createContainer (config : option EngineConfig) : Container :=
  let resolved := default DEFAULT_CONFIG config in {|
    ct_config := resolved;
    ct_log := createLogger resolved [];
    ct_world := new_world;
    ct_bus := container_bus;
    ct_handlers := new_handler_registry;
    ct_implementations := byName;
    ct_tenants := (tenant_register "tenant_dev" Domain.Development []).2;
    ct_keys := [];
    ct_schedules := mkScheduler [] 0 0 [];
    ct_ticker := new_timer;
    ct_webhooks := mkWebhookState [] [] 0 0 0;
    ct_channels := [email_channel (mkEmail "jobflow@internal" "smtp.internal" true)];
    ct_audit := [];
    ct_checkpoints := [];
    ct_series := [];
    ct_pool := new_pool (workerConcurrency resolved);
    ct_batches := [];
    ct_breakers := [];
    ct_plugins := [];
    ct_migrations := [];
  |}.

(** What the simulator reads of the configuration. *)
Definition simulator_config (config : EngineConfig) : SimulatorConfig :=
  mkSimulatorConfig (simulateLatencyMs config).1 (simulateLatencyMs config).2 (config_failRatePercent config).

(** The calls of the forwarding subscriber that reach a notification channel:
    how many channels took the message. *)
Definition notified (c : Container) (out : Outgoing) : option (res Z) :=
  match out with
  | NotifyRunFailure runId jobName reason =>
      Some (notifyRunFailure (ct_channels c) runId jobName (FailureReason_string reason))
  | EmitWebhook _ _ _ => None
  end.

(** ** The start of the service (app.ts, api/server.ts, index.ts) *)

Definition with_started (w : service_world) (ticker : CronTimer) (migrations : list Z) (c : Container) : Container :=
  mkContainer (ct_config c) (ct_log c) w (ct_bus c) (ct_handlers c) (ct_implementations c) (ct_tenants c) (ct_keys c)
    (ct_schedules c) ticker (ct_webhooks c) (ct_channels c) (ct_audit c) (ct_checkpoints c) (ct_series c) (ct_pool c)
    (ct_batches c) (ct_breakers c) (ct_plugins c) migrations.

(** The migrations, the catalogue, and the server with its cron ticker. *)
Definition start_services `{Environment} (c : Container) : Container :=
  let '(migrations, _) := migrate ALL_MIGRATIONS None (ct_migrations c) in
  let '(_, w) := seedIfEmpty (ct_world c) in
  with_started w (ticker_start (ct_ticker c)) migrations c.

(** [bootstrap(configPath)], as far as [loadConfig] has an outcome. *)
Definition bootstrap `{Environment} `{Zod} {F : Type} `{FileSystem F} (syntax_error : string → JsError)
    (schema_message : schema → json → string) (fs : F) (configPath : option string) : option (res Container) :=
  let config := if truthy_opt configPath then loadConfig syntax_error schema_message fs configPath
                else Some (Ok DEFAULT_CONFIG) in
  match config with
  | Some (Ok config) => Some (Ok (start_services (createContainer (Some config))))
  | Some (Throw e) => Some (Throw e)
  | Some OutOfFuel => Some OutOfFuel
  | None => None
  end.

(** index.ts: the status with which a failed start ends the process. *)
Definition exit_status (o : res Container) : option Z := match o with Throw _ => Some 1 | _ => None end.

(** [buildApp]: a limiter without buckets in front of the container's services. *)
Definition buildApp (c : Container) : server := mkServer (ct_world c) (ct_keys c) [] [].

(** ** Properties *)

Lemma on_event_container o e :
  on_event (container_bus, o) e =
    (container_bus, mkObservers (onDomainEvent e (ob_metrics o)) (ob_out o ++ forward e)).
Proof. reflexivity. Qed.

(** Every event reaches both subscribers, once and in the order of publication. *)
Lemma on_events_container o es :
  foldl on_event (container_bus, o) es =
    (container_bus, mkObservers (foldl (λ m e, onDomainEvent e m) (ob_metrics o) es) (ob_out o ++ es ≫= forward)).
Proof.
  revert o. induction es as [|e es IH]; intros o; cbn [foldl].
  - cbn. rewrite app_nil_r. by destruct o.
  - rewrite on_event_container, IH. cbn [ob_metrics ob_out]. rewrite <-app_assoc. done.
Qed.

Section properties.
Context {JS WS RS : Type} `{JobDefinitionStoreLaws JS} `{!WorkflowStore WS} `{!WorkflowStoreLaws WS}
  `{!RunStore RS} `{!RunStoreLaws RS} `{Environment}.
Notation world := (world JS WS RS).

(** C40: An execution, from any state of its run, publishes [workflow.transitioned]
    events of that run and nothing else.  Over the container's bus these reach
    both subscribers and change nothing: no run is ever counted as started,
    completed or failed, no webhook is emitted and nobody is notified, whereas a
    [run.completed] or [run.failed] event would emit one. *)
Theorem run_notifies_nobody (rid : string) (wf : WorkflowInstance) (w : world) (fuel : nat) (o : Observers)
    (Hinv : exec_inv rid w wf w) (Hl : unlocked rid w) :
  let w' := (executeRun fuel rid w).2 in
  (∃ evs, w_events w' = w_events w ++ evs
     ∧ Forall (λ e, ∃ from to event at_, e = WorkflowTransitioned rid from to event at_) evs
     ∧ foldl on_event (container_bus, o) evs = (container_bus, o))
  ∧ counters (w_metrics w') = counters (w_metrics w)
  ∧ ∀ at_, ob_out (on_event (container_bus, o) (RunCompleted rid at_)).2
           = ob_out o ++ [EmitWebhook "tenant_dev" EvRunCompleted [("runId", JStr rid)]].
Proof.
  destruct (executeRun_invariant rid wf w fuel Hinv Hl) as (wf' & w1 & Heq & Hinv1).
  cbv zeta. rewrite Heq. split; [|split; [apply (ei_counters _ _ _ _ Hinv1)|done]].
  destruct (ei_events _ _ _ _ Hinv1) as (evs & Hevs & Hall). exists evs. split; [exact Hevs|]. split; [exact Hall|].
  rewrite on_events_container. f_equal. destruct o as [m out]. cbn [ob_metrics ob_out].
  clear Hevs. revert m. induction Hall as [|e evs (from & to & event & at_ & ->) Hall IH]; intros m; [cbn; by rewrite app_nil_r|].
  cbn [foldl]. exact (IH m).
Qed.
End properties.

(** ** The service as it starts *)

Section service.
Context `{Environment} `{Zod} {F : Type} `{FileSystem F} (syntax_error : string → JsError)
  (schema_message : schema → json → string).
Context (hashKey : string → string) (zod_message : JobDefinitionInput → string).
Notation bootstrap := (bootstrap syntax_error schema_message).

Lemma bootstrap_Ok (fs : F) configPath c :
  bootstrap fs configPath = Some (Ok c) → ∃ config, c = start_services (createContainer (Some config)).
Proof.
  unfold Container.bootstrap. destruct (if truthy_opt configPath then _ else _) as [[config|e|]|]; intros [= <-].
  by exists config.
Qed.

Lemma start_services_world config :
  let c := start_services (createContainer config) in
  sv_world (buildApp c) = with_jobs (saved builtin_catalog (mkSqlJob [])) new_world
  ∧ sv_keys (buildApp c) = [] ∧ ct_handlers c = new_handler_registry
  ∧ ct_config c = default DEFAULT_CONFIG config ∧ ct_pool c = new_pool (workerConcurrency (ct_config c))
  ∧ intervals (ct_ticker c) = [0%nat].
Proof.
  unfold start_services. destruct (migrate _ _ _) as [m n].
  change (ct_world (createContainer config)) with new_world.
  rewrite (seedIfEmpty_empty new_world) by reflexivity. cbn -[saved builtin_catalog]. split_and!; reflexivity.
Qed.

Lemma started_world (fs : F) configPath c :
  bootstrap fs configPath = Some (Ok c) →
  sv_world (buildApp c) = with_jobs (saved builtin_catalog (mkSqlJob [])) new_world ∧ sv_keys (buildApp c) = [].
Proof.
  intros (config & ->)%bootstrap_Ok. destruct (start_services_world (Some config)) as (Hw & Hk & _).
  split; [exact Hw|exact Hk].
Qed.

Lemma new_app_allows c ip at_ : (rate_limit 120 (sv_buckets (buildApp c)) ip at_).1 = true.
Proof. reflexivity. Qed.

Lemma completed_end d o wf :
  d ∈ builtin_catalog → run_end d o wf → state wf ≠ Failed → state wf ≠ DeadLettered → o = Ok tt ∧ state wf = Completed.
Proof.
  intros Hd Hend Hnf Hnd. inversion Hend as [? Hst|? t0 [Hst|[Hst _]]|? ? ? Hcp]; subst; try congruence; [done|].
  by destruct Hcp; apply builtin_constraints_pass.
Qed.

(** With authentication on and no key, a request that is not for a public path is
    turned away, and changes no more than the limiter's buckets. *)
Lemma turned_away {JS WS RS} `{JobDefinitionStore JS} `{WorkflowStore WS} `{RunStore RS} handlers fuel rq (s : @server JS WS RS) :
  sv_keys s = [] → is_public (rq_url rq) = false →
  let '(answer, s') := handle hashKey zod_message handlers false fuel rq s in
  answer = Some (if (rate_limit 120 (sv_buckets s) (rq_ip rq) (rq_at rq)).1
                 then mkResponse 401 (ErrorBody "unauthorized" None)
                 else mkResponse 429 (ErrorBody "rate limit exceeded" None))
  ∧ sv_world s' = sv_world s ∧ sv_keys s' = [] ∧ sv_background s' = sv_background s.
Proof.
  intros Hk Hp. unfold Api.handle. destruct (rate_limit _ _ _ _) as [[] bs]; cbn [negb fst]; [|by cbn].
  rewrite Hp. cbn [orb sv_keys]. rewrite Hk. unfold authenticate. destruct (rq_authorization rq) as [h|]; [|done].
  by destruct (negb (starts_with h "Bearer ")).
Qed.

(** C9: The service as it starts, from any configuration it can be started from,
    with the program's own simulator, configured by it, and handlers.
    With authentication on, it answers a request that is not for a public path
    with 401, having no key: the first one, and every later one that the rate
    limiter lets through, the others with 429; none of them changes a job or a
    run, or starts an execution.  With authentication off, a first request to run
    a built-in job of which no task notifies a third party is answered 202, the
    UUIDs drawn being distinct and the input one the job's handlers accept: its
    text fields have string values, its counts are within bounds, it brings no
    records of its own, and where a task validates the customer it names one of
    acceptable risk.  The execution left behind then ends, and a request for the
    run is answered with a completed workflow. *)
Theorem started_service (fs : F) (configPath : option string) (c : Container) (dr : nat → draws) (elapsed : nat → Z)
    (fuel : nat) (Hboot : bootstrap fs configPath = Some (Ok c))
    (Hfollows : follows (simulator_config (ct_config c)) dr elapsed) (Hfuel : (8 < fuel)%nat) :
  let handle := handle hashKey zod_message (ct_handlers c) in
  (∀ rqs rq, Forall (λ rq, is_public (rq_url rq) = false) rqs → is_public (rq_url rq) = false →
     let s := foldl (λ s rq, (handle false fuel rq s).2) (buildApp c) rqs in
     (handle false fuel rq s).1
       = Some (if (rate_limit 120 (sv_buckets s) (rq_ip rq) (rq_at rq)).1
               then mkResponse 401 (ErrorBody "unauthorized" None)
               else mkResponse 429 (ErrorBody "rate limit exceeded" None))
     ∧ (rqs = [] → (handle false fuel rq s).1 = Some (mkResponse 401 (ErrorBody "unauthorized" None)))
     ∧ sv_world s = sv_world (buildApp c) ∧ sv_background s = sv_background (buildApp c))
  ∧ ∀ d ip at_ url auth trig input,
      d ∈ builtin_catalog → Forall (λ td, handler td ≠ "external.risky_notify") (tasks d) → plain_input input →
      (∀ td, td ∈ tasks d → handler td = "onboard.validate" → accepted_customer input) →
      uuids_distinct 2 (length (tasks d)) →
      ∃ run t s1 o w' wf',
        handle true fuel (mkRequest ip at_ url auth (PostRun (jd_id d) trig (Some input))) (buildApp c)
          = (Some (mkResponse 202 (RunBody run (run_workflowId run))), s1)
        ∧ sv_background s1 = [t] ∧ Threads.run t (sv_world s1) = (o, w') ∧ o = Ok tt
        ∧ (run_handler zod_message (ct_handlers c) fuel (GetRun (run_id run))
             (mkServer w' (sv_keys s1) (sv_buckets s1) (sv_background s1))).1 = Some (mkResponse 200 (WorkflowBody wf'))
        ∧ state wf' = Completed.
Proof.
  destruct (started_world fs configPath c Hboot) as [Hw Hk]. cbv zeta. split.
  - intros rqs rq Hrqs Hp. set (s := foldl _ (buildApp c) rqs).
    assert (sv_keys s = [] ∧ sv_world s = sv_world (buildApp c) ∧ sv_background s = sv_background (buildApp c)) as (Hks & Hws & Hbs).
    { unfold s. clear s. induction rqs as [|rq' rqs IH] using rev_ind; [done|]. apply Forall_app in Hrqs as [Hrqs Hlast].
      rewrite foldl_app. cbn [foldl]. destruct (IH Hrqs) as (Hk1 & Hw1 & Hb1).
      pose proof (turned_away (ct_handlers c) fuel rq' _ Hk1 (Forall_inv Hlast)) as Ht.
      destruct (handle _ _ _ _ _ rq' _) as [answer s']. destruct Ht as (_ & Hw' & Hk' & Hb'). cbn [snd].
      rewrite Hw', Hb'. done. }
    pose proof (turned_away (ct_handlers c) fuel rq s Hks Hp) as Ht.
    destruct (handle _ _ _ _ _ rq s) as [answer s']. destruct Ht as (-> & _). split_and!; [done| |done..].
    unfold s. intros ->. cbn [foldl fst]. by rewrite new_app_allows.
  - intros d ip at_ url auth trig input Hd Hext Hin Hc Hu. pose proof (builtin_seedable d Hd) as Hs.
    pose proof (new_app_allows c ip at_) as Ha. unfold Api.handle. cbn [rq_ip rq_at rq_url rq_route].
    destruct (rate_limit _ _ _ _) as [ok bs]. cbn [fst] in Ha. subst ok. cbn [negb]. rewrite orb_true_r.
    destruct (post_run_lifecycle zod_message (ct_handlers c) fuel (jd_id d) trig (Some input) d
      (mkServer (sv_world (buildApp c)) (sv_keys (buildApp c)) bs (sv_background (buildApp c))))
      as (run & t & s1 & o & wf' & w' & Ha & _ & _ & Hb & Hr & Hend & Hget & Hall); cbn [sv_world]; rewrite ?Hw.
    + exact Hu.
    + apply empty_workflow_store_ok.
    + intros r w0 Hw0. done.
    + cbn [w_jobs with_jobs]. rewrite saved_get by apply builtin_ids_NoDup.
      by rewrite find_id by (apply builtin_ids_NoDup || done).
    + apply Hs.
    + by eapply seedable_executable.
    + split; reflexivity.
    + by apply builtin_fuel.
    + cbn [sv_world] in Hall. destruct Hall as [Hnf Hnd]; [by eapply plain_tasks_succeed|].
      destruct (completed_end d o wf' Hd Hend Hnf Hnd) as [Ho Hst].
      rewrite Hw in Ha. exists run, t, s1, o, w', wf'. split; [exact Ha|]. split; [exact Hb|]. split; [exact Hr|].
      split; [exact Ho|]. split; [exact Hget|exact Hst].
Qed.

(** A failing run is told to the one channel there is, the configured email. *)
Lemma failure_notified (fs : F) configPath c runId reason at_ :
  bootstrap fs configPath = Some (Ok c) →
  omap (notified c) (forward (RunFailed runId reason at_)) = [Ok 1].
Proof.
  intros (config & ->)%bootstrap_Ok. unfold start_services. destruct (migrate _ _ _) as [m n].
  by destruct (seedIfEmpty _) as [o w].
Qed.
End service.

Section witnesses.
#[local] Instance container_environment : Environment := scripted (λ _, true).

Lemma run_notifies_nobody_witness :
  ∃ wf (w : demo_world), exec_inv "run_0" w wf w
    ∧ ∃ evs, w_events (executeRun 20 "run_0" w).2 = w_events w ++ evs
        ∧ foldl on_event (container_bus, mkObservers (w_metrics w) []) evs = (container_bus, mkObservers (w_metrics w) []).
Proof.
  destruct (demo_pending (λ _, true) demo_definition eq_refl eq_refl)
    as (_ & wf & w & _ & _ & Hp & Hl & _).
  destruct (run_notifies_nobody "run_0" wf w 20 (mkObservers (w_metrics w) []) (pr_inv _ _ _ _ Hp) Hl)
    as ((evs & Hevs & _ & Hobs) & _).
  exists wf, w. split; [exact (pr_inv _ _ _ _ Hp)|]. exists evs. split; [exact Hevs|exact Hobs].
Defined.
End witnesses.

(** ** Starting from a file *)

Section from_file.
Context `{Environment} `{ZodLaws} {F : Type} `{FileSystem F} (syntax_error : string → JsError)
  (schema_message : schema → json → string).

(** Without a path the defaults are taken.  A file that cannot be read as JSON or
    that its schema refuses ends the process with status 1; any other starts the
    service with a configuration within the schema's bounds, its pool as large as
    it says, and the cron ticker running. *)
Theorem bootstrap_from_file (fs : F) (path : string) :
  bootstrap syntax_error schema_message fs None = Some (Ok (start_services (createContainer None)))
  ∧ (truthy_string path = true →
     match read_json syntax_error fs path with
     | Ok j => json_finite j = true →
         (∃ o, bootstrap syntax_error schema_message fs (Some path) = Some o ∧ exit_status o = Some 1)
         ∨ ∃ c, bootstrap syntax_error schema_message fs (Some path) = Some (Ok c) ∧ config_valid (ct_config c)
             ∧ ct_pool c = new_pool (workerConcurrency (ct_config c)) ∧ intervals (ct_ticker c) = [0%nat]
     | Throw e => bootstrap syntax_error schema_message fs (Some path) = Some (Throw e)
     | OutOfFuel => False
     end).
Proof.
  split; [done|]. intros Hp. unfold bootstrap. change (truthy_opt (Some path)) with (truthy_string path). rewrite Hp.
  destruct (read_json syntax_error fs path) as [j|e|] eqn:Hr.
  - intros Hf. destruct (loadConfig_outcome syntax_error schema_message fs path j Hp Hr Hf) as [->|(config & -> & Hv)].
    + left. by eexists.
    + right. eexists. split; [done|]. destruct (start_services_world (Some config)) as (_ & _ & _ & Hc & Hpool & Ht).
      cbv zeta in *. rewrite Hpool, Hc, Ht. done.
  - unfold loadConfig. change (truthy_opt (Some path)) with (truthy_string path). rewrite Hp.
    change (default "" (Some path)) with path. by rewrite Hr.
  - revert Hr. unfold read_json. destruct (readFile _ _) as [e|raw]; [done|]. by destruct (json_parse raw).
Qed.
End from_file.

Section started_witness.
#[local] Instance program_simulator : Environment := simulated.

#[local] Existing Instance plain_zod.

(** No file at all. *)
Notation no_files := (λ _, None : option string).
Notation demo_bootstrap := (bootstrap (λ _, PlainError "syntax") (λ _ _, "invalid")).

Lemma started_service_witness :
  ∃ c, demo_bootstrap no_files None = Some (Ok c) ∧ ct_config c = DEFAULT_CONFIG
    ∧ ∃ run t s1 w' wf',
    handle id (λ _, "invalid") (ct_handlers c) true 9
      (mkRequest "::1" 0 "/jobs/enterprise_job_01/runs" None (PostRun "enterprise_job_01" None (Some [])))
      (buildApp c) = (Some (mkResponse 202 (RunBody run (run_workflowId run))), s1)
    ∧ sv_background s1 = [t] ∧ Threads.run t (sv_world s1) = (Ok tt, w')
    ∧ (run_handler (λ _, "invalid") (ct_handlers c) 9 (GetRun (run_id run))
         (mkServer w' (sv_keys s1) (sv_buckets s1) (sv_background s1))).1 = Some (mkResponse 200 (WorkflowBody wf'))
    ∧ state wf' = Completed.
Proof.
  exists (start_services (createContainer (Some DEFAULT_CONFIG))). split; [reflexivity|].
  destruct (start_services_world (Some DEFAULT_CONFIG)) as (_ & _ & _ & Hconfig & _). split; [exact Hconfig|].
  destruct (started_service (λ _, PlainError "syntax") (λ _ _, "invalid") id (λ _, "invalid") no_files None
    (start_services (createContainer (Some DEFAULT_CONFIG))) demo_draws (λ _, 5) 9 eq_refl) as [_ Hrun].
  - cbv zeta in Hconfig. rewrite Hconfig. exact simulated_follows.
  - lia.
  - destruct (Hrun JobEnterprise01 "::1" 0 "/jobs/enterprise_job_01/runs" None None [])
      as (run & t & s1 & o & w' & wf' & Ha & Hb & Hr & Ho & Hget & Hst).
    + apply (list_elem_of_lookup_2 _ 22). reflexivity.
    + apply (bool_decide_unpack _). vm_compute. exact I.
    + exact empty_plain.
    + intros td Htd Hh. exfalso.
      assert (Forall (λ td, handler td ≠ "onboard.validate") (tasks JobEnterprise01)) as Hn
        by (apply (bool_decide_unpack _); vm_compute; exact I).
      rewrite Forall_forall in Hn. exact (Hn td Htd Hh).
    + apply (bool_decide_unpack _). vm_compute. exact I.
    + subst o. exists run, t, s1, w', wf'. split; [exact Ha|]. split; [exact Hb|]. split; [exact Hr|].
      split; [exact Hget|exact Hst].
Defined.
End started_witness.
