(* ===== verification/Routes.v ===== *)
(** * The application's routes (api/server.ts and the route files)

    The services the application holds, a request with its endpoint and the
    tenant its key names, and a handler per endpoint; the engine's own routes are
    those of Api.v.  The web framework's router, which finds the endpoint of a
    URL, is not part of the program: a request carries its endpoint. *)

From S2P Require Import Prelude Threads JsMap JsString JsNum JsDate DomainTypes JsValue Json Domain Locks Stores Metrics Handlers Engine EngineThreads Execution Registration EngineProps Pool Batch Cron Schedule Guards JsonFiles Analytics Query Webhooks Schema Config OpenApi Governance Provisioning Api Container.
Open Scope Z_scope.

(** ** validators/webhook-validator.ts *)

Section url.
(** [new URL(url)]: its protocol and its host name, if it parses. *)
Context (parse_url : string → option (string * string)).

Definition validateUrl (url : string) : res unit :=
  match parse_url url with
  | None => Throw (ValidationError "invalid webhook url" [])
  | Some (protocol, hostname) =>
      if negb (bool_decide (protocol ∈ ["https:"; "http:"])) then Throw (ValidationError "webhook url must be http(s)" [])
      else if bool_decide (hostname = "localhost") || bool_decide (hostname = "127.0.0.1")
      then Throw (ValidationError "webhook url cannot target loopback in production configs" [])
      else Ok tt
  end.

Definition acceptable_url (url : string) : Prop :=
  ∃ protocol hostname, parse_url url = Some (protocol, hostname)
    ∧ protocol ∈ ["https:"; "http:"] ∧ hostname ∉ ["localhost"; "127.0.0.1"].

Lemma validateUrl_spec url :
  (validateUrl url = Ok tt ∧ acceptable_url url) ∨ ∃ m, validateUrl url = Throw (ValidationError m []) ∧ ¬ acceptable_url url.
Proof.
  unfold validateUrl, acceptable_url. destruct (parse_url url) as [[p h]|]; [|right; eexists; split; [done|naive_solver]].
  destruct (bool_decide (p ∈ _)) eqn:Hp; [apply bool_decide_eq_true in Hp|apply bool_decide_eq_false in Hp]; cbn.
  2: { right. eexists. split; [done|naive_solver]. }
  destruct (bool_decide (h = "localhost") || bool_decide (h = "127.0.0.1")) eqn:Hh.
  - right. eexists. split; [done|]. intros (? & ? & [= <- <-] & _ & Hn). apply Hn.
    apply orb_true_iff in Hh as [->%bool_decide_eq_true| ->%bool_decide_eq_true]; set_solver.
  - left. split; [done|]. exists p, h. split_and!; [done..|].
    apply orb_false_iff in Hh as [H1%bool_decide_eq_false H2%bool_decide_eq_false]. set_solver.
Qed.
End url.

(** ** Requests *)

Inductive Endpoint : Type :=
| EngineRoute (route : Route)
| GetSchedules
| PostSchedule (jobId cronExpression : string) (timezone : option string) (defaultInput : option jsrecord)
| PostWebhook (url : string) (events : list WebhookEvent)
| GetOpenApi
| GetMetrics
| GetDeadLetter (limit : option Z)
| GetDeliveries
| GetAudit (resourceType resourceId : option string) (limit : option Z)
| GetHandlers (tag : option string)
| GetRunAnalytics (runId : string)
| GetSeries (name since : option string)
| GetTemplates
| PostBatch (manifestPath : string)
| GetJobRuns (jobId : string) (status : option string) (page pageSize : option Z)
| PostImport (directory : string).

Record AppRequest : Type := mkAppRequest {
  ar_ip : string;
  ar_at : Z;
  ar_url : string;
  ar_authorization : option string;
  ar_endpoint : Endpoint;
}.

Inductive Content : Type :=
| EngineContent (b : Body)
| SchedulesContent (schedules : list CronSchedule)
| ScheduleContent (schedule : CronSchedule)
| EndpointContent (endpoint : WebhookEndpoint) (secretPlaintext : string)
| TextContent (text : string)
| DeadLetterContent (p : PageResult DeadLetterEntry)
| DeliveriesContent (items : list WebhookDelivery)
| AuditContent (items : list AuditRecord)
| HandlersContent (handlers : list HandlerManifestEntry)
| AnalyticsContent (summary : RunAnalyticsSummary)
| SeriesContent (points : list TimeSeriesPoint)
| TemplatesContent (templates : list (string * string * string * list TemplateParameter))
| BatchContent (progress : BatchProgress)
| RunsContent (p : PageResult JobRun)
| ImportContent (result : ImportResult).

(** A request is answered, or waits for the workers of its batch. *)
Inductive Reply : Type :=
| Answer (status : Z) (content : Content)
| Waiting_for_batch (batch : BatchState).

(** A batch's answer, when its last worker has ended. *)
Definition batch_reply (s : BatchState) : option Reply :=
  if decide (batch_done s) then Some (Answer 202 (BatchContent (b_progress s))) else None.

Definition state_of_string (s : string) : option WorkflowState :=
  List.find (λ st, bool_decide (WorkflowState_string st = s))
    [Draft; Pending; Running; Waiting; Completed; Failed; Cancelled; DeadLettered].

(** ** The application *)

Section application.
Context {JS WS RS F : Type} `{JobDefinitionStoreLaws JS} `{!WorkflowStore WS} `{!WorkflowStoreLaws WS}
  `{!RunStore RS} `{!RunStoreLaws RS} `{Environment} `{FileSystem F} `{Zod}.
Context (hashKey : string → string) (zod_message : JobDefinitionInput → string) (reg : HandlerRegistry).
(** The messages of schema errors, of [JSON.parse]'s, the URL parser, the order
    of strings, the directories, and [path.join]. *)
Context (schema_message : schema → json → string) (syntax_error : string → JsError)
  (parse_url : string → option (string * string)) (localeCompare : string → string → Z)
  (readdir : F → string → settled (list string)) (join : string → string → string).
(** The schedules' clock, the webhooks' clock, and the random identifiers. *)
Context (clock : nat → Z) (isoNow : nat → string) (uuid secret : nat → string).

Record application : Type := mkApp {
  app_server : @server JS WS RS;
  app_schedules : Scheduler;
  app_webhooks : webhook_state;
  app_registered : nat;
  app_audit : list AuditRecord;
  app_series : TimeSeriesBuffer;
  app_pool : WorkerPool;
  app_files : F;
}.

Definition with_server (x : server) (s : application) : application :=
  mkApp x (app_schedules s) (app_webhooks s) (app_registered s) (app_audit s) (app_series s) (app_pool s) (app_files s).
Definition with_schedules (x : Scheduler) (s : application) : application :=
  mkApp (app_server s) x (app_webhooks s) (app_registered s) (app_audit s) (app_series s) (app_pool s) (app_files s).
Definition with_webhooks (x : webhook_state) (n : nat) (s : application) : application :=
  mkApp (app_server s) (app_schedules s) x n (app_audit s) (app_series s) (app_pool s) (app_files s).
Definition with_series (x : TimeSeriesBuffer) (s : application) : application :=
  mkApp (app_server s) (app_schedules s) (app_webhooks s) (app_registered s) (app_audit s) x (app_pool s) (app_files s).
Definition with_world (x : world JS WS RS) (s : application) : application :=
  with_server (mkServer x (sv_keys (app_server s)) (sv_buckets (app_server s)) (sv_background (app_server s))) s.

Notation app := (eff application).

Definition on_world {A} (m : eff (world JS WS RS) A) : app A := λ s,
  let '(o, w) := m (sv_world (app_server s)) in (o, with_world w s).
Definition on_schedules {A} (m : eff Scheduler A) : app A := λ s,
  let '(o, x) := m (app_schedules s) in (o, with_schedules x s).
(** A new endpoint uses the next identifier and the next secret. *)
Definition on_webhooks {A} (m : nat → eff webhook_state A) : app A := λ s,
  let '(o, x) := m (app_registered s) (app_webhooks s) in (o, with_webhooks x (S (app_registered s)) s).
Definition on_series {A} (m : eff (world JS WS RS * TimeSeriesBuffer) A) : app A := λ s,
  let '(o, (w, b)) := m (sv_world (app_server s), app_series s) in (o, with_series b (with_world w s)).

(** The file of an import: its content, or why it could not be read. *)
Definition import_file (fs : F) (abs name : string) : option (string * (string + JobDefinitionInput)) :=
  if negb (ends_with name ".json") then Some (name, inl "")
  else match readFile fs (join abs name) with
       | Rejected e => Some (name, inl (error_to_string e))
       | Resolved text =>
           match json_parse text with
           | None => Some (name, inl (error_to_string (syntax_error text)))
           | Some raw =>
               match read_input schema_message raw with
               | Some (Ok i) => Some (name, inr i)
               | Some (Throw e) => Some (name, inl (error_to_string e))
               | _ => None
               end
           end
       end.

Definition import_from (fs : F) (directory : string) : eff (world JS WS RS) ImportResult :=
  match readdir fs (resolve directory) with
  | Rejected e => throw e
  | Resolved names =>
      match mapM (import_file fs (resolve directory)) names with
      | Some files => importDirectory zod_message reg files
      | None => lift_outcome OutOfFuel
      end
  end.

Definition import_directory (directory : string) : app ImportResult :=
  fs ← gets app_files; on_world (import_from fs directory).

Definition load_batch (manifestPath : string) : app BatchManifest :=
  fs ← gets app_files;
  tick ← on_world (gets w_ticks);
  match loadBatchManifest syntax_error schema_message 0 (nowIso tick) fs manifestPath with
  | Some (Ok manifest) => _ ← on_world now; mret manifest
  | Some o => lift_outcome o
  | None => lift_outcome OutOfFuel
  end.

(** One handler per endpoint; [tenant] is [req.tenantId]. *)
Definition endpoint_handler (tenant : string) (e : Endpoint) : app Reply :=
  match e with
  | EngineRoute _ => lift_outcome OutOfFuel
  | GetSchedules =>
      items ← on_schedules (Schedule.listByTenant tenant);
      mret (Answer 200 (SchedulesContent items))
  | PostSchedule jobId cron timezone defaultInput =>
      schedule ← on_schedules (create_schedule clock uuid (mkScheduleInput tenant jobId cron timezone defaultInput));
      mret (Answer 201 (ScheduleContent schedule))
  | PostWebhook url events =>
      _ ← lift_outcome (validateUrl parse_url url);
      endpoint ← on_webhooks (λ n, Webhooks.register isoNow (uuid n) (secret n) tenant url events);
      mret (Answer 201 (EndpointContent endpoint (we_secret endpoint)))
  | GetOpenApi => mret (Answer 200 (TextContent openApiJson))
  | GetMetrics => m ← on_world (gets w_metrics); mret (Answer 200 (TextContent (formatPrometheus m)))
  | GetDeadLetter limit =>
      entries ← on_world (gets w_dead);
      mret (Answer 200 (DeadLetterContent (admin_dead_letter (default 50 limit) entries)))
  | GetDeliveries =>
      items ← gets (λ s, delivery_list 100 (deliveries (app_webhooks s)));
      mret (Answer 200 (DeliveriesContent items))
  | GetAudit resourceType resourceId limit =>
      items ← gets (λ s, audit_query (mkAuditFilter (Some tenant) resourceType resourceId None (Some (default 50 limit))) (app_audit s));
      mret (Answer 200 (AuditContent items))
  | GetHandlers tag => mret (Answer 200 (HandlersContent (list_handlers reg tag)))
  | GetRunAnalytics runId =>
      summary ← on_series (summarizeRun runId);
      mret (Answer 200 (AnalyticsContent summary))
  | GetSeries name since =>
      if negb (truthy_opt name) then mret (Answer 200 (SeriesContent []))
      else points ← gets (λ s, timeSeries (default "" name) since (app_series s));
           mret (Answer 200 (SeriesContent points))
  | GetTemplates =>
      mret (Answer 200 (TemplatesContent ((λ t, (wt_id t, wt_name t, wt_category t, wt_parameters t)) <$> WORKFLOW_TEMPLATES)))
  | PostBatch manifestPath =>
      manifest ← load_batch manifestPath;
      pool ← gets app_pool;
      mret (Waiting_for_batch (init_batch manifest pool))
  | GetJobRuns jobId status page pageSize =>
      runs ← on_world (gets w_runs);
      let request := mkPageRequest (default 1 page) (default 20 pageSize) in
      mret (Answer 200 (RunsContent
        (if truthy_opt status
         then match state_of_string (default "" status) with
              | Some st => search localeCompare jobId (mkRunFilter (Some [st]) None None None None) request runs
              | None => paginate [] request
              end
         else search localeCompare jobId (mkRunFilter None None None None None) request runs)))
  | PostImport directory => result ← import_directory directory; mret (Answer 200 (ImportContent result))
  end.

Definition error_reply (e : JsError) : Reply := Answer (error_status e) (EngineContent (rs_body (error_response e))).

Definition reply_of (r : Response) : Reply := Answer (rs_status r) (EngineContent (rs_body r)).

(** The error handler of api/server.ts; no answer from a handler that does not end. *)
Definition finish (r : res Reply * application) : option Reply * application :=
  match r with
  | (Ok r, s) => (Some r, s)
  | (Throw e, s) => (Some (error_reply e), s)
  | (OutOfFuel, s) => (None, s)
  end.

(** The handler of a request, its error mapped. *)
Definition respond (fuel : nat) (tenant : string) (e : Endpoint) (s : application) : option Reply * application :=
  match e with
  | EngineRoute route =>
      let '(r, sv) := run_handler zod_message reg fuel route (app_server s) in (reply_of <$> r, with_server sv s)
  | _ => finish (endpoint_handler tenant e s)
  end.

(** The tenant a request acts for: none when the authentication hook refuses it. *)
Definition tenant_of (authDisabled : bool) (keys : list ApiKeyRecord) (rq : AppRequest) : option string :=
  if authDisabled then Some "tenant_dev"
  else match authenticate hashKey keys (ar_authorization rq) with Ok (tenant, _) => Some tenant | _ => None end.

(** The application after the rate limiter has counted a request. *)
Definition counted (rq : AppRequest) (s : application) : application :=
  let sv := app_server s in
  with_server (mkServer (sv_world sv) (sv_keys sv) (rate_limit 120 (sv_buckets sv) (ar_ip rq) (ar_at rq)).2 (sv_background sv)) s.

(** The hooks and the handler.  On a public path the request has no tenant, and
    the handlers of the public paths do not ask for one. *)
Definition app_handle (authDisabled : bool) (fuel : nat) (rq : AppRequest) (s : application) : option Reply * application :=
  let allowed := (rate_limit 120 (sv_buckets (app_server s)) (ar_ip rq) (ar_at rq)).1 in
  let s := counted rq s in
  if negb allowed then (Some (reply_of (mkResponse 429 (ErrorBody "rate limit exceeded" None))), s)
  else if is_public (ar_url rq) then
    match ar_endpoint rq with
    | EngineRoute GetHealth | GetMetrics | GetOpenApi => respond fuel "undefined" (ar_endpoint rq) s
    | _ => (None, s)
    end
  else match tenant_of authDisabled (sv_keys (app_server s)) rq with
       | Some tenant => respond fuel tenant (ar_endpoint rq) s
       | None => (Some (reply_of (mkResponse 401 (ErrorBody "unauthorized" None))), s)
       end.

(** Requests one after the other. *)
Definition serve (authDisabled : bool) (fuel : nat) (rqs : list AppRequest) (s : application) : application :=
  foldl (λ s rq, (app_handle authDisabled fuel rq s).2) s rqs.
End application.

(** [buildApp(container)]: the services of the container behind the routes. *)
Notation service_application F :=
  (@application (SqlJobRepository InMemoryJobStore) InMemoryWorkflowStore (SqlRunRepository InMemoryRunStore) F).

Definition build_application {F : Type} (c : Container) (fs : F) : service_application F :=
  mkApp (buildApp c) (ct_schedules c) (ct_webhooks c) 0 (ct_audit c) (ct_series c) (ct_pool c) fs.

(** ** Lemmas *)

Section properties.
Context {JS WS RS F : Type} `{JobDefinitionStoreLaws JS} `{!WorkflowStore WS} `{!WorkflowStoreLaws WS}
  `{!RunStore RS} `{!RunStoreLaws RS} `{Environment} `{FileSystem F} `{Zod}.
Context (hashKey : string → string) (zod_message : JobDefinitionInput → string) (reg : HandlerRegistry).
Context (schema_message : schema → json → string) (syntax_error : string → JsError)
  (parse_url : string → option (string * string)) (localeCompare : string → string → Z)
  (readdir : F → string → settled (list string)) (join : string → string → string).
Context (clock : nat → Z) (isoNow : nat → string) (uuid secret : nat → string).
Notation application := (@application JS WS RS F).
Notation app := (eff application).
Notation endpoint_handler := (endpoint_handler zod_message reg schema_message syntax_error parse_url localeCompare
  readdir join clock isoNow uuid secret).
Notation respond := (respond zod_message reg schema_message syntax_error parse_url localeCompare
  readdir join clock isoNow uuid secret).
Notation app_handle := (app_handle hashKey zod_message reg schema_message syntax_error parse_url localeCompare
  readdir join clock isoNow uuid secret).
Notation serve := (serve hashKey zod_message reg schema_message syntax_error parse_url localeCompare
  readdir join clock isoNow uuid secret).

(** What a tenant has: its schedules, its webhooks, its part of the audit trail. *)
Record view : Type := mkView {
  vw_schedules : list CronSchedule;
  vw_webhooks : list WebhookEndpoint;
  vw_audit : list AuditRecord;
}.
Definition view_of (t : string) (s : application) : view :=
  mkView (schedules_of_tenant t (sch_store (app_schedules s))) (Webhooks.listByTenant t (endpoints (app_webhooks s)))
    (List.filter (λ r, bool_decide (au_tenantId r = t)) (app_audit s)).

(** The services of the tenants, and the keys, are the same. *)
Record quiet (s s' : application) : Prop := {
  q_schedules : app_schedules s' = app_schedules s;
  q_webhooks : app_webhooks s' = app_webhooks s;
  q_registered : app_registered s' = app_registered s;
  q_audit : app_audit s' = app_audit s;
  q_keys : sv_keys (app_server s') = sv_keys (app_server s);
}.

#[local] Instance quiet_preorder : PreOrder quiet.
Proof. split; [done|]. intros ? ? ? [] []. split; congruence. Qed.

Definition preserves {A} (m : app A) : Prop := ∀ s, quiet s (m s).2.

Lemma preserves_ret {A} (a : A) : preserves (mret a).
Proof. done. Qed.
Lemma preserves_lift {A} (o : res A) : preserves (lift_outcome o).
Proof. done. Qed.
Lemma preserves_throw {A} e : preserves (throw (A := A) e).
Proof. done. Qed.
Lemma preserves_gets {A} (f : application → A) : preserves (gets f).
Proof. done. Qed.
Lemma preserves_bind {A B} (m : app A) (f : A → app B) : preserves m → (∀ a, preserves (f a)) → preserves (m ≫= f).
Proof.
  intros Hm Hf s. specialize (Hm s). unfold mbind, M_bind. destruct (m s) as [[a|e|] s']; [|done..].
  etrans; [exact Hm|apply Hf].
Qed.
Lemma preserves_world {A} (m : eff (world JS WS RS) A) : preserves (on_world m).
Proof. intros s. unfold on_world. by destruct (m _). Qed.
Lemma preserves_series {A} (m : eff (world JS WS RS * TimeSeriesBuffer) A) : preserves (on_series m).
Proof. intros s. unfold on_series. by destruct (m _) as [? []]. Qed.
Lemma preserves_list t : preserves (on_schedules (F := F) (Schedule.listByTenant t)).
Proof. intros s. by destruct s. Qed.
#[local] Hint Resolve preserves_ret preserves_lift preserves_throw preserves_gets preserves_bind preserves_world
  preserves_series preserves_list : preserves.

Ltac solve_preserves :=
  repeat first [solve [auto with preserves] | apply preserves_bind; [|intros ?] | case_match].

(** The endpoints that change what a tenant has. *)
Definition creates (e : Endpoint) : bool := match e with PostSchedule _ _ _ _ | PostWebhook _ _ => true | _ => false end.

Lemma endpoint_preserves t e : creates e = false → preserves (endpoint_handler t e).
Proof.
  destruct e; intros Hc; try discriminate Hc; cbn [Routes.endpoint_handler]; unfold import_directory, load_batch;
    solve_preserves.
Qed.

Lemma engine_preserves fuel route (s : application) :
  quiet s (with_server (run_handler zod_message reg fuel route (app_server s)).2 s).
Proof.
  split; try done. cbn. unfold run_handler. destruct (route_handler _ _ _ _ _) as [[[r ids]|e|] w]; [|done..].
  by destruct (start_background _ _ _).
Qed.

Lemma finish_state (r : res Reply * application) : (finish r).2 = r.2.
Proof. by destruct r as [[] ?]. Qed.

Lemma respond_preserves fuel t e (s : application) : creates e = false → quiet s (respond fuel t e s).2.
Proof.
  intros Hc. pose proof (endpoint_preserves t e Hc s) as Hq.
  destruct e as [route| | | | | | | | | | | | | | |]; unfold Routes.respond; rewrite ?finish_state; try exact Hq.
  pose proof (engine_preserves fuel route s) as Hr. by destruct (run_handler _ _ _ _ _).
Qed.

(** ** Identifiers

    The identifiers in the stores were drawn, and the next one is new. *)

Definition schedule_id (k : nat) : string := "sched_" +:+ slice_to (uuid k) 10.
Definition webhook_id (k : nat) : string := "wh_" +:+ slice_to (uuid k) 10.
Definition distinct_ids (n : nat) : Prop := NoDup ((λ k, slice_to (uuid k) 10) <$> seq 0 n).

Record drawn (s : application) : Prop := {
  d_schedules : ∀ id, id ∈ map_keys (sch_store (app_schedules s)) → ∃ k, (k < sch_uuids (app_schedules s))%nat ∧ id = schedule_id k;
  d_webhooks : ∀ id, id ∈ map_keys (endpoints (app_webhooks s)) → ∃ k, (k < app_registered s)%nat ∧ id = webhook_id k;
}.

(** How many identifiers have been drawn, of the two kinds. *)
Definition draws (s : application) : nat := sch_uuids (app_schedules s) + app_registered s.

Lemma distinct_ids_inj n i j :
  distinct_ids n → (i < n)%nat → (j < n)%nat → slice_to (uuid i) 10 = slice_to (uuid j) 10 → i = j.
Proof.
  intros Hd Hi Hj Heq. eapply (NoDup_lookup _ _ _ _ Hd);
    rewrite list_lookup_fmap, lookup_seq_lt by done; cbn; [done|by rewrite Heq].
Qed.

Lemma schedule_id_fresh s n :
  drawn s → distinct_ids n → (sch_uuids (app_schedules s) < n)%nat →
  schedule_id (sch_uuids (app_schedules s)) ∉ map_keys (sch_store (app_schedules s)).
Proof.
  intros Hd Hn Hlt Hin. destruct (d_schedules _ Hd _ Hin) as (k & Hk & Heq).
  apply (inj (String.append "sched_")) in Heq. apply (distinct_ids_inj n) in Heq; [lia|done|done|lia].
Qed.

Lemma webhook_id_fresh s n :
  drawn s → distinct_ids n → (app_registered s < n)%nat → webhook_id (app_registered s) ∉ map_keys (endpoints (app_webhooks s)).
Proof.
  intros Hd Hn Hlt Hin. destruct (d_webhooks _ Hd _ Hin) as (k & Hk & Heq).
  apply (inj (String.append "wh_")) in Heq. apply (distinct_ids_inj n) in Heq; [lia|done|done|lia].
Qed.

(** What a request of the tenant [u] may do: draw one identifier, and change
    what [u] has. *)
Record stepped (u : string) (s s' : application) : Prop := {
  st_drawn : drawn s';
  st_draws : (draws s' ≤ S (draws s))%nat;
  st_keys : sv_keys (app_server s') = sv_keys (app_server s);
  st_others : ∀ t, t ≠ u → view_of t s' = view_of t s;
}.

Lemma quiet_stepped u s s' : drawn s → quiet s s' → stepped u s s'.
Proof.
  intros [Hs Hw] []. split; [split| |done|].
  - by rewrite q_schedules0.
  - by rewrite q_webhooks0, q_registered0.
  - unfold draws. rewrite q_schedules0, q_registered0. lia.
  - intros t _. unfold view_of. by rewrite q_schedules0, q_webhooks0, q_audit0.
Qed.

Lemma filter_values_new {V} (P : V → bool) (m : jsmap string V) k v :
  k ∉ map_keys m →
  List.filter P (map_values (map_set m k v)) = List.filter P (map_values m) ++ (if P v then [v] else []).
Proof. intros Hk. unfold map_values. rewrite map_set_new by done. rewrite fmap_app, List.filter_app. cbn. by destruct (P v). Qed.

Lemma drawn_keys {V} (m : jsmap string V) (id : nat → string) k n v :
  (∀ x, x ∈ map_keys m → ∃ j, (j < k)%nat ∧ x = id j) → (k < n)%nat →
  ∀ x, x ∈ map_keys (map_set m (id k) v) → ∃ j, (j < n)%nat ∧ x = id j.
Proof.
  intros Hm Hn x. rewrite map_keys_set. case_decide; rewrite ?elem_of_app, ?list_elem_of_singleton.
  - intros (j & ? & ->)%Hm. exists j. split; [lia|done].
  - intros [(j & ? & ->)%Hm| ->]; eexists; (split; [|done]); lia.
Qed.

Lemma create_schedule_outcome input (st : Scheduler) :
  let '(r, st') := create_schedule clock uuid input st in
  (∃ x, r = Ok x ∧ sc_id x = schedule_id (sch_uuids st) ∧ sc_tenantId x = si_tenantId input ∧ sc_jobId x = si_jobId input
     ∧ cronExpression x = si_cronExpression input
     ∧ sch_store st' = schedule_save x (sch_store st) ∧ sch_uuids st' = S (sch_uuids st))
  ∨ (∀ x, r ≠ Ok x) ∧ sch_store st' = sch_store st ∧ (sch_uuids st ≤ sch_uuids st' ≤ S (sch_uuids st))%nat.
Proof.
  rewrite create_schedule_eq. cbv zeta. generalize (nextCronRun (si_cronExpression input)). intros next_run.
  destruct (next_run _) as [t0|e|]; [|right; split; [done|split; [done|cbn; lia]]..].
  destruct (next_run _) as [next|e|]; [left|right; split; [done|split; [done|cbn; lia]]..].
  eexists. split_and!; reflexivity.
Qed.

(** [POST /schedules]: one more schedule of the tenant, or an error that changes nothing. *)
Lemma post_schedule u jobId cron timezone input (s : application) n :
  drawn s → distinct_ids n → (draws s < n)%nat →
  let '(r, s') := endpoint_handler u (PostSchedule jobId cron timezone input) s in
  stepped u s s' ∧
  ((∃ x, r = Ok (Answer 201 (ScheduleContent x)) ∧ sc_jobId x = jobId ∧ cronExpression x = cron
      ∧ view_of u s' = mkView (vw_schedules (view_of u s) ++ [x]) (vw_webhooks (view_of u s)) (vw_audit (view_of u s)))
   ∨ (view_of u s' = view_of u s ∧ ∀ a, r ≠ Ok a)).
Proof.
  intros Hd Hn Hlt. cbn [Routes.endpoint_handler]. unfold mbind, M_bind, on_schedules.
  pose proof (schedule_id_fresh s n Hd Hn ltac:(unfold draws in Hlt; lia)) as Hfresh.
  pose proof (create_schedule_outcome (mkScheduleInput u jobId cron timezone input) (app_schedules s)) as Hc.
  destruct (create_schedule _ _ _ _) as [r st'].
  destruct Hc as [(x & -> & Hid & Ht & Hj & Hcr & Hst & Huu)|(Hno & Hst & Huu)]; cbn in *.
  - unfold schedule_save in Hst. rewrite Hid in Hst.
    assert (∀ t, view_of t (with_schedules st' s) = mkView (vw_schedules (view_of t s) ++ if bool_decide (t = u) then [x] else [])
      (vw_webhooks (view_of t s)) (vw_audit (view_of t s))) as Hv.
    { intros t. unfold view_of, schedules_of_tenant. cbn. rewrite Hst, filter_values_new by done. f_equal. f_equal.
      rewrite Ht. by repeat case_bool_decide; subst. }
    split.
    + split; [split|..]; cbn; [| |unfold draws; cbn; lia|done|].
      * rewrite Hst. eapply drawn_keys; [apply Hd|lia].
      * apply Hd.
      * intros t Hne. rewrite Hv, bool_decide_eq_false_2 by done. by rewrite app_nil_r.
    + left. exists x. split_and!; [done..|]. by rewrite Hv, bool_decide_eq_true_2.
  - assert (∀ t, view_of t (with_schedules st' s) = view_of t s) as Hv by (intros t; unfold view_of; cbn; by rewrite Hst).
    assert (stepped u s (with_schedules st' s)) as Hs.
    { split; [split|..]; cbn; [|apply Hd|unfold draws; cbn; lia|done|by intros].
      rewrite Hst. intros id (k & ? & ->)%(d_schedules _ Hd). exists k. split; [lia|done]. }
    destruct r as [x| |]; [by destruct (Hno x)|..]; (split; [exact Hs|right; by split]).
Qed.

(** [POST /webhooks]: an accepted URL is one more endpoint of the tenant; another
    is refused, and nothing changes. *)
Lemma post_webhook u url events (s : application) n :
  drawn s → distinct_ids n → (draws s < n)%nat →
  let '(r, s') := endpoint_handler u (PostWebhook url events) s in
  stepped u s s' ∧
  match validateUrl parse_url url with
  | Ok _ => ∃ x, r = Ok (Answer 201 (EndpointContent x (we_secret x))) ∧ we_url x = url ∧ we_events x = events
      ∧ view_of u s' = mkView (vw_schedules (view_of u s)) (vw_webhooks (view_of u s) ++ [x]) (vw_audit (view_of u s))
  | _ => s' = s ∧ ∀ a, r ≠ Ok a
  end.
Proof.
  intros Hd Hn Hlt. cbn [Routes.endpoint_handler]. unfold mbind, M_bind, lift_outcome.
  pose proof (webhook_id_fresh s n Hd Hn ltac:(unfold draws in Hlt; lia)) as Hfresh.
  destruct (validateUrl parse_url url) as [[]|e|]; [|split; [by apply quiet_stepped|done]..].
  set (x := mkEndpoint (webhook_id (app_registered s)) u url (secret (app_registered s)) events true
    (isoNow (Webhooks.ticks (app_webhooks s)))).
  assert (∀ ws t, endpoints ws = webhook_save x (endpoints (app_webhooks s)) →
    view_of t (with_webhooks ws (S (app_registered s)) s)
    = mkView (vw_schedules (view_of t s)) (vw_webhooks (view_of t s) ++ if bool_decide (t = u) then [x] else []) (vw_audit (view_of t s))) as Hv.
  { intros ws t Hws. unfold view_of, Webhooks.listByTenant. cbn. rewrite Hws. unfold webhook_save.
    rewrite filter_values_new by done. f_equal. f_equal. cbn. by repeat case_bool_decide; subst. }
  split.
  - split; [split|..]; cbn; [apply Hd| |unfold draws; cbn; lia|done|].
    + change (∀ id, id ∈ map_keys (map_set (endpoints (app_webhooks s)) (webhook_id (app_registered s)) x) →
        ∃ k, (k < S (app_registered s))%nat ∧ id = webhook_id k).
      apply (drawn_keys _ webhook_id (app_registered s)); [apply Hd|lia].
    + intros t Hne. rewrite Hv, bool_decide_eq_false_2 by done. by rewrite app_nil_r.
  - exists x. split_and!; [done..|]. by rewrite Hv, bool_decide_eq_true_2.
Qed.

Lemma respond_stepped fuel u e (s : application) n :
  drawn s → distinct_ids n → (draws s < n)%nat → stepped u s (respond fuel u e s).2.
Proof.
  intros Hd Hn Hlt. destruct (creates e) eqn:Hc; [|by apply quiet_stepped, respond_preserves].
  destruct e; try discriminate Hc; unfold Routes.respond; rewrite finish_state.
  - match goal with |- context [PostSchedule ?a ?b ?c ?d] => pose proof (post_schedule u a b c d s n Hd Hn Hlt) as Hp end.
    destruct (endpoint_handler _ _ _) as [r s']. apply Hp.
  - pose proof (post_webhook u url events s n Hd Hn Hlt) as Hp. destruct (endpoint_handler _ _ _) as [r s']. apply Hp.
Qed.

Lemma quiet_view s s' t : quiet s s' → view_of t s' = view_of t s.
Proof. intros [E1 E2 _ E3 _]. unfold view_of. by rewrite E1, E2, E3. Qed.

Lemma app_handle_stepped authDisabled fuel rq (s : application) n :
  drawn s → distinct_ids n → (draws s < n)%nat →
  ∃ u, stepped u s (app_handle authDisabled fuel rq s).2
  ∧ ∀ t, tenant_of hashKey authDisabled (sv_keys (app_server s)) rq ≠ Some t →
      view_of t (app_handle authDisabled fuel rq s).2 = view_of t s.
Proof.
  intros Hd Hn Hlt.
  assert (∀ s', quiet (counted rq s) s' → stepped "" s s' ∧ ∀ t, view_of t s' = view_of t s) as Hq.
  { intros s' Hq. split; [apply quiet_stepped; [done|by trans (counted rq s)]|]. intros t. by apply (quiet_view (counted rq s)). }
  assert (∀ t e, creates e = false → stepped "" s (respond fuel t e (counted rq s)).2
    ∧ ∀ t', view_of t' (respond fuel t e (counted rq s)).2 = view_of t' s) as Hr
    by (intros t e He; by apply Hq, respond_preserves).
  enough ((stepped "" s (app_handle authDisabled fuel rq s).2 ∧ ∀ t, view_of t (app_handle authDisabled fuel rq s).2 = view_of t s)
    ∨ ∃ u, tenant_of hashKey authDisabled (sv_keys (app_server s)) rq = Some u
           ∧ (app_handle authDisabled fuel rq s).2 = (respond fuel u (ar_endpoint rq) (counted rq s)).2) as [[Hs Hv]|(u & Hu & ->)].
  { exists "". split; [exact Hs|by intros t _]. }
  2: { unfold Routes.app_handle. destruct (negb _); [left; by apply Hq|].
    destruct (is_public _); [left|].
    - destruct (ar_endpoint rq) as [[]| | | | | | | | | | | | | | |]; first [by apply Hr|by apply Hq].
    - change (sv_keys (app_server (counted rq s))) with (sv_keys (app_server s)).
      destruct (tenant_of _ _ _ _) as [u|]; [right; by exists u|left; by apply Hq]. }
  destruct (respond_stepped fuel u (ar_endpoint rq) (counted rq s) n) as [Hs1 Hs2 Hs3 Hs4]; [by destruct Hd|done..|].
  exists u. split; [by split|]. intros t Ht. apply Hs4. congruence.
Qed.

Lemma distinct_ids_le n m : (m ≤ n)%nat → distinct_ids n → distinct_ids m.
Proof.
  intros Hle. unfold distinct_ids. replace n with (m + (n - m))%nat by lia. rewrite seq_app, fmap_app. by intros [? _]%NoDup_app.
Qed.

Lemma serve_isolated authDisabled fuel t rqs (s : application) :
  drawn s → distinct_ids (draws s + length rqs) →
  Forall (λ rq, tenant_of hashKey authDisabled (sv_keys (app_server s)) rq ≠ Some t) rqs →
  let s' := serve authDisabled fuel rqs s in
  drawn s' ∧ (draws s' ≤ draws s + length rqs)%nat ∧ view_of t s' = view_of t s.
Proof.
  intros Hd Hn Hall. revert s Hd Hn Hall. unfold Routes.serve. induction rqs as [|rq rqs IH]; intros s Hd Hn Hall;
    [split; [done|split; [cbn; lia|done]]|].
  cbn [foldl length] in *. apply Forall_cons in Hall as [Hrq Hall].
  destruct (app_handle_stepped authDisabled fuel rq s _ Hd Hn) as (u & [Hd1 Hdr Hk _] & Hv); [lia|].
  destruct (IH (app_handle authDisabled fuel rq s).2 Hd1) as (? & Hdr' & Hv').
  - eapply distinct_ids_le; [|exact Hn]. lia.
  - by rewrite Hk.
  - split; [done|]. split; [lia|]. rewrite Hv'. by apply Hv.
Qed.

Lemma slice_last_incl {A} (l : list A) limit x : x ∈ slice_last l limit → x ∈ l.
Proof.
  unfold slice_last. repeat case_decide; [|done|]; apply subseteq_drop.
Qed.

Lemma audit_of_tenant t rt rid limit records r :
  truthy_string t = true → r ∈ audit_query (mkAuditFilter (Some t) rt rid None limit) records →
  r ∈ List.filter (λ r, bool_decide (au_tenantId r = t)) records.
Proof.
  intros Ht. rewrite audit_query_passes. intros Hr%slice_last_incl%list_elem_of_In%List.filter_In.
  destruct Hr as [Hin Hp]. apply list_elem_of_In, List.filter_In. split; [done|].
  apply audit_passes_spec in Hp as [Hten _ _ _]. apply bool_decide_eq_true_2, Hten; [done|].
  intros ->. done.
Qed.

Lemma get_schedules fuel t (s : application) :
  (respond fuel t GetSchedules s).1 = Some (Answer 200 (SchedulesContent (vw_schedules (view_of t s)))).
Proof. reflexivity. Qed.

Lemma get_audit fuel t rt rid limit (s : application) :
  truthy_string t = true →
  ∃ items, (respond fuel t (GetAudit rt rid limit) s).1 = Some (Answer 200 (AuditContent items))
    ∧ ∀ r, r ∈ items → r ∈ vw_audit (view_of t s).
Proof. intros Ht. eexists. split; [reflexivity|]. intros r. by apply audit_of_tenant. Qed.

Lemma finish_schedule (p : res Reply * application) st x s' :
  finish p = (Some (Answer st (ScheduleContent x)), s') → p = (Ok (Answer st (ScheduleContent x)), s').
Proof.
  destruct p as [[r|e|] s1]; cbn; [by intros [= -> ->]| |done].
  intros Hf. apply (f_equal (λ p, match p.1 with Some (Answer _ (ScheduleContent _)) => true | _ => false end)) in Hf. discriminate Hf.
Qed.

Lemma respond_schedule fuel t jobId cron timezone input (s : application) :
  respond fuel t (PostSchedule jobId cron timezone input) s
  = finish (endpoint_handler t (PostSchedule jobId cron timezone input) s).
Proof. unfold Routes.respond. reflexivity. Qed.

(** A schedule that was created is listed, after those there were. *)
Lemma own_schedule fuel t jobId cron timezone input x (s s' : application) n :
  drawn s → distinct_ids n → (draws s < n)%nat →
  respond fuel t (PostSchedule jobId cron timezone input) s = (Some (Answer 201 (ScheduleContent x)), s') →
  (respond fuel t GetSchedules s').1 = Some (Answer 200 (SchedulesContent (vw_schedules (view_of t s) ++ [x]))).
Proof.
  rewrite respond_schedule. intros Hd Hn Hlt Hr%finish_schedule. rewrite get_schedules.
  pose proof (post_schedule t jobId cron timezone input s n Hd Hn Hlt) as Hp. rewrite Hr in Hp.
  destruct Hp as [_ [(x' & Hx & _ & _ & ->)|[_ Hno]]]; [by injection Hx as <-|by destruct (Hno (Answer 201 (ScheduleContent x)))].
Qed.

(** ** Properties *)


(** The endpoints that do not look at the tenant. *)
Definition blind (e : Endpoint) : bool :=
  match e with GetSchedules | PostSchedule _ _ _ _ | PostWebhook _ _ | GetAudit _ _ _ => false | _ => true end.

Lemma handler_blind e t t' : blind e = true → endpoint_handler t e = endpoint_handler t' e.
Proof. destruct e; intros Hb; (discriminate Hb || (cbn [Routes.endpoint_handler]; exact eq_refl)). Qed.

(** Dead letters, deliveries, jobs, runs and exports are answered the same to every tenant. *)
Theorem tenant_blind (fuel : nat) (e : Endpoint) (s : application) (t t' : string) :
  blind e = true → respond fuel t e s = respond fuel t' e s.
Proof. intros Hb. unfold Routes.respond. by rewrite (handler_blind e t t' Hb). Qed.

(** [POST /webhooks] answers 201, and stores the endpoint, exactly when the URL
    parses, is of http or https, and does not name the loopback host by one of
    two spellings; otherwise it answers 400 and stores nothing. *)
Theorem webhook_registered (fuel : nat) (t url : string) (events : list WebhookEvent) (s : application) (n : nat)
    (Hdrawn : drawn s) (Hids : distinct_ids n) (Hlt : (draws s < n)%nat) :
  let ans := respond fuel t (PostWebhook url events) s in
  (acceptable_url parse_url url ∧ ∃ x, ans.1 = Some (Answer 201 (EndpointContent x (we_secret x))) ∧ we_url x = url
     ∧ we_events x = events ∧ vw_webhooks (view_of t ans.2) = vw_webhooks (view_of t s) ++ [x])
  ∨ (¬ acceptable_url parse_url url ∧ (∃ b, ans.1 = Some (Answer 400 b)) ∧ ans.2 = s).
Proof.
  intros ans. subst ans. unfold Routes.respond.
  pose proof (post_webhook t url events s n Hdrawn Hids Hlt) as Hp.
  destruct (validateUrl_spec parse_url url) as [[Hok Ha]|(m & Hm & Ha)].
  - rewrite Hok in Hp. destruct (endpoint_handler _ _ _) as [r s1]. destruct Hp as (_ & x & -> & Hx & Hev & Hv).
    left. split; [done|]. exists x. cbn [finish fst snd]. by rewrite Hv.
  - right. split; [done|]. cbn [Routes.endpoint_handler]. unfold mbind, M_bind, lift_outcome. rewrite Hm. cbn. by split; [eexists|].
Qed.
End properties.

(** ** An instance *)

Section witnesses.
#[local] Instance routes_environment : Environment := scripted (λ _, true).

Definition demo_key (tenant raw : string) : ApiKeyRecord := mkApiKey "key" tenant (slice_to raw 8) raw [] "2026-01-01T00:00:00.000Z" None.

(** Two tenants, each with a key; one has a schedule. *)
Definition demo_application : @application InMemoryJobStore InMemoryWorkflowStore InMemoryRunStore (string → option string) :=
  mkApp (mkServer (sv_world demo_server) [demo_key "tenant_a" "aaaaaaaa-1"; demo_key "tenant_b" "bbbbbbbb-2"] [] [])
    (mkScheduler [("sched_0", mkSchedule "sched_0" "tenant_a" "job_demo" "0 * * * *" "UTC" true None None [] "2026-01-01T00:00:00.000Z")] 0 1 [])
    (mkWebhookState [] [] 0 0 0) 0
    [mkAudit "aud_1" "tenant_a" "system" "create" "job" "job_demo" [] "2026-01-01T00:00:00.000Z"] [] (new_pool 4) (λ _, None).

Definition demo_uuid (k : nat) : string := pretty k.
Definition intruder (e : Endpoint) : AppRequest := mkAppRequest "::1" 0 "/schedules" (Some "Bearer bbbbbbbb-2") e.
Definition intruder_requests : list AppRequest :=
  [intruder (PostSchedule "job_demo" "* * * * *" None None); intruder (PostWebhook "https://b.example/hook" [EvRunFailed]); intruder GetSchedules].

(** A parser of the URLs of the example. *)
Definition demo_parse_url (url : string) : option (string * string) :=
  if decide (url = "https://b.example/hook") then Some ("https:", "b.example")
  else if decide (url = "http://[::1]/hook") then Some ("http:", "[::1]") else None.

Definition demo_serve (rqs : list AppRequest) : application :=
  serve id (λ _, "invalid") new_handler_registry (λ _ _, "invalid") (λ _, PlainError "syntax") demo_parse_url
    by_code_units (λ _ _, Resolved []) String.append (λ _, 1767225600000) (λ _, "2026-01-01T00:00:00.000Z") demo_uuid demo_uuid
    false 20 rqs demo_application.


Lemma webhook_registered_witness :
  (respond (λ _, "invalid") new_handler_registry (λ _ _, "invalid") (λ _, PlainError "syntax") demo_parse_url
    by_code_units (λ _ _, Resolved []) String.append (λ _, 1767225600000) (λ _, "2026-01-01T00:00:00.000Z") demo_uuid demo_uuid
    20 "tenant_b" (PostWebhook "http://[::1]/hook" []) demo_application).2 ≠ demo_application.
Proof.
  destruct (webhook_registered (λ _, "invalid") new_handler_registry (λ _ _, "invalid") (λ _, PlainError "syntax") demo_parse_url
    by_code_units (λ _ _, Resolved []) String.append (λ _, 1767225600000) (λ _, "2026-01-01T00:00:00.000Z") demo_uuid demo_uuid
    20 "tenant_b" "http://[::1]/hook" [] demo_application 2) as [(_ & x & _ & _ & _ & Hv)|(Hn & _)].
  - split; [|intros id Hid; by apply elem_of_nil in Hid].
    intros id Hid. exists 0%nat. apply list_elem_of_singleton in Hid as ->. split; [cbn; lia|vm_compute; reflexivity].
  - apply (bool_decide_unpack _). vm_compute. exact I.
  - vm_compute. lia.
  - intros He. rewrite He in Hv. apply (f_equal length) in Hv. rewrite length_app in Hv. cbn in Hv. lia.
  - destruct Hn. exists "http:", "[::1]". split; [reflexivity|set_solver].
Defined.
End witnesses.
