(* ===== verification/Scripts.v ===== *)
(** * The command-line scripts (scripts/)

    What [npm run seed], [npm run worker] and the importer of config/jobs do: each
    is a process of its own with stores of its own, so none of them reaches the
    running service. *)

From S2P Require Import Prelude Threads JsMap JsString JsNum DomainTypes JsValue Json Schema Domain Transitions Stores Metrics Handlers Engine EngineThreads Execution Registration EngineProps Catalog JsonFiles Config Provisioning Webhooks Analytics Query Pool Batch Schedule Governance Api Container Routes.
Open Scope Z_scope.

(** ** scripts/seed-jobs.ts *)

Definition samples : list JobDefinitionInput := [
  mkInput "invoice_sync" "Invoice sync pipeline" 2 None [
      mkTaskDefinition "fetch" "Fetch" "invoice.fetch" 15000 None None;
      mkTaskDefinition "normalize" "Normalize" "invoice.normalize" 10000 None (Some ["fetch"]);
      mkTaskDefinition "post" "Post GL" "invoice.post_gl" 20000 None (Some ["normalize"])]
    (Some [mkConstraint "require_tenant" "ctx.tenantId" SeverityBlock]) None None None;
  mkInput "nightly_reconcile" "Nightly reconcile" 1 None [
      mkTaskDefinition "extract" "Extract" "reconcile.extract" 30000 None None;
      mkTaskDefinition "match" "Match" "reconcile.match" 60000 None (Some ["extract"]);
      mkTaskDefinition "notify" "Notify" "external.risky_notify" 5000 (Some true) (Some ["match"])]
    (Some []) None None None].

Section scripts.
Context {JS WS RS : Type} `{JobDefinitionStoreLaws JS} `{!WorkflowStore WS} `{!WorkflowStoreLaws WS}
  `{!RunStore RS} `{!RunStoreLaws RS} `{Environment}.
Notation world := (world JS WS RS).
Context (zod_message : JobDefinitionInput → string) (reg : HandlerRegistry).

(** The loop of [main]: the definitions registered, up to the first error. *)
Fixpoint seed_all (l : list JobDefinitionInput) : eff world (list JobDefinition) :=
  match l with
  | [] => mret []
  | s :: l => def ← Registration.register zod_message reg s; rest ← seed_all l; mret (def :: rest)
  end.

(** ** scripts/run-worker.ts *)

(** The runs that are active are executed one after the other. *)
Fixpoint execute_all (execute : string → eff world unit) (active : list JobRun) : eff world unit :=
  match active with
  | [] => mret tt
  | run :: active => _ ← execute (run_id run); execute_all execute active
  end.

Definition run_worker (execute : string → eff world unit) : eff world nat :=
  active ← gets (λ w, run_listActive (w_runs w));
  _ ← execute_all execute active;
  mret (length active).
End scripts.

(** Each script starts from new stores: those of a new container, or, in the
    worker, its own. *)
Definition seed_main `{Environment} (zod_message : JobDefinitionInput → string)
    : res (list JobDefinition) * service_world :=
  let c := createContainer None in seed_all zod_message (ct_handlers c) samples (ct_world c).
Definition worker_main `{Environment} (execute : string → eff demo_world unit) : res nat * demo_world :=
  run_worker execute demo_empty.

(** ** scripts/import-jobs.ts *)

Definition import_main `{Environment} `{Zod} {F : Type} `{FileSystem F} (zod_message : JobDefinitionInput → string)
    (schema_message : schema → json → string) (syntax_error : string → JsError)
    (readdir : F → string → settled (list string)) (join : string → string → string) (fs : F) (directory : string)
    : res ImportResult * service_world :=
  let c := createContainer None in
  import_from zod_message (ct_handlers c) schema_message syntax_error readdir join fs directory (ct_world c).

(** ** The files of the repository (config/jobs) *)

Definition task_json (id name handler : string) (timeout : Z) (rest : list (string * json)) : json :=
  JsonObj ([("id", JsonStr id); ("name", JsonStr name); ("handler", JsonStr handler); ("timeoutMs", number_of timeout)] ++ rest).
Definition after (id : string) : string * json := ("dependsOn", JsonArr [JsonStr id]).
Definition constraint_json (id expression : string) : json :=
  JsonObj [("id", JsonStr id); ("expression", JsonStr expression); ("severity", JsonStr "block")].
Definition job_json (id name : string) (version : Z) (tasks constraints : list json) (metadata : list (string * json)) : json :=
  JsonObj [("id", JsonStr id); ("name", JsonStr name); ("version", number_of version); ("tasks", JsonArr tasks);
    ("constraints", JsonArr constraints); ("metadata", JsonObj metadata)].

Definition config_jobs : list (string * json) := [
  ("customer-onboarding.json", job_json "customer_onboarding" "Customer onboarding pipeline" 1
    [task_json "validate" "KYC validation" "onboard.validate" 25000 [];
     task_json "provision" "Provision resources" "onboard.provision" 60000 [after "validate"]]
    [constraint_json "customer_id" ("ctx.customerId != null && ctx.customerId != " +:+ dquotes +:+ dquotes)]
    [("team", JsonStr "platform")]);
  ("invoice-sync.json", job_json "invoice_sync" "Invoice sync pipeline" 3
    [task_json "fetch" "Fetch ERP batch" "invoice.fetch" 30000 [];
     task_json "normalize" "Normalize lines" "invoice.normalize" 15000 [after "fetch"];
     task_json "post" "Post to GL" "invoice.post_gl" 25000 [after "normalize"]]
    [constraint_json "tenant_required" "ctx.tenantId"]
    [("team", JsonStr "finance-platform"); ("sla", JsonStr "4h")]);
  ("nightly-reconcile.json", job_json "nightly_reconcile" "Nightly ledger reconciliation" 2
    [task_json "extract" "Extract ledger" "reconcile.extract" 120000 [];
     task_json "match" "Match transactions" "reconcile.match" 180000 [after "extract"];
     task_json "notify" "Notify ops" "external.risky_notify" 8000 [after "match"; ("optional", JsonBool true)]]
    [] [("ledger", JsonStr "US_PRIMARY")]);
  ("weekly-report.json", job_json "weekly_ops_report" "Weekly operations report" 1
    [task_json "aggregate" "Aggregate metrics" "report.aggregate" 90000 [];
     task_json "publish" "Publish to BI" "report.aggregate" 45000 [after "aggregate"]]
    [] [("schedule", JsonStr "weekly")])].

(** A file system with these files in one directory, and the batch of config/batch. *)
Definition config_files : string → option string := λ p,
  if decide (p = "config/batch/finance-daily.json") then Some (of_chars (print_json 2 0 finance_daily))
  else (λ j, of_chars (print_json 2 0 j)) <$> map_get config_jobs (slice_from p (String.length "config/jobs/")).
Definition config_directory (fs : string → option string) (path : string) : settled (list string) :=
  Resolved (map_keys config_jobs).
Definition path_join (dir name : string) : string := dir +:+ "/" +:+ name.

(** ** Properties *)

(** The catalogue is all a new service knows. *)
Lemma started_without `{Environment} config id :
  job_get id (w_jobs (sv_world (buildApp (start_services (createContainer config)))))
  = List.find (λ d, bool_decide (jd_id d = id)) builtin_catalog.
Proof.
  destruct (start_services_world config) as (Hw & _). cbv zeta in Hw. rewrite Hw. cbn [w_jobs with_jobs].
  rewrite saved_get by apply builtin_ids_NoDup. by destruct (List.find _ _).
Qed.

(** Seeding registers both samples, in the seeding process.  A service that starts
    knows neither. *)
Theorem seed_reaches_no_service `{Environment} (zod_message : JobDefinitionInput → string) :
  (∃ defs w', seed_main zod_message = (Ok defs, w')
     ∧ (λ d, (jd_id d, jd_version d)) <$> defs = [("invoice_sync", 2); ("nightly_reconcile", 1)]
     ∧ (jd_id <$> job_list (w_jobs w')) = ["invoice_sync"; "nightly_reconcile"])
  ∧ ∀ config, Forall (λ i, job_get (in_id i) (w_jobs (sv_world (buildApp (start_services (createContainer config))))) = None) samples.
Proof.
  split; [eexists _, _; split; [vm_compute; reflexivity|split; reflexivity]|].
  intros config. repeat constructor; rewrite started_without; reflexivity.
Qed.

(** A worker looks for active runs in a store that has just been made: it finds none. *)
Theorem worker_does_nothing `{Environment} (execute : string → eff demo_world unit) :
  worker_main execute = (Ok 0%nat, demo_empty).
Proof. reflexivity. Qed.

(** ** The files of config/ in the application *)

Section files.
#[local] Instance files_environment : Environment := scripted (λ _, true).
#[local] Existing Instance plain_zod.

Definition files_application :=
  build_application (start_services (createContainer None)) config_files.

Definition files_respond (e : Endpoint) (s : service_application (string → option string)) :=
  respond (λ _, "invalid") new_handler_registry (λ _ _, "invalid") (λ _, PlainError "syntax") (λ _, None)
    by_code_units config_directory path_join (λ _, 1767225600000) (λ _, "2026-01-01T00:00:00.000Z") (λ _, "uuid") (λ _, "secret")
    20 "tenant_dev" e s.

(** [POST /v2/import/jobs] with config/jobs registers its four definitions, and
    [POST /v2/batch] with the batch of config/batch then starts its two items. *)
Theorem config_imported :
  let imported := files_respond (PostImport "config/jobs") files_application in
  let ids := ["customer_onboarding"; "invoice_sync"; "nightly_reconcile"; "weekly_ops_report"] in
  imported.1 = Some (Answer 200 (ImportContent (mkImportResult ids [])))
  ∧ Forall (λ i, is_Some (job_get i (w_jobs (sv_world (app_server imported.2))))) ids
  ∧ ∃ b, (files_respond (PostBatch "config/batch/finance-daily.json") imported.2).1 = Some (Waiting_for_batch b)
      ∧ (item_jobId <$> b_queue b) = ["invoice_sync"; "nightly_reconcile"] ∧ b_workers b = [Idle; Idle; Idle].
Proof.
  split; [vm_compute; reflexivity|]. split.
  - apply (bool_decide_unpack _). vm_compute. exact I.
  - eexists. split; [vm_compute; reflexivity|split; reflexivity].
Qed.

(** The script imports the same four definitions, into the stores of its own
    process: a service that starts knows none of them. *)
Theorem import_reaches_no_service :
  let imported := import_main (λ _, "invalid") (λ _ _, "invalid") (λ _, PlainError "syntax")
    config_directory path_join config_files "config/jobs" in
  let ids := ["customer_onboarding"; "invoice_sync"; "nightly_reconcile"; "weekly_ops_report"] in
  imported.1 = Ok (mkImportResult ids []) ∧ (jd_id <$> job_list (w_jobs imported.2)) = ids
  ∧ ∀ config, Forall (λ id, job_get id (w_jobs (sv_world (buildApp (start_services (createContainer config))))) = None) ids.
Proof.
  split; [vm_compute; reflexivity|]. split; [vm_compute; reflexivity|].
  intros config. repeat constructor; rewrite started_without; reflexivity.
Qed.
End files.
